(* ===== verification/_CoqProject ===== *)
-Q . S2P
Prelude.v
Hash.v
Kernel.v
Buffer.v
LoopPool.v
Net.v
KernelSim.v
Poller.v
Connection.v
Server.v
Echo.v
EchoSpec.v
EchoSafe.v
EchoProps.v
NetProps.v
Redis.v
RedisProps.v
RedisThreads.v
ThreadPool.v
ThreadPoolSpec.v
Mongo.v
Chat.v
ChatSystem.v
SmartPtr.v
Sockets.v
SocketsSim.v
Select.v
SelectProps.v
EpollChat.v
UnixEcho.v
Winsock.v
Libevent.v
LibeventServer.v
LibeventClient.v
Timer.v
CxxClients.v
Loads.v
MongoDriver.v
PingPong.v
Trials.v
