(* ===== verification/Prelude.v ===== *)
(** * TestProgram: a verification library

    The repository is a collection of C++ programs: a small network library with an
    echo server on it (ccnet), further servers and clients over sockets, libevent and
    muduo, access layers for Redis and MongoDB, a task pool, a reference-counted
    pointer, and hash functions.  This library models their own code and states what
    it does, its errors included.  Everything under src/inc is the headers of other
    libraries.

    ** How programs are modelled

    The definitions are functions in a monad [M S] over an explicit state [S]: the
    result of a routine is [Ok] with a value and the state after it, or [Fault] with
    the error that the C++ text commits there (null and dangling pointers, accesses
    out of bounds, uninitialised reads, signed overflow, wrong arguments of [printf],
    uncaught exceptions, and so on), or [Killed] when SIGPIPE ends the process.  Objects that
    are shared through pointers are on a heap, a [gmap] from names to records; a
    pointer is a name, and a name that is gone gives [UseAfterFree].  Integers are in
    [Z], with [wrap_u] and [wrap_s] where their width matters.  Threads are step
    relations, whose steps are the critical sections of the code; [star] is their
    reflexive and transitive closure.

    What is outside the repository is a class of operations, with its documented
    behaviour as a class of laws where a theorem relies on it: [Kernel]/[KernelLaws]
    (sockets and epoll), [Libc]/[LibcLaws] (the other calls of the small programs),
    [Hiredis], [Mongoc]/[MongocLaws], [Mongocxx], [Acl]/[AclLaws],
    [Libevent]/[LibeventLaws], [Timers]/[TimersLaws], and what user code installs,
    [Application].  Each has an instance, on which the theorems with hypotheses are
    applied to a concrete run.  Calls may fail: [epoll_ctl] too, of whose failures,
    which the programs do not look at, the view of the kernel keeps a record
    ([v_lost] a registration, [v_stale] a removal); [send] may take a part, fail, or
    raise SIGPIPE, which no program ignores.
    [ByteQueue] is the interface of the I/O buffer towards the connections.

    ** ccnet

    - Buffer.v: net/Buffer.cc, and the byte queue it implements.
    - Net.v: the members of Channel, EPollPoller, EventLoop, Acceptor, TcpConnection
      and TcpServer, and the [World] of the thread that runs the server's loop.  A
      [Channel*] is the name of the acceptor or connection that owns the channel; a
      [TcpConnection*] is an index in the heap; a [std::function] is the [std::bind]
      expression stored in it.
    - Poller.v: net/EPollPoller.cc and net/Channel.cc.
    - Connection.v: net/TcpConnection.cc.
    - Server.v: net/TcpAddr.cc, Socket.cc, Acceptor.cc, TcpServer.cc, EventLoop.cc.
    - Echo.v: example/EchoServer.cc and example/server.cc, with the invariant [Inv] of
      the whole server; EchoSpec.v: the abstract service that the server implements,
      sessions with queues, and what represents a state of it; EchoSafe.v: every
      callback, event and turn preserves the invariant and is steps of the service;
      EchoProps.v: what follows for [echo_main] on every kernel with the laws.
    - NetProps.v: the buffer as a queue, [readFd], event masks, reads without data.
    - LoopPool.v: net/EventLoopThread.cc as a protocol of two threads, from the start
      of the constructor, and net/EventLoopThreadPool.cc.
    - Kernel.v: the system calls and their laws; KernelSim.v: a kernel to run on.

    The calls go loop -> poller -> channel -> acceptor or connection -> user code ->
    connection -> channel -> poller; the close callback leads from the connection back
    to the server.

    [echo_main] is main.  Its pool is given four threads, and the start of a pool with
    threads formats a [std::string] with %s, so that [echo_main] commits an error before
    it serves anybody ([echo_server_safe]).  With a pool without threads it is
    [serving], which the other theorems are about, and they hold for any pool.  They are
    for [undisturbed] runs, a test on the run: in others a hang-up with urgent data has
    the server close a connection twice ([urgent_hangup_dangles]), and a descriptor
    whose removal from epoll failed may be reported when its channel is gone.  [runs]
    says what holds when a run was not stopped, and that only memory running out, the
    over-read of the printed buffer or SIGPIPE stops it.

    EchoProps.v shows of these: every run is one of the abstract service, the bytes
    sent on a descriptor are a prefix of those received, the poller's map is the set of
    the live channels and the interest list of epoll if no [epoll_ctl] failed,
    [connections_] is the set of live connections, pending output is flushed; and what
    goes wrong ([shutdown], printing the buffer, and descriptors that are never closed).
    LoopPool.v: [startLoop] returns the loop of its thread after a bounded number of
    steps of any schedule that uses no member before its construction, and the pool
    hands out its loops in turn.

    ** Databases

    - Redis.v: hiredis_test's redis_pool.cpp ([RedisConn], [RedisPool]),
      redis_client.cpp and redis_manage.cpp; RedisProps.v: the reply readers, and how
      many connections each operation leaves in the pool.
    - RedisThreads.v: the program of hiredis_test, 150 threads on that pool; its
      connections are used by one thread at a time in every interleaving.
    - Mongo.v: mong-c-test's dbio_mongodb.cpp; ThreadPool.v: its inc/ThreadPool.h;
      ThreadPoolSpec.v: the executor that it implements, and the end of its destructor.
    - CxxClients.v: [MongoCxx] is mongo-cxx-test's dbio_mongodb.cpp, [AclRedis] is
      acl-redis-test's redis_conn.cpp and redis_manage.cpp.
    - Loads.v: the mains of these three programs; MongoDriver.v: mongo_driver.h, with
      the counters that its threads share as loads and stores.

    For these: the reply readers flatten a reply of any nesting; a command takes the
    front connection and gives it back at the end, no connection is used by two threads,
    and a thread that finds none finds one in its next turn or all 101 are in use.  A
    record that is written is read back, a selection collects what the cursor has, and
    clients return to their pool but for [find_coll].  What the threads of a load have
    stored is read back as the records of their turns, with no client left out of the
    pool.  The task pool is an executor that starts tasks in order and sets each future
    once, loses no notification, and whose destructor returns in every schedule.

    ** Servers and clients

    - Sockets.v: what the small socket programs share; SocketsSim.v: a system to run
      them on.
    - Select.v, SelectProps.v: linux_tcp/select.cc.  EpollChat.v: linux_tcp/epoll.cc.
    - UnixEcho.v: unix_tcp/server, unix_tcp/client and linux_tcp/client.cc.
    - PingPong.v: linux_tcp/client.cc against the echo server of ccnet, on the same
      port: the two programs and a network between them.
    - Winsock.v: catfly/server and catfly/client.
    - Libevent.v, LibeventServer.v, LibeventClient.v: libevent_test/server and
      libevent_test/client.  Timer.v: libevent_test/timer.
    - Chat.v: muduo/chat_server.cc and chat_client.cc, with the framing of messages;
      ChatSystem.v: their mains, and a server with any number of clients.

    For these: the select server and the epoll chat keep distinct open clients as long
    as they go on, and how each is stopped is named: the select server sends every
    client its own messages with the lines of the console between, the chat room
    answers everyone or dies at a send that fails; the local server answers its first
    client to the end; the client of linux_tcp and the echo server, over a network that
    cuts and delays, are never more than one line apart; the callbacks of libevent use
    no bufferevent that is freed, and go wrong only on long input, or in printing its
    size; the timer wakes up for ever, two seconds apart by the time of its base, unless
    libevent refuses its event.  Frames are decoded unchanged however the stream is cut,
    and in the system of the chat every client logs the lines that all have typed while
    they were connected.

    ** The rest

    - Hash.v: hash_psd/hash_psd.cc.  SmartPtr.v: catfly/SmartPointer.
    - Trials.v: test, linux_tcp/fileio.cpp and testasm.cc, listen_test/main.cpp.
    - Prelude.v (this file): integers, bytes, the monad with its rules ([runs], [safe],
      [ends]), [star], and lemmas on lists that the files share.

    The unrolled FNV loop is FNV-1 on 32 bits for 7-bit characters, without assignment
    the counters of the pointers are exact up to the largest [int], and [writefile]
    appends an entry of two words that [readfile] reads when it is the first.

    ** Loops and fuel

    A loop that the code ends has fuel, and a theorem that some fuel is enough: one
    turn more than the room left in the buffer for [readFd] ([readFd_delivers]),
    one turn more than the length of the buffer for the decoder of the chat, than the
    queue for [ReleaseRedisConn], than the words for [findAndReplacePattern].  The
    loops over a cursor and the echo of unix_tcp have the fuel that their theorems
    relate to the number of documents, or of pieces received.  [GetRedisConn] and
    testPool have loops that need not end: what is shown is that no fuel is enough.
    The loops of mains that only a signal ends are run for a number of turns, and
    what is stated holds for every number.  Step relations have no fuel: that the
    destructor of the task pool ends is shown with a measure ([work]).

    ** Not modelled

    - Messages that are printed, but for the lines of the chat, the wakeups of the
      timer, and the reads past a buffer and the wrong arguments in printing; the times
      of sleeps; thread names.
    - Flowing off the end of a function with a result ([Buffer::append], and functions
      of epoll.cc and of the libevent programs), which C++ leaves undefined: the
      functions are taken to return, with a value that is not known where it is used.
      The misaligned read of a length in the chat.
    - Edge triggering, event bases, WSAStartup; documents and replies that are not freed.
    - catfly/epoll, whose file is empty.
    - src/inc: the headers of acl, libevent and hiredis, third-party declarations and
      inline code, apart from the macro [evtimer_set]; what the programs call of them is
      a parameter. *)

From stdpp Require Export prelude gmap strings list fin_maps pretty.
From Stdlib Require Export ZArith Lia.
From Stdlib.Strings Require Byte.
From Stdlib.Strings Require Export Ascii.

#[global] Open Scope Z_scope.

(** ** Machine integers

    A C++ integer of width [w] is a [Z]; [wrap_u] and [wrap_s] are the
    conversions to the unsigned and the two's complement signed type. *)

Definition wrap_u (w z : Z) : Z := z mod 2 ^ w.

Definition wrap_s (w z : Z) : Z := (z + 2 ^ (w - 1)) mod 2 ^ w - 2 ^ (w - 1).

Abbreviation u32 := (wrap_u 32).
Abbreviation u64 := (wrap_u 64).
Abbreviation i32 := (wrap_s 32).
Abbreviation i64 := (wrap_s 64).

(** ** Bytes

    [char] data that is only moved around is a [Byte.byte]; [byte_Z] reads it
    as an [unsigned char], [schar] as a (signed) [char]. *)

Abbreviation byte := Byte.byte.

Definition byte_Z (b : byte) : Z := Z.of_N (Byte.to_N b).

Definition Z_byte (z : Z) : byte := default Byte.x00 (Byte.of_N (Z.to_N (z mod 256))).

Definition schar (b : byte) : Z := wrap_s 8 (byte_Z b).

#[export] Instance byte_eq_dec : EqDecision byte := Byte.byte_eq_dec.

(** What the memory of [s] is as a C string: the characters before the first zero. *)

Fixpoint cstr (s : string) : string :=
  match s with
  | EmptyString => EmptyString
  | String c s' => if Ascii.eqb c Ascii.zero then EmptyString else String c (cstr s')
  end.

(** [blit off data mem]: the bytes of [data] stored at offset [off] of [mem]. *)

Definition blit {A} (off : nat) (data mem : list A) : list A :=
  take off mem ++ data ++ drop (off + length data) mem.

(** ** Computations that can go wrong

    A C++ routine over a state [S] is a function to a final state, or to the
    kind of run-time error it commits: the undefined behaviour or the uncaught
    exception that the C++ text has at that point. *)

Inductive fault : Type :=
| NullDeref
| UseAfterFree
| BadFree
| OutOfBounds
| DivByZero
| IntOverflow
| UninitRead
| BadFunctionCall
| UncaughtException
| OutOfMemory
| StringOverread
| BadFormat
| Killed            (* not an error of the text: SIGPIPE has ended the process *)
| OutOfFuel.

Inductive outcome (S A : Type) : Type :=
| Ok (a : A) (s : S)
| Fault (e : fault).
Arguments Ok {S A} a s.
Arguments Fault {S A} e.

Definition M (S A : Type) : Type := S → outcome S A.

#[export] Instance M_ret (S : Type) : MRet (M S) := λ A a s, Ok a s.

#[export] Instance M_bind (S : Type) : MBind (M S) := λ A B f m s,
  match m s with
  | Ok a s' => f a s'
  | Fault e => Fault e
  end.

Definition get {S} : M S S := λ s, Ok s s.
Definition modify {S} (f : S → S) : M S unit := λ s, Ok tt (f s).
Definition throw {S A} (e : fault) : M S A := λ _, Fault e.

Definition when {S} (b : bool) (m : M S unit) : M S unit :=
  if b then m else mret tt.

(** [iterM f xs]: [for (auto &x : xs) f(x);] *)

Fixpoint iterM {S A} (f : A → M S unit) (xs : list A) : M S unit :=
  match xs with
  | [] => mret tt
  | x :: xs' => f x ;; iterM f xs'
  end.

(** [repeatM n m]: [n] turns of a loop whose body is [m]. *)

Fixpoint repeatM {S} (n : nat) (m : M S unit) : M S unit :=
  match n with
  | O => mret tt
  | S n' => m ;; repeatM n' m
  end.

(** How a run may stop early: memory runs out; [StringOverread], the reading past
    the end of an array of a string that is printed without being terminated, which
    has its own theorems; or SIGPIPE. *)

Definition tolerated (e : fault) : Prop := e = OutOfMemory ∨ e = StringOverread ∨ e = Killed.

(** [runs m s Q]: from [s], [m] commits no other error, and ends in a result and
    state satisfying [Q] unless it stops with one of these. *)

Definition runs {S A} (m : M S A) (s : S) (Q : A → S → Prop) : Prop :=
  match m s with
  | Ok a s' => Q a s'
  | Fault e => tolerated e
  end.

(** [safe P m Q]: so it does from every state satisfying [P]. *)

Definition safe {S A} (P : S → Prop) (m : M S A) (Q : A → S → Prop) : Prop :=
  ∀ s, P s → runs m s Q.

(** [ends m s Q]: [m] commits no error at all, and ends in a result and a state
    satisfying [Q], unless SIGPIPE ends the process before. *)

Definition ends {S A} (m : M S A) (s : S) (Q : A → S → Prop) : Prop :=
  match m s with
  | Ok a s' => Q a s'
  | Fault e => e = Killed
  end.

(** ** Step relations *)

Inductive star {S} (R : S → S → Prop) : S → S → Prop :=
| star_refl s : star R s s
| star_step s1 s2 s3 : R s1 s2 → star R s2 s3 → star R s1 s3.

(** ** Tactics *)

(** Case analysis on the tests of a boolean or option match in a hypothesis. *)
Ltac split_match H :=
  repeat match type of H with
  | context [ match ?x with _ => _ end ] =>
      let E := fresh "E" in destruct x eqn:E; simplify_eq/=
  end.

Ltac inv_clear H := inversion H; subst; clear H.

(** ** Lemmas on integers *)

Create HintDb cxx discriminated.

Lemma pow2_split w : 0 < w → 2 ^ w = 2 * 2 ^ (w - 1).
Proof. intros. rewrite <- Z.pow_succ_r by lia. f_equal; lia. Qed.

Lemma wrap_u_range w z : 0 <= w → 0 <= wrap_u w z < 2 ^ w.
Proof. intros. apply Z.mod_pos_bound. lia. Qed.

Lemma wrap_u_small w z : 0 <= z < 2 ^ w → wrap_u w z = z.
Proof. apply Z.mod_small. Qed.

Lemma wrap_u_wrap_u w z : wrap_u w (wrap_u w z) = wrap_u w z.
Proof. unfold wrap_u. apply Zmod_mod. Qed.

Lemma wrap_s_small w z : 0 < w → - 2 ^ (w - 1) <= z < 2 ^ (w - 1) → wrap_s w z = z.
Proof.
  intros Hw H. unfold wrap_s. rewrite (pow2_split w) by lia.
  rewrite Z.mod_small; lia.
Qed.

Lemma wrap_s_range w z : 0 < w → - 2 ^ (w - 1) <= wrap_s w z < 2 ^ (w - 1).
Proof.
  intros Hw. unfold wrap_s.
  pose proof (Z.mod_pos_bound (z + 2 ^ (w - 1)) (2 ^ w)).
  rewrite (pow2_split w) in * by lia. lia.
Qed.

Lemma wrap_s_wrap_u w z : 0 < w → wrap_s w (wrap_u w z) = wrap_s w z.
Proof.
  intros. unfold wrap_s, wrap_u. rewrite Zplus_mod_idemp_l. done.
Qed.

Lemma wrap_u_wrap_s w z : 0 < w → wrap_u w (wrap_s w z) = wrap_u w z.
Proof.
  intros. unfold wrap_s, wrap_u.
  rewrite Zminus_mod_idemp_l. f_equal. lia.
Qed.

(** ** Lemmas on bytes *)

Lemma byte_Z_range b : 0 <= byte_Z b < 256.
Proof.
  unfold byte_Z. pose proof (Byte.to_N_bounded b). lia.
Qed.

Lemma byte_Z_Z_byte z : byte_Z (Z_byte z) = z mod 256.
Proof.
  unfold Z_byte. pose proof (Z.mod_pos_bound z 256).
  destruct (Byte.of_N (Z.to_N (z mod 256))) as [b|] eqn:E; simpl.
  - apply Byte.to_of_N in E. unfold byte_Z. lia.
  - apply Byte.of_N_None_iff in E. lia.
Qed.

Lemma Z_byte_byte_Z b : Z_byte (byte_Z b) = b.
Proof.
  unfold Z_byte. rewrite Z.mod_small by apply byte_Z_range.
  unfold byte_Z. rewrite N2Z.id, Byte.of_to_N. done.
Qed.

Lemma schar_ascii b : byte_Z b < 128 → schar b = byte_Z b.
Proof.
  intros. unfold schar. pose proof (byte_Z_range b).
  apply wrap_s_small; simpl; lia.
Qed.

(** ** Lemmas on byte arrays *)

Section Blit.
Context {A : Type}.
Implicit Types (data mem : list A) (off n : nat).
#[local] Open Scope nat_scope.

Lemma length_blit off data mem :
  off + length data ≤ length mem → length (blit off data mem) = length mem.
Proof.
  intros. unfold blit. rewrite !length_app, length_take, length_drop. lia.
Qed.

Lemma take_blit off data mem n :
  n ≤ off → off ≤ length mem → take n (blit off data mem) = take n mem.
Proof.
  intros. unfold blit. rewrite take_app_le by (rewrite length_take; lia).
  rewrite take_take. f_equal. lia.
Qed.

(** The bytes between [n] and the end of the stored data. *)
Lemma slice_blit off data mem n :
  n ≤ off → off ≤ length mem →
  take (off + length data - n) (drop n (blit off data mem))
  = take (off - n) (drop n mem) ++ data.
Proof.
  intros. unfold blit.
  rewrite drop_app_le by (rewrite length_take; lia).
  rewrite skipn_firstn_comm.
  rewrite (app_assoc (take _ _)).
  rewrite take_app_le by (rewrite length_app, length_take, length_drop; lia).
  rewrite take_ge by (rewrite length_app, length_take, length_drop; lia).
  done.
Qed.
End Blit.

(** ** Lemmas on lists *)

(** What the elements of a list have, of one of them and of the others, before and
    after it is changed. *)
Lemma flat_map_at {A B} (f : A → list B) (l : list A) i x y :
  l !! i = Some x →
  flat_map f l ≡ₚ f x ++ flat_map f (delete i l)
  ∧ flat_map f (<[i := y]> l) ≡ₚ f y ++ flat_map f (delete i l).
Proof.
  intros Hi. split.
  - by rewrite (delete_Permutation l i x Hi) at 1.
  - assert (i < length l)%nat by (by eapply lookup_lt_Some).
    rewrite (delete_Permutation (<[i := y]> l) i y) by (by apply list_lookup_insert_eq).
    cbn [flat_map]. f_equiv.
    by rewrite !delete_take_drop, take_insert_ge, drop_insert_lt by lia.
Qed.

(** ** Lemmas on computations *)

Section Computations.
Context {S : Type}.
Implicit Types (P : S → Prop).

Lemma bind_Ok {A B} (m : M S A) (f : A → M S B) s b s2 :
  (m ≫= f) s = Ok b s2 → ∃ a s1, m s = Ok a s1 ∧ f a s1 = Ok b s2.
Proof.
  unfold mbind, M_bind. destruct (m s) as [a s1|e]; [eauto|done].
Qed.

Lemma bind_run {A B} (m : M S A) (f : A → M S B) s a s1 :
  m s = Ok a s1 → (m ≫= f) s = f a s1.
Proof. unfold mbind, M_bind. by intros ->. Qed.

Lemma get_bind {B} (f : S → M S B) s : (get ≫= f) s = f s s.
Proof. done. Qed.

Lemma modify_bind {B} g (f : unit → M S B) s : (modify g ≫= f) s = f tt (g s).
Proof. done. Qed.

Lemma ret_bind {A B} (a : A) (f : A → M S B) s : (mret a ≫= f) s = f a s.
Proof. done. Qed.

Lemma runs_Ok {A} (m : M S A) s a s' (Q : A → S → Prop) :
  m s = Ok a s' → Q a s' → runs m s Q.
Proof. unfold runs. by intros ->. Qed.

Lemma runs_bind {A B} (m : M S A) (f : A → M S B) s (Q : B → S → Prop) :
  runs m s (λ a s', runs (f a) s' Q) → runs (m ≫= f) s Q.
Proof. unfold runs, mbind, M_bind. by destruct (m s). Qed.

Lemma runs_bind_Ok {A B} (m : M S A) (f : A → M S B) s a s' (Q : B → S → Prop) :
  m s = Ok a s' → runs (f a) s' Q → runs (m ≫= f) s Q.
Proof. unfold runs, mbind, M_bind. by intros ->. Qed.

Lemma runs_conseq {A} (m : M S A) s (Q Q' : A → S → Prop) :
  runs m s Q' → (∀ a s', Q' a s' → Q a s') → runs m s Q.
Proof. unfold runs. destruct (m s); eauto. Qed.

Lemma runs_when (b : bool) (m : M S unit) s (Q : unit → S → Prop) :
  (b = true → runs m s Q) → (b = false → Q tt s) → runs (when b m) s Q.
Proof. destruct b; intros Ht Hf; [by apply Ht|by apply Hf]. Qed.

Lemma safe_bind {A B} P (m : M S A) (f : A → M S B) Q R :
  safe P m Q → (∀ a, safe (Q a) (f a) R) → safe P (m ≫= f) R.
Proof.
  intros Hm Hf s HP. apply runs_bind. eapply runs_conseq; [by apply Hm|].
  intros a s'. apply Hf.
Qed.

Lemma safe_conseq {A} P P' (m : M S A) (Q Q' : A → S → Prop) :
  safe P' m Q' → (∀ s, P s → P' s) → (∀ a s, Q' a s → Q a s) → safe P m Q.
Proof. intros Hm HP HQ s Hs. eapply runs_conseq; [apply Hm|]; auto. Qed.

Lemma safe_modify P f : safe P (modify f) (λ _ s, ∃ s0, P s0 ∧ s = f s0).
Proof. intros s HP. unfold runs; simpl. eauto. Qed.

Lemma safe_repeatM P n (m : M S unit) :
  safe P m (λ _, P) → safe P (repeatM n m) (λ _, P).
Proof.
  intros Hm. induction n as [|n IH]; simpl; [by intros s HP|].
  eapply safe_bind; [exact Hm|]. intros []. exact IH.
Qed.
End Computations.

(** The rules of [ends]. *)
Section Ends.
Context {S : Type}.

Lemma ends_bind {A B} (m : M S A) (f : A → M S B) s (Q : B → S → Prop) :
  ends m s (λ a s', ends (f a) s' Q) → ends (m ≫= f) s Q.
Proof. unfold ends, mbind, M_bind. by destruct (m s). Qed.

Lemma ends_ret {A} (a : A) s (Q : A → S → Prop) : Q a s → ends (mret a) s Q.
Proof. done. Qed.

Lemma ends_Ok {A} (m : M S A) s a s' (Q : A → S → Prop) : m s = Ok a s' → Q a s' → ends m s Q.
Proof. unfold ends. by intros ->. Qed.

Lemma ends_modify f s (Q : unit → S → Prop) : Q tt (f s) → ends (modify f) s Q.
Proof. done. Qed.

Lemma ends_get s (Q : S → S → Prop) : Q s s → ends get s Q.
Proof. done. Qed.

Lemma ends_conseq {A} (m : M S A) s (Q Q' : A → S → Prop) :
  ends m s Q' → (∀ a s', Q' a s' → Q a s') → ends m s Q.
Proof. unfold ends. destruct (m s); eauto. Qed.

Lemma ends_when (b : bool) (m : M S unit) s (Q : unit → S → Prop) :
  (b = true → ends m s Q) → (b = false → Q tt s) → ends (when b m) s Q.
Proof. destruct b; intros Ht Hf; [by apply Ht|apply ends_ret; auto]. Qed.

(** A loop over a list, with an invariant. *)
Lemma ends_iterM {A} (f : A → M S unit) (I : S → Prop) xs s :
  (∀ x s, x ∈ xs → I s → ends (f x) s (λ _, I)) → I s → ends (iterM f xs) s (λ _, I).
Proof.
  revert s. induction xs as [|x xs IH]; simpl; intros s Hf HI; [by apply ends_ret|].
  apply ends_bind. eapply ends_conseq; [apply Hf; [by left|done]|].
  intros [] s' HI'. apply IH; [|done]. intros y s'' Hy. apply Hf. by right.
Qed.
End Ends.

(** [runs_step H]: in a goal [runs (m ≫= f) s Q], run [m] by the equation [H]. *)
Tactic Notation "runs_step" uconstr(H) := eapply runs_bind_Ok; [eapply H; eauto|].

(** A loop over a list, with an invariant indexed by the elements left. *)
Lemma safe_iterM {S A} (f : A → M S unit) (I : list A → S → Prop) xs :
  (∀ x xs', safe (I (x :: xs')) (f x) (λ _, I xs')) →
  safe (I xs) (iterM f xs) (λ _, I []).
Proof.
  intros Hf. induction xs as [|x xs IH]; simpl; [by intros s HP|].
  eapply safe_bind; [apply Hf|]. intros []. exact IH.
Qed.

(** ** Lemmas on step relations *)

Lemma star_one {S} (R : S → S → Prop) s1 s2 : R s1 s2 → star R s1 s2.
Proof. eauto using star. Qed.

Lemma star_trans {S} (R : S → S → Prop) s1 s2 s3 :
  star R s1 s2 → star R s2 s3 → star R s1 s3.
Proof. induction 1; eauto using star. Qed.

Lemma star_invariant {S} (R : S → S → Prop) (I : S → Prop) :
  (∀ s s', I s → R s s' → I s') → ∀ s s', star R s s' → I s → I s'.
Proof. intros Hstep s s'. induction 1; eauto. Qed.

(** ** Lemmas on strings *)

Lemma cstr_cstr s : cstr (cstr s) = cstr s.
Proof.
  induction s as [|c s IH]; simpl; [done|]. destruct (Ascii.eqb c Ascii.zero) eqn:E; [done|].
  simpl. by rewrite E, IH.
Qed.

(** ** Lemmas on lists *)

Lemma prefix_drop_app {A} (l1 l2 : list A) (n : nat) :
  (n ≤ length l1)%nat → drop n (l1 ++ l2) = drop n l1 ++ l2.
Proof. intros. by rewrite drop_app_le. Qed.

#[export] Hint Resolve wrap_u_range wrap_s_range byte_Z_range : cxx.
Create Rewrite HintDb cxx_len.
#[export] Hint Rewrite @length_app @length_take @length_drop @length_resize : cxx_len.

(** ** The C library *)

(** [atoi]: leading spaces, a sign and digits; a value that is no [int] is undefined. *)
Fixpoint digits (acc : Z) (s : string) : Z :=
  match s with
  | String c s' =>
      let n := Z.of_nat (nat_of_ascii c) in
      if (48 <=? n) && (n <=? 57) then digits (10 * acc + (n - 48)) s' else acc
  | EmptyString => acc
  end.

Fixpoint atoi_value (s : string) : Z :=
  match s with
  | String c s' =>
      let n := Z.of_nat (nat_of_ascii c) in
      if (n =? 32) || ((9 <=? n) && (n <=? 13)) then atoi_value s'
      else if n =? 45 then - digits 0 s'
      else if n =? 43 then digits 0 s'
      else digits 0 s
  | EmptyString => 0
  end.

(** [atoi] of a pointer that may be null. *)
Definition atoi {S} (p : option string) : M S Z :=
  match p with
  | None => throw NullDeref
  | Some s =>
      let v := atoi_value s in
      if (- 2 ^ 31 <=? v) && (v <? 2 ^ 31) then mret v else throw IntOverflow
  end.

Lemma atoi_run {S B} s (g : Z → M S B) (k : S) :
  - 2 ^ 31 <= atoi_value s < 2 ^ 31 → (atoi (Some s) ≫= g) k = g (atoi_value s) k.
Proof.
  intros Hr. unfold atoi, mbind, M_bind.
  by rewrite (proj2 (Z.leb_le _ _)), (proj2 (Z.ltb_lt _ _)) by lia.
Qed.
