(* ===== verification/Hash.v ===== *)
(** * String hashes (hash_psd/hash_psd.cc)

    [hashpjw], [hash1], [fnv_hash], [toHex] and main.  An [unsigned long] is a [Z]
    reduced modulo [2^64], an [unsigned int] one reduced modulo [2^32]; [char]
    is signed.  A string argument is the memory it points to, as a list of
    bytes; reading past that memory gives [None].  The [printf] of the last line
    of [hashpjw] has no effect on the value and is left out.
    [fnv_hash] is FNV-1 on 7-bit characters; what it does with other bytes is
    [fnv_hash_sign_extends]. *)

From Stdlib.Strings Require Import Ascii.
From S2P Require Import Prelude.

(** ** hashpjw *)

Definition hashpjw_step (h : Z) (c : byte) : Z :=
  let h := u64 (u64 (Z.shiftl h 4) + u64 (schar c)) in
  let g := Z.land h 0xF0000000 in
  if g =? 0 then h
  else
    let h := Z.lxor h (Z.shiftr g 24) in
    Z.lxor h g.

Fixpoint hashpjw_loop (h : Z) (arKey : list byte) (nKeyLength : nat) : option Z :=
  match nKeyLength with
  | O => Some h
  | S n =>
      match arKey with
      | [] => None
      | c :: arKey' => hashpjw_loop (hashpjw_step h c) arKey' n
      end
  end.

Definition hashpjw (arKey : list byte) (nKeyLength : nat) : option Z :=
  hashpjw_loop 0 arKey nKeyLength.

(** ** hash1 *)

Fixpoint hash1_loop (h : Z) (p : list byte) {struct p} : option Z :=
  match p with
  | [] => None
  | c :: p' =>
      if byte_Z c =? 0 then Some h
      else hash1_loop (u32 (u32 (31 * h) + byte_Z c)) p'
  end.

Definition hash1 (str : list byte) : option Z := hash1_loop 0 str.

(** ** fnv_hash *)

Definition offset_basis : Z := 2166136261.

(** The two statements of the macro [FNV_OP()]. *)
Definition FNV_OP (hash : Z) (c : byte) : Z :=
  let hash := u64 (hash + u64 (u64 (Z.shiftl hash 1) + u64 (Z.shiftl hash 4)
                    + u64 (Z.shiftl hash 7) + u64 (Z.shiftl hash 8)
                    + u64 (Z.shiftl hash 24))) in
  Z.lxor hash (u64 (schar c)).

(** The eight unrolled steps of a turn of the first loop. *)
Definition fnv_turn (hash : Z) (c1 c2 c3 c4 c5 c6 c7 c8 : byte) : Z :=
  let hash := FNV_OP hash c1 in
  let hash := FNV_OP hash c2 in
  let hash := FNV_OP hash c3 in
  let hash := FNV_OP hash c4 in
  let hash := FNV_OP hash c5 in
  let hash := FNV_OP hash c6 in
  let hash := FNV_OP hash c7 in
  FNV_OP hash c8.

(** [for (; len >= 8; len -= 8)] *)
Fixpoint fnv_blocks (hash : Z) (str : list byte) (len : Z) {struct str} : option (Z * list byte * Z) :=
  if Z.ltb len 8 then Some (hash, str, len)
  else
    match str with
    | c1 :: c2 :: c3 :: c4 :: c5 :: c6 :: c7 :: c8 :: str' =>
        fnv_blocks (fnv_turn hash c1 c2 c3 c4 c5 c6 c7 c8) str' (len - 8)
    | _ => None
    end.

(** [case n: FNV_OP();] falling through to [case n-1]. *)
Fixpoint fnv_case (n : nat) (hash : Z) (str : list byte) : option Z :=
  match n with
  | O => Some hash
  | S n' =>
      match str with
      | [] => None
      | c :: str' => fnv_case n' (FNV_OP hash c) str'
      end
  end.

Definition fnv_hash (str : list byte) (len : Z) : option Z :=
  match fnv_blocks offset_basis str len with
  | Some (hash, str', len') =>
      let hash :=
        if bool_decide (1 <= len' <= 7) then fnv_case (Z.to_nat len') hash str'
        else Some hash in
      match hash with
      | Some h => Some (u32 h)
      | None => None
      end
  | None => None
  end.

(** ** toHex *)

Definition HEX : list Ascii.ascii :=
  ["0"; "1"; "2"; "3"; "4"; "5"; "6"; "7"; "8"; "9"; "a"; "b"; "c"; "d"; "e"; "f"]%char.

(** [while (num && count++ < 8)]; [left] is [8 - count]. *)
Fixpoint toHex_loop (left : nat) (num : Z) (result : list Ascii.ascii) : list Ascii.ascii :=
  match left with
  | O => result
  | S left' =>
      if num =? 0 then result
      else toHex_loop left' (Z.shiftr num 4)
             (nth (Z.to_nat (Z.land num 0xf)) HEX "0"%char :: result)
  end.

Definition toHex (num : Z) : list Ascii.ascii :=
  if num =? 0 then ["0"%char] else toHex_loop 8 num [].

(** ** main *)

(** <cstring>'s [strlen]. *)
Fixpoint strlen (p : list byte) : option nat :=
  match p with
  | [] => None
  | c :: p' => if byte_Z c =? 0 then Some O else S <$> strlen p'
  end.

(** The hash of [testa] and the string made of it. *)
Definition hash_text (testa : list byte) : option (Z * list Ascii.ascii) :=
  len ← strlen testa;
  f ← fnv_hash testa (Z.of_nat len);
  Some (f, toHex (i32 f)).

(** What [main] prints for a string; the state is what is printed with [%u].  The
    second [printf] has the [std::string] itself for its [%s]. *)
Definition print_hash (testa : list byte) : M (list Z) unit :=
  match hash_text testa with
  | Some (f, _) => modify (λ out, out ++ [f]) ;; throw BadFormat
  | None => throw OutOfBounds
  end.

Definition literal (s : string) : list byte := String.list_byte_of_string s ++ [Byte.x00].

Definition hash_main : M (list Z) Z :=
  print_hash (literal "afasd") ;;
  print_hash (literal "vsdfsd") ;;
  mret 0.

(** ** Reference definitions *)

(** The 32-bit FNV-1 hash: multiply by the prime, then xor with the octet, on 32
    bits. *)
Definition fnv1_step (h : Z) (c : byte) : Z := Z.lxor (u32 (h * 16777619)) (byte_Z c).

Definition fnv1_32 (str : list byte) : Z := foldl fnv1_step offset_basis str.

(** A published test vector of FNV-1. *)
Example fnv1_foobar : fnv1_32 (String.list_byte_of_string "foobar") = 0x31f0b262.
Proof. vm_compute. reflexivity. Qed.

(** A string of 7-bit characters. *)
Definition ascii7 (str : list byte) : Prop := Forall (λ c, byte_Z c < 128) str.

(** The polynomial in 31 whose coefficients are the bytes. *)
Fixpoint poly31 (h : Z) (str : list byte) {struct str} : Z :=
  match str with
  | [] => h
  | c :: str' => poly31 (31 * h + byte_Z c) str'
  end.

(** The base-16 value of the bytes. *)
Fixpoint poly16 (h : Z) (str : list byte) {struct str} : Z :=
  match str with
  | [] => h
  | c :: str' => poly16 (16 * h + byte_Z c) str'
  end.

(** The value of a string of hexadecimal digits. *)
Definition digit_val (c : Ascii.ascii) : Z :=
  let n := Z.of_N (Ascii.N_of_ascii c) in
  if n <? 58 then n - 48 else n - 87.

Definition hex_val (s : list Ascii.ascii) : Z := foldl (λ acc c, 16 * acc + digit_val c) 0 s.

(** ** Lemmas *)

Lemma lxor_u32 a b : u32 (Z.lxor a b) = Z.lxor (u32 a) (u32 b).
Proof.
  unfold wrap_u. rewrite <- !Z.land_ones by lia.
  apply Z.bits_inj'. intros i Hi.
  rewrite !Z.land_spec, !Z.lxor_spec, !Z.land_spec.
  destruct (Z.testbit a i), (Z.testbit b i), (Z.testbit (Z.ones 32) i); done.
Qed.

Lemma u32_u64 z : u32 (u64 z) = u32 z.
Proof.
  unfold wrap_u. apply Z.mod_mod_divide. exists (2 ^ 32). lia.
Qed.

Lemma u64_small_sum z : 0 <= z → z < 2 ^ 64 → u64 z = z.
Proof. intros. apply wrap_u_small. lia. Qed.

(** The nibble test of [hashpjw] fails as long as the value fits in 28 bits. *)
Lemma mask_small x : 0 <= x < 2 ^ 28 → Z.land x 0xF0000000 = 0.
Proof.
  intros Hx. replace 0xF0000000 with (Z.shiftl (Z.ones 4) 28) by reflexivity.
  apply Z.bits_inj_0. intros i.
  destruct (Z.lt_ge_cases i 0); [by apply Z.testbit_neg_r|].
  rewrite Z.land_spec, Z.shiftl_spec by lia.
  destruct (Z.lt_ge_cases i 28).
  - rewrite (Z.testbit_neg_r _ (i - 28)) by lia. apply andb_false_r.
  - rewrite Z.bits_above_log2; [done|lia|].
    destruct (Z.eq_dec x 0) as [->|]; [simpl; lia|].
    apply Z.lt_le_trans with 28; [|lia]. apply Z.log2_lt_pow2; lia.
Qed.

Lemma hashpjw_step_small h c :
  0 <= h → 16 * h + byte_Z c < 2 ^ 28 → byte_Z c < 128 →
  hashpjw_step h c = 16 * h + byte_Z c.
Proof.
  intros Hh Hx Hc. unfold hashpjw_step.
  pose proof (byte_Z_range c) as Hr. rewrite (schar_ascii c Hc).
  rewrite Z.shiftl_mul_pow2 by lia.
  rewrite (u64_small_sum (h * 2 ^ 4)), (u64_small_sum (byte_Z c)) by lia.
  rewrite u64_small_sum, mask_small by lia. simpl. lia.
Qed.

Lemma hashpjw_loop_small key h n :
  Forall (λ c, byte_Z c < 128) key → 0 <= n → n + Z.of_nat (length key) <= 6 →
  0 <= h → 15 * h <= 127 * (16 ^ n - 1) →
  hashpjw_loop h key (length key) = Some (poly16 h key) ∧ 0 <= poly16 h key < 2 ^ 28.
Proof.
  intros Hkey. revert h n. induction Hkey as [|c key Hc _ IH]; intros h n Hn Hlen Hh Hb; simpl.
  - split; [done|]. assert (16 ^ n <= 16 ^ 6) by (apply Z.pow_le_mono_r; simpl in *; lia). lia.
  - pose proof (byte_Z_range c). simpl length in Hlen.
    assert (16 ^ n <= 16 ^ 5) by (apply Z.pow_le_mono_r; lia).
    assert (16 ^ (n + 1) = 16 * 16 ^ n) by (rewrite Z.pow_add_r; lia).
    rewrite hashpjw_step_small by lia. apply (IH _ (n + 1)); lia.
Qed.

Lemma hash1_loop_poly s rest h :
  Forall (λ c, byte_Z c ≠ 0) s →
  hash1_loop (u32 h) (s ++ Byte.x00 :: rest) = Some (u32 (poly31 h s)).
Proof.
  intros Hs. revert h. induction Hs as [|c s Hc _ IH]; intros h; simpl; [done|].
  destruct (Z.eqb_spec (byte_Z c) 0); [done|].
  rewrite <- IH. f_equal. unfold wrap_u.
  rewrite <- (Zplus_mod_idemp_l (31 * h)), <- (Zmult_mod_idemp_r h 31).
  done.
Qed.

(** Adding a multiple of [2^64] does not change a value modulo [2^32]. *)
Lemma u32_congr x y k : x = y + 2 ^ 64 * k → u32 x = u32 y.
Proof.
  intros ->. unfold wrap_u.
  replace (y + 2 ^ 64 * k) with (y + (2 ^ 32 * k) * 2 ^ 32) by lia.
  apply Z_mod_plus_full.
Qed.

Lemma u64_quot z : ∃ k, u64 z = z + 2 ^ 64 * k.
Proof.
  exists (- (z / 2 ^ 64)). unfold wrap_u. rewrite Z.mod_eq by lia. lia.
Qed.

Lemma u32_FNV_OP hash c : byte_Z c < 128 → u32 (FNV_OP hash c) = fnv1_step (u32 hash) c.
Proof.
  intros Hc. pose proof (byte_Z_range c). unfold FNV_OP, fnv1_step.
  rewrite lxor_u32, !u32_u64, (schar_ascii c Hc), (wrap_u_small 32 (byte_Z c)) by lia. f_equal.
  rewrite !Z.shiftl_mul_pow2 by lia.
  transitivity (u32 (hash * 16777619)).
  - repeat match goal with
    | |- context [ wrap_u 64 ?z ] =>
        let k := fresh "k" in destruct (u64_quot z) as [k ->]
    end.
    eapply u32_congr with (k := _).
    instantiate (1 := k + k0 + k1 + k2 + k3 + k4). lia.
  - unfold wrap_u. by rewrite Zmult_mod_idemp_l.
Qed.

Lemma foldl_FNV_OP str hash :
  ascii7 str → u32 (foldl FNV_OP hash str) = foldl fnv1_step (u32 hash) str.
Proof.
  intros Hs. revert hash. induction Hs as [|c str Hc _ IH]; intros hash; simpl; [done|].
  by rewrite IH, u32_FNV_OP.
Qed.

Lemma fnv_blocks_short hash str len :
  len < 8 → fnv_blocks hash str len = Some (hash, str, len).
Proof.
  intros. destruct str; cbn [fnv_blocks]; by rewrite (proj2 (Z.ltb_lt len 8)).
Qed.

(** What is left after the unrolled loop: fewer than eight bytes, and a hash
    that has absorbed all the others. *)
Lemma fnv_blocks_spec str : ∀ hash,
  ∃ hash' str', fnv_blocks hash str (Z.of_nat (length str))
    = Some (hash', str', Z.of_nat (length str'))
  ∧ (length str' < 8)%nat ∧ foldl FNV_OP hash str = foldl FNV_OP hash' str'.
Proof.
  induction str as [str IH] using (induction_ltof1 _ (@length byte)). unfold ltof in IH.
  intros hash. destruct (decide (length str < 8)%nat) as [Hlt|Hge].
  - exists hash, str. split_and!; [|done|done].
    apply fnv_blocks_short. lia.
  - do 8 (destruct str as [|? str]; [simpl in Hge; lia|]).
    destruct (IH str ltac:(simpl; lia) (fnv_turn hash b b0 b1 b2 b3 b4 b5 b6))
      as (hash' & str' & E & Hl & Hf).
    exists hash', str'. split_and!; [|done|].
    2: { rewrite <- Hf. unfold fnv_turn. cbn [foldl]. reflexivity. }
    rewrite <- E. remember (Z.of_nat (length (b :: _))) as len eqn:Elen.
    cbn [fnv_blocks]. rewrite (proj2 (Z.ltb_ge len 8)) by (simpl in Elen; lia).
    f_equal. simpl in Elen. lia.
Qed.

Lemma fnv_case_spec str hash : fnv_case (length str) hash str = Some (foldl FNV_OP hash str).
Proof. revert hash. induction str as [|c str IH]; intros hash; simpl; auto. Qed.

(** The last, partial block of the [switch]. *)
Lemma fnv_tail_spec str hash :
  (length str < 8)%nat →
  (if bool_decide (1 <= Z.of_nat (length str) <= 7)
   then fnv_case (Z.to_nat (Z.of_nat (length str))) hash str else Some hash)
  = Some (foldl FNV_OP hash str).
Proof.
  intros Hl. rewrite Nat2Z.id, fnv_case_spec. case_bool_decide; [done|].
  destruct str; simpl in *; [done|lia].
Qed.

Lemma hex_val_app acc s : foldl (λ a c, 16 * a + digit_val c) acc s
  = acc * 16 ^ Z.of_nat (length s) + hex_val s.
Proof.
  unfold hex_val. revert acc. induction s as [|c s IH]; intros acc; cbn [foldl length]; [lia|].
  rewrite IH, (IH (16 * 0 + digit_val c)).
  rewrite Nat2Z.inj_succ, Z.pow_succ_r by lia. lia.
Qed.

Lemma digit_val_HEX d : 0 <= d < 16 → digit_val (nth (Z.to_nat d) HEX "0"%char) = d.
Proof.
  intros Hd. assert (In d (map Z.of_nat (seq 0 16))) as Hin.
  { apply in_map_iff. exists (Z.to_nat d). split; [lia|]. apply in_seq. lia. }
  simpl in Hin. destruct_or!; subst; try reflexivity; done.
Qed.

Lemma land_15 z : Z.land z 15 = z mod 16.
Proof. change 15 with (Z.ones 4). by rewrite Z.land_ones by lia. Qed.

Lemma toHex_loop_val k num acc :
  hex_val (toHex_loop k num acc)
  = (num mod 16 ^ Z.of_nat k) * 16 ^ Z.of_nat (length acc) + hex_val acc.
Proof.
  revert num acc. induction k as [|k IH]; intros num acc; cbn [toHex_loop].
  - change (16 ^ Z.of_nat 0) with 1. rewrite Z.mod_1_r. lia.
  - destruct (Z.eqb_spec num 0) as [->|Hn].
    + rewrite Z.mod_0_l by lia. lia.
    + rewrite IH. rewrite land_15, Z.shiftr_div_pow2 by lia. change (2 ^ 4) with 16.
      assert (E : hex_val (nth (Z.to_nat (num mod 16)) HEX "0"%char :: acc)
                  = (num mod 16) * 16 ^ Z.of_nat (length acc) + hex_val acc).
      { unfold hex_val at 1. cbn [foldl]. rewrite hex_val_app.
        rewrite digit_val_HEX by (apply Z.mod_pos_bound; lia). lia. }
      rewrite E. simpl length. rewrite !Nat2Z.inj_succ, !Z.pow_succ_r by lia.
      rewrite (Z.rem_mul_r num 16) by lia. lia.
Qed.

Lemma toHex_loop_length k num acc : (length (toHex_loop k num acc) <= k + length acc)%nat.
Proof.
  revert num acc. induction k as [|k IH]; intros num acc; simpl; [lia|].
  case_match; [lia|]. etransitivity; [apply IH|]. simpl. lia.
Qed.

Lemma fnv_hash_spec str :
  ascii7 str → fnv_hash str (Z.of_nat (length str)) = Some (fnv1_32 str).
Proof.
  intros Hs. unfold fnv_hash, fnv1_32.
  destruct (fnv_blocks_spec str offset_basis) as (h & str' & -> & Hl & Hf).
  rewrite fnv_tail_spec by done. by rewrite <- Hf, foldl_FNV_OP.
Qed.

Lemma strlen_spec s rest : Forall (λ c, byte_Z c ≠ 0) s → strlen (s ++ Byte.x00 :: rest) = Some (length s).
Proof.
  induction 1 as [|c s Hc Hs IH]; [done|]. cbn [strlen app]. rewrite (proj2 (Z.eqb_neq _ _)) by done.
  by rewrite IH.
Qed.

Lemma fnv1_32_range s : 0 <= fnv1_32 s < 2 ^ 32.
Proof.
  unfold fnv1_32. assert (0 <= offset_basis < 2 ^ 32) as H0 by (unfold offset_basis; lia).
  revert H0. generalize offset_basis. induction s as [|c s IH]; intros h Hh; [exact Hh|].
  cbn [foldl]. apply IH. unfold fnv1_step. pose proof (byte_Z_range c).
  rewrite <- (wrap_u_small 32 (byte_Z c)), <- lxor_u32 by lia. apply wrap_u_range. lia.
Qed.

(** The bytes behind the part that is hashed do not matter. *)
Lemma fnv_blocks_app rest h s : ∀ n h' s' n',
  fnv_blocks h s n = Some (h', s', n') → fnv_blocks h (s ++ rest) n = Some (h', s' ++ rest, n').
Proof.
  remember (length s) as k eqn:Hk. revert h s Hk.
  induction k as [k IH] using lt_wf_ind. intros h s Hk n h' s' n'.
  do 8 (destruct s as [|? s];
    [cbn [fnv_blocks app]; destruct (n <? 8) eqn:E; [|done]; intros [= <- <- <-];
     destruct rest; cbn [fnv_blocks app]; by rewrite ?E|]).
  cbn [fnv_blocks app]. destruct (n <? 8) eqn:E; [by intros [= <- <- <-]|].
  apply (IH (length s)); [simpl in Hk; lia|done].
Qed.

Lemma fnv_case_app rest n : ∀ h s h', fnv_case n h s = Some h' → fnv_case n h (s ++ rest) = Some h'.
Proof. induction n as [|n IH]; intros h s h'; [done|]. destruct s as [|c s]; [done|apply IH]. Qed.

Lemma fnv_hash_app rest s n h : fnv_hash s n = Some h → fnv_hash (s ++ rest) n = Some h.
Proof.
  unfold fnv_hash. destruct (fnv_blocks offset_basis s n) as [[[h1 s1] n1]|] eqn:Eb; [|done].
  rewrite (fnv_blocks_app rest _ _ _ _ _ _ Eb). case_bool_decide; [|done].
  destruct (fnv_case _ _ s1) as [h2|] eqn:Ec; [|done].
  by rewrite (fnv_case_app rest _ _ _ _ Ec).
Qed.

(** ** Properties *)

(** C16: [fnv_hash] computes the 32-bit FNV-1 hash of the first [len] bytes of its
    argument when they are 7-bit characters, whatever is behind them. *)
Theorem fnv_hash_is_fnv1 str rest :
  Forall (λ c, byte_Z c < 128) str →
  fnv_hash (str ++ rest) (Z.of_nat (length str)) = Some (fnv1_32 str).
Proof. intros Hs. by apply fnv_hash_app, fnv_hash_spec. Qed.

Lemma fnv_hash_is_fnv1_witness :
  let str := String.list_byte_of_string "abcdefghij" in
  Forall (λ c, byte_Z c < 128) str
  ∧ fnv_hash (str ++ [Byte.xff; Byte.xff]) 10 = Some (fnv1_32 str)
  ∧ fnv1_32 str = 806874360.
Proof.
  assert (Forall (λ c, byte_Z c < 128) (String.list_byte_of_string "abcdefghij")) as H
    by (repeat constructor).
  split; [exact H|]. split; [|vm_compute; reflexivity].
  pose proof (fnv_hash_is_fnv1 _ [Byte.xff; Byte.xff] H) as E. exact E.
Defined.

(** A byte from 0x80 is sign-extended before the xor, so that the upper 24 bits of the
    hash are flipped: the result is not FNV-1's for any such byte. *)
Theorem fnv_hash_sign_extends c :
  128 <= byte_Z c →
  fnv_hash [c] 1 = Some (Z.lxor (fnv1_32 [c]) 0xFFFFFF00) ∧ fnv_hash [c] 1 ≠ Some (fnv1_32 [c]).
Proof. destruct c; cbv -[Z.le]; intros H; (done || lia). Qed.

(** [toHex] writes the 32 bits of its argument in base 16, in eight digits at most. *)
Theorem toHex_round_trip num :
  hex_val (toHex num) = u32 num ∧ (length (toHex num) <= 8)%nat.
Proof.
  unfold toHex. destruct (Z.eqb_spec num 0) as [->|Hn]; [by split; [|simpl; lia]|].
  split.
  - rewrite toHex_loop_val. unfold wrap_u. cbn [length hex_val foldl].
    change (Z.of_nat 8) with 8. change (16 ^ 8) with (2 ^ 32). lia.
  - etransitivity; [apply toHex_loop_length|]. simpl. lia.
Qed.

Theorem hash1_polynomial s rest :
  Forall (λ c, byte_Z c ≠ 0) s →
  hash1 (s ++ Byte.x00 :: rest) = Some (u32 (poly31 0 s)).
Proof. intros Hs. unfold hash1. by rewrite <- (hash1_loop_poly s rest 0 Hs). Qed.

(** A key whose hash leaves 32 bits: the carry out of bit 31 is not masked on a
    64-bit [unsigned long]. *)
Example hashpjw_escapes_32_bits :
  hashpjw (Z_byte <$> [0x09; 0x69; 0x69; 0x69; 0x69; 0x69; 0x6f; 0x61]) 8
  = Some 0x100000051.
Proof. vm_compute. reflexivity. Qed.

Theorem hashpjw_short_keys key :
  Forall (λ c, byte_Z c < 128) key → (length key <= 6)%nat →
  hashpjw key (length key) = Some (poly16 0 key) ∧ 0 <= poly16 0 key < 2 ^ 28.
Proof. intros Hk Hl. apply (hashpjw_loop_small key 0 0); [done|lia..]. Qed.

(** What main computes for a string of 7-bit characters: its 32-bit FNV-1 hash, and a text that is that
    number in base 16.  The number is printed; then main prints the [std::string]
    object as if it were a [char*]. *)
Theorem main_hashes s out :
  Forall (λ c, byte_Z c ≠ 0) s → ascii7 s →
  ∃ f1, hash_text (s ++ [Byte.x00]) = Some (fnv1_32 s, f1) ∧ hex_val f1 = fnv1_32 s
    ∧ print_hash (s ++ [Byte.x00]) out = Fault BadFormat.
Proof.
  intros Hs Ha. exists (toHex (i32 (fnv1_32 s))).
  assert (hash_text (s ++ [Byte.x00]) = Some (fnv1_32 s, toHex (i32 (fnv1_32 s)))) as E.
  { unfold hash_text. rewrite strlen_spec by done. cbn [mbind option_bind].
    by rewrite (fnv_hash_app _ _ _ _ (fnv_hash_spec s Ha)). }
  split; [done|]. unfold print_hash. rewrite E. split; [|done].
  rewrite (proj1 (toHex_round_trip _)), wrap_u_wrap_s by lia.
  apply wrap_u_small, fnv1_32_range.
Qed.
