(* ===== verification/Kernel.v ===== *)
(** * The operating system interface of ccnet

    The socket and epoll calls of ccnet/net are code outside this repository:
    they are the operations of the class [Kernel], a parameter of every model
    that calls them.  [KernelLaws] is what the POSIX and Linux manuals document
    about them and the network library relies on, stated over the observable
    part of the kernel state, a [kview].  The laws cover one epoll instance, the
    one of the server's loop; the laws of [epoll_ctl] and [epoll_wait] are for the
    descriptor of an instance that could be created.  Any of these calls may fail;
    of the failures of [epoll_ctl], which nobody looks at, the view keeps a record. *)

From S2P Require Import Prelude.

(** ** Constants of <sys/epoll.h> *)

Inductive ctl_op : Type := EPOLL_CTL_ADD | EPOLL_CTL_MOD | EPOLL_CTL_DEL.

Definition EPOLLIN : Z := 0x1.
Definition EPOLLPRI : Z := 0x2.
Definition EPOLLOUT : Z := 0x4.
Definition EPOLLERR : Z := 0x8.
Definition EPOLLHUP : Z := 0x10.
Definition EPOLLRDHUP : Z := 0x2000.
Definition EPOLLET : Z := 0x80000000.

(** [struct epoll_event], whose [data] is used as a pointer of type [P]. *)
Record epoll_event (P : Type) : Type := EpollEvent { ev_events : Z; ev_ptr : P }.
Arguments EpollEvent {P} ev_events ev_ptr.
Arguments ev_events {P} e.
Arguments ev_ptr {P} e.

(** [events & mask], as a condition, of an [int] or [uint32_t] of event bits. *)
Definition has (events mask : Z) : bool := negb (Z.land (u32 events) mask =? 0).

(** ** The system calls

    A socket address is the 16 bytes of a [struct sockaddr_in]; a call that
    fills one in returns the bytes it stored. *)

Class Kernel (P K : Type) : Type := {
  sys_recv : K → Z → Z → (Z * list byte * Z) * K;
  sys_send : K → Z → list byte → Z * K;
  sys_sigpipe : K → Z → bool;   (* whether a [send] without MSG_NOSIGNAL raises SIGPIPE *)
  sys_accept : K → Z → Z → (Z * list byte) * K;
  sys_getsockname : K → Z → Z → (Z * list byte) * K;
  sys_socket : K → Z → Z * K;
  sys_bind : K → Z → list byte → Z * K;
  sys_listen : K → Z → Z → Z * K;
  sys_shutdown_wr : K → Z → K;
  sys_close : K → Z → K;
  sys_epoll_create : K → Z * K;
  sys_epoll_ctl : K → Z → ctl_op → Z → epoll_event P → Z * K;
  sys_epoll_wait : K → Z → Z → (Z * list (epoll_event P)) * K;
}.

(** ** Documented behaviour *)

(** What can be observed of the kernel: the open descriptors, the interest list
    of the epoll instance, and for each descriptor the bytes [recv] has
    delivered and the bytes [send] has accepted so far; and whether so far an
    [epoll_ctl] has failed to add or change a registration ([v_lost]), or to remove
    one ([v_stale]). *)
Record kview (P : Type) : Type := KView {
  v_open : gset Z;
  v_interest : gmap Z (epoll_event P);
  v_recvd : gmap Z (list byte);
  v_sent : gmap Z (list byte);
  v_lost : bool;
  v_stale : bool;
}.
Arguments KView {P} v_open v_interest v_recvd v_sent v_lost v_stale.
Arguments v_open {P} k.
Arguments v_interest {P} k.
Arguments v_recvd {P} k.
Arguments v_sent {P} k.
Arguments v_lost {P} k.
Arguments v_stale {P} k.

Definition trace_of (m : gmap Z (list byte)) (fd : Z) : list byte := default [] (m !! fd).

Definition view_recv {P} (fd : Z) (data : list byte) (v : kview P) : kview P :=
  KView (v_open v) (v_interest v)
    (<[fd := trace_of (v_recvd v) fd ++ data]> (v_recvd v)) (v_sent v) (v_lost v) (v_stale v).

Definition view_send {P} (fd : Z) (data : list byte) (v : kview P) : kview P :=
  KView (v_open v) (v_interest v) (v_recvd v)
    (<[fd := trace_of (v_sent v) fd ++ data]> (v_sent v)) (v_lost v) (v_stale v).

(** A new descriptor [fd]. *)
Definition view_accept {P} (fd : Z) (v : kview P) : kview P :=
  KView ({[fd]} ∪ v_open v) (v_interest v)
    (<[fd := []]> (v_recvd v)) (<[fd := []]> (v_sent v)) (v_lost v) (v_stale v).

Definition interest_ctl {P} (op : ctl_op) (fd : Z) (ev : epoll_event P) (v : kview P)
    : gmap Z (epoll_event P) :=
  match op, v_interest v !! fd with
  | EPOLL_CTL_ADD, None =>
      if decide (fd ∈ v_open v) then <[fd := ev]> (v_interest v) else v_interest v
  | EPOLL_CTL_ADD, Some _ => v_interest v
  | EPOLL_CTL_MOD, Some _ => <[fd := ev]> (v_interest v)
  | EPOLL_CTL_MOD, None => v_interest v
  | EPOLL_CTL_DEL, _ => delete fd (v_interest v)
  end.

Definition view_interest {P} (m : gmap Z (epoll_event P)) (v : kview P) : kview P :=
  KView (v_open v) m (v_recvd v) (v_sent v) (v_lost v) (v_stale v).

(** An [epoll_ctl] that does what it is asked. *)
Definition view_ctl {P} (op : ctl_op) (fd : Z) (ev : epoll_event P) (v : kview P) : kview P :=
  view_interest (interest_ctl op fd ev v) v.

(** An [epoll_ctl] that fails (ENOMEM, ENOSPC). *)
Definition view_failed {P} (op : ctl_op) (v : kview P) : kview P :=
  KView (v_open v) (v_interest v) (v_recvd v) (v_sent v)
    (v_lost v || match op with EPOLL_CTL_DEL => false | _ => true end)
    (v_stale v || match op with EPOLL_CTL_DEL => true | _ => false end).

(** What an [epoll_ctl] may do. *)
Definition ctl_result {P} (op : ctl_op) (fd : Z) (ev : epoll_event P) (v v' : kview P) : Prop :=
  v' = view_ctl op fd ev v ∨ v' = view_failed op v.

(** An event that [epoll_wait] may report for a registration [ie]: the pointer
    registered, and no event bit that was not asked for, error and hang-up
    aside. *)
Definition event_ok {P} (ie e : epoll_event P) : Prop :=
  ev_ptr e = ev_ptr ie ∧ 0 <= ev_events e < 2 ^ 32
  ∧ ∀ i, 0 <= i → Z.testbit (ev_events e) i = true →
      Z.testbit (Z.lor (ev_events ie) (Z.lor EPOLLERR EPOLLHUP)) i = true.

Class KernelLaws (P K : Type) `{Kernel P K} : Type := {
  k_view : K → kview P;

  (** recv(2): at most [len] bytes, which follow the ones already delivered. *)
  recv_law k fd len n data err k' :
    sys_recv k fd len = (n, data, err, k') → 0 <= len →
    -1 <= n <= len ∧ length data = Z.to_nat n ∧ k_view k' = view_recv fd data (k_view k);

  (** send(2): a prefix of the buffer is accepted. *)
  send_law k fd data n k' :
    sys_send k fd data = (n, k') →
    -1 <= n <= Z.of_nat (length data)
    ∧ k_view k' = view_send fd (take (Z.to_nat n) data) (k_view k);

  (** socket(2): a new descriptor. *)
  socket_law k domain fd k' :
    sys_socket k domain = (fd, k') →
    (fd < 0 → k_view k' = k_view k)
    ∧ (0 <= fd → fd < 2 ^ 31 ∧ (fd ∉ v_open (k_view k)) ∧ k_view k' = view_accept fd (k_view k));

  bind_law k fd addr r k' : sys_bind k fd addr = (r, k') → k_view k' = k_view k;

  listen_law k fd backlog r k' : sys_listen k fd backlog = (r, k') → k_view k' = k_view k;

  (** epoll_create(2): an instance with an empty interest list. *)
  epoll_create_law k fd k' :
    sys_epoll_create k = (fd, k') → 0 <= fd →
    fd < 2 ^ 31 ∧ (fd ∉ v_open (k_view k))
    ∧ k_view k' = view_accept fd (view_interest ∅ (k_view k));

  (** accept(2): a new descriptor, which nothing was received from or sent to;
      the peer address is truncated to the room given. *)
  accept_law k fd len connfd addr k' :
    sys_accept k fd len = (connfd, addr, k') →
    (connfd < 0 → k_view k' = k_view k)
    ∧ (0 <= connfd →
        connfd < 2 ^ 31 ∧ (connfd ∉ v_open (k_view k))
        ∧ (v_interest (k_view k) !! connfd = None)
        ∧ k_view k' = view_accept connfd (k_view k)
        ∧ Z.of_nat (length addr) <= Z.max 0 len);

  getsockname_law k fd len r addr k' :
    sys_getsockname k fd len = (r, addr, k') →
    k_view k' = k_view k ∧ Z.of_nat (length addr) <= Z.max 0 len;

  (** epoll_ctl(2): it does what it is asked, or fails and returns -1. *)
  ctl_law k epfd op fd ev r k' :
    sys_epoll_ctl k epfd op fd ev = (r, k') → 0 <= epfd →
    ctl_result op fd ev (k_view k) (k_view k') ∧ (0 <= r → k_view k' = view_ctl op fd ev (k_view k));

  (** epoll_wait(2): at most [maxevents] events, at most one for a descriptor;
      an error for a [maxevents] that is not positive. *)
  wait_law k epfd maxevents n evs k' :
    sys_epoll_wait k epfd maxevents = (n, evs, k') → 0 <= epfd →
    (-1 <= n <= Z.max 0 maxevents) ∧ length evs = Z.to_nat n ∧ k_view k' = k_view k
    ∧ ∃ fds, NoDup fds
      ∧ Forall2 (λ fd e, ∃ ie, (v_interest (k_view k) !! fd = Some ie) ∧ event_ok ie e) fds evs;
}.

(** ** What an [epoll_ctl] on [fd] leaves *)

Section Ctl.
Context {P : Type}.
Implicit Types (v : kview P).

(** It concerns no other descriptor and no traffic, and its failures stay recorded. *)
Record ctl_frame (fd : Z) v v' : Prop := {
  c_open : v_open v' = v_open v;
  c_recvd : v_recvd v' = v_recvd v;
  c_sent : v_sent v' = v_sent v;
  c_other fd' : fd' ≠ fd → v_interest v' !! fd' = v_interest v !! fd';
  c_lost : v_lost v' = false → v_lost v = false;
  c_stale : v_stale v' = false → v_stale v = false;
}.

(** [fd] is registered for [ev], or is as it was and a failure is recorded. *)
Definition watched (fd : Z) (ev : epoll_event P) v v' : Prop :=
  ctl_frame fd v v'
  ∧ (v_interest v' !! fd = Some ev
     ∨ v_interest v' !! fd = v_interest v !! fd ∧ (v_lost v' = true ∨ v_stale v' = true)).

(** [fd] is not registered any more, or a failure is recorded. *)
Definition unwatched (fd : Z) v v' : Prop :=
  ctl_frame fd v v' ∧ (v_stale v' = false → v_interest v' !! fd = None).

Lemma ctl_frame_refl fd v : ctl_frame fd v v.
Proof. by constructor. Qed.

Lemma ctl_frame_trans fd v1 v2 v3 : ctl_frame fd v1 v2 → ctl_frame fd v2 v3 → ctl_frame fd v1 v3.
Proof.
  intros [Ho1 Hr1 Hs1 Hf1 Hl1 Ht1] [Ho2 Hr2 Hs2 Hf2 Hl2 Ht2].
  constructor; [congruence..| |auto|auto]. intros fd' Hne. by rewrite Hf2, Hf1.
Qed.

Lemma ctl_result_frame op fd ev v v' : ctl_result op fd ev v v' → ctl_frame fd v v'.
Proof.
  intros [->| ->].
  - constructor; simpl; try done. intros fd' Hne. unfold interest_ctl.
    destruct op, (v_interest v !! fd); try case_decide;
      rewrite ?lookup_insert_ne, ?lookup_delete_ne by done; done.
  - constructor; simpl; try done; by intros [? _]%orb_false_iff.
Qed.

Lemma ctl_mod_watched fd ev v v' :
  (v_interest v !! fd = None → v_lost v = true ∨ v_stale v = true) →
  ctl_result EPOLL_CTL_MOD fd ev v v' → watched fd ev v v'.
Proof.
  intros Hreg Hc. split; [by eapply ctl_result_frame|]. destruct Hc as [->| ->]; simpl.
  - unfold interest_ctl. destruct (v_interest v !! fd) eqn:E; [left; by rewrite lookup_insert_eq|].
    right. split; [done|]. by apply Hreg.
  - right. split; [done|]. left. apply orb_true_r.
Qed.

Lemma ctl_add_watched fd ev v v' :
  v_interest v !! fd = None → fd ∈ v_open v → ctl_result EPOLL_CTL_ADD fd ev v v' → watched fd ev v v'.
Proof.
  intros Hn Ho Hc. split; [by eapply ctl_result_frame|]. destruct Hc as [->| ->]; simpl.
  - left. unfold interest_ctl. rewrite Hn, decide_True by done. apply lookup_insert_eq.
  - right. split; [done|]. left. apply orb_true_r.
Qed.

Lemma ctl_del_unwatched fd ev v v' : ctl_result EPOLL_CTL_DEL fd ev v v' → unwatched fd v v'.
Proof.
  intros Hc. split; [by eapply ctl_result_frame|]. destruct Hc as [->| ->]; simpl; intros Hs.
  - apply lookup_delete_eq.
  - by rewrite orb_true_r in Hs.
Qed.

Lemma unwatched_twice fd v1 v2 v3 : unwatched fd v1 v2 → unwatched fd v2 v3 → unwatched fd v1 v3.
Proof. intros [H1 _] [H2 Hn]. split; [by eapply ctl_frame_trans|done]. Qed.
End Ctl.

(** ** Lemmas *)

Lemma trace_of_insert_eq m fd l : trace_of (<[fd := l]> m) fd = l.
Proof. unfold trace_of. by rewrite lookup_insert_eq. Qed.

Lemma trace_of_insert_ne m fd fd' l : fd ≠ fd' → trace_of (<[fd := l]> m) fd' = trace_of m fd'.
Proof. intros. unfold trace_of. by rewrite lookup_insert_ne. Qed.

