(* ===== verification/Buffer.v ===== *)
(** * The I/O buffer (ccnet/net/Buffer.h, Buffer.cc)

    A [std::vector<char>] with a read and a write index.  [append] grows the
    vector when the room after the write index is short; [retrieve] advances the
    read index; [readFd] reads a socket until it has nothing more.  The
    specification is a byte queue, the class [ByteQueue], which the connections
    use and which [Buffer] implements.  [append] is declared with a result and ends
    without a return statement, which C++ leaves undefined; it is taken to return, and
    no caller looks at what. *)

From S2P Require Import Prelude Kernel.

(** ** Data *)

Definition kInitialHeadSize : Z := 8.
Definition kInitialSize : Z := 1024.

Record Buffer : Type := mkBuffer {
  buffer_ : list byte;
  write_index_ : Z;
  read_index_ : Z;
}.

(** [std::vector::max_size] of a vector of [char]. *)
Definition max_size : Z := 2 ^ 63 - 1.

(** ** Operations *)

Definition Buffer_new (initialsize : Z) : Buffer :=
  {| buffer_ := replicate (Z.to_nat (u64 (kInitialHeadSize + u64 initialsize))) Byte.x00;
     write_index_ := kInitialHeadSize;
     read_index_ := kInitialHeadSize |}.

Definition buffer_size (b : Buffer) : Z := Z.of_nat (length (buffer_ b)).

Definition readableBytes (b : Buffer) : Z := write_index_ b - read_index_ b.

(** [size_t] minus [ssize_t] is unsigned, and is converted back on return. *)
Definition writableBytes (b : Buffer) : Z :=
  i64 (u64 (buffer_size b - u64 (write_index_ b))).

Definition retrieveAll (b : Buffer) : Buffer :=
  {| buffer_ := buffer_ b;
     write_index_ := kInitialHeadSize;
     read_index_ := kInitialHeadSize |}.

Definition retrieve (len : Z) (b : Buffer) : Buffer :=
  if len <? readableBytes b then
    {| buffer_ := buffer_ b;
       write_index_ := write_index_ b;
       read_index_ := read_index_ b + len |}
  else retrieveAll b.

(** The memory at [peek()], as far as it is readable. *)
Definition peek (b : Buffer) : list byte :=
  take (Z.to_nat (readableBytes b)) (drop (Z.to_nat (read_index_ b)) (buffer_ b)).

(** [vector::resize] throws [std::length_error] past [max_size]. *)
Definition makeSpace (len : Z) (b : Buffer) : fault + Buffer :=
  if writableBytes b <? len then
    if max_size <? write_index_ b + len then inl OutOfMemory
    else inr {| buffer_ := resize (Z.to_nat (write_index_ b + len)) Byte.x00 (buffer_ b);
                write_index_ := write_index_ b;
                read_index_ := read_index_ b |}
  else inr b.

(** [std::copy] to, or a [recv] into, [beginWrite()]. *)
Definition store_at_write (data : list byte) (b : Buffer) : fault + Buffer :=
  if buffer_size b <? write_index_ b + Z.of_nat (length data) then inl OutOfBounds
  else inr {| buffer_ := blit (Z.to_nat (write_index_ b)) data (buffer_ b);
              write_index_ := write_index_ b;
              read_index_ := read_index_ b |}.

Definition set_write_index (z : Z) (b : Buffer) : Buffer :=
  {| buffer_ := buffer_ b; write_index_ := z; read_index_ := read_index_ b |}.

Definition append (data : list byte) (b : Buffer) : fault + Buffer :=
  match makeSpace (Z.of_nat (length data)) b with
  | inl e => inl e
  | inr b =>
      match store_at_write data b with
      | inl e => inl e
      | inr b => inr (set_write_index (write_index_ b + Z.of_nat (length data)) b)
      end
  end.

Section ReadFd.
Context {P K : Type} `{Kernel P K}.

(** The loop of [readFd]; [n] is what has been read, the result is [n], the
    error saved, the buffer and the kernel. *)
Fixpoint readFd_loop (fuel : nat) (fd n : Z) (b : Buffer) (k : K)
    : fault + (Z * Z * Buffer * K) :=
  match fuel with
  | O => inl OutOfFuel
  | S fuel' =>
      let writeable := writableBytes b in
      let '(l, data, err, k) := sys_recv k fd (u64 writeable) in
      match store_at_write data b with
      | inl e => inl e
      | inr b =>
          if l <=? 0 then inr (n, err, b, k)
          else if l <=? writeable then
            readFd_loop fuel' fd (n + l) (set_write_index (write_index_ b + l) b) k
          else
            readFd_loop fuel' fd (n + l) (set_write_index (buffer_size b) b) k
      end
  end.

(** Each turn fills at least one byte: [writableBytes + 1] turns are enough. *)
Definition readFd (fd : Z) (b : Buffer) (k : K) : fault + (Z * Z * Buffer * K) :=
  readFd_loop (S (Z.to_nat (writableBytes b))) fd 0 b k.
End ReadFd.

(** ** Specification *)

Definition buffer_wf (b : Buffer) : Prop :=
  kInitialHeadSize <= read_index_ b ∧ read_index_ b <= write_index_ b
  ∧ write_index_ b <= buffer_size b ∧ buffer_size b <= max_size.

(** A queue of bytes: what a connection relies on. *)
Class ByteQueue (B : Type) : Type := {
  q_wf : B → Prop;
  q_contents : B → list byte;
  q_append : list byte → B → fault + B;
  q_retrieve : Z → B → B;
  q_clear : B → B;
  q_append_spec data b :
    q_wf b →
    match q_append data b with
    | inr b' => q_wf b' ∧ q_contents b' = q_contents b ++ data
    | inl e => e = OutOfMemory
    end;
  q_retrieve_spec n b :
    q_wf b → 0 <= n →
    q_wf (q_retrieve n b) ∧ q_contents (q_retrieve n b) = drop (Z.to_nat n) (q_contents b);
  q_clear_spec b : q_wf b → q_wf (q_clear b) ∧ q_contents (q_clear b) = [];
}.

(** ** Lemmas *)

Lemma Buffer_new_wf n : 0 <= n < 2 ^ 62 → buffer_wf (Buffer_new n).
Proof.
  intros Hn. unfold buffer_wf, Buffer_new, buffer_size, max_size; simpl.
  rewrite length_replicate. unfold kInitialHeadSize.
  rewrite (wrap_u_small 64 n), wrap_u_small by lia. lia.
Qed.

Lemma peek_Buffer_new n : peek (Buffer_new n) = [].
Proof. reflexivity. Qed.

Lemma writableBytes_wf b : buffer_wf b → writableBytes b = buffer_size b - write_index_ b.
Proof.
  intros (H1 & H2 & H3 & H4). unfold writableBytes, kInitialHeadSize, max_size in *.
  rewrite (wrap_u_small 64 (write_index_ b)), (wrap_u_small 64) by lia.
  apply wrap_s_small; simpl; lia.
Qed.

Lemma length_peek b : buffer_wf b → Z.of_nat (length (peek b)) = readableBytes b.
Proof.
  intros (H1 & H2 & H3 & H4). unfold peek, readableBytes, buffer_size, kInitialHeadSize in *.
  rewrite length_take, length_drop. lia.
Qed.

(** Storing at the write index and moving it adds the data to the contents. *)
Lemma store_spec data b :
  buffer_wf b → write_index_ b + Z.of_nat (length data) <= buffer_size b →
  ∃ b1, store_at_write data b = inr b1
    ∧ write_index_ b1 = write_index_ b ∧ buffer_size b1 = buffer_size b
    ∧ buffer_wf b1 ∧ (data = [] → peek b1 = peek b)
    ∧ let b' := set_write_index (write_index_ b + Z.of_nat (length data)) b1 in
      buffer_wf b' ∧ peek b' = peek b ++ data.
Proof.
  intros Hwf Hroom. pose proof Hwf as (H1 & H2 & H3 & H4).
  unfold buffer_wf, buffer_size, max_size, kInitialHeadSize in *. unfold store_at_write, buffer_size.
  rewrite (proj2 (Z.ltb_ge _ _)) by lia. eexists; split; [done|]. simpl.
  rewrite length_blit by lia. split_and!; try done; try lia.
  - intros ->. unfold peek, readableBytes, blit; simpl.
    rewrite Nat.add_0_r, take_drop. done.
  - unfold peek, readableBytes; simpl.
    pose proof (slice_blit (Z.to_nat (write_index_ b)) data (buffer_ b)
      (Z.to_nat (read_index_ b)) ltac:(lia) ltac:(lia)) as E.
    replace (Z.to_nat (write_index_ b + _ - read_index_ b))
      with (Z.to_nat (write_index_ b) + length data - Z.to_nat (read_index_ b))%nat by lia.
    rewrite E. do 2 f_equal. lia.
Qed.

Lemma makeSpace_spec len b :
  buffer_wf b → 0 <= len →
  match makeSpace len b with
  | inr b' => buffer_wf b' ∧ peek b' = peek b ∧ write_index_ b' = write_index_ b
      ∧ read_index_ b' = read_index_ b ∧ write_index_ b' + len <= buffer_size b'
  | inl e => e = OutOfMemory
  end.
Proof.
  intros Hwf Hlen. pose proof Hwf as (H1 & H2 & H3 & H4). unfold makeSpace.
  rewrite writableBytes_wf by done.
  unfold buffer_wf, buffer_size, max_size, kInitialHeadSize in *.
  destruct (Z.ltb_spec (Z.of_nat (length (buffer_ b)) - write_index_ b) len).
  - destruct (Z.ltb_spec (2 ^ 63 - 1) (write_index_ b + len)); [reflexivity|]. simpl. rewrite length_resize.
    split_and!; try done; try lia.
    unfold peek, readableBytes; simpl.
    rewrite resize_ge by lia. rewrite drop_app_le by lia.
    rewrite take_app_le by (rewrite length_drop; lia). done.
  - split_and!; try done; lia.
Qed.

Lemma append_spec data b :
  buffer_wf b →
  match append data b with
  | inr b' => buffer_wf b' ∧ peek b' = peek b ++ data
  | inl e => e = OutOfMemory
  end.
Proof.
  intros Hwf. unfold append.
  pose proof (makeSpace_spec (Z.of_nat (length data)) b Hwf ltac:(lia)) as Hm.
  destruct (makeSpace _ b) as [e|b1]; [done|].
  destruct Hm as (Hwf1 & Hp1 & Hw & Hr & Hroom).
  destruct (store_spec data b1 Hwf1 Hroom) as (b2 & -> & Hw2 & _ & _ & _ & Hwf3 & Hp3).
  rewrite Hw2, <- Hp1. done.
Qed.

Lemma retrieveAll_spec b : buffer_wf b → buffer_wf (retrieveAll b) ∧ peek (retrieveAll b) = [].
Proof.
  intros (H1 & H2 & H3 & H4). split; [|reflexivity].
  unfold buffer_wf, retrieveAll, buffer_size, kInitialHeadSize in *; simpl; unfold buffer_size in *; lia.
Qed.

Lemma retrieve_spec n b :
  buffer_wf b → 0 <= n →
  buffer_wf (retrieve n b) ∧ peek (retrieve n b) = drop (Z.to_nat n) (peek b).
Proof.
  intros Hwf Hn. pose proof Hwf as (H1 & H2 & H3 & H4). pose proof (length_peek b Hwf) as Hl.
  unfold retrieve. destruct (Z.ltb_spec n (readableBytes b)).
  - unfold buffer_wf, buffer_size, peek, readableBytes, kInitialHeadSize in *; simpl in *.
    split; [lia|]. rewrite skipn_firstn_comm, drop_drop. f_equal; [lia|]. f_equal. lia.
  - split; [apply retrieveAll_spec; done|].
    rewrite drop_ge by lia. reflexivity.
Qed.

#[export] Instance Buffer_ByteQueue : ByteQueue Buffer := {|
  q_wf := buffer_wf;
  q_contents := peek;
  q_append := append;
  q_retrieve := retrieve;
  q_clear := retrieveAll;
  q_append_spec := append_spec;
  q_retrieve_spec := retrieve_spec;
  q_clear_spec := retrieveAll_spec;
|}.

Lemma view_recv_app {P} fd d1 d2 (v : kview P) :
  view_recv fd d2 (view_recv fd d1 v) = view_recv fd (d1 ++ d2) v.
Proof.
  unfold view_recv; simpl. by rewrite trace_of_insert_eq, insert_insert_eq, app_assoc.
Qed.

Section ReadFdLemmas.
Context {P K : Type} `{KernelLaws P K}.

(** One turn of the loop stores what [recv] delivered. *)
Lemma readFd_turn fd b k l data err k' :
  buffer_wf b → sys_recv k fd (u64 (writableBytes b)) = (l, data, err, k') →
  ∃ b1, store_at_write data b = inr b1 ∧ buffer_wf b1 ∧ buffer_size b1 = buffer_size b
    ∧ write_index_ b1 = write_index_ b
    ∧ length data = Z.to_nat l ∧ l <= writableBytes b
    ∧ k_view k' = view_recv fd data (k_view k)
    ∧ (l <= 0 → data = [] ∧ peek b1 = peek b)
    ∧ (0 < l → let b' := set_write_index (write_index_ b1 + l) b1 in
         buffer_wf b' ∧ peek b' = peek b ++ data ∧ buffer_size b' = buffer_size b
         ∧ writableBytes b' = writableBytes b - l).
Proof.
  intros Hwf Hrecv. pose proof Hwf as (H1 & H2 & H3 & H4).
  pose proof (writableBytes_wf b Hwf) as Hwr. unfold max_size, kInitialHeadSize in *.
  apply recv_law in Hrecv; [|apply wrap_u_range; lia].
  rewrite wrap_u_small in Hrecv by lia.
  destruct Hrecv as (Hl & Hlen & Hv).
  destruct (store_spec data b Hwf ltac:(lia)) as (b1 & Hst & Hw & Hsz & Hwf1 & Hp1 & Hwf2 & Hp2).
  exists b1. split_and!; try done; try lia.
  - intros Hl0. assert (data = []) as -> by (apply length_zero_iff_nil; lia). auto.
  - intros Hl0. simpl. rewrite Hw. replace l with (Z.of_nat (length data)) by lia.
    split_and!; [done..|]. rewrite !writableBytes_wf by done.
    unfold buffer_size in *; simpl in *. lia.
Qed.

Lemma readFd_loop_spec fuel fd n b k :
  buffer_wf b → 0 <= n → (Z.to_nat (writableBytes b) < fuel)%nat →
  ∃ n' err b' k' data, readFd_loop fuel fd n b k = inr (n', err, b', k')
    ∧ buffer_wf b' ∧ peek b' = peek b ++ data ∧ buffer_size b' = buffer_size b
    ∧ n' = n + Z.of_nat (length data) ∧ Z.of_nat (length data) <= writableBytes b
    ∧ k_view k' = view_recv fd data (k_view k).
Proof.
  revert n b k. induction fuel as [|fuel IH]; intros n b k Hwf Hn Hf; [lia|].
  simpl. destruct (sys_recv k fd (u64 (writableBytes b))) as [[[l data] err] k'] eqn:Hrecv.
  destruct (readFd_turn _ _ _ _ _ _ _ Hwf Hrecv)
    as (b1 & -> & Hwf1 & Hsz & Hw & Hlen & Hle & Hv & Hneg & Hpos).
  assert (0 <= writableBytes b) by (rewrite writableBytes_wf by done; destruct Hwf; lia).
  destruct (Z.leb_spec l 0).
  - destruct (Hneg ltac:(done)) as [-> Hp].
    exists n, err, b1, k', []. rewrite app_nil_r. simpl in *. split_and!; try done; lia.
  - rewrite (proj2 (Z.leb_le l _)) by done.
    destruct (Hpos ltac:(done)) as (Hwf2 & Hp2 & Hsz2 & Hwr2).
    destruct (IH (n + l) (set_write_index (write_index_ b1 + l) b1) k' Hwf2 ltac:(lia) ltac:(lia))
      as (n' & err' & b' & k2 & data' & -> & Hwf' & Hp' & Hsz' & Hn' & Hle' & Hv').
    exists n', err', b', k2, (data ++ data'). rewrite length_app.
    split_and!; try done; try lia; try congruence.
    + by rewrite Hp', Hp2, app_assoc.
    + by rewrite Hv', Hv, view_recv_app.
Qed.

Lemma readFd_spec fd b k :
  buffer_wf b →
  ∃ n err b' k' data, readFd fd b k = inr (n, err, b', k')
    ∧ buffer_wf b' ∧ peek b' = peek b ++ data ∧ buffer_size b' = buffer_size b
    ∧ n = Z.of_nat (length data) ∧ n <= writableBytes b
    ∧ k_view k' = view_recv fd data (k_view k).
Proof.
  intros Hwf. unfold readFd.
  destruct (readFd_loop_spec (S (Z.to_nat (writableBytes b))) fd 0 b k Hwf ltac:(lia) ltac:(lia))
    as (n & err & b' & k' & data & -> & Hwf' & Hp & Hsz & Hn & Hle & Hv).
  exists n, err, b', k', data. split_and!; try done; lia.
Qed.
End ReadFdLemmas.

(** ** Properties *)

(** The calls a connection makes on a buffer, and what they mean for a queue. *)
Inductive queue_op : Type :=
| QAppend (data : list byte)
| QRetrieve (len : Z)
| QRetrieveAll.

Definition queue_op_ok (o : queue_op) : Prop :=
  match o with QRetrieve len => 0 <= len | _ => True end.

Definition spec_op (o : queue_op) (q : list byte) : list byte :=
  match o with
  | QAppend data => q ++ data
  | QRetrieve len => drop (Z.to_nat len) q
  | QRetrieveAll => []
  end.

Section Trace.
Context {B : Type} `{ByteQueue B}.

Definition run_op (o : queue_op) (b : B) : fault + B :=
  match o with
  | QAppend data => q_append data b
  | QRetrieve len => inr (q_retrieve len b)
  | QRetrieveAll => inr (q_clear b)
  end.

Fixpoint run_ops (os : list queue_op) (b : B) : fault + B :=
  match os with
  | [] => inr b
  | o :: os' =>
      match run_op o b with
      | inl e => inl e
      | inr b' => run_ops os' b'
      end
  end.

Lemma run_op_spec o b :
  q_wf b → queue_op_ok o →
  match run_op o b with
  | inr b' => q_wf b' ∧ q_contents b' = spec_op o (q_contents b)
  | inl e => e = OutOfMemory
  end.
Proof.
  intros Hwf Ho. destruct o as [data|len|]; simpl in *.
  - by apply q_append_spec.
  - by apply q_retrieve_spec.
  - by apply q_clear_spec.
Qed.

Lemma run_ops_spec os b :
  q_wf b → Forall queue_op_ok os →
  match run_ops os b with
  | inr b' => q_wf b' ∧ q_contents b' = foldl (λ q o, spec_op o q) (q_contents b) os
  | inl e => e = OutOfMemory
  end.
Proof.
  intros Hwf Hos. revert b Hwf. induction Hos as [|o os Ho _ IH]; intros b Hwf; simpl; [done|].
  pose proof (run_op_spec o b Hwf Ho) as Hop. destruct (run_op o b) as [e|b']; [done|].
  destruct Hop as [Hwf' <-]. apply IH. done.
Qed.
End Trace.
