(* ===== verification/LoopPool.v ===== *)
(** * Loops in threads (ccnet/net/EventLoopThread.cc, EventLoopThreadPool.cc)

    The start of a loop in a thread of its own is a protocol between two
    threads, the one that constructs the [EventLoopThread] and calls
    [startLoop], and the one that runs [threadFunc]; it is a step relation over
    the members they share, from the start of the constructor, which creates the
    thread before the members that the thread uses.  The pool is sequential; it never
    gets as far as a thread, because it first formats a [std::string] with ["%s"].  An
    [EventLoop*] is a number; the loop that [threadFunc] runs never ends, since nothing
    sets [quit_], but the steps after it are there. *)

From S2P Require Import Prelude.

Definition loop_ptr : Type := nat.

(** ** EventLoopThread *)

Module Thread.

Inductive owner : Type := Starter | Runner.

(** Where the constructing thread is.  The members are initialised in the order
    of their declaration: [thread_] before [mutex_], [cond_] and [callback_]. *)
Inductive starter_pc : Type :=
| CInitMutex | CInitCond | CInitCallback      (* constructor, [thread_] is running *)
| SLock                                       (* startLoop: [unique_lock lock(mutex_)] *)
| STest                                       (* the [while] and the predicate *)
| SWait                                       (* asleep in [cond_.wait] *)
| SRelock                                     (* woken, to take the mutex again *)
| SDone (loop : loop_ptr).                    (* returned *)

(** Where [threadFunc] is. *)
Inductive runner_pc : Type :=
| RCallback                                   (* [if (callback_) callback_(&loop)] *)
| RLock | RSet | RNotify                      (* the block that publishes the loop *)
| RLoop                                       (* [loop_->loop()] *)
| RRelock | RClear | RExit.                   (* after the loop *)

Record state : Type := mkState {
  st_mutex_init : bool;
  st_callback_init : bool;
  st_loop : option loop_ptr;
  st_ready : bool;
  st_owner : option owner;
  st_starter : starter_pc;
  st_runner : runner_pc;
  st_error : bool;                            (* a member was used before its constructor *)
}.

(** The constructor up to the creation of [thread_]. *)
Definition init : state :=
  mkState false false None false None CInitMutex RCallback false.

Definition starter_at (pc : starter_pc) (s : state) : state :=
  mkState (st_mutex_init s) (st_callback_init s) (st_loop s) (st_ready s) (st_owner s)
    pc (st_runner s) (st_error s).

Definition runner_at (pc : runner_pc) (s : state) : state :=
  mkState (st_mutex_init s) (st_callback_init s) (st_loop s) (st_ready s) (st_owner s)
    (st_starter s) pc (st_error s).

Definition set_owner (o : option owner) (s : state) : state :=
  mkState (st_mutex_init s) (st_callback_init s) (st_loop s) (st_ready s) o
    (st_starter s) (st_runner s) (st_error s).

Definition publish (l : option loop_ptr) (ready : bool) (s : state) : state :=
  mkState (st_mutex_init s) (st_callback_init s) l ready (st_owner s)
    (st_starter s) (st_runner s) (st_error s).

Definition use_member (initialised : bool) (s : state) : state :=
  mkState (st_mutex_init s) (st_callback_init s) (st_loop s) (st_ready s) (st_owner s)
    (st_starter s) (st_runner s) (st_error s || negb initialised).

(** [cond_.notify_one()] and the end of the block. *)
Definition notify_one (s : state) : state :=
  runner_at RLoop (set_owner None
    (match st_starter s with SWait => starter_at SRelock s | _ => s end)).

(** [the_loop]: the [EventLoop loop] on the stack of [threadFunc]. *)
Section Steps.
Context (the_loop : loop_ptr).

(** The steps that the code makes. *)
Inductive act : state → state → Prop :=
(* the constructor, while the thread runs; constructing the mutex leaves it free *)
| act_init_mutex s :
    st_starter s = CInitMutex →
    act s (mkState true (st_callback_init s) (st_loop s) (st_ready s) None CInitCond
             (st_runner s) (st_error s))
| act_init_cond s :
    st_starter s = CInitCond → act s (starter_at CInitCallback s)
| act_init_callback s :
    st_starter s = CInitCallback →
    act s (mkState (st_mutex_init s) true (st_loop s) (st_ready s) (st_owner s) SLock
             (st_runner s) (st_error s))
(* startLoop *)
| act_lock s :
    st_starter s = SLock → st_owner s = None →
    act s (starter_at STest (set_owner (Some Starter) s))
| act_found s l :
    st_starter s = STest → st_loop s = Some l →
    act s (starter_at (SDone l) (set_owner None s))
| act_spin s :
    st_starter s = STest → st_loop s = None → st_ready s = true → act s s
| act_wait s :
    st_starter s = STest → st_loop s = None → st_ready s = false →
    act s (starter_at SWait (set_owner None s))
| act_relock s :
    st_starter s = SRelock → st_owner s = None →
    act s (starter_at STest (set_owner (Some Starter) s))
(* threadFunc *)
| act_callback s :
    st_runner s = RCallback →
    act s (runner_at RLock (use_member (st_callback_init s) s))
| act_runner_lock s :
    st_runner s = RLock → st_owner s = None →
    act s (runner_at RSet (set_owner (Some Runner) (use_member (st_mutex_init s) s)))
| act_set s :
    st_runner s = RSet → act s (runner_at RNotify (publish (Some the_loop) true s))
| act_notify s :
    st_runner s = RNotify → act s (notify_one s)
| act_loop_ends s :
    st_runner s = RLoop → act s (runner_at RRelock s)
| act_runner_relock s :
    st_runner s = RRelock → st_owner s = None →
    act s (runner_at RClear (set_owner (Some Runner) s))
| act_clear s :
    st_runner s = RClear →
    act s (runner_at RExit (set_owner None (publish None (st_ready s) s))).

(** A wake-up without a notification. *)
Definition spurious (s : state) : state := starter_at SRelock s.

Inductive step : state → state → Prop :=
| step_act s s' : act s s' → step s s'
| step_spurious s : st_starter s = SWait → step s (spurious s).

(** [n] steps of the code and [k] spurious wake-ups. *)
Inductive run : nat → nat → state → state → Prop :=
| run_refl s : run 0 0 s s
| run_act n k s1 s2 s3 : run n k s1 s2 → act s2 s3 → run (S n) k s1 s3
| run_spurious n k s1 s2 : run n k s1 s2 → st_starter s2 = SWait → run n (S k) s1 (spurious s2).

(** ** Invariant *)

Definition starter_holds (pc : starter_pc) : bool :=
  match pc with STest => true | _ => false end.

Definition runner_holds (pc : runner_pc) : bool :=
  match pc with RSet | RNotify | RClear => true | _ => false end.

Definition published (pc : runner_pc) : bool :=
  match pc with RNotify | RLoop | RRelock | RClear => true | _ => false end.

Definition constructing (pc : starter_pc) : bool :=
  match pc with CInitMutex | CInitCond | CInitCallback => true | _ => false end.

(** What holds while no member has been used before its constructor. *)
Record Inv (s : state) : Prop := {
  t_mutex : st_mutex_init s = match st_starter s with CInitMutex => false | _ => true end;
  t_callback : st_callback_init s = negb (constructing (st_starter s));
  t_early : constructing (st_starter s) = true → st_runner s = RCallback;
  t_owner : st_owner s = if starter_holds (st_starter s) then Some Starter
                         else if runner_holds (st_runner s) then Some Runner else None;
  t_excl : starter_holds (st_starter s) && runner_holds (st_runner s) = false;
  t_loop : st_loop s = if published (st_runner s) then Some the_loop else None;
  t_ready : st_ready s = match st_runner s with RCallback | RLock | RSet => false | _ => true end;
  t_sleep : st_starter s = SWait → match st_runner s with
                                   | RCallback | RLock | RSet | RNotify => True | _ => False end;
  t_done l : st_starter s = SDone l → l = the_loop;
}.

Lemma Thread_Inv_init : Inv init.
Proof. by constructor. Qed.

Lemma act_error s s' : act s s' → st_error s' = false → st_error s = false.
Proof. destruct s. inversion 1; subst; simpl in *; try done; by intros [? _]%orb_false_iff || by case_match. Qed.

Lemma Thread_Inv_act s s' : Inv s → act s s' → st_error s' = false → Inv s'.
Proof.
  intros [Hm Hc Hearly Ho Hx Hl Hr Hsl Hd]. destruct s as [mi ci l r o sp rp er]; simpl in *.
  inversion 1; subst; simpl in *; intros Herr; simplify_eq/=;
    repeat match goal with H : _ || _ = false |- _ => apply orb_false_iff in H as [? ?] end;
    try (specialize (Hearly eq_refl)); simplify_eq/=;
    constructor; simpl; try done;
    try (destruct rp; simpl in *; done);
    try (destruct sp; simpl in *; done);
    try (destruct sp, rp; simpl in *; done).
  1: intros l' [= <-]; destruct (published rp); congruence.
  all: destruct sp; simpl in *; intros; try done; by specialize (Hearly eq_refl).
Qed.

Lemma Inv_spurious s : Inv s → st_starter s = SWait → Inv (spurious s).
Proof.
  intros [Hm Hc Hearly Ho Hx Hl Hr Hsl Hd] E. rewrite E in *. by constructor.
Qed.

Lemma Inv_run n k s1 s2 : run n k s1 s2 → Inv s1 → st_error s2 = false → Inv s2.
Proof.
  induction 1 as [s|n k s1 s2 s3 _ IH Ha|n k s1 s2 _ IH E]; intros HI He; [done| |].
  - eapply Thread_Inv_act; [|done|done]. apply IH; [done|]. by eapply act_error.
  - by apply Inv_spurious; [apply IH|].
Qed.

Lemma run_star n k s1 s2 : run n k s1 s2 → star step s1 s2.
Proof.
  induction 1 as [s|n k s1 s2 s3 _ IH Ha|n k s1 s2 _ IH E]; [constructor| |];
    (eapply star_trans; [exact IH|]); apply star_one; by constructor.
Qed.

(** ** Progress *)

(** The loop is not over. *)
Definition running (pc : runner_pc) : bool :=
  match pc with RRelock | RClear | RExit => false | _ => true end.

Definition starter_rank (pc : starter_pc) : nat :=
  match pc with
  | CInitMutex => 5 | CInitCond => 4 | CInitCallback => 3
  | SLock | SRelock => 2 | STest => 1 | SWait | SDone _ => 0
  end.

Definition runner_rank (pc : runner_pc) : nat :=
  match pc with RCallback => 4 | RLock => 3 | RSet => 2 | RNotify => 1 | _ => 0 end.

Definition rank (s : state) : nat := (3 * runner_rank (st_runner s) + starter_rank (st_starter s))%nat.

(** The end of the loop aside, a step of the code brings the return of [startLoop]
    nearer. *)
Lemma act_rank s s' :
  Inv s → act s s' → st_error s' = false → running (st_runner s') = true → (rank s' < rank s)%nat.
Proof.
  intros [Hm Hc Hearly Ho Hx Hl Hr Hsl Hd]. unfold rank. destruct s as [mi ci l r o sp rp er]; simpl in *.
  inversion 1; subst; simpl in *; intros Herr Hrun; simplify_eq/=; try done; try lia;
    try (by destruct rp); destruct sp; simpl; lia.
Qed.

Lemma act_running s s' : act s s' → running (st_runner s') = true → running (st_runner s) = true.
Proof. destruct s as [mi ci l r o sp rp er]. inversion 1; subst; simpl in *; by subst. Qed.

Lemma run_bound n k s1 s2 :
  run n k s1 s2 → Inv s1 → st_error s2 = false → running (st_runner s2) = true →
  (n + rank s2 ≤ rank s1 + 2 * k)%nat.
Proof.
  induction 1 as [s|n k s1 s2 s3 Hr IH Ha|n k s1 s2 Hr IH E]; intros HI He Hrun; [lia| |].
  - pose proof (act_error _ _ Ha He) as He2.
    pose proof (act_rank _ _ (Inv_run _ _ _ _ Hr HI He2) Ha He Hrun).
    pose proof (IH HI He2 (act_running _ _ Ha Hrun)). lia.
  - specialize (IH HI He Hrun). unfold rank in *; simpl in *. rewrite E in IH. simpl in IH. lia.
Qed.

(** Someone can always go on. *)
Lemma progress s :
  Inv s → running (st_runner s) = true → st_error s = false →
  st_starter s = SDone the_loop
  ∨ ∃ s', act s s' ∧ running (st_runner s') = true ∧ (constructing (st_starter s) = false → st_error s' = false).
Proof.
  intros [Hm Hc Hearly Ho Hx Hl Hr Hsl Hd] Hrun He.
  destruct s as [mi ci l r o sp rp er]; simpl in *. subst er.
  destruct sp eqn:Es; simpl in *;
    try (right; specialize (Hearly eq_refl); subst rp; eexists;
         split; [first [by apply act_init_mutex|by apply act_init_cond|by apply act_init_callback]|done]).
  1-4: destruct rp; try done; simpl in *; try (by specialize (Hsl eq_refl)); right;
    first
    [ eexists; split; [by apply act_lock|done]
    | eexists; split; [by eapply act_found|done]
    | eexists; split; [by apply act_wait|done]
    | eexists; split; [by apply act_relock|done]
    | eexists; split; [by apply act_callback|simpl; by rewrite ?Hc, ?Hm]
    | eexists; split; [by apply act_runner_lock|simpl; by rewrite ?Hc, ?Hm]
    | eexists; split; [by apply act_set|done]
    | eexists; split; [by apply act_notify|done] ].
  left. by rewrite (Hd loop eq_refl).
Qed.

(** ** After the end of the loop *)

(** The loop is over and its pointer cleared, and [startLoop] has not returned. *)
Definition stuck (s : state) : Prop :=
  st_runner s = RExit ∧ st_loop s = None ∧ st_ready s = true
  ∧ (st_starter s = SLock ∨ st_starter s = STest ∨ st_starter s = SRelock).

Lemma stuck_step s s' : stuck s → step s s' → stuck s'.
Proof.
  intros (Hr & Hl & Hd & Hst). unfold stuck. destruct s as [mi ci l r o sp rp er]; simpl in *.
  subst. inversion 1 as [? ? Ha|]; subst; [inversion Ha; subst|]; simpl in *;
    destruct Hst as [?|[?|?]]; simplify_eq/=; eauto 10.
Qed.
End Steps.

(** ** Properties *)


(** The thread can be running before the members it uses are constructed,
    since [thread_] is declared before [mutex_], [cond_] and [callback_]: the
    callback, or the mutex, is then used before its constructor has run. *)
Theorem constructor_races_with_thread the_loop :
  ∃ s, star (step the_loop) init s ∧ st_starter s = CInitMutex ∧ st_error s = true.
Proof.
  eexists. split.
  - apply star_one, step_act. by apply act_callback.
  - split; reflexivity.
Qed.

(** One step of a run that is given. *)
Ltac take_step :=
  eapply star_step; [apply step_act;
    first [by apply act_init_mutex|by apply act_init_cond|by apply act_init_callback
           |by apply act_callback|by apply act_runner_lock|by apply act_set
           |by apply act_notify|by apply act_loop_ends|by apply act_runner_relock
           |by apply act_clear|by apply act_lock]|].

(** A loop that ends before [startLoop] has seen it leaves [startLoop]
    spinning for ever, with the mutex held: [ready] stays true and [loop_] null. *)
Theorem startLoop_spins_after_the_loop the_loop :
  ∃ s, star (step the_loop) init s ∧ st_error s = false ∧ st_owner s = Some Starter
    ∧ ∀ s' l, star (step the_loop) s s' → st_starter s' ≠ SDone l.
Proof.
  eexists. split_and!.
  - do 3 take_step.
    eapply star_step; [apply step_act; by apply act_callback|].
    eapply star_step; [apply step_act; by apply act_runner_lock|].
    eapply star_step; [apply step_act; by apply act_set|].
    eapply star_step; [apply step_act; by apply act_notify|].
    eapply star_step; [apply step_act; by apply act_loop_ends|].
    eapply star_step; [apply step_act; by apply act_runner_relock|].
    eapply star_step; [apply step_act; by apply act_clear|].
    eapply star_step; [apply step_act; by apply act_lock|]. apply star_refl.
  - reflexivity.
  - reflexivity.
  - intros s' l Hs Hd. eapply (star_invariant _ stuck) in Hs; [|apply stuck_step|].
    + destruct Hs as (_ & _ & _ & Hst). rewrite Hd in Hst. by destruct Hst as [?|[?|?]].
    + split_and!; try done. right. by left.
Qed.

(** The loop has been published and [startLoop] has gone to sleep before, woken up in
    vain, slept again and been notified. *)
Definition notified : state := mkState true true (Some 7%nat) true None SRelock RLoop false.

Lemma notified_run : run 7%nat 11 1 init notified.
Proof.
  unfold notified. eapply run_act; [|by apply act_notify with
    (s := mkState true true (Some 7%nat) true (Some Runner) SWait RNotify false)].
  eapply run_act; [|by apply (act_set 7%nat (mkState true true None false (Some Runner) SWait RSet false))].
  eapply run_act; [|by apply (act_runner_lock 7%nat (mkState true true None false None SWait RLock false))].
  eapply run_act; [|by apply (act_callback 7%nat (mkState true true None false None SWait RCallback false))].
  eapply run_act; [|by apply (act_wait 7%nat (mkState true true None false (Some Starter) STest RCallback false))].
  eapply run_act; [|by apply (act_relock 7%nat (mkState true true None false None SRelock RCallback false))].
  eapply (run_spurious _ _ _ _ (mkState true true None false None SWait RCallback false)); [|done].
  eapply run_act; [|by apply (act_wait 7%nat (mkState true true None false (Some Starter) STest RCallback false))].
  eapply run_act; [|by apply (act_lock 7%nat (mkState true true None false None SLock RCallback false))].
  eapply run_act; [|by apply (act_init_callback 7%nat (mkState true false None false None CInitCallback RCallback false))].
  eapply run_act; [|by apply (act_init_cond 7%nat (mkState true false None false None CInitCond RCallback false))].
  eapply run_act; [|by apply (act_init_mutex 7%nat init)]. apply run_refl.
Qed.

End Thread.

(** ** EventLoopThreadPool *)

Module Pool.

Record EventLoopThreadPool : Type := mkPool {
  base_loop_ : loop_ptr;
  started_ : bool;
  num_threads_ : Z;
  next_ : Z;
  loops_ : list loop_ptr;     (* [threads_] has the threads of these loops *)
}.

(** The constructor and [setThreadNum]. *)
Definition EventLoopThreadPool_new (loop : loop_ptr) : EventLoopThreadPool :=
  mkPool loop false 0 0 [].

Definition setThreadNum (n : Z) (p : EventLoopThreadPool) : EventLoopThreadPool :=
  mkPool (base_loop_ p) (started_ p) n (next_ p) (loops_ p).

(** The [for] loop of [start], with [k] turns to go: the first statement of its body
    is [sprintf(buf, "%s_%d", name_, i)], which passes a [std::string] for ["%s"]; the
    rest of the body comes after it. *)
Definition start_loop (k : nat) (p : EventLoopThreadPool) : fault + EventLoopThreadPool :=
  match k with
  | O => inr p
  | S _ => inl BadFormat
  end.

(** [start]: the pool, and the loops on which the callback has run; [cb] says
    whether a callback was given. *)
Definition start (cb : bool) (p : EventLoopThreadPool) : fault + (EventLoopThreadPool * list loop_ptr) :=
  match start_loop (Z.to_nat (num_threads_ p)) p with
  | inl e => inl e
  | inr p1 =>
      inr (mkPool (base_loop_ p1) true (num_threads_ p1) (next_ p1) (loops_ p1),
           if (num_threads_ p1 =? 0) && cb then [base_loop_ p1] else [])
  end.

(** [loops_[next_++]], without a bounds check; [next_ >= loops_.size()]
    compares as [size_t]. *)
Definition getNextLoop (p : EventLoopThreadPool) : fault + (loop_ptr * EventLoopThreadPool) :=
  match loops_ p with
  | [] => inr (base_loop_ p, p)
  | _ =>
      match loops_ p !! Z.to_nat (u64 (next_ p)) with
      | None => inl OutOfBounds
      | Some loop =>
          let next := next_ p + 1 in
          let next := if Z.of_nat (length (loops_ p)) <=? u64 next then 0 else next in
          inr (loop, mkPool (base_loop_ p) (started_ p) (num_threads_ p) next (loops_ p))
      end
  end.

(** The test is [loops_.empty()]. *)
Definition getLoopFroHash (hash_code : Z) (p : EventLoopThreadPool) : fault + loop_ptr :=
  match loops_ p with
  | [] =>
      let n := Z.of_nat (length (loops_ p)) in
      if n =? 0 then inl DivByZero
      else match loops_ p !! Z.to_nat (hash_code mod n) with
           | Some loop => inr loop
           | None => inl OutOfBounds
           end
  | _ => inr (base_loop_ p)
  end.

Definition getAllLoops (p : EventLoopThreadPool) : list loop_ptr :=
  match loops_ p with
  | [] => [base_loop_ p]
  | _ => loops_ p
  end.

(** [k] calls of [getNextLoop]. *)
Fixpoint next_loops (k : nat) (p : EventLoopThreadPool) : fault + list loop_ptr :=
  match k with
  | O => inr []
  | S k' =>
      match getNextLoop p with
      | inl e => inl e
      | inr (loop, p') =>
          match next_loops k' p' with
          | inl e => inl e
          | inr ls => inr (loop :: ls)
          end
      end
  end.

(** ** Lemmas *)

(** From the index [j] on, the loops come in order and start over. *)
Lemma next_loops_spec k j p :
  loops_ p ≠ [] → Z.of_nat (length (loops_ p)) < 2 ^ 31 →
  0 <= j < Z.of_nat (length (loops_ p)) → next_ p = j →
  ∃ ls, next_loops k p = inr ls ∧ length ls = k
    ∧ ∀ i : nat, (i < k)%nat →
        ls !! i = loops_ p !! Z.to_nat ((j + Z.of_nat i) mod Z.of_nat (length (loops_ p))).
Proof.
  revert j p. induction k as [|k IH]; intros j p Hne Hlen Hj Hn; simpl.
  { exists []. split_and!; [done..|]. lia. }
  unfold getNextLoop. destruct (loops_ p) as [|l0 ls0] eqn:El; [done|]. rewrite <- El in *.
  rewrite Hn, (wrap_u_small 64 j) by lia.
  destruct (loops_ p !! Z.to_nat j) as [loop|] eqn:Eloop;
    [|apply lookup_ge_None in Eloop; lia].
  rewrite wrap_u_small by lia.
  set (p1 := mkPool _ _ _ _ _). set (n := Z.of_nat (length (loops_ p))) in *.
  assert (next_ p1 = (j + 1) mod n) as Hn1.
  { subst p1. simpl. destruct (Z.leb_spec n (j + 1)).
    - replace (j + 1) with n by lia. by rewrite Z.mod_same by lia.
    - by rewrite Z.mod_small by lia. }
  destruct (IH ((j + 1) mod n) p1) as (ls & -> & Hl & Hi); try done.
  { exact (Z.mod_pos_bound (j + 1) n ltac:(lia)). }
  exists (loop :: ls). split_and!; [done|simpl; lia|].
  intros [|i] Hik; simpl.
  - rewrite Z.add_0_r, Z.mod_small by lia. done.
  - rewrite Hi by lia. simpl loops_. fold n. rewrite Zplus_mod_idemp_l.
    by replace (j + Z.of_nat (S i)) with (j + 1 + Z.of_nat i) by lia.
Qed.

(** ** Properties *)

(** Without loops the base loop is handed out for ever. *)
Lemma next_loops_base k p : loops_ p = [] → next_loops k p = inr (replicate k (base_loop_ p)).
Proof. intros E. induction k as [|k IH]; simpl; [done|]. unfold getNextLoop. by rewrite E, IH. Qed.

(** C14: a pool can be started only without threads: with any, [start] formats a
    [std::string] with ["%s"]; started without, it hands out the base loop for ever;
    and a pool that has loops hands them out in turn from [next_] on, with no access
    out of bounds. *)
Theorem pool_hands_out_loops base n cb k :
  (0 < n → start cb (setThreadNum n (EventLoopThreadPool_new base)) = inl BadFormat)
  ∧ (n <= 0 → ∃ p called, start cb (setThreadNum n (EventLoopThreadPool_new base)) = inr (p, called)
       ∧ started_ p = true ∧ next_loops k p = inr (replicate k base))
  ∧ ∀ p, 0 <= next_ p < Z.of_nat (length (loops_ p)) → Z.of_nat (length (loops_ p)) < 2 ^ 31 →
      ∃ ls, next_loops k p = inr ls ∧ length ls = k
        ∧ ∀ i : nat, (i < k)%nat →
            ls !! i = loops_ p !! Z.to_nat ((next_ p + Z.of_nat i) mod Z.of_nat (length (loops_ p))).
Proof.
  split_and!.
  - intros Hn. unfold start. simpl. by destruct (Z.to_nat n) eqn:E; [lia|].
  - intros Hn. unfold start. simpl. replace (Z.to_nat n) with 0%nat by lia. simpl.
    eexists _, _. split_and!; [done..|]. by apply next_loops_base.
  - intros p Hj Hlen. apply next_loops_spec; try done. intros E. rewrite E in Hj. simpl in Hj. lia.
Qed.

(** [getLoopFroHash] never returns a loop of the pool: without loops it
    divides by zero, and with loops it returns the base loop for every hash. *)
Theorem getLoopFroHash_never_picks hash_code p :
  getLoopFroHash hash_code p = match loops_ p with [] => inl DivByZero | _ => inr (base_loop_ p) end.
Proof. unfold getLoopFroHash. destruct (loops_ p); reflexivity. Qed.

Lemma pool_hands_out_loops_witness :
  start false (setThreadNum 4 (EventLoopThreadPool_new 9%nat)) = inl BadFormat
  ∧ ∃ ls, next_loops 5 (mkPool 9%nat true 3 1 [5; 6; 7]%nat) = inr ls ∧ length ls = 5%nat
      ∧ ∀ i : nat, (i < 5)%nat →
          ls !! i = [5; 6; 7]%nat !! Z.to_nat ((1 + Z.of_nat i) mod 3).
Proof.
  destruct (pool_hands_out_loops 9%nat 4 false 5) as (H1 & _ & H3). split.
  - apply H1. lia.
  - apply (H3 (mkPool 9%nat true 3 1 [5; 6; 7]%nat)); simpl; lia.
Defined.
End Pool.
