(* ===== verification/Net.v ===== *)
(** * The objects of a ccnet server (ccnet/net/Channel.h, EPollPoller.h, EventLoop.h, Acceptor.h, TcpConnection.h, TcpServer.h)

    The data members of the classes as records, and the state of the thread that
    runs the server's loop as a [World].

    A [Channel] is owned by exactly one object, the acceptor or a connection
    ([accept_channel_], [channel_]), and is stored in it; a [Channel*] is then
    the name of that owner, and dereferencing it looks the owner up, which fails
    with [UseAfterFree] when the owner is gone.  A [TcpConnection*] is an index
    in the heap of connections; indices are not reused, so a stale pointer is
    always noticed.  [std::function] members hold the [std::bind] expressions
    that the code stores in them, as values of inductive types. *)

From S2P Require Import Prelude Kernel Buffer LoopPool.

(** ** Pointers and callbacks *)

Definition conn_ptr : Type := nat.

Inductive chan_ptr : Type :=
| AcceptChannel
| ConnChannel (c : conn_ptr).

#[export] Instance chan_ptr_eq_dec : EqDecision chan_ptr.
Proof. solve_decision. Defined.

(** Channel::EventCallback and ReadCallBack. *)
Inductive event_callback : Type :=
| Acceptor_handleRead
| TcpConnection_handleRead (c : conn_ptr)
| TcpConnection_handleWrite (c : conn_ptr)
| TcpConnection_handleClose (c : conn_ptr)
| TcpConnection_handleError (c : conn_ptr).

Inductive connection_callback : Type :=
| defaultConnectionCallback
| EchoServer_onConnect.

Inductive message_callback : Type :=
| defaultMessageCallback
| EchoServer_onMessage.

Inductive close_callback : Type := TcpServer_removeConnection.

Inductive newconnection_callback : Type := TcpServer_newConnection.

(** ** Objects *)

Record Channel : Type := mkChannel {
  ch_fd : Z;
  ch_revents : Z;
  ch_events : Z;
  ch_tie : option conn_ptr;
  ch_read_callback : option event_callback;
  ch_write_callback : option event_callback;
  ch_close_callback : option event_callback;
  ch_error_callback : option event_callback;
}.

Inductive ConnStateE : Type := kDisconnected | kConnecting | kConnected | kDisconnecting.

#[export] Instance ConnStateE_eq_dec : EqDecision ConnStateE.
Proof. solve_decision. Defined.

(** [conn_state_] has no value until [setConnState]; [socket_] is a
    [unique_ptr<Socket>], the descriptor of the socket it points to. *)
Record TcpConnection : Type := mkTcpConnection {
  conn_local_addr : list byte;
  conn_peer_addr : list byte;
  conn_name : string;
  conn_fd : Z;
  conn_state : option ConnStateE;
  conn_socket : option Z;
  conn_input : Buffer;
  conn_output : Buffer;
  conn_channel : Channel;
  conn_connect_cb : option connection_callback;
  conn_message_cb : option message_callback;
  conn_writecomplete_cb : option connection_callback;
  conn_close_cb : option close_callback;
}.

Record EPollPoller : Type := mkEPollPoller {
  poller_epfd : Z;
  poller_events_size : Z;
  poller_channels : gmap Z chan_ptr;
}.

Record EventLoop : Type := mkEventLoop {
  loop_quit : bool;
  loop_looping : bool;
  loop_active_channels : list chan_ptr;
  loop_poller : EPollPoller;
}.

Record Acceptor : Type := mkAcceptor {
  acceptor_fd : Z;
  acceptor_channel : Channel;
  acceptor_newconnection_cb : option newconnection_callback;
}.

Record TcpServer : Type := mkTcpServer {
  server_connections : gmap string conn_ptr;
  server_nextConnId : Z;
  server_name : string;
  server_connect_cb : option connection_callback;
  server_message_cb : option message_callback;
  server_writecomplete_cb : option connection_callback;
  server_thread_pool : Pool.EventLoopThreadPool;
}.

Record World (K : Type) : Type := mkWorld {
  w_kernel : K;
  w_loop : EventLoop;
  w_acceptor : Acceptor;
  w_server : TcpServer;
  w_conns : gmap conn_ptr TcpConnection;
  w_next_ptr : conn_ptr;
}.
Arguments mkWorld {K}.
Arguments w_kernel {K} w.
Arguments w_loop {K} w.
Arguments w_acceptor {K} w.
Arguments w_server {K} w.
Arguments w_conns {K} w.
Arguments w_next_ptr {K} w.

(** ** Field updates *)

Definition set_revents (e : Z) (ch : Channel) : Channel :=
  mkChannel (ch_fd ch) e (ch_events ch) (ch_tie ch) (ch_read_callback ch)
    (ch_write_callback ch) (ch_close_callback ch) (ch_error_callback ch).

Definition set_events (e : Z) (ch : Channel) : Channel :=
  mkChannel (ch_fd ch) (ch_revents ch) e (ch_tie ch) (ch_read_callback ch)
    (ch_write_callback ch) (ch_close_callback ch) (ch_error_callback ch).

Definition set_tie (c : conn_ptr) (ch : Channel) : Channel :=
  mkChannel (ch_fd ch) (ch_revents ch) (ch_events ch) (Some c) (ch_read_callback ch)
    (ch_write_callback ch) (ch_close_callback ch) (ch_error_callback ch).

Definition set_state (s : ConnStateE) (cn : TcpConnection) : TcpConnection :=
  mkTcpConnection (conn_local_addr cn) (conn_peer_addr cn) (conn_name cn) (conn_fd cn)
    (Some s) (conn_socket cn) (conn_input cn) (conn_output cn) (conn_channel cn)
    (conn_connect_cb cn) (conn_message_cb cn) (conn_writecomplete_cb cn) (conn_close_cb cn).

Definition set_input (b : Buffer) (cn : TcpConnection) : TcpConnection :=
  mkTcpConnection (conn_local_addr cn) (conn_peer_addr cn) (conn_name cn) (conn_fd cn)
    (conn_state cn) (conn_socket cn) b (conn_output cn) (conn_channel cn)
    (conn_connect_cb cn) (conn_message_cb cn) (conn_writecomplete_cb cn) (conn_close_cb cn).

Definition set_output (b : Buffer) (cn : TcpConnection) : TcpConnection :=
  mkTcpConnection (conn_local_addr cn) (conn_peer_addr cn) (conn_name cn) (conn_fd cn)
    (conn_state cn) (conn_socket cn) (conn_input cn) b (conn_channel cn)
    (conn_connect_cb cn) (conn_message_cb cn) (conn_writecomplete_cb cn) (conn_close_cb cn).

Definition set_channel (ch : Channel) (cn : TcpConnection) : TcpConnection :=
  mkTcpConnection (conn_local_addr cn) (conn_peer_addr cn) (conn_name cn) (conn_fd cn)
    (conn_state cn) (conn_socket cn) (conn_input cn) (conn_output cn) ch
    (conn_connect_cb cn) (conn_message_cb cn) (conn_writecomplete_cb cn) (conn_close_cb cn).

(** TcpConnection::set...Callback, the four of them in turn. *)
Definition set_callbacks (connect : option connection_callback) (message : option message_callback)
    (writecomplete : option connection_callback) (close : option close_callback)
    (cn : TcpConnection) : TcpConnection :=
  mkTcpConnection (conn_local_addr cn) (conn_peer_addr cn) (conn_name cn) (conn_fd cn)
    (conn_state cn) (conn_socket cn) (conn_input cn) (conn_output cn) (conn_channel cn)
    connect message writecomplete close.

Definition set_channels (m : gmap Z chan_ptr) (p : EPollPoller) : EPollPoller :=
  mkEPollPoller (poller_epfd p) (poller_events_size p) m.

Definition set_events_size (n : Z) (p : EPollPoller) : EPollPoller :=
  mkEPollPoller (poller_epfd p) n (poller_channels p).

Definition set_poller (p : EPollPoller) (l : EventLoop) : EventLoop :=
  mkEventLoop (loop_quit l) (loop_looping l) (loop_active_channels l) p.

Definition set_active (a : list chan_ptr) (l : EventLoop) : EventLoop :=
  mkEventLoop (loop_quit l) (loop_looping l) a (loop_poller l).

Definition set_running (l : EventLoop) : EventLoop :=
  mkEventLoop false true (loop_active_channels l) (loop_poller l).

Definition set_accept_channel (ch : Channel) (a : Acceptor) : Acceptor :=
  mkAcceptor (acceptor_fd a) ch (acceptor_newconnection_cb a).

Definition set_connections (m : gmap string conn_ptr) (s : TcpServer) : TcpServer :=
  mkTcpServer m (server_nextConnId s) (server_name s) (server_connect_cb s)
    (server_message_cb s) (server_writecomplete_cb s) (server_thread_pool s).

Definition set_nextConnId (i : Z) (s : TcpServer) : TcpServer :=
  mkTcpServer (server_connections s) i (server_name s) (server_connect_cb s)
    (server_message_cb s) (server_writecomplete_cb s) (server_thread_pool s).

Definition set_thread_pool (p : Pool.EventLoopThreadPool) (s : TcpServer) : TcpServer :=
  mkTcpServer (server_connections s) (server_nextConnId s) (server_name s) (server_connect_cb s)
    (server_message_cb s) (server_writecomplete_cb s) p.

Section WorldOps.
Context {K : Type}.
Implicit Types (w : World K).

Definition with_kernel (k : K) w : World K :=
  mkWorld k (w_loop w) (w_acceptor w) (w_server w) (w_conns w) (w_next_ptr w).

Definition with_loop (f : EventLoop → EventLoop) w : World K :=
  mkWorld (w_kernel w) (f (w_loop w)) (w_acceptor w) (w_server w) (w_conns w) (w_next_ptr w).

Definition with_poller (f : EPollPoller → EPollPoller) w : World K :=
  with_loop (λ l, set_poller (f (loop_poller l)) l) w.

Definition with_acceptor (f : Acceptor → Acceptor) w : World K :=
  mkWorld (w_kernel w) (w_loop w) (f (w_acceptor w)) (w_server w) (w_conns w) (w_next_ptr w).

Definition with_server (f : TcpServer → TcpServer) w : World K :=
  mkWorld (w_kernel w) (w_loop w) (w_acceptor w) (f (w_server w)) (w_conns w) (w_next_ptr w).

Definition with_conns (f : gmap conn_ptr TcpConnection → gmap conn_ptr TcpConnection) w : World K :=
  mkWorld (w_kernel w) (w_loop w) (w_acceptor w) (w_server w) (f (w_conns w)) (w_next_ptr w).

(** [new TcpConnection(...)]. *)
Definition alloc_conn (cn : TcpConnection) w : World K :=
  mkWorld (w_kernel w) (w_loop w) (w_acceptor w) (w_server w)
    (<[w_next_ptr w := cn]> (w_conns w)) (S (w_next_ptr w)).

(** The channel a [Channel*] points to. *)
Definition channel_at w (p : chan_ptr) : option Channel :=
  match p with
  | AcceptChannel => Some (acceptor_channel (w_acceptor w))
  | ConnChannel c => conn_channel <$> w_conns w !! c
  end.

Definition get_chan (p : chan_ptr) : M (World K) Channel := λ w,
  match channel_at w p with
  | Some ch => Ok ch w
  | None => Fault UseAfterFree
  end.

(** Overwrite the channel a [Channel*] points to. *)
Definition put_channel (p : chan_ptr) (ch : Channel) w : World K :=
  match p with
  | AcceptChannel => with_acceptor (set_accept_channel ch) w
  | ConnChannel c => with_conns (alter (set_channel ch) c) w
  end.

Definition put_chan (p : chan_ptr) (ch : Channel) : M (World K) unit :=
  modify (put_channel p ch).

Definition get_conn (c : conn_ptr) : M (World K) TcpConnection := λ w,
  match w_conns w !! c with
  | Some cn => Ok cn w
  | None => Fault UseAfterFree
  end.

Definition put_conn (c : conn_ptr) (cn : TcpConnection) : M (World K) unit :=
  modify (with_conns <[c := cn]>).

(** Run a system call on the kernel component. *)
Definition syscall {A} (f : K → A * K) : M (World K) A := λ w,
  let '(a, k') := f (w_kernel w) in Ok a (with_kernel k' w).

(** Lift a buffer operation that may fail. *)
Definition lift {A} (r : fault + A) : M (World K) A :=
  match r with
  | inl e => throw e
  | inr a => mret a
  end.

(** ** Lemmas *)

Lemma channel_at_put_eq w p ch ch0 :
  channel_at w p = Some ch0 → channel_at (put_channel p ch w) p = Some ch.
Proof.
  destruct p as [|c]; simpl; [done|]. intros H.
  rewrite lookup_alter_eq. destruct (w_conns w !! c); [done|discriminate].
Qed.

Lemma channel_at_put_ne w p p' ch :
  p ≠ p' → channel_at (put_channel p ch w) p' = channel_at w p'.
Proof.
  destruct p as [|c], p' as [|c']; simpl; try done.
  intros Hne. rewrite lookup_alter_ne by congruence. done.
Qed.

Lemma channel_at_with_kernel k w p : channel_at (with_kernel k w) p = channel_at w p.
Proof. by destruct p. Qed.

Lemma channel_at_with_loop f w p : channel_at (with_loop f w) p = channel_at w p.
Proof. by destruct p. Qed.

Lemma get_chan_run w p ch : channel_at w p = Some ch → get_chan p w = Ok ch w.
Proof. unfold get_chan. by intros ->. Qed.

Lemma get_conn_run w c cn : w_conns w !! c = Some cn → get_conn c w = Ok cn w.
Proof. unfold get_conn. by intros ->. Qed.

Lemma channel_at_conn w c cn : 
  w_conns w !! c = Some cn → channel_at w (ConnChannel c) = Some (conn_channel cn).
Proof. simpl. by intros ->. Qed.

Lemma alter_set_channel (m : gmap conn_ptr TcpConnection) c cn ch :
  m !! c = Some cn → alter (set_channel ch) c m = <[c := set_channel ch cn]> m.
Proof.
  intros H. apply map_eq. intros i. destruct (decide (i = c)) as [->|].
  - rewrite lookup_alter_eq, lookup_insert_eq, H. done.
  - by rewrite lookup_alter_ne, lookup_insert_ne by congruence.
Qed.
End WorldOps.
