(* ===== verification/KernelSim.v ===== *)
(** * A simulated kernel

    A small kernel that the server can be run on: the clients' connections, the
    data they send and the events reported are a script.  It satisfies
    [KernelLaws], so the theorems about the server apply to its runs. *)

From S2P Require Import Prelude Kernel Net.

Record sim : Type := mkSim {
  sim_view : kview chan_ptr;
  sim_next_fd : Z;                    (* the next descriptor *)
  sim_backlog : nat;                  (* connections waiting for accept *)
  sim_incoming : gmap Z (list byte);  (* data waiting for recv *)
  sim_send_room : Z;                  (* what one send takes at most, if positive *)
  sim_script : list (list (Z * Z));   (* epoll_wait: descriptors and events *)
}.

Definition sim_with_view (v : kview chan_ptr) (s : sim) : sim :=
  mkSim v (sim_next_fd s) (sim_backlog s) (sim_incoming s) (sim_send_room s) (sim_script s).

(** A new descriptor, or -1. *)
Definition sim_open (f : kview chan_ptr → kview chan_ptr) (s : sim) : Z * sim :=
  let fd := sim_next_fd s in
  let v := sim_view s in
  if decide (0 <= fd < 2 ^ 31 ∧ (fd ∉ v_open v) ∧ v_interest v !! fd = None)
  then (fd, mkSim (view_accept fd (f v)) (fd + 1) (sim_backlog s) (sim_incoming s)
              (sim_send_room s) (sim_script s))
  else (-1, s).

Definition sim_recv (s : sim) (fd len : Z) : (Z * list byte * Z) * sim :=
  match trace_of (sim_incoming s) fd with
  | [] => ((-1, [], 11), sim_with_view (view_recv fd [] (sim_view s)) s)
  | waiting =>
      let data := take (Z.to_nat len) waiting in
      ((Z.of_nat (length data), data, 0),
       mkSim (view_recv fd data (sim_view s)) (sim_next_fd s) (sim_backlog s)
         (<[fd := drop (Z.to_nat len) waiting]> (sim_incoming s)) (sim_send_room s) (sim_script s))
  end.

Definition sim_send (s : sim) (fd : Z) (data : list byte) : Z * sim :=
  let n := Z.min (Z.max 1 (sim_send_room s)) (Z.of_nat (length data)) in
  (n, sim_with_view (view_send fd (take (Z.to_nat n) data) (sim_view s)) s).

Definition sim_accept (s : sim) (fd len : Z) : (Z * list byte) * sim :=
  match sim_backlog s with
  | O => ((-1, []), s)
  | S n =>
      let '(fd, s') := sim_open id s in
      ((fd, []), mkSim (sim_view s') (sim_next_fd s') n (sim_incoming s') (sim_send_room s')
                   (sim_script s'))
  end.

(** The events asked for [fd], of those in the script. *)
Definition sim_event (s : sim) (fe : Z * Z) : option (Z * epoll_event chan_ptr) :=
  match v_interest (sim_view s) !! fe.1 with
  | None => None
  | Some ie =>
      let e := u32 (Z.land fe.2 (Z.lor (ev_events ie) (Z.lor EPOLLERR EPOLLHUP))) in
      Some (fe.1, EpollEvent e (ev_ptr ie))
  end.

Definition sim_wait (s : sim) (epfd maxevents : Z) : (Z * list (epoll_event chan_ptr)) * sim :=
  match sim_script s with
  | [] => ((0, []), s)
  | turn :: script =>
      let s' := mkSim (sim_view s) (sim_next_fd s) (sim_backlog s) (sim_incoming s)
                  (sim_send_room s) script in
      let evs := omap (sim_event s) turn in
      if decide (NoDup evs.*1 ∧ Z.of_nat (length evs) <= maxevents)
      then ((Z.of_nat (length evs), evs.*2), s')
      else ((0, []), s')
  end.

#[export] Instance sim_Kernel : Kernel chan_ptr sim := {|
  sys_recv := sim_recv;
  sys_send := sim_send;
  sys_sigpipe s fd := false;
  sys_accept := sim_accept;
  sys_getsockname s fd len := ((0, []), s);
  sys_socket s domain := sim_open id s;
  sys_bind s fd addr := (0, s);
  sys_listen s fd backlog := (0, s);
  sys_shutdown_wr s fd := s;
  sys_close s fd := s;
  sys_epoll_create s := sim_open (view_interest ∅) s;
  sys_epoll_ctl s epfd op fd ev := (0, sim_with_view (view_ctl op fd ev (sim_view s)) s);
  sys_epoll_wait := sim_wait;
|}.

(** A machine on which [fds] are open, before the server starts. *)
Definition sim_boot (backlog : nat) (incoming : gmap Z (list byte)) (room : Z)
    (script : list (list (Z * Z))) : sim :=
  mkSim (KView (list_to_set [0; 1; 2]) ∅ ∅ ∅ false false) 3 backlog incoming room script.

(** ** The laws *)

Lemma sim_open_spec f s fd s' :
  (∀ v, v_open (f v) = v_open v) →
  sim_open f s = (fd, s') →
  (fd < 0 → s' = s)
  ∧ (0 <= fd → fd < 2 ^ 31 ∧ (fd ∉ v_open (sim_view s)) ∧ v_interest (sim_view s) !! fd = None
      ∧ sim_view s' = view_accept fd (f (sim_view s))).
Proof.
  intros Hf. unfold sim_open. case_decide as Hd; intros [= <- <-].
  - destruct Hd as (? & ? & ?). split; [lia|]. intros _. split_and!; try done. lia.
  - split; [done|lia].
Qed.

Lemma sim_event_ok s turn evs :
  evs = omap (sim_event s) turn →
  Forall2 (λ fd e, ∃ ie, (v_interest (sim_view s) !! fd = Some ie) ∧ event_ok ie e) evs.*1 evs.*2.
Proof.
  intros ->. induction turn as [|fe turn IH]; simpl; [constructor|].
  destruct (sim_event s fe) as [[fd e0]|] eqn:E; simpl; [|exact IH]. constructor; [|exact IH].
  unfold sim_event in E. destruct (v_interest (sim_view s) !! fe.1) as [ie|] eqn:Ei; [|done].
  simpl in E. injection E as <- <-. exists ie. split; [done|].
  set (e := u32 _). assert (0 <= e < 2 ^ 32) as He by (apply wrap_u_range; lia).
  unfold event_ok; simpl. split_and!; try done; try lia.
  intros i Hi. subst e. unfold wrap_u. rewrite <- Z.land_ones, !Z.land_spec by lia.
  by intros [[_ ?]%andb_true_iff _]%andb_true_iff.
Qed.

#[export] Instance sim_KernelLaws : KernelLaws chan_ptr sim.
Proof.
  refine {| k_view := sim_view |}; simpl.
  - unfold sim_recv. intros k fd len n data err k' E Hlen.
    destruct (trace_of (sim_incoming k) fd) as [|b l]; injection E as <- <- <- <-.
    + split_and!; try done; lia.
    + rewrite length_take. split_and!; try done; lia.
  - unfold sim_send. intros k fd data n k' [= <- <-]. split_and!; try done; lia.
  - intros k domain fd k' E. apply sim_open_spec in E as [Hn Hp]; [|done].
    split; [by intros ->%Hn|]. intros Hfd. destruct (Hp Hfd) as (? & ? & _ & ?). done.
  - by intros k fd addr r k' [= _ <-].
  - by intros k fd backlog r k' [= _ <-].
  - intros k fd k' E Hfd. apply sim_open_spec in E as [_ Hp]; [|done].
    destruct (Hp Hfd) as (? & ? & _ & ?). done.
  - unfold sim_accept. intros k fd len connfd addr k' E. destruct (sim_backlog k).
    + injection E as <- <- <-. split; [done|lia].
    + destruct (sim_open id k) as [fd1 s'] eqn:Eo. injection E as <- <- <-.
      apply sim_open_spec in Eo as [Hn Hp]; [|done]. simpl.
      split; [by intros ->%Hn|]. intros Hfd. destruct (Hp Hfd) as (? & ? & ? & ?).
      split_and!; try done. lia.
  - intros k fd len r addr k' [= <- <- <-]. simpl. split; [done|lia].
  - intros k epfd op fd ev r k' [= _ <-] _. simpl. split; [by left|done].
  - unfold sim_wait. intros k epfd maxevents n evs k' E _.
    assert (∃ fds, NoDup fds ∧ Forall2 (λ fd e, ∃ ie, (v_interest (sim_view k) !! fd = Some ie)
      ∧ event_ok ie e) fds []) as Hnil by (exists []; by split; constructor).
    destruct (sim_script k) as [|turn script]; [injection E as <- <- <-; split_and!; try done; lia|].
    destruct (decide _) as [[Hnd Hle]|]; injection E as <- <- <-; [|split_and!; try done; lia].
    rewrite length_fmap. split_and!; try done; try lia.
    exists ((omap (sim_event k) turn).*1). split; [done|]. by apply sim_event_ok with turn.
Defined.
