(* ===== verification/Poller.v ===== *)
(** * The poller and the channels (ccnet/net/EPollPoller.cc, Channel.cc)

    Registration of channels with epoll, and dispatch of the events of a
    channel to its callbacks.  [EventLoop::updateChannel] and [removeChannel]
    only forward to the poller and have no definition of their own here: they
    are [poller_updateChannel] and [poller_removeChannel]. *)

From S2P Require Import Prelude Kernel Buffer Net.

Section Poller.
Context {K : Type} `{Kernel chan_ptr K}.

(** ** EPollPoller.cc *)

(** EPollPoller::update; the result of [epoll_ctl] is not used. *)
Definition poller_update (operation : ctl_op) (channel : chan_ptr) : M (World K) unit :=
  ch ← get_chan channel;
  w ← get;
  syscall (λ k, sys_epoll_ctl k (poller_epfd (loop_poller (w_loop w))) operation (ch_fd ch)
                  (EpollEvent (u32 (ch_events ch)) channel)) ;;
  mret tt.

Definition poller_removeChannel (channel : chan_ptr) : M (World K) unit :=
  ch ← get_chan channel;
  modify (with_poller (λ p, set_channels (delete (ch_fd ch) (poller_channels p)) p)) ;;
  poller_update EPOLL_CTL_DEL channel.

Definition isNoEvent (ch : Channel) : bool := ch_events ch =? 0.

Definition poller_updateChannel (channel : chan_ptr) : M (World K) unit :=
  ch ← get_chan channel;
  w ← get;
  match poller_channels (loop_poller (w_loop w)) !! ch_fd ch with
  | Some _ =>
      if isNoEvent ch then
        poller_update EPOLL_CTL_DEL channel ;;
        poller_removeChannel channel
      else
        poller_update EPOLL_CTL_MOD channel
  | None =>
      modify (with_poller (λ p, set_channels (<[ch_fd ch := channel]> (poller_channels p)) p)) ;;
      poller_update EPOLL_CTL_ADD channel
  end.

(** The body of the [for] loop of [poll]: Channel::setEvents stores the events
    of the kernel in [revents_]. *)
Definition poller_activate (e : epoll_event chan_ptr) : M (World K) unit :=
  ch ← get_chan (ev_ptr e);
  put_chan (ev_ptr e) (set_revents (i32 (ev_events e)) ch) ;;
  modify (with_loop (λ l, set_active (loop_active_channels l ++ [ev_ptr e]) l)).

Definition poller_poll : M (World K) unit :=
  w ← get;
  let p := loop_poller (w_loop w) in
  r ← syscall (λ k, sys_epoll_wait k (poller_epfd p) (i32 (poller_events_size p)));
  let '(epoll_events_counts, evs) := r in
  if epoll_events_counts <=? 0 then mret tt
  else
    iterM poller_activate evs ;;
    when (epoll_events_counts =? i32 (poller_events_size p))
      (modify (with_poller (λ p, set_events_size (u64 (poller_events_size p * 2)) p))).

(** ** Channel.cc *)

(** Channel::update and Channel::remove *)
Definition channel_update (c : chan_ptr) : M (World K) unit := poller_updateChannel c.
Definition channel_remove (c : chan_ptr) : M (World K) unit := poller_removeChannel c.

Definition isWriting (ch : Channel) : bool := has (ch_events ch) EPOLLOUT.
Definition isReading (ch : Channel) : bool := has (ch_events ch) (Z.lor EPOLLIN EPOLLPRI).

(** [events_ |= mask] and [events_ &= ~mask], computed on [unsigned int]. *)
Definition add_events (mask : Z) (ch : Channel) : Channel :=
  set_events (i32 (Z.lor (u32 (ch_events ch)) mask)) ch.

Definition del_events (mask : Z) (ch : Channel) : Channel :=
  set_events (i32 (Z.land (u32 (ch_events ch)) (u32 (Z.lnot mask)))) ch.

Definition change_events (f : Channel → Channel) (p : chan_ptr) : M (World K) unit :=
  ch ← get_chan p;
  put_chan p (f ch) ;;
  channel_update p.

Definition READ_EVENTS : Z := Z.lor (Z.lor EPOLLIN EPOLLPRI) EPOLLET.

Definition enableConnecting : chan_ptr → M (World K) unit := change_events (add_events EPOLLIN).
Definition enableReading : chan_ptr → M (World K) unit := change_events (add_events READ_EVENTS).
Definition disableReading : chan_ptr → M (World K) unit := change_events (del_events READ_EVENTS).
Definition enableWriting : chan_ptr → M (World K) unit := change_events (add_events EPOLLOUT).
Definition disableWriting : chan_ptr → M (World K) unit := change_events (del_events EPOLLOUT).
Definition disableAll : chan_ptr → M (World K) unit := change_events (set_events 0).

Definition channel_tie (p : chan_ptr) (obj : conn_ptr) : M (World K) unit :=
  ch ← get_chan p; put_chan p (set_tie obj ch).

(** [guard = tie_.lock()]: empty when nothing is tied or it is gone. *)
Definition lock_tie (p : chan_ptr) : M (World K) (option conn_ptr) :=
  ch ← get_chan p;
  w ← get;
  mret (match ch_tie ch with
        | Some c => if decide (is_Some (w_conns w !! c)) then Some c else None
        | None => None
        end).

(** A [shared_ptr] to a connection goes out of scope.  The other owner is the
    server's map; without it the connection is destroyed, and its channel with
    it.  [~TcpConnection] and [~Channel] do nothing, and there is no [Socket] to
    close, since [socket_] is never set. *)
Definition release_conn (c : conn_ptr) : M (World K) unit :=
  w ← get;
  if decide (map_Forall (λ _ c', c' ≠ c) (server_connections (w_server w)))
  then modify (with_conns (delete c))
  else mret tt.

Definition release_guard (guard : option conn_ptr) : M (World K) unit :=
  match guard with
  | Some c => release_conn c
  | None => mret tt
  end.

(** ** Channel::handleEvent *)

Section HandleEvent.
Context (invoke : event_callback → M (World K) unit).

(** [if (cb) cb();] *)
Definition call_if_set (cb : option event_callback) : M (World K) unit :=
  match cb with
  | Some f => invoke f
  | None => mret tt
  end.

(** One of the tests of [handleEvent], on the members of the channel as they
    are when it is reached. *)
Definition dispatch (p : chan_ptr) (test : Z → bool) (cb : Channel → option event_callback)
    : M (World K) unit :=
  ch ← get_chan p;
  when (test (ch_revents ch)) (call_if_set (cb ch)).

Definition is_close_event (r : Z) : bool := has r EPOLLHUP && negb (has r EPOLLIN).
Definition is_read_event (r : Z) : bool := has r (Z.lor (Z.lor EPOLLIN EPOLLPRI) EPOLLRDHUP).
Definition is_write_event (r : Z) : bool := has r EPOLLOUT.
Definition is_error_event (r : Z) : bool := has r EPOLLERR.

Definition handleEvent (p : chan_ptr) : M (World K) unit :=
  guard ← lock_tie p;
  dispatch p is_close_event ch_close_callback ;;
  dispatch p is_read_event ch_read_callback ;;
  dispatch p is_write_event ch_write_callback ;;
  dispatch p is_error_event ch_error_callback ;;
  release_guard guard.
End HandleEvent.
End Poller.

(** ** Effects of the operations *)

(** [do_step H]: run the first computation of a sequence by the equation [H]. *)
Tactic Notation "do_step" uconstr(H) := erewrite bind_run by (eapply H; eauto).

Section PollerLemmas.
Context {K : Type} `{KernelLaws chan_ptr K}.
Implicit Types (w : World K) (p : chan_ptr).

Abbreviation view w := (k_view (w_kernel w)).
Abbreviation channels w := (poller_channels (loop_poller (w_loop w))).

Definition interest_of (p : chan_ptr) (ch : Channel) : epoll_event chan_ptr :=
  EpollEvent (u32 (ch_events ch)) p.

(** The epoll instance of the loop exists. *)
Definition polling w : Prop := 0 <= poller_epfd (loop_poller (w_loop w)).

Lemma poller_update_run op p w ch :
  polling w → channel_at w p = Some ch →
  ∃ k', poller_update op p w = Ok tt (with_kernel k' w)
    ∧ ctl_result op (ch_fd ch) (interest_of p ch) (view w) (k_view k').
Proof.
  intros Hep Hch. unfold poller_update. do_step get_chan_run.
  unfold mbind, M_bind, get, syscall.
  destruct (sys_epoll_ctl _ _ _ _ _) as [r k'] eqn:E.
  exists k'. split; [done|]. by apply ctl_law in E as [E _]; [|exact Hep].
Qed.

Lemma updateChannel_mod_run p w ch :
  polling w → channel_at w p = Some ch → is_Some (channels w !! ch_fd ch) → isNoEvent ch = false →
  ∃ k', poller_updateChannel p w = Ok tt (with_kernel k' w)
    ∧ ctl_result EPOLL_CTL_MOD (ch_fd ch) (interest_of p ch) (view w) (k_view k').
Proof.
  intros Hep Hch [p0 Hp] Hev. unfold poller_updateChannel. do_step get_chan_run.
  rewrite get_bind, Hp, Hev. by apply poller_update_run.
Qed.

Lemma updateChannel_add_run p w ch :
  polling w → channel_at w p = Some ch → channels w !! ch_fd ch = None →
  ∃ k', poller_updateChannel p w
      = Ok tt (with_kernel k' (with_poller (λ q, set_channels (<[ch_fd ch := p]> (channels w)) q) w))
    ∧ ctl_result EPOLL_CTL_ADD (ch_fd ch) (interest_of p ch) (view w) (k_view k').
Proof.
  intros Hep Hch Hp. unfold poller_updateChannel. do_step get_chan_run.
  rewrite get_bind, Hp.
  rewrite modify_bind.
  destruct (poller_update_run EPOLL_CTL_ADD p
    (with_poller (λ q, set_channels (<[ch_fd ch := p]> (poller_channels q)) q) w) ch)
    as (k' & E & Hv).
  { exact Hep. }
  { unfold with_poller. by rewrite channel_at_with_loop. }
  exists k'. rewrite E. done.
Qed.

Lemma removeChannel_run p w ch :
  polling w → channel_at w p = Some ch →
  ∃ k', poller_removeChannel p w
      = Ok tt (with_kernel k' (with_poller (λ q, set_channels (delete (ch_fd ch) (channels w)) q) w))
    ∧ ctl_result EPOLL_CTL_DEL (ch_fd ch) (interest_of p ch) (view w) (k_view k').
Proof.
  intros Hep Hch. unfold poller_removeChannel. do_step get_chan_run.
  rewrite modify_bind.
  destruct (poller_update_run EPOLL_CTL_DEL p
    (with_poller (λ q, set_channels (delete (ch_fd ch) (poller_channels q)) q) w) ch)
    as (k' & E & Hv).
  { exact Hep. }
  { unfold with_poller. by rewrite channel_at_with_loop. }
  exists k'. rewrite E. done.
Qed.

Lemma updateChannel_del_run p w ch :
  polling w → channel_at w p = Some ch → is_Some (channels w !! ch_fd ch) → isNoEvent ch = true →
  ∃ k', poller_updateChannel p w
      = Ok tt (with_kernel k' (with_poller (λ q, set_channels (delete (ch_fd ch) (channels w)) q) w))
    ∧ unwatched (ch_fd ch) (view w) (k_view k').
Proof.
  intros Hep Hch [p0 Hp] Hev. unfold poller_updateChannel. do_step get_chan_run.
  rewrite get_bind, Hp, Hev.
  destruct (poller_update_run EPOLL_CTL_DEL p w ch Hep Hch) as (k1 & E1 & Hv1). do_step E1.
  destruct (removeChannel_run p (with_kernel k1 w) ch) as (k2 & E2 & Hv2).
  { exact Hep. }
  { by rewrite channel_at_with_kernel. }
  exists k2. rewrite E2. split; [done|]. simpl in Hv2.
  eapply unwatched_twice; by eapply ctl_del_unwatched.
Qed.

(** A change of the event mask of a registered channel that leaves it some
    event: the channel and the kernel's interest list agree afterwards. *)
Lemma change_events_run f p w ch :
  polling w → channel_at w p = Some ch → ch_fd (f ch) = ch_fd ch → isNoEvent (f ch) = false →
  is_Some (channels w !! ch_fd ch) →
  ∃ k', change_events f p w = Ok tt (with_kernel k' (put_channel p (f ch) w))
    ∧ ctl_result EPOLL_CTL_MOD (ch_fd ch) (interest_of p (f ch)) (view w) (k_view k').
Proof.
  intros Hep Hch Hfd Hev Hreg. unfold change_events. do_step get_chan_run.
  unfold put_chan. rewrite modify_bind.
  destruct (updateChannel_mod_run p (put_channel p (f ch) w) (f ch)) as (k' & E & Hv).
  - by destruct p.
  - by eapply channel_at_put_eq.
  - rewrite Hfd. by destruct p.
  - done.
  - exists k'. unfold channel_update. rewrite E. split; [done|].
    rewrite Hfd in Hv. by destruct p.
Qed.

Lemma change_events_add_run f p w ch :
  polling w → channel_at w p = Some ch → ch_fd (f ch) = ch_fd ch → channels w !! ch_fd ch = None →
  ∃ k', change_events f p w
      = Ok tt (with_kernel k' (with_poller (λ q, set_channels (<[ch_fd ch := p]> (channels w)) q)
                 (put_channel p (f ch) w)))
    ∧ ctl_result EPOLL_CTL_ADD (ch_fd ch) (interest_of p (f ch)) (view w) (k_view k').
Proof.
  intros Hep Hch Hfd Hreg. unfold change_events. do_step get_chan_run.
  unfold put_chan. rewrite modify_bind.
  destruct (updateChannel_add_run p (put_channel p (f ch) w) (f ch)) as (k' & E & Hv).
  - by destruct p.
  - by eapply channel_at_put_eq.
  - rewrite Hfd. by destruct p.
  - exists k'. unfold channel_update. rewrite E. rewrite Hfd in Hv |- *. by destruct p.
Qed.

Lemma disableAll_run p w ch :
  polling w → channel_at w p = Some ch → is_Some (channels w !! ch_fd ch) →
  ∃ k', disableAll p w
      = Ok tt (with_kernel k' (with_poller (λ q, set_channels (delete (ch_fd ch) (channels w)) q)
                 (put_channel p (set_events 0 ch) w)))
    ∧ unwatched (ch_fd ch) (view w) (k_view k').
Proof.
  intros Hep Hch Hreg. unfold disableAll, change_events. do_step get_chan_run.
  unfold put_chan. rewrite modify_bind.
  destruct (updateChannel_del_run p (put_channel p (set_events 0 ch) w) (set_events 0 ch))
    as (k' & E & Hv).
  - by destruct p.
  - by eapply channel_at_put_eq.
  - by destruct p.
  - done.
  - exists k'. unfold channel_update. rewrite E. by destruct p.
Qed.
End PollerLemmas.

(** ** Event masks *)

Lemma u32_i32 z : u32 (i32 z) = u32 z.
Proof. apply wrap_u_wrap_s. lia. Qed.

Lemma land_u32_range a b : 0 <= Z.land (u32 a) b < 2 ^ 32.
Proof.
  pose proof (wrap_u_range 32 a ltac:(lia)). split; [apply Z.land_nonneg; lia|].
  destruct (Z.eq_dec (Z.land (u32 a) b) 0) as [->|Hne]; [lia|].
  assert (0 <= Z.land (u32 a) b) by (apply Z.land_nonneg; lia).
  apply Z.log2_lt_pow2; [lia|].
  assert (Hbit := Z.bit_log2 (Z.land (u32 a) b) ltac:(lia)).
  rewrite Z.land_spec in Hbit. apply andb_true_iff in Hbit as [Hbit _].
  destruct (Z.lt_ge_cases (Z.log2 (Z.land (u32 a) b)) 32) as [|Hge]; [done|].
  rewrite Z.bits_above_log2 in Hbit; [done|lia|].
  destruct (Z.eq_dec (u32 a) 0) as [Ez|]; [by rewrite Ez, Z.land_0_l in Hne|].
  apply Z.lt_le_trans with 32; [apply Z.log2_lt_pow2|]; lia.
Qed.

Lemma lor_u32_range a m : 0 <= m < 2 ^ 32 → 0 <= Z.lor (u32 a) m < 2 ^ 32.
Proof.
  intros Hm. pose proof (wrap_u_range 32 a ltac:(lia)).
  split; [apply Z.lor_nonneg; lia|].
  destruct (Z.eq_dec (Z.lor (u32 a) m) 0) as [->|Hne]; [lia|].
  assert (0 <= Z.lor (u32 a) m) by (apply Z.lor_nonneg; lia).
  apply Z.log2_lt_pow2; [lia|]. rewrite Z.log2_lor by lia.
  assert (∀ x, 0 <= x < 2 ^ 32 → Z.log2 x < 32) as Hlog.
  { intros x Hx. destruct (Z.eq_dec x 0) as [->|]; [simpl; lia|]. apply Z.log2_lt_pow2; lia. }
  apply Z.max_lub_lt; apply Hlog; lia.
Qed.

Lemma events_add m ch :
  0 <= m < 2 ^ 32 → u32 (ch_events (add_events m ch)) = Z.lor (u32 (ch_events ch)) m.
Proof.
  intros Hm. unfold add_events; simpl. rewrite u32_i32.
  apply wrap_u_small. by apply lor_u32_range.
Qed.

Lemma events_del m ch :
  u32 (ch_events (del_events m ch)) = Z.land (u32 (ch_events ch)) (u32 (Z.lnot m)).
Proof.
  unfold del_events; simpl. rewrite u32_i32. apply wrap_u_small. apply land_u32_range.
Qed.

Lemma isNoEvent_add m ch : 0 < m < 2 ^ 32 → isNoEvent (add_events m ch) = false.
Proof.
  intros Hm. unfold isNoEvent. apply Z.eqb_neq. intros E.
  pose proof (events_add m ch ltac:(lia)) as Hu. rewrite E in Hu.
  symmetry in Hu. apply Z.lor_eq_0_iff in Hu. lia.
Qed.

Lemma has_add m ch : 0 < m < 2 ^ 32 → has (ch_events (add_events m ch)) m = true.
Proof.
  intros Hm. unfold has. rewrite events_add by lia.
  rewrite Z.land_lor_distr_l, Z.land_diag. apply negb_true_iff, Z.eqb_neq.
  intros E. apply Z.lor_eq_0_iff in E. lia.
Qed.

(** Clearing a mask clears it and keeps the events outside it. *)
Lemma has_del m ch : 0 <= m < 2 ^ 32 → has (ch_events (del_events m ch)) m = false.
Proof.
  intros Hm. unfold has. rewrite events_del. apply negb_false_iff, Z.eqb_eq.
  apply Z.bits_inj_0. intros i. rewrite !Z.land_spec.
  destruct (Z.lt_ge_cases i 0); [by rewrite (Z.testbit_neg_r m), !andb_false_r|].
  unfold wrap_u at 2. rewrite <- (Z.land_ones (Z.lnot m)) by lia.
  rewrite Z.land_spec, Z.lnot_spec by lia.
  destruct (Z.testbit m i); simpl; [|by rewrite andb_false_r].
  by rewrite andb_false_r.
Qed.
