(* ===== verification/Connection.v ===== *)
(** * Connections (ccnet/net/TcpConnection.cc)

    The operations of [TcpConnection].  [EventLoop::runInLoop] calls its
    argument at once, so [send] and [shutdown] are followed by their [...InLoop]
    parts.  The callbacks that user code installs are a class [Application]; the
    close callback, which the server installs, is an argument of [handleClose]
    and [handleRead].  Nothing ignores SIGPIPE, so that a [::send] that raises it ends
    the program ([Killed]).  Messages printed are left out. *)

From S2P Require Import Prelude Kernel Buffer Net Poller.

(** What user code does when a connection or a message callback is called. *)
Class Application (K : Type) : Type := {
  app_connection : connection_callback → conn_ptr → M (World K) unit;
  app_message : message_callback → conn_ptr → M (World K) unit;
}.

Section Connection.
Context {K : Type} `{Kernel chan_ptr K}.

(** The constructor: the channel's callbacks are bound to the new object. *)
Definition TcpConnection_new (this : conn_ptr) (name : string) (sockfd : Z)
    (localaddr peeraddr : list byte) : TcpConnection :=
  mkTcpConnection localaddr peeraddr name sockfd None None
    (Buffer_new kInitialSize) (Buffer_new kInitialSize)
    (mkChannel sockfd 0 0 None
       (Some (TcpConnection_handleRead this)) (Some (TcpConnection_handleWrite this))
       (Some (TcpConnection_handleClose this)) (Some (TcpConnection_handleError this)))
    None None None None.

Definition setConnState (c : conn_ptr) (state : ConnStateE) : M (World K) unit :=
  cn ← get_conn c; put_conn c (set_state state cn).

(** [conn_state_ == state] *)
Definition state_is (c : conn_ptr) (state : ConnStateE) : M (World K) bool :=
  cn ← get_conn c;
  match conn_state cn with
  | None => throw UninitRead
  | Some s => mret (bool_decide (s = state))
  end.

(** [len] is an [int]; [data] is the memory at the pointer passed. *)
Definition sendInLoop (c : conn_ptr) (data : list byte) (len : Z) : M (World K) unit :=
  connected ← state_is c kConnected;
  when connected (
    (if len <? 0 then throw OutOfBounds else mret tt) ;;
    cn ← get_conn c;
    output ← lift (append (take (Z.to_nat len) data) (conn_output cn));
    put_conn c (set_output output cn) ;;
    cn ← get_conn c;
    when (negb (isWriting (conn_channel cn))) (enableWriting (ConnChannel c))).

(** The [ssize_t] length is converted to [int] by the call of [sendInLoop]. *)
Definition send (c : conn_ptr) (msg : Buffer) : M (World K) unit :=
  connected ← state_is c kConnected;
  when connected (sendInLoop c (peek msg) (i32 (readableBytes msg))).

Definition shutdownInLoop (c : conn_ptr) : M (World K) unit :=
  cn ← get_conn c;
  when (negb (isWriting (conn_channel cn)))
    (match conn_socket cn with
     | None => throw NullDeref
     | Some fd => modify (λ w, with_kernel (sys_shutdown_wr (w_kernel w) fd) w)
     end).

Definition shutdown (c : conn_ptr) : M (World K) unit :=
  connected ← state_is c kConnected;
  when connected (setConnState c kDisconnecting ;; shutdownInLoop c).

(** [send(fd, data, len, 0)], which may raise SIGPIPE. *)
Definition send_call (fd : Z) (data : list byte) : M (World K) Z :=
  w ← get;
  if sys_sigpipe (w_kernel w) fd then throw Killed
  else syscall (λ k, sys_send k fd data).

Definition handleWrite (c : conn_ptr) : M (World K) unit :=
  cn ← get_conn c;
  when (isWriting (conn_channel cn)) (
    n ← send_call (ch_fd (conn_channel cn)) (peek (conn_output cn));
    when (0 <? n) (
      put_conn c (set_output (retrieve n (conn_output cn)) cn) ;;
      cn ← get_conn c;
      when (readableBytes (conn_output cn) =? 0) (disableWriting (ConnChannel c)))).

Definition handleError (c : conn_ptr) : M (World K) unit :=
  cn ← get_conn c; mret tt.

(** [cb(conn)] of a [std::function], which may be empty. *)
Definition call_or_throw {F} (cb : option F) (call : F → conn_ptr → M (World K) unit)
    (c : conn_ptr) : M (World K) unit :=
  match cb with
  | Some f => call f c
  | None => throw BadFunctionCall
  end.

Section Callbacks.
Context `{Application K}.

Definition connectEstablished (c : conn_ptr) : M (World K) unit :=
  setConnState c kConnected ;;
  enableReading (ConnChannel c) ;;
  channel_tie (ConnChannel c) c ;;
  cn ← get_conn c;
  call_or_throw (conn_connect_cb cn) app_connection c.

Definition connectDestroyed (c : conn_ptr) : M (World K) unit :=
  connected ← state_is c kConnected;
  when connected (
    setConnState c kDisconnected ;;
    disableAll (ConnChannel c) ;;
    cn ← get_conn c;
    call_or_throw (conn_connect_cb cn) app_connection c).

Context (call_close : close_callback → conn_ptr → M (World K) unit).

Definition handleClose (c : conn_ptr) : M (World K) unit :=
  setConnState c kDisconnected ;;
  disableAll (ConnChannel c) ;;
  cn ← get_conn c;
  call_or_throw (conn_close_cb cn) call_close c.

Definition handleRead (c : conn_ptr) : M (World K) unit :=
  cn ← get_conn c;
  w ← get;
  r ← lift (readFd (ch_fd (conn_channel cn)) (conn_input cn) (w_kernel w));
  let '(n, save_err, input, k) := r in
  modify (with_kernel k) ;;
  put_conn c (set_input input cn) ;;
  if 0 <? n then
    cn ← get_conn c; call_or_throw (conn_message_cb cn) app_message c
  else if n =? 0 then handleClose c
  else handleError c.
End Callbacks.
End Connection.

(** ** Effects of the operations *)

Section ConnectionLemmas.
Context {K : Type} `{KernelLaws chan_ptr K}.
Implicit Types (w : World K) (c : conn_ptr) (cn : TcpConnection).

(** A world in which only the connection [c] and the kernel have changed. *)
Definition upd_conn c cn (k : K) w : World K :=
  mkWorld k (w_loop w) (w_acceptor w) (w_server w) (<[c := cn]> (w_conns w)) (w_next_ptr w).

Lemma upd_conn_upd_conn c cn1 cn2 k1 k2 w :
  upd_conn c cn2 k2 (upd_conn c cn1 k1 w) = upd_conn c cn2 k2 w.
Proof. unfold upd_conn; simpl. by rewrite insert_insert_eq. Qed.

Lemma put_conn_upd c cn w : put_conn c cn w = Ok tt (upd_conn c cn (w_kernel w) w).
Proof. done. Qed.

Lemma put_conn_kernel c cn k w : put_conn c cn (with_kernel k w) = Ok tt (upd_conn c cn k w).
Proof. done. Qed.

Lemma upd_conn_lookup c cn k w : w_conns (upd_conn c cn k w) !! c = Some cn.
Proof. apply lookup_insert_eq. Qed.

Lemma upd_conn_id c cn k w : w_conns w !! c = Some cn → upd_conn c cn k w = with_kernel k w.
Proof. intros E. unfold upd_conn. by rewrite insert_id. Qed.

Lemma put_channel_upd c cn ch k w :
  w_conns w !! c = Some cn →
  with_kernel k (put_channel (ConnChannel c) ch w) = upd_conn c (set_channel ch cn) k w.
Proof.
  intros E. unfold upd_conn, with_kernel; simpl. by erewrite alter_set_channel by done.
Qed.

Lemma state_is_run c cn s s' w :
  w_conns w !! c = Some cn → conn_state cn = Some s' →
  state_is c s w = Ok (bool_decide (s' = s)) w.
Proof.
  intros E Hs. unfold state_is. do_step get_conn_run. by rewrite Hs.
Qed.

Lemma setConnState_run c cn s w :
  w_conns w !! c = Some cn →
  setConnState c s w = Ok tt (upd_conn c (set_state s cn) (w_kernel w) w).
Proof. intros E. unfold setConnState. by do_step get_conn_run. Qed.

Definition registered (cn : TcpConnection) w : Prop :=
  polling w ∧ is_Some (poller_channels (loop_poller (w_loop w)) !! ch_fd (conn_channel cn)).

(** Changing the events of a registered connection's channel. *)
Lemma change_events_conn f c cn w :
  w_conns w !! c = Some cn → registered cn w →
  ch_fd (f (conn_channel cn)) = ch_fd (conn_channel cn) → isNoEvent (f (conn_channel cn)) = false →
  ∃ k', change_events f (ConnChannel c) w
      = Ok tt (upd_conn c (set_channel (f (conn_channel cn)) cn) k' w)
    ∧ ctl_result EPOLL_CTL_MOD (ch_fd (conn_channel cn))
        (interest_of (ConnChannel c) (f (conn_channel cn))) (k_view (w_kernel w)) (k_view k').
Proof.
  intros E [Hep Hreg] Hfd Hev.
  destruct (change_events_run f (ConnChannel c) w (conn_channel cn)) as (k' & Ek & Hv);
    [done|by apply channel_at_conn|done..|].
  exists k'. rewrite Ek. by erewrite put_channel_upd by done.
Qed.

(** What sending leaves in the channel and tells the kernel. *)
Definition writing_channel (ch : Channel) : Channel :=
  if isWriting ch then ch else add_events EPOLLOUT ch.

Definition writing_view c (ch : Channel) (v v' : kview chan_ptr) : Prop :=
  if isWriting ch then v' = v
  else ctl_result EPOLL_CTL_MOD (ch_fd ch) (interest_of (ConnChannel c) (writing_channel ch)) v v'.

Lemma sendInLoop_run c cn data len out w :
  w_conns w !! c = Some cn → conn_state cn = Some kConnected → registered cn w →
  0 <= len → append (take (Z.to_nat len) data) (conn_output cn) = inr out →
  ∃ k', sendInLoop c data len w
      = Ok tt (upd_conn c (set_channel (writing_channel (conn_channel cn)) (set_output out cn)) k' w)
    ∧ writing_view c (conn_channel cn) (k_view (w_kernel w)) (k_view k').
Proof.
  intros E Hst Hreg Hlen Happ. unfold sendInLoop. do_step state_is_run.
  rewrite bool_decide_true by done. simpl when.
  rewrite (proj2 (Z.ltb_ge len 0)) by done. rewrite ret_bind.
  do_step get_conn_run. rewrite Happ. simpl lift. rewrite ret_bind.
  erewrite bind_run by apply put_conn_upd.
  erewrite bind_run by apply get_conn_run, upd_conn_lookup.
  unfold writing_channel, writing_view. simpl conn_channel.
  destruct (isWriting (conn_channel cn)) eqn:Ew; simpl when.
  - exists (w_kernel w). by split.
  - destruct (change_events_conn (add_events EPOLLOUT) c (set_output out cn)
      (upd_conn c (set_output out cn) (w_kernel w) w)) as (k' & Ek & Hv);
      [apply upd_conn_lookup|done|done|by apply isNoEvent_add|].
    exists k'. unfold enableWriting. rewrite Ek, upd_conn_upd_conn. split; [done|].
    unfold writing_channel in *. simpl in Hv. by rewrite Ew.
Qed.

Lemma send_run c cn msg out w :
  w_conns w !! c = Some cn → conn_state cn = Some kConnected → registered cn w →
  buffer_wf msg → readableBytes msg < 2 ^ 31 →
  append (peek msg) (conn_output cn) = inr out →
  ∃ k', send c msg w
      = Ok tt (upd_conn c (set_channel (writing_channel (conn_channel cn)) (set_output out cn)) k' w)
    ∧ writing_view c (conn_channel cn) (k_view (w_kernel w)) (k_view k').
Proof.
  intros E Hst Hreg Hwf Hlt Happ. unfold send. do_step state_is_run.
  rewrite bool_decide_true by done. simpl when.
  pose proof (length_peek msg Hwf). rewrite wrap_s_small by (simpl; lia).
  apply sendInLoop_run; [done..|lia|].
  rewrite take_ge by lia. done.
Qed.

Lemma send_fault c cn msg e w :
  w_conns w !! c = Some cn → conn_state cn = Some kConnected →
  buffer_wf msg → readableBytes msg < 2 ^ 31 →
  append (peek msg) (conn_output cn) = inl e →
  send c msg w = Fault e.
Proof.
  intros E Hst Hwf Hlt Happ. unfold send. do_step state_is_run.
  rewrite bool_decide_true by done. simpl when. unfold sendInLoop. do_step state_is_run.
  rewrite bool_decide_true by done. simpl when.
  pose proof (length_peek msg Hwf). rewrite wrap_s_small by (simpl; lia).
  rewrite (proj2 (Z.ltb_ge _ 0)) by lia. rewrite ret_bind. do_step get_conn_run.
  rewrite take_ge by lia. by rewrite Happ.
Qed.

(** What is left of the connection, and of the kernel's view, after [send(2)]
    has taken [n] bytes. *)
Definition flushed n cn : TcpConnection :=
  if 0 <? n then
    let out := retrieve n (conn_output cn) in
    set_channel (if readableBytes out =? 0 then del_events EPOLLOUT (conn_channel cn)
                 else conn_channel cn) (set_output out cn)
  else cn.

Definition flush_view c n cn (v v' : kview chan_ptr) : Prop :=
  let ch := conn_channel cn in
  let v := view_send (ch_fd ch) (take (Z.to_nat n) (peek (conn_output cn))) v in
  if (0 <? n) && (readableBytes (retrieve n (conn_output cn)) =? 0) then
    ctl_result EPOLL_CTL_MOD (ch_fd ch) (interest_of (ConnChannel c) (del_events EPOLLOUT ch)) v v'
  else v' = v.

Lemma handleWrite_run c cn w :
  w_conns w !! c = Some cn → registered cn w →
  isWriting (conn_channel cn) = true → isNoEvent (del_events EPOLLOUT (conn_channel cn)) = false →
  sys_sigpipe (w_kernel w) (ch_fd (conn_channel cn)) = false →
  ∃ n k', handleWrite c w = Ok tt (upd_conn c (flushed n cn) k' w)
    ∧ n = (sys_send (w_kernel w) (ch_fd (conn_channel cn)) (peek (conn_output cn))).1
    ∧ -1 <= n <= Z.of_nat (length (peek (conn_output cn)))
    ∧ flush_view c n cn (k_view (w_kernel w)) (k_view k').
Proof.
  intros E Hreg Hw Hev Hpipe. unfold handleWrite. do_step get_conn_run. rewrite Hw. simpl when.
  unfold mbind at 1, M_bind at 1. unfold send_call. rewrite get_bind, Hpipe. unfold syscall.
  destruct (sys_send _ _ _) as [n k1] eqn:Es. pose proof Es as [Hn Hv1]%send_law. simpl fst.
  unfold flushed, flush_view. destruct (Z.ltb_spec 0 n); simpl when.
  2: { exists n, k1. rewrite (proj2 (Z.ltb_ge 0 n)) by done.
       split_and!; [|done|lia|lia|done]. by erewrite upd_conn_id by done. }
  exists n. rewrite (proj2 (Z.ltb_lt 0 n)) by done.
  erewrite bind_run by apply put_conn_kernel.
  erewrite bind_run by apply get_conn_run, upd_conn_lookup.
  simpl conn_output. simpl andb.
  destruct (readableBytes (retrieve n (conn_output cn)) =? 0) eqn:Er; simpl when.
  - destruct (change_events_conn (del_events EPOLLOUT) c (set_output (retrieve n (conn_output cn)) cn)
      (upd_conn c (set_output (retrieve n (conn_output cn)) cn) k1 w)) as (k' & Ek & Hv);
      [apply upd_conn_lookup|done|done|done|].
    exists k'. unfold disableWriting. rewrite Ek, upd_conn_upd_conn.
    split_and!; [done|done|lia|lia|]. simpl in Hv. by rewrite <- Hv1.
  - exists k1. split_and!; [|done|lia|lia|done]. by destruct cn.
Qed.

Lemma handleWrite_killed c cn w :
  w_conns w !! c = Some cn → isWriting (conn_channel cn) = true →
  sys_sigpipe (w_kernel w) (ch_fd (conn_channel cn)) = true → handleWrite c w = Fault Killed.
Proof.
  intros E Hw Hpipe. unfold handleWrite. do_step get_conn_run. rewrite Hw. simpl when.
  unfold send_call, mbind at 1, M_bind at 1. by rewrite get_bind, Hpipe.
Qed.

(** Without output events nothing is sent. *)
Lemma handleWrite_idle c cn w :
  w_conns w !! c = Some cn → isWriting (conn_channel cn) = false →
  handleWrite c w = Ok tt w.
Proof. intros E Hw. unfold handleWrite. do_step get_conn_run. by rewrite Hw. Qed.

Section CallbackLemmas.
Context `{Application K}.
Context (call_close : close_callback → conn_ptr → M (World K) unit).

(** [readFd] never returns a negative count, so what follows it is the message
    callback or [handleClose]. *)
Lemma handleRead_run c cn w :
  w_conns w !! c = Some cn → buffer_wf (conn_input cn) →
  ∃ input k' data,
    let w1 := upd_conn c (set_input input cn) k' w in
    handleRead call_close c w
      = (if 0 <? Z.of_nat (length data)
         then call_or_throw (conn_message_cb cn) app_message c w1
         else handleClose call_close c w1)
    ∧ buffer_wf input ∧ peek input = peek (conn_input cn) ++ data
    ∧ buffer_size input = buffer_size (conn_input cn)
    ∧ Z.of_nat (length data) <= writableBytes (conn_input cn)
    ∧ k_view k' = view_recv (ch_fd (conn_channel cn)) data (k_view (w_kernel w)).
Proof.
  intros E Hwf.
  destruct (readFd_spec (ch_fd (conn_channel cn)) (conn_input cn) (w_kernel w) Hwf)
    as (n & err & input & k' & data & Er & Hwf' & Hp & Hsz & Hn & Hle & Hv).
  exists input, k', data. simpl. subst n. split_and!; try done.
  unfold handleRead. do_step get_conn_run. rewrite get_bind, Er. simpl lift. rewrite ret_bind.
  rewrite modify_bind. erewrite bind_run by apply put_conn_kernel.
  destruct (Z.ltb_spec 0 (Z.of_nat (length data))) as [Hlt|Hge].
  - erewrite bind_run by apply get_conn_run, upd_conn_lookup. done.
  - by rewrite (proj2 (Z.eqb_eq _ 0)) by lia.
Qed.

Definition established_conn c cn : TcpConnection :=
  set_channel (set_tie c (add_events READ_EVENTS (conn_channel cn))) (set_state kConnected cn).

(** A connection whose descriptor the poller does not know is registered. *)
Lemma connectEstablished_run c cn w :
  polling w → w_conns w !! c = Some cn →
  poller_channels (loop_poller (w_loop w)) !! ch_fd (conn_channel cn) = None →
  ∃ k',
    let fd := ch_fd (conn_channel cn) in
    let w1 := with_poller (λ q, set_channels
                (<[fd := ConnChannel c]> (poller_channels (loop_poller (w_loop w)))) q)
                (upd_conn c (established_conn c cn) k' w) in
    connectEstablished c w = call_or_throw (conn_connect_cb cn) app_connection c w1
    ∧ ctl_result EPOLL_CTL_ADD fd
        (interest_of (ConnChannel c) (add_events READ_EVENTS (conn_channel cn)))
        (k_view (w_kernel w)) (k_view k').
Proof.
  intros Hep E Hreg. unfold connectEstablished. do_step setConnState_run.
  destruct (change_events_add_run (add_events READ_EVENTS) (ConnChannel c)
    (upd_conn c (set_state kConnected cn) (w_kernel w) w) (conn_channel cn)) as (k' & Ek & Hv);
    [done|by erewrite channel_at_conn by apply upd_conn_lookup|done..|].
  exists k'. split; [|done]. unfold enableReading. do_step Ek.
  change (with_kernel k' (with_poller ?f ?x)) with (with_poller f (with_kernel k' x)).
  erewrite put_channel_upd by apply upd_conn_lookup.
  unfold channel_tie, put_chan. rewrite upd_conn_upd_conn.
  set (w1 := with_poller _ _).
  assert (w_conns w1 !! c = Some (set_channel (add_events READ_EVENTS (conn_channel cn))
    (set_state kConnected cn))) as E1 by apply lookup_insert_eq.
  erewrite bind_run.
  2: { erewrite bind_run by (apply get_chan_run, channel_at_conn, E1). reflexivity. }
  erewrite bind_run.
  2: { apply get_conn_run. simpl. erewrite alter_set_channel by exact E1. apply lookup_insert_eq. }
  simpl conn_connect_cb. f_equal. unfold w1, upd_conn, with_poller, with_loop, put_channel, with_conns; simpl.
  erewrite alter_set_channel by apply lookup_insert_eq. by rewrite insert_insert_eq.
Qed.

Lemma connectDestroyed_idle c cn s w :
  w_conns w !! c = Some cn → conn_state cn = Some s → s ≠ kConnected →
  connectDestroyed c w = Ok tt w.
Proof.
  intros E Hs Hne. unfold connectDestroyed. do_step state_is_run.
  by rewrite bool_decide_false by done.
Qed.
End CallbackLemmas.
End ConnectionLemmas.
