(* ===== verification/Server.v ===== *)
(** * Sockets, acceptor, server and loop (ccnet/net/TcpAddr.cc, Socket.cc, Acceptor.cc, TcpServer.cc, EventLoop.cc)

    The listening socket, the acceptance and removal of connections, the
    dispatch of callbacks and the loop itself.  The thread pool that
    [TcpServer::start] starts is that of LoopPool.v, [thread_pool_start] its start:
    [newConnection] gives every connection to the loop of the server, so the pool's
    loops would never hold a channel, and only the pool itself is in the [World]. *)

From S2P Require Import Prelude Kernel Buffer LoopPool Net Poller Connection.

(** ** Addresses *)

Definition AF_INET : Z := 2.
Definition sizeof_sockaddr_in : nat := 16.

(** [memset(&addr, 0, sizeof addr)] *)
Definition zero_addr : list byte := replicate sizeof_sockaddr_in Byte.x00.

(** TcpAddr::TcpAddr(port): family, port in network order, INADDR_ANY. *)
Definition TcpAddr_new (port : Z) : list byte :=
  blit 2 [Z_byte (u32 port / 256); Z_byte port]
    (blit 0 [Z_byte AF_INET; Z_byte (AF_INET / 256)] zero_addr).

(** TcpAddr::family *)
Definition family (addr : list byte) : Z :=
  byte_Z (nth 0 addr Byte.x00) + 256 * byte_Z (nth 1 addr Byte.x00).

(** What a call that was given room for [len] bytes leaves in an address. *)
Definition store_addr (stored addr : list byte) : list byte := blit 0 stored addr.

Section Server.
Context {K : Type} `{Kernel chan_ptr K}.

(** ** Socket.cc *)

(** Socket::accept: [socklen_t len = 0]. *)
Definition socket_accept (fd : Z) : M (World K) (Z * option (list byte)) :=
  r ← syscall (λ k, sys_accept k fd 0);
  let '(connfd, stored) := r in
  mret (connfd, if 0 <=? connfd then Some (store_addr stored zero_addr) else None).

(** Socket::getSockAddr and TcpServer::getSockAddr *)
Definition getSockAddr (sockfd : Z) : M (World K) (list byte) :=
  r ← syscall (λ k, sys_getsockname k sockfd (Z.of_nat sizeof_sockaddr_in));
  let '(_, stored) := r in mret (store_addr stored zero_addr).

(** Socket::createSocket and bind; the errors are printed and returned. *)
Definition createSocket (addr : list byte) (k : K) : (Z * Z) * K :=
  let '(fd, k) := sys_socket k (family addr) in
  ((if fd =? -1 then -1 else 0), fd, k).

Definition socket_bind (fd : Z) (addr : list byte) (k : K) : Z * K :=
  let '(r, k) := sys_bind k fd addr in ((if r =? -1 then -1 else 0), k).

Definition socket_listen (fd : Z) : M (World K) Z :=
  r ← syscall (λ k, sys_listen k fd 5);
  mret (if r =? -1 then -1 else 0).

(** ** Construction *)

(** Acceptor::Acceptor: the results of the socket calls are not looked at. *)
Definition Acceptor_new (addr : list byte) (k : K) : Acceptor * K :=
  let '(_, fd, k) := createSocket addr k in
  let '(_, k) := socket_bind fd addr k in
  (mkAcceptor fd (mkChannel fd 0 0 None (Some Acceptor_handleRead) None None None) None, k).

(** EventLoop::EventLoop and EPollPoller::EPollPoller. *)
Definition EventLoop_new (k : K) : EventLoop * K :=
  let '(epfd, k) := sys_epoll_create k in
  (mkEventLoop false false [] (mkEPollPoller epfd 16 ∅), k).

(** The name of the loop of [main], for the pool. *)
Definition MAIN_LOOP : loop_ptr := O.

(** TcpServer::TcpServer, with the new-connection callback it sets. *)
Definition TcpServer_new (addr : list byte) (name : string) (k : K) : TcpServer * Acceptor * K :=
  let '(a, k) := Acceptor_new addr k in
  (mkTcpServer ∅ 0 name (Some defaultConnectionCallback) (Some defaultMessageCallback) None
     (Pool.EventLoopThreadPool_new MAIN_LOOP),
   mkAcceptor (acceptor_fd a) (acceptor_channel a) (Some TcpServer_newConnection), k).

(** ** TcpServer.cc *)

Section Callbacks.
Context `{Application K}.

(** TcpServer::removeConnection and removeConnectionInLoop. *)
Definition removeConnection (c : conn_ptr) : M (World K) unit :=
  cn ← get_conn c;
  modify (with_server (λ s, set_connections (delete (conn_name cn) (server_connections s)) s)) ;;
  connectDestroyed c.

Definition call_close (cb : close_callback) (c : conn_ptr) : M (World K) unit :=
  match cb with TcpServer_removeConnection => removeConnection c end.

(** [sprintf(buf, ":%d", nextConnId_++)]: overflow of the counter is undefined. *)
Definition next_conn_id : M (World K) Z :=
  w ← get;
  let i := server_nextConnId (w_server w) in
  if i =? 2 ^ 31 - 1 then throw IntOverflow
  else modify (with_server (set_nextConnId (i + 1))) ;; mret i.

Definition conn_name_of (name : string) (i : Z) : string := (name +:+ ":" +:+ pretty i)%string.

(** [connections_[connName] = conn]: the pointer that was there is released. *)
Definition store_connection (name : string) (c : conn_ptr) : M (World K) unit :=
  w ← get;
  modify (with_server (λ s, set_connections (<[name := c]> (server_connections s)) s)) ;;
  release_guard (server_connections (w_server w) !! name).

Definition newConnection (sockfd : Z) (peerAddr : list byte) : M (World K) unit :=
  localaddr ← getSockAddr sockfd;
  i ← next_conn_id;
  w ← get;
  let connName := conn_name_of (server_name (w_server w)) i in
  let conn := w_next_ptr w in
  modify (alloc_conn (TcpConnection_new conn connName sockfd localaddr peerAddr)) ;;
  store_connection connName conn ;;
  cn ← get_conn conn;
  w ← get;
  put_conn conn (set_callbacks (server_connect_cb (w_server w)) (server_message_cb (w_server w))
                   (server_writecomplete_cb (w_server w)) (Some TcpServer_removeConnection) cn) ;;
  connectEstablished conn.

(** ** Acceptor.cc *)

Definition acceptor_listen : M (World K) unit :=
  w ← get;
  socket_listen (acceptor_fd (w_acceptor w)) ;;
  enableConnecting AcceptChannel.

Definition acceptor_handleRead : M (World K) unit :=
  w ← get;
  r ← socket_accept (acceptor_fd (w_acceptor w));
  match r with
  | (connfd, Some peerAddr) =>
      match acceptor_newconnection_cb (w_acceptor w) with
      | Some TcpServer_newConnection => newConnection connfd peerAddr
      | None => modify (λ w', with_kernel (sys_close (w_kernel w') (acceptor_fd (w_acceptor w))) w')
      end
  | (_, None) => mret tt
  end.

(** Acceptor::~Acceptor *)
Definition acceptor_destroy : M (World K) unit :=
  disableAll AcceptChannel ;;
  channel_remove AcceptChannel.

(** ** EventLoop.cc *)

(** The [std::bind] expressions held by the channels. *)
Definition invoke (cb : event_callback) : M (World K) unit :=
  match cb with
  | Acceptor_handleRead => acceptor_handleRead
  | TcpConnection_handleRead c => handleRead call_close c
  | TcpConnection_handleWrite c => handleWrite c
  | TcpConnection_handleClose c => handleClose call_close c
  | TcpConnection_handleError c => handleError c
  end.

(** The body of the [while] loop of [loop()]. *)
Definition loop_turn : M (World K) unit :=
  modify (with_loop (set_active [])) ;;
  poller_poll ;;
  w ← get;
  iterM (handleEvent invoke) (loop_active_channels (w_loop w)).

(** [while (!quit_)], for at most [n] turns; the result says whether the loop
    has ended. *)
Fixpoint loop_turns (n : nat) : M (World K) bool :=
  w ← get;
  if loop_quit (w_loop w) then mret true
  else
    match n with
    | O => mret false
    | S n' => loop_turn ;; loop_turns n'
    end.

Definition loop (n : nat) : M (World K) bool :=
  modify (with_loop set_running) ;;
  loop_turns n.

(** [thread_pool_->start()], without a callback. *)
Definition thread_pool_start : M (World K) unit :=
  w ← get;
  match Pool.start false (server_thread_pool (w_server w)) with
  | inl e => throw e
  | inr (p, _) => modify (with_server (set_thread_pool p))
  end.

(** TcpServer::start *)
Definition server_start : M (World K) unit := thread_pool_start ;; acceptor_listen.
End Callbacks.
End Server.

(** ** Effects of the operations *)

Section ServerLemmas.
Context {K : Type} `{KernelLaws chan_ptr K} `{Application K}.
Implicit Types (w : World K) (c : conn_ptr) (cn : TcpConnection).

(** A connection that [handleClose] has been through, and the world then: the
    connection is unregistered and out of the map, still allocated. *)
Definition closed_conn cn : TcpConnection :=
  set_channel (set_events 0 (conn_channel cn)) (set_state kDisconnected cn).

Definition closed_world c cn (k : K) w : World K :=
  with_server (λ s, set_connections (delete (conn_name cn) (server_connections (w_server w))) s)
    (with_poller (λ q, set_channels
        (delete (ch_fd (conn_channel cn)) (poller_channels (loop_poller (w_loop w)))) q)
      (upd_conn c (closed_conn cn) k w)).

Lemma handleClose_run c cn w :
  w_conns w !! c = Some cn → registered cn w →
  conn_close_cb cn = Some TcpServer_removeConnection →
  ∃ k', handleClose call_close c w = Ok tt (closed_world c cn k' w)
    ∧ unwatched (ch_fd (conn_channel cn)) (k_view (w_kernel w)) (k_view k').
Proof.
  intros E [Hep Hreg] Hcb. unfold handleClose. do_step setConnState_run.
  destruct (disableAll_run (ConnChannel c)
    (upd_conn c (set_state kDisconnected cn) (w_kernel w) w) (conn_channel cn)) as (k' & Ek & Hv);
    [done|by erewrite channel_at_conn by apply upd_conn_lookup|done|].
  exists k'. split; [|done]. do_step Ek.
  change (with_kernel k' (with_poller ?f ?x)) with (with_poller f (with_kernel k' x)).
  erewrite put_channel_upd by apply upd_conn_lookup. rewrite upd_conn_upd_conn.
  erewrite bind_run by apply get_conn_run, lookup_insert_eq.
  simpl conn_close_cb. rewrite Hcb. simpl call_or_throw. unfold removeConnection.
  erewrite bind_run by apply get_conn_run, lookup_insert_eq.
  rewrite modify_bind. erewrite connectDestroyed_idle; [done|apply lookup_insert_eq|done|done].
Qed.

(** The connection object of an accepted socket, and the world it is added to. *)
Definition accepted_name w : string :=
  conn_name_of (server_name (w_server w)) (server_nextConnId (w_server w)).

Definition accepted_conn (sockfd : Z) (localaddr peeraddr : list byte) w : TcpConnection :=
  set_callbacks (server_connect_cb (w_server w)) (server_message_cb (w_server w))
    (server_writecomplete_cb (w_server w)) (Some TcpServer_removeConnection)
    (TcpConnection_new (w_next_ptr w) (accepted_name w) sockfd localaddr peeraddr).

Definition stored_world (sockfd : Z) (localaddr peeraddr : list byte) (k : K) w : World K :=
  with_server (λ s, set_connections (<[accepted_name w := w_next_ptr w]> (server_connections s))
                      (set_nextConnId (server_nextConnId s + 1) s))
    (alloc_conn (accepted_conn sockfd localaddr peeraddr w) (with_kernel k w)).

Definition accepted_world (sockfd : Z) (localaddr peeraddr : list byte) (k : K) w : World K :=
  with_poller (λ q, set_channels
      (<[sockfd := ConnChannel (w_next_ptr w)]> (poller_channels (loop_poller (w_loop w)))) q)
    (upd_conn (w_next_ptr w)
       (established_conn (w_next_ptr w) (accepted_conn sockfd localaddr peeraddr w)) k
       (stored_world sockfd localaddr peeraddr k w)).

Lemma getSockAddr_run fd w :
  ∃ addr k', getSockAddr fd w = Ok addr (with_kernel k' w)
    ∧ k_view k' = k_view (w_kernel w).
Proof.
  unfold getSockAddr, syscall. unfold mbind at 1, M_bind at 1.
  destruct (sys_getsockname _ _ _) as [[r stored] k'] eqn:E.
  apply getsockname_law in E as [Hv _].
  exists (store_addr stored zero_addr), k'. done.
Qed.

Lemma newConnection_run sockfd peeraddr w :
  polling w →
  server_nextConnId (w_server w) ≠ 2 ^ 31 - 1 →
  server_connections (w_server w) !! accepted_name w = None →
  poller_channels (loop_poller (w_loop w)) !! sockfd = None →
  ∃ localaddr k',
    newConnection sockfd peeraddr w
      = call_or_throw (server_connect_cb (w_server w)) app_connection (w_next_ptr w)
          (accepted_world sockfd localaddr peeraddr k' w)
    ∧ ctl_result EPOLL_CTL_ADD sockfd
        (interest_of (ConnChannel (w_next_ptr w))
           (add_events READ_EVENTS (conn_channel (accepted_conn sockfd localaddr peeraddr w))))
        (k_view (w_kernel w)) (k_view k').
Proof.
  intros Hep Hi Hname Hfd.
  destruct (getSockAddr_run sockfd w) as (localaddr & k1 & Ea & Hv1).
  exists localaddr. unfold newConnection. do_step Ea.
  erewrite bind_run.
  2: { unfold next_conn_id. rewrite get_bind. simpl w_server.
       rewrite (proj2 (Z.eqb_neq _ _)) by done. rewrite modify_bind. reflexivity. }
  rewrite get_bind, modify_bind.
  erewrite bind_run.
  2: { unfold store_connection. rewrite get_bind, modify_bind.
       simpl w_server. simpl server_connections.
       change (conn_name_of _ _) with (accepted_name w). rewrite Hname. reflexivity. }
  erewrite bind_run by apply get_conn_run, lookup_insert_eq.
  rewrite get_bind. erewrite bind_run by apply put_conn_upd.
  match goal with
  | |- context [ connectEstablished _ ?x ] =>
      replace x with (stored_world sockfd localaddr peeraddr k1 w)
        by (unfold stored_world, alloc_conn, with_server, upd_conn; simpl;
            by rewrite insert_insert_eq)
  end.
  destruct (connectEstablished_run (w_next_ptr w) (accepted_conn sockfd localaddr peeraddr w)
    (stored_world sockfd localaddr peeraddr k1 w)) as (k' & Ec & Hv');
    [done|apply lookup_insert_eq|done|].
  exists k'. split; [exact Ec|]. simpl in Hv'. by rewrite <- Hv1.
Qed.

(** [accept] is given no room for the peer's address. *)
Lemma socket_accept_run fd w :
  ∃ connfd k',
    socket_accept fd w
      = Ok (connfd, if 0 <=? connfd then Some zero_addr else None) (with_kernel k' w)
    ∧ (connfd < 0 → k_view k' = k_view (w_kernel w))
    ∧ (0 <= connfd → connfd < 2 ^ 31 ∧ (connfd ∉ v_open (k_view (w_kernel w)))
        ∧ (v_interest (k_view (w_kernel w)) !! connfd = None)
        ∧ k_view k' = view_accept connfd (k_view (w_kernel w))).
Proof.
  unfold socket_accept, syscall. unfold mbind at 1, M_bind at 1.
  destruct (sys_accept _ _ _) as [[connfd stored] k'] eqn:E.
  apply accept_law in E as [Hneg Hpos]. exists connfd, k'. split_and!.
  - destruct (Z.leb_spec 0 connfd); [|done].
    destruct (Hpos ltac:(done)) as (_ & _ & _ & _ & Hl).
    assert (stored = []) as -> by (apply length_zero_iff_nil; lia). done.
  - done.
  - intros Hc. destruct (Hpos Hc) as (? & ? & ? & ? & _). done.
Qed.
End ServerLemmas.
