(* ===== verification/Echo.v ===== *)
(** * The echo server (ccnet/example/EchoServer.cc, server.cc)

    The application on top of the network library; the runs that the theorems are
    about, [undisturbed]: no event is a hang-up with urgent data and nothing to read,
    and no turn begins after a removal from epoll has failed; and the invariant of the
    whole server: every pointer is to a live object, the poller and the kernel agree
    unless an [epoll_ctl] has failed, and every byte that is sent back is a byte that
    was received, in order. *)

From S2P Require Import Prelude Kernel Buffer LoopPool Net Poller Connection Server.

(** ** EchoServer.cc *)

Section EchoServer.
Context {K : Type} `{Kernel chan_ptr K}.

(** Printing [buf->peek()] as a ["%s"] reads up to a zero byte. *)
Definition print_string (b : Buffer) : M (World K) unit :=
  if decide (Byte.x00 ∈ drop (Z.to_nat (read_index_ b)) (buffer_ b)) then mret tt
  else throw StringOverread.

(** EchoServer::onMessage, where [buf] is the input buffer of [conn]. *)
Definition onMessage (c : conn_ptr) : M (World K) unit :=
  cn ← get_conn c;
  print_string (conn_input cn) ;;
  send c (conn_input cn) ;;
  cn ← get_conn c;
  put_conn c (set_input (retrieveAll (conn_input cn)) cn).

#[export] Instance EchoApplication : Application K := {|
  app_connection cb c := mret tt;
  app_message cb c :=
    match cb with
    | defaultMessageCallback => mret tt
    | EchoServer_onMessage => onMessage c
    end;
|}.

(** The world when [main] has constructed the loop and the server, but for the
    thread pool of the server. *)
Definition EchoServer_with (pool : Pool.EventLoopThreadPool) (port : Z) (k : K) : World K :=
  let '(loop, k) := EventLoop_new k in
  let '(s, a, k) := TcpServer_new (TcpAddr_new port) "EchoServer" k in
  mkWorld k loop a
    (mkTcpServer (server_connections s) (server_nextConnId s) (server_name s)
       (Some EchoServer_onConnect) (Some EchoServer_onMessage) (server_writecomplete_cb s) pool)
    ∅ O.

(** EchoServer::EchoServer: [server_.setNumThreads(4)]. *)
Definition EchoServer_new (port : Z) (k : K) : World K :=
  EchoServer_with (Pool.setThreadNum 4 (Pool.EventLoopThreadPool_new MAIN_LOOP)) port k.

(** main: [server.start(); loop.loop();], the loop for at most [n] turns. *)
Definition echo_main (n : nat) : M (World K) bool :=
  server_start ;; loop n.

(** What [main] does once the thread pool is started. *)
Definition serving (n : nat) : M (World K) bool :=
  acceptor_listen ;; loop n.
End EchoServer.

(** ** The invariant *)

(** The event masks of a connection, as [int]s: reading, reading and writing. *)
Definition RD : Z := i32 READ_EVENTS.
Definition RW : Z := i32 (Z.lor (u32 RD) EPOLLOUT).

(** Output is waited for exactly when some is pending. *)
Definition mask_of (pending : list byte) : Z :=
  match pending with [] => RD | _ => RW end.

(** The event masks that are ever given to the kernel. *)
Definition known_mask (e : Z) : Prop := e = EPOLLIN ∨ e = u32 RD ∨ e = u32 RW.

(** A hang-up with urgent data and nothing else to read: [handleEvent] calls the
    close callback for it, and then the read callback. *)
Definition urgent_hangup (e : Z) : bool :=
  has e EPOLLHUP && negb (has e EPOLLIN) && has e EPOLLPRI.

(** An event mask for which [handleEvent] does not read what it has closed. *)
Definition regular (revents : Z) : Prop :=
  has revents EPOLLRDHUP = false ∧ urgent_hangup revents = false.

Section Invariant.
Context {K : Type} `{KernelLaws chan_ptr K}.
Implicit Types (w : World K) (v : kview chan_ptr) (c : conn_ptr) (cn : TcpConnection).

Abbreviation view w := (k_view (w_kernel w)).
Abbreviation channels w := (poller_channels (loop_poller (w_loop w))).
Abbreviation connections w := (server_connections (w_server w)).

Record conn_ok v c cn : Prop := {
  ok_state : conn_state cn = Some kConnected;
  ok_input : buffer_wf (conn_input cn) ∧ peek (conn_input cn) = []
             ∧ buffer_size (conn_input cn) = 1032;
  ok_output : buffer_wf (conn_output cn);
  ok_channel : ∃ revents, conn_channel cn
      = mkChannel (conn_fd cn) revents (mask_of (peek (conn_output cn))) (Some c)
          (Some (TcpConnection_handleRead c)) (Some (TcpConnection_handleWrite c))
          (Some (TcpConnection_handleClose c)) (Some (TcpConnection_handleError c));
  ok_message : conn_message_cb cn = Some EchoServer_onMessage;
  ok_close : conn_close_cb cn = Some TcpServer_removeConnection;
  ok_connect : conn_connect_cb cn = Some EchoServer_onConnect;
  ok_socket : conn_socket cn = None;
  ok_open : conn_fd cn ∈ v_open v;
  ok_echo : trace_of (v_recvd v) (conn_fd cn)
            = trace_of (v_sent v) (conn_fd cn) ++ peek (conn_output cn);
}.

Definition accept_channel_ok (a : Acceptor) : Prop :=
  ∃ revents, acceptor_channel a
    = mkChannel (acceptor_fd a) revents EPOLLIN None (Some Acceptor_handleRead) None None None.

Record Inv w : Prop := {
  i_conns c cn : w_conns w !! c = Some cn →
    conn_ok (view w) c cn ∧ connections w !! conn_name cn = Some c;
  i_owned name c : connections w !! name = Some c →
    ∃ cn, w_conns w !! c = Some cn ∧ conn_name cn = name;
  i_chans fd p : channels w !! fd = Some p ↔
    ∃ ch, channel_at w p = Some ch ∧ ch_fd ch = fd;
  i_live fd ie : v_stale (view w) = false → v_interest (view w) !! fd = Some ie →
    channels w !! fd = Some (ev_ptr ie) ∧ known_mask (ev_events ie);
  i_interest fd : v_stale (view w) = false → v_lost (view w) = false →
    v_interest (view w) !! fd =
      match channels w !! fd with
      | Some p => interest_of p <$> channel_at w p
      | None => None
      end;
  i_accept : accept_channel_ok (w_acceptor w) ∧ acceptor_fd (w_acceptor w) ∈ v_open (view w)
    ∧ acceptor_newconnection_cb (w_acceptor w) = Some TcpServer_newConnection;
  i_server : server_connect_cb (w_server w) = Some EchoServer_onConnect
    ∧ server_message_cb (w_server w) = Some EchoServer_onMessage;
  i_fresh c : is_Some (w_conns w !! c) → (c < w_next_ptr w)%nat;
  i_names name c : connections w !! name = Some c →
    ∃ i, 0 <= i < server_nextConnId (w_server w)
      ∧ name = conn_name_of (server_name (w_server w)) i;
  i_ids : 0 <= server_nextConnId (w_server w)
    ∧ server_nextConnId (w_server w) + 1 <= Z.of_nat (size (v_open (view w)));
  i_fds fd : fd ∈ v_open (view w) → 0 <= fd < 2 ^ 31;
  i_loop : polling w ∧ loop_quit (w_loop w) = false;
  i_prefix fd : trace_of (v_sent (view w)) fd `prefix_of` trace_of (v_recvd (view w)) fd;
}.

(** ** What the kernel may not do *)

(** The next [epoll_wait] comes after no failure to remove a registration, and
    reports no hang-up with urgent data and nothing else to read.  Both can happen, and
    each leaves a pointer to a channel that is gone with the kernel. *)
Definition calm w : bool :=
  let p := loop_poller (w_loop w) in
  let '(_, evs, _) := sys_epoll_wait (w_kernel w) (poller_epfd p) (i32 (poller_events_size p)) in
  negb (v_stale (view w)) && forallb (λ e, negb (urgent_hangup (ev_events e))) evs.

(** So it is in each of the next [n] turns of the loop. *)
Fixpoint orderly (n : nat) w : bool :=
  match n with
  | O => true
  | S n' => calm w && match loop_turn w with Ok _ w' => orderly n' w' | Fault _ => true end
  end.

(** And in [n] turns from where the server starts to listen. *)
Definition undisturbed (n : nat) w : bool :=
  match acceptor_listen w with
  | Ok _ w1 => orderly n (with_loop set_running w1)
  | Fault _ => true
  end.

(** The channels still to be handled in a turn. *)
Definition active_ok (ps : list chan_ptr) w : Prop :=
  NoDup ps ∧ ∀ p, p ∈ ps → ∃ ch, channel_at w p = Some ch ∧ regular (ch_revents ch).

(** The connection [c] has been closed and waits to be released. *)
Definition Dead c w : Prop :=
  Inv (with_conns (delete c) w)
  ∧ ∃ cn, w_conns w !! c = Some cn ∧ ch_events (conn_channel cn) = 0
          ∧ conn_state cn = Some kDisconnected
          ∧ ch_error_callback (conn_channel cn) = Some (TcpConnection_handleError c)
          ∧ ch_write_callback (conn_channel cn) = Some (TcpConnection_handleWrite c)
          ∧ ch_read_callback (conn_channel cn) = Some (TcpConnection_handleRead c).

(** ** Frames *)

(** Two views that differ at most in what concerns the descriptor [fd]. *)
Definition view_frame (fd : Z) v v' : Prop :=
  v_open v' = v_open v
  ∧ (∀ fd', fd' ≠ fd →
      v_interest v' !! fd' = v_interest v !! fd'
      ∧ trace_of (v_recvd v') fd' = trace_of (v_recvd v) fd'
      ∧ trace_of (v_sent v') fd' = trace_of (v_sent v) fd')
  ∧ (v_lost v' = false → v_lost v = false) ∧ (v_stale v' = false → v_stale v = false).

(** Every channel but [p] is as it was. *)
Definition others_same (p : chan_ptr) w w' : Prop :=
  ∀ q ch, q ≠ p → channel_at w q = Some ch → channel_at w' q = Some ch.

Lemma view_frame_trans fd v1 v2 v3 :
  view_frame fd v1 v2 → view_frame fd v2 v3 → view_frame fd v1 v3.
Proof.
  intros (Ho1 & H1 & Hl1 & Hs1) (Ho2 & H2 & Hl2 & Hs2). split_and!; [congruence| |auto|auto].
  intros fd' Hne. destruct (H1 fd' Hne) as (? & ? & ?), (H2 fd' Hne) as (? & ? & ?). split_and!; congruence.
Qed.

Lemma view_frame_recv fd data v : view_frame fd v (view_recv fd data v).
Proof. split_and!; [done| |done..]. intros fd' Hne. simpl. by rewrite trace_of_insert_ne. Qed.

Lemma view_frame_send fd data v : view_frame fd v (view_send fd data v).
Proof. split_and!; [done| |done..]. intros fd' Hne. simpl. by rewrite trace_of_insert_ne. Qed.

Lemma ctl_view_frame fd v v' : ctl_frame fd v v' → view_frame fd v v'.
Proof. intros [Ho Hr Hs Hf Hl Ht]. split_and!; try done. intros fd' Hne. rewrite Hr, Hs. auto. Qed.

Lemma others_same_trans p w1 w2 w3 :
  others_same p w1 w2 → others_same p w2 w3 → others_same p w1 w3.
Proof. unfold others_same. eauto. Qed.

Lemma others_same_upd c cn k w : others_same (ConnChannel c) w (upd_conn c cn k w).
Proof.
  intros [|c'] ch Hne; simpl; [done|]. rewrite lookup_insert_ne by congruence. done.
Qed.

Lemma conn_ok_frame fd v v' c cn :
  view_frame fd v v' → conn_fd cn ≠ fd → conn_ok v c cn → conn_ok v' c cn.
Proof.
  intros (Ho & Hf & _) Hne []. destruct (Hf _ Hne) as (_ & Hr & Hs).
  constructor; try done; congruence.
Qed.

(** ** Facts that follow from the invariant *)

Lemma conn_ok_fd v c cn : conn_ok v c cn → ch_fd (conn_channel cn) = conn_fd cn.
Proof. intros Hok. by destruct (ok_channel _ _ _ Hok) as [r ->]. Qed.

Lemma conn_ok_events v c cn :
  conn_ok v c cn → ch_events (conn_channel cn) = mask_of (peek (conn_output cn)).
Proof. intros Hok. by destruct (ok_channel _ _ _ Hok) as [r ->]. Qed.

Lemma Inv_channel w c cn :
  Inv w → w_conns w !! c = Some cn → channels w !! conn_fd cn = Some (ConnChannel c).
Proof.
  intros HI E. apply (i_chans w HI). exists (conn_channel cn).
  destruct (i_conns w HI c cn E) as [Hok _]. split; [|by eapply conn_ok_fd].
  by apply channel_at_conn.
Qed.

Lemma Inv_registered w c cn : Inv w → w_conns w !! c = Some cn → registered cn w.
Proof.
  intros HI E. split; [apply (i_loop w HI)|]. destruct (i_conns w HI c cn E) as [Hok _].
  erewrite conn_ok_fd by exact Hok. erewrite Inv_channel by done. eauto.
Qed.

Lemma Inv_fd_inj w c1 c2 cn1 cn2 :
  Inv w → w_conns w !! c1 = Some cn1 → w_conns w !! c2 = Some cn2 →
  conn_fd cn1 = conn_fd cn2 → c1 = c2.
Proof.
  intros HI E1 E2 Efd.
  pose proof (Inv_channel _ _ _ HI E1). pose proof (Inv_channel _ _ _ HI E2). congruence.
Qed.

Lemma Inv_name_inj w c1 c2 cn1 cn2 :
  Inv w → w_conns w !! c1 = Some cn1 → w_conns w !! c2 = Some cn2 →
  conn_name cn1 = conn_name cn2 → c1 = c2.
Proof.
  intros HI E1 E2 En.
  destruct (i_conns w HI _ _ E1) as [_ H1]. destruct (i_conns w HI _ _ E2) as [_ H2]. congruence.
Qed.

Lemma Inv_accept_fd w : Inv w → channels w !! acceptor_fd (w_acceptor w) = Some AcceptChannel.
Proof.
  intros HI. apply (i_chans w HI). destruct (i_accept w HI) as [[r Ha] _].
  exists (acceptor_channel (w_acceptor w)). split; [done|]. by rewrite Ha.
Qed.

(** The descriptors of registered channels are open. *)
Lemma Inv_fd_open w fd p : Inv w → channels w !! fd = Some p → fd ∈ v_open (view w).
Proof.
  intros HI (ch & Hc & <-)%(i_chans w HI). destruct p as [|c]; simpl in Hc.
  - injection Hc as <-. destruct (i_accept w HI) as ([r Ha] & Ho & _). by rewrite Ha.
  - apply fmap_Some in Hc as (cn & E & ->). destruct (i_conns w HI c cn E) as [Hok _].
    rewrite (conn_ok_fd _ _ _ Hok). apply Hok.
Qed.

Lemma known_mask_of pending : known_mask (u32 (mask_of pending)).
Proof. unfold known_mask. destruct pending; auto. Qed.

(** [fd] is registered for [ev], unless an [epoll_ctl] has failed. *)
Definition registered_for (fd : Z) (ev : epoll_event chan_ptr) v : Prop :=
  v_interest v !! fd = Some ev ∨ v_lost v = true ∨ v_stale v = true.

(** From [v] to [v'] it comes to be so, and if not its registration stays. *)
Definition now_watched (fd : Z) (ev : epoll_event chan_ptr) v v' : Prop :=
  v_interest v' !! fd = Some ev
  ∨ v_interest v' !! fd = v_interest v !! fd ∧ (v_lost v' = true ∨ v_stale v' = true).

Lemma Inv_interest_conn w c cn :
  Inv w → w_conns w !! c = Some cn →
  registered_for (conn_fd cn) (interest_of (ConnChannel c) (conn_channel cn)) (view w).
Proof.
  intros HI E. unfold registered_for.
  destruct (v_lost (view w)) eqn:El; [auto|]. destruct (v_stale (view w)) eqn:Es; [auto|].
  left. rewrite (i_interest w HI) by done. erewrite Inv_channel by done.
  by erewrite channel_at_conn by done.
Qed.

Lemma registered_now fd ev v : registered_for fd ev v → now_watched fd ev v v.
Proof. intros [?|?]; [by left|by right]. Qed.

Lemma mod_now_watched fd ev ev' v v' :
  registered_for fd ev v → ctl_result EPOLL_CTL_MOD fd ev' v v' →
  ctl_frame fd v v' ∧ now_watched fd ev' v v'.
Proof.
  intros Hr Hc. apply (ctl_mod_watched fd ev' v v'); [|done].
  intros Hn. destruct Hr as [Hr|Hr]; [congruence|done].
Qed.

(** ** One connection changes *)

(** The connection [c] goes to a good state, and the kernel with it. *)
Lemma Inv_upd_conn w c cn cn' k' :
  Inv w → w_conns w !! c = Some cn →
  conn_fd cn' = conn_fd cn → conn_name cn' = conn_name cn →
  conn_ok (k_view k') c cn' → view_frame (conn_fd cn) (view w) (k_view k') →
  now_watched (conn_fd cn) (interest_of (ConnChannel c) (conn_channel cn')) (view w) (k_view k') →
  Inv (upd_conn c cn' k' w).
Proof.
  intros HI E Hfd Hname Hok Hfr Hint. pose proof Hfr as (Hopen & Hfr' & Hlost & Hstale).
  destruct (i_conns w HI c cn E) as [Hok0 Hmap].
  assert (∀ p, p ≠ ConnChannel c → channel_at (upd_conn c cn' k' w) p = channel_at w p) as Hch.
  { intros [|c'] Hne; simpl; [done|]. by rewrite lookup_insert_ne by congruence. }
  assert (channel_at (upd_conn c cn' k' w) (ConnChannel c) = Some (conn_channel cn')) as Hchc.
  { simpl. by rewrite lookup_insert_eq. }
  constructor; simpl.
  - intros c' cn2. destruct (decide (c' = c)) as [->|Hne].
    + rewrite lookup_insert_eq. intros [= <-]. split; [done|]. by rewrite Hname.
    + rewrite lookup_insert_ne by done. intros E2.
      destruct (i_conns w HI c' cn2 E2). split; [|done].
      eapply conn_ok_frame; [done| |done]. intros Efd.
      by apply Hne, (Inv_fd_inj w c' c cn2 cn).
  - intros name c' Hc'. destruct (i_owned w HI name c' Hc') as (cn2 & E2 & Hn).
    destruct (decide (c' = c)) as [->|Hne].
    + exists cn'. rewrite lookup_insert_eq. split; [done|]. congruence.
    + exists cn2. by rewrite lookup_insert_ne.
  - intros fd p. rewrite (i_chans w HI). destruct (decide (p = ConnChannel c)) as [->|Hne].
    + rewrite Hchc. erewrite channel_at_conn by exact E.
      apply conn_ok_fd in Hok, Hok0.
      split; intros (ch & [= <-] & Hf); eexists; (split; [done|congruence]).
    + by rewrite Hch.
  - intros fd ie Hs Hie. destruct (decide (fd = conn_fd cn)) as [->|Hne].
    + destruct Hint as [Hint|[Hint _]]; rewrite Hint in Hie; [|by apply (i_live w HI); [auto|]].
      injection Hie as <-. simpl. rewrite (conn_ok_events _ _ _ Hok).
      split; [by apply Inv_channel|apply known_mask_of].
    + destruct (Hfr' fd Hne) as [Hi _]. rewrite Hi in Hie. apply (i_live w HI); auto.
  - intros fd Hs Hl. destruct (decide (fd = conn_fd cn)) as [->|Hne].
    + destruct Hint as [Hint|[_ [?|?]]]; [|congruence..].
      erewrite Inv_channel by done. by rewrite Hint, Hchc.
    + destruct (Hfr' fd Hne) as [-> _]. rewrite (i_interest w HI) by auto.
      destruct (channels w !! fd) as [p|] eqn:Ep; [|done].
      rewrite Hch; [done|]. intros ->. apply (i_chans w HI) in Ep as (ch & Hc & Hf).
      erewrite channel_at_conn in Hc by exact E. apply conn_ok_fd in Hok0. congruence.
  - rewrite Hopen. apply (i_accept w HI).
  - apply (i_server w HI).
  - intros c'. rewrite lookup_insert_is_Some'. intros [->|Hs]; [|by apply (i_fresh w HI)].
    apply (i_fresh w HI). eauto.
  - apply (i_names w HI).
  - rewrite Hopen. apply (i_ids w HI).
  - intros fd. rewrite Hopen. apply (i_fds w HI).
  - apply (i_loop w HI).
  - intros fd. destruct (decide (fd = conn_fd cn)) as [->|Hne].
    + rewrite <- Hfd, (ok_echo _ _ _ Hok). eexists; done.
    + destruct (Hfr' fd Hne) as (_ & -> & ->). apply (i_prefix w HI).
Qed.

(** ** A connection is closed and released *)

Lemma closed_channel_at w c cn k' p ch :
  channel_at (with_conns (delete c) (closed_world c cn k' w)) p = Some ch
  ↔ p ≠ ConnChannel c ∧ channel_at w p = Some ch.
Proof.
  destruct p as [|c']; simpl; [by split; [intros ->|intros [_ ->]]|].
  rewrite delete_insert_eq. destruct (decide (c' = c)) as [->|Hne].
  - rewrite lookup_delete_eq. split; [done|]. by intros [? _].
  - rewrite lookup_delete_ne by done. split; [by split; [congruence|]|by intros [_ ?]].
Qed.

Lemma Inv_closed w c cn k' :
  Inv w → w_conns w !! c = Some cn →
  unwatched (conn_fd cn) (view w) (k_view k') →
  Inv (with_conns (delete c) (closed_world c cn k' w)).
Proof.
  intros HI E [Hcf Hgone]. destruct (i_conns w HI c cn E) as [Hok0 Hmap].
  pose proof (conn_ok_fd _ _ _ Hok0) as Hfd0.
  pose proof (ctl_view_frame _ _ _ Hcf) as Hfr.
  pose proof Hcf as [Hopen Hrecv Hsent Hother Hlost Hstale].
  pose proof (closed_channel_at w c cn k') as Hch.
  constructor; simpl.
  - rewrite delete_insert_eq. intros c' cn2 [Hne E2]%lookup_delete_Some.
    destruct (i_conns w HI c' cn2 E2) as [Hok2 Hm2]. split.
    + eapply conn_ok_frame; [done| |done]. intros Efd.
      by apply Hne, (Inv_fd_inj w c c' cn cn2).
    + apply lookup_delete_Some. split; [|done]. intros En.
      by apply Hne, (Inv_name_inj w c c' cn cn2).
  - rewrite delete_insert_eq. intros name c' [Hne Hc']%lookup_delete_Some.
    destruct (i_owned w HI name c' Hc') as (cn2 & E2 & Hn).
    exists cn2. split; [|done]. apply lookup_delete_Some. split; [|done].
    intros <-. congruence.
  - intros fd p. rewrite Hfd0. rewrite lookup_delete_Some. setoid_rewrite Hch.
    rewrite (i_chans w HI). split.
    + intros (Hne & ch & Hc & Hf). exists ch. split_and!; try done.
      intros ->. erewrite channel_at_conn in Hc by exact E. congruence.
    + intros (ch & [Hne Hc] & Hf). split; [|eauto]. intros <-. apply Hne.
      assert (channels w !! conn_fd cn = Some p) as Hp by (apply (i_chans w HI); eauto).
      erewrite Inv_channel in Hp by done. congruence.
  - intros fd ie Hs Hie. rewrite Hfd0. destruct (decide (fd = conn_fd cn)) as [->|Hne].
    + by rewrite Hgone in Hie.
    + rewrite lookup_delete_ne by done. rewrite Hother in Hie by done. apply (i_live w HI); auto.
  - intros fd Hs Hl. rewrite Hfd0. destruct (decide (fd = conn_fd cn)) as [->|Hne].
    + rewrite lookup_delete_eq. by apply Hgone.
    + rewrite Hother, lookup_delete_ne, (i_interest w HI) by auto.
      destruct (channels w !! fd) as [p|] eqn:Ep; [|done].
      pose proof Ep as (ch & Hc & Hf)%(i_chans w HI). rewrite Hc. symmetry.
      apply fmap_Some. exists ch. split; [|done]. apply Hch. split; [|done].
      intros ->. erewrite channel_at_conn in Hc by exact E. congruence.
  - rewrite Hopen. apply (i_accept w HI).
  - apply (i_server w HI).
  - rewrite delete_insert_eq. intros c' [cn2 [_ E2]%lookup_delete_Some].
    apply (i_fresh w HI). eauto.
  - intros name c' [_ Hc']%lookup_delete_Some. by apply (i_names w HI name c').
  - rewrite Hopen. apply (i_ids w HI).
  - intros fd. rewrite Hopen. apply (i_fds w HI).
  - apply (i_loop w HI).
  - intros fd. rewrite Hrecv, Hsent. apply (i_prefix w HI).
Qed.

Lemma Dead_closed w c cn k' :
  Inv w → w_conns w !! c = Some cn →
  unwatched (conn_fd cn) (view w) (k_view k') →
  Dead c (closed_world c cn k' w).
Proof.
  intros HI E Hv. split; [by apply Inv_closed|].
  exists (closed_conn cn). split; [apply lookup_insert_eq|].
  destruct (i_conns w HI c cn E) as [Hok _]. destruct (ok_channel _ _ _ Hok) as [r Hch].
  simpl. by rewrite Hch.
Qed.

Lemma others_same_closed c cn k w :
  others_same (ConnChannel c) w (closed_world c cn k w).
Proof. intros [|c'] ch Hne; simpl; [done|]. by rewrite lookup_insert_ne by congruence. Qed.

(** The guard of [handleEvent] is the last owner of a closed connection. *)
Lemma release_Dead c w :
  Dead c w → release_conn c w = Ok tt (with_conns (delete c) w).
Proof.
  intros [HI _]. unfold release_conn. rewrite get_bind. rewrite decide_True; [done|].
  intros name c' Hc'. destruct (i_owned _ HI name c' Hc') as (cn & E & _). simpl in E.
  apply lookup_delete_Some in E as [Hne _]. done.
Qed.

Lemma release_alive c cn w :
  Inv w → w_conns w !! c = Some cn → release_conn c w = Ok tt w.
Proof.
  intros HI E. unfold release_conn. rewrite get_bind. rewrite decide_False; [done|].
  intros Hall. destruct (i_conns w HI c cn E) as [_ Hm]. by apply (Hall _ _ Hm).
Qed.

(** ** A connection is accepted *)

Lemma size_range (X : gset Z) n :
  (∀ x, x ∈ X → 0 <= x < n) → 0 <= n → Z.of_nat (size X) <= n.
Proof.
  intros HX Hn. assert (X ⊆ list_to_set (seqZ 0 n)) as Hsub.
  { intros x Hx. apply elem_of_list_to_set, elem_of_seqZ. specialize (HX x Hx). lia. }
  apply subseteq_size in Hsub. rewrite size_list_to_set, length_seqZ in Hsub by apply NoDup_seqZ.
  lia.
Qed.

Lemma conn_name_inj name i j : conn_name_of name i = conn_name_of name j → i = j.
Proof. unfold conn_name_of. intros E. by apply (inj _), (inj _), (inj _) in E. Qed.

Lemma Inv_name_fresh w : Inv w → connections w !! accepted_name w = None.
Proof.
  intros HI. destruct (connections w !! accepted_name w) as [c|] eqn:E; [|done].
  apply (i_names w HI) in E as (i & Hi & En). apply conn_name_inj in En. lia.
Qed.

Lemma Inv_fd_fresh w fd : Inv w → fd ∉ v_open (view w) → channels w !! fd = None.
Proof.
  intros HI Hnew. destruct (channels w !! fd) as [p|] eqn:Ep; [|done].
  by apply (Inv_fd_open w) in Ep.
Qed.

Lemma open_add v fd : fd ∉ v_open v → size ({[fd]} ∪ v_open v) = S (size (v_open v)).
Proof. intros. rewrite size_union by set_solver. by rewrite size_singleton. Qed.

Lemma Inv_ids_room w fd :
  Inv w → 0 <= fd < 2 ^ 31 → fd ∉ v_open (view w) →
  server_nextConnId (w_server w) + 2 <= 2 ^ 31.
Proof.
  intros HI Hfd Hnew. pose proof (i_ids w HI) as [_ Hids].
  assert (Z.of_nat (size ({[fd]} ∪ v_open (view w))) <= 2 ^ 31) as Hs.
  { apply size_range; [|lia]. intros x [->%elem_of_singleton|Hx]%elem_of_union; [done|].
    by apply (i_fds w HI). }
  rewrite open_add in Hs by done. lia.
Qed.

(** The connection object once it is registered. *)
Definition new_conn (fd : Z) (localaddr peeraddr : list byte) w : TcpConnection :=
  established_conn (w_next_ptr w) (accepted_conn fd localaddr peeraddr w).

Lemma new_conn_ok fd la pa w :
  Inv w → conn_ok (view_accept fd (view w)) (w_next_ptr w) (new_conn fd la pa w).
Proof.
  intros HI. destruct (i_server w HI) as [Hc Hm].
  assert (buffer_wf (Buffer_new kInitialSize)) as Hwf.
  { apply Buffer_new_wf. unfold kInitialSize. lia. }
  constructor.
  - done.
  - split; [exact Hwf|]. split; reflexivity.
  - exact Hwf.
  - exists 0. reflexivity.
  - exact Hm.
  - done.
  - exact Hc.
  - done.
  - simpl. apply elem_of_union; left. by apply elem_of_singleton.
  - simpl. by rewrite !trace_of_insert_eq.
Qed.

(** What the kernel knows of [fd] once it is accepted and registered. *)
Definition accept_view w fd (ev : epoll_event chan_ptr) v' : Prop :=
  watched fd ev (view_accept fd (view w)) v'.

(** Descriptors other than the new one are not affected. *)
Lemma accept_view_frame w fd ev v' c cn :
  accept_view w fd ev v' → conn_fd cn ≠ fd → conn_ok (view w) c cn → conn_ok v' c cn.
Proof.
  intros [[Ho Hr Hs _ _ _] _] Hne []. constructor; try done; rewrite ?Ho, ?Hr, ?Hs; simpl.
  - apply elem_of_union. by right.
  - by rewrite !trace_of_insert_ne by done.
Qed.

Lemma accept_view_prefix w fd ev v' x :
  accept_view w fd ev v' →
  trace_of (v_sent (view w)) x `prefix_of` trace_of (v_recvd (view w)) x →
  trace_of (v_sent v') x `prefix_of` trace_of (v_recvd v') x.
Proof.
  intros [[Ho Hr Hs _ _ _] _]. rewrite Hr, Hs. simpl.
  destruct (decide (x = fd)) as [->|Hne]; [by rewrite !trace_of_insert_eq|].
  by rewrite !trace_of_insert_ne by done.
Qed.

Lemma Inv_ptr_fresh w : Inv w → w_conns w !! w_next_ptr w = None.
Proof.
  intros HI. destruct (w_conns w !! w_next_ptr w) eqn:E; [|done].
  pose proof (i_fresh w HI _ ltac:(eauto)). lia.
Qed.

Lemma accepted_channel_at w fd la pa k1 k' p ch :
  w_conns w !! w_next_ptr w = None →
  channel_at (accepted_world fd la pa k' (with_kernel k1 w)) p = Some ch
  ↔ (p = ConnChannel (w_next_ptr w) ∧ ch = conn_channel (new_conn fd la pa w)) ∨ channel_at w p = Some ch.
Proof.
  intros Hc. destruct p as [|c']; simpl; [by split; [right|intros [[? _]|?]]|]. rewrite insert_insert_eq.
  destruct (decide (c' = w_next_ptr w)) as [->|Hne].
  - rewrite lookup_insert_eq, Hc. simpl. split; [intros [= <-]; by left|by intros [[_ ->]|?]].
  - rewrite lookup_insert_ne by done. split; [by right|by intros [[? _]|?]; [congruence|]].
Qed.

Lemma Inv_accepted w fd la pa k1 k' :
  Inv w → 0 <= fd < 2 ^ 31 → fd ∉ v_open (view w) → v_interest (view w) !! fd = None →
  accept_view w fd (interest_of (ConnChannel (w_next_ptr w)) (conn_channel (new_conn fd la pa w)))
    (k_view k') →
  Inv (accepted_world fd la pa k' (with_kernel k1 w)).
Proof.
  intros HI Hrange Hnew Hint Hv.
  set (c := w_next_ptr w) in *. set (cn := new_conn fd la pa w) in *.
  pose proof (Inv_fd_fresh w fd HI Hnew) as Hfresh.
  pose proof (Inv_name_fresh w HI) as Hname.
  pose proof Hv as [[Hopen Hrecv Hsent Hother Hlost Hstale] Hreg]. simpl in Hopen, Hother, Hlost, Hstale.
  pose proof (Inv_ptr_fresh w HI) as Hc. fold c in Hc.
  assert (conn_ok (k_view k') c cn) as Hok.
  { destruct (new_conn_ok fd la pa w HI). constructor; try done; rewrite ?Hopen, ?Hrecv, ?Hsent; done. }
  pose proof (λ p ch, accepted_channel_at w fd la pa k1 k' p ch Hc) as Hch. fold c cn in Hch.
  constructor; simpl.
  - rewrite insert_insert_eq. fold c. intros c' cn2.
    destruct (decide (c' = c)) as [->|Hne].
    + rewrite lookup_insert_eq. intros [= <-]. split; [done|]. apply lookup_insert_eq.
    + rewrite lookup_insert_ne by done. intros E2. destruct (i_conns w HI c' cn2 E2) as [Hok2 Hm2].
      split; [eapply accept_view_frame; [exact Hv| |done]; by intros <-; destruct Hok2|].
      apply lookup_insert_Some. right. split; [|done]. intros En.
      change (accepted_name (with_kernel k1 w)) with (accepted_name w) in En.
      rewrite <- En in Hm2. congruence.
  - rewrite insert_insert_eq. fold c. intros name c'.
    rewrite lookup_insert_Some. intros [[<- <-]|[Hne Hc']].
    + exists cn. rewrite lookup_insert_eq. done.
    + destruct (i_owned w HI name c' Hc') as (cn2 & E2 & Hn). exists cn2. split; [|done].
      rewrite lookup_insert_ne; [done|]. intros <-. congruence.
  - intros fd' p. setoid_rewrite Hch. fold c. rewrite lookup_insert_Some, (i_chans w HI). split.
    + intros [[<- <-]|(Hne & ch & Ha & Hf)]; [|by eauto]. exists (conn_channel cn). eauto.
    + intros (ch & [[-> ->]|Ha] & Hf); [by left|]. right. split; [|eauto]. intros <-.
      assert (channels w !! fd = Some p) by (apply (i_chans w HI); eauto). congruence.
  - intros fd' ie Hs Hie. fold c. destruct (decide (fd' = fd)) as [->|Hne].
    + destruct Hreg as [Hreg|[Hreg _]]; rewrite Hreg in Hie; [|simpl in Hie; congruence].
      injection Hie as <-. rewrite lookup_insert_eq. split; [done|]. right. by left.
    + rewrite Hother in Hie by done. rewrite lookup_insert_ne by done. apply (i_live w HI); auto.
  - intros fd' Hs Hl. fold c. destruct (decide (fd' = fd)) as [->|Hne].
    + destruct Hreg as [Hreg|[_ [?|?]]]; [|congruence..].
      rewrite Hreg, lookup_insert_eq. symmetry. apply fmap_Some. eexists; split; [|done].
      apply Hch. by left.
    + rewrite Hother, lookup_insert_ne, (i_interest w HI) by auto.
      destruct (channels w !! fd') as [p|] eqn:Ep; [|done].
      apply (i_chans w HI) in Ep as (ch & Ha & _). rewrite Ha. symmetry.
      apply fmap_Some. eexists; split; [|done]. apply Hch. by right.
  - rewrite Hopen. destruct (i_accept w HI) as (? & ? & ?). split_and!; [done|apply elem_of_union; by right|done].
  - apply (i_server w HI).
  - rewrite insert_insert_eq. fold c. intros c'. rewrite lookup_insert_is_Some'.
    intros [->|Hs]; [lia|]. pose proof (i_fresh w HI c' Hs). unfold c. lia.
  - intros name c'. rewrite lookup_insert_Some. pose proof (i_ids w HI) as [Hi _].
    intros [[<- _]|[_ Hc']].
    + exists (server_nextConnId (w_server w)). split; [lia|done].
    + apply (i_names w HI) in Hc' as (i & Hr & ->). exists i. split; [lia|done].
  - rewrite Hopen, open_add by done. pose proof (i_ids w HI). lia.
  - rewrite Hopen. intros x [->%elem_of_singleton|Hx]%elem_of_union; [done|].
    by apply (i_fds w HI).
  - apply (i_loop w HI).
  - intros x. eapply accept_view_prefix; [exact Hv|]. apply (i_prefix w HI).
Qed.

End Invariant.
