(* ===== verification/EchoSpec.v ===== *)
(** * The service that the echo server implements

    An abstract machine without buffers, channels, epoll or memory: a session for
    every descriptor ever accepted, with what was sent on it, what is still to be
    sent and whether it goes on.  [represents] relates it to a world of the
    server; EchoSafe.v shows that every event of the loop is a sequence of its
    steps, often none. *)

From S2P Require Import Prelude Kernel Buffer Net Poller Connection Server Echo.

(** ** The machine *)

Record session : Type := mkSession { s_sent : list byte; s_pending : list byte; s_live : bool }.

(** What was received is what was sent and then what is pending. *)
Definition s_received (s : session) : list byte := s_sent s ++ s_pending s.

Abbreviation service := (gmap Z session).

(** As many bytes as a read of the server can take. *)
Definition MAX_READ : nat := Z.to_nat 1024.

Inductive serves : service → service → Prop :=
| serve_accept m fd :
    m !! fd = None → serves m (<[fd := mkSession [] [] true]> m)
| serve_receive m fd sent pending data :
    m !! fd = Some (mkSession sent pending true) → (0 < length data ≤ MAX_READ)%nat →
    serves m (<[fd := mkSession sent (pending ++ data) true]> m)
| serve_transmit m fd sent pending data :
    m !! fd = Some (mkSession sent (data ++ pending) true) → data ≠ [] →
    serves m (<[fd := mkSession (sent ++ data) pending true]> m)
| serve_close m fd sent pending :
    m !! fd = Some (mkSession sent pending true) →
    serves m (<[fd := mkSession sent pending false]> m).

(** What a step can do to a session: nothing is taken back, and what has ended
    stays as it is. *)
Definition continues (s s' : session) : Prop :=
  s_sent s `prefix_of` s_sent s' ∧ s_received s `prefix_of` s_received s'
  ∧ (s_live s = false → s' = s).

#[export] Instance continues_preorder : PreOrder continues.
Proof.
  split; [by intros s|]. intros s1 s2 s3 (? & ? & H1) (? & ? & H2). split_and!; [by etrans..|].
  intros E. pose proof (H1 E) as ->. by apply H2.
Qed.

(** Sessions go on in the machine's runs, and are never forgotten. *)
Lemma serves_continues m m' fd s :
  star serves m m' → m !! fd = Some s → ∃ s', m' !! fd = Some s' ∧ continues s s'.
Proof.
  intros Hs. revert s. induction Hs as [m|m1 m2 m3 Hst _ IH]; intros s E; [by exists s|].
  assert (∃ s2, m2 !! fd = Some s2 ∧ continues s s2) as (s2 & E2 & H2).
  { destruct Hst as [m fd0 E0|m fd0 sent pending data E0 _|m fd0 sent pending data E0 _|m fd0 sent pending E0];
      (destruct (decide (fd0 = fd)) as [->|Hne];
       [simplify_eq; rewrite lookup_insert_eq|rewrite lookup_insert_ne by done; by exists s]).
    - eexists. split; [done|]. split_and!; simpl; [done| |done].
      unfold s_received; simpl. rewrite app_assoc. by apply prefix_app_r.
    - eexists. split; [done|]. split_and!; simpl; [by apply prefix_app_r| |done].
      unfold s_received; simpl. by rewrite app_assoc.
    - eexists. split; [done|]. by split_and!. }
  destruct (IH s2 E2) as (s3 & E3 & H3). exists s3. split; [done|]. by etrans.
Qed.

(** ** What it has to do with the server *)

Section Represents.
Context {K : Type} `{KernelLaws chan_ptr K}.
Implicit Types (w : World K) (v : kview chan_ptr) (c : conn_ptr) (cn : TcpConnection) (m : service).

Abbreviation view w := (k_view (w_kernel w)).

(** The traffic of a session is that of the kernel. *)
Definition traffic_ok v fd (s : session) : Prop :=
  fd ∈ v_open v ∧ trace_of (v_recvd v) fd = s_received s ∧ trace_of (v_sent v) fd = s_sent s.

Record represents w m : Prop := {
  r_traffic fd s : m !! fd = Some s → traffic_ok (view w) fd s;
  r_conn c cn : w_conns w !! c = Some cn →
    ∃ sent, m !! conn_fd cn = Some (mkSession sent (peek (conn_output cn)) true);
  r_live fd s : m !! fd = Some s → s_live s = true →
    ∃ c cn, w_conns w !! c = Some cn ∧ conn_fd cn = fd;
  r_count : server_nextConnId (w_server w) = Z.of_nat (size m);
}.

(** A world that the machine, started in [m0], can account for. *)
Definition served m0 w : Prop := ∃ m, star serves m0 m ∧ represents w m.

(** ** Steps that the machine does not see *)

Lemma represents_same w w' m :
  represents w m → view w' = view w → server_nextConnId (w_server w') = server_nextConnId (w_server w) →
  (∀ c, (λ cn, (conn_fd cn, conn_output cn)) <$> w_conns w' !! c
        = (λ cn, (conn_fd cn, conn_output cn)) <$> w_conns w !! c) →
  represents w' m.
Proof.
  intros [Ht Hc Hl Hn] Hv Hid Hconns. constructor.
  - by rewrite Hv.
  - intros c cn E. specialize (Hconns c). rewrite E in Hconns. symmetry in Hconns.
    apply fmap_Some in Hconns as (cn0 & E0 & [= -> ->]). by eapply Hc.
  - intros fd s E Hs. destruct (Hl fd s E Hs) as (c & cn & Ec & <-). specialize (Hconns c).
    rewrite Ec in Hconns. apply fmap_Some in Hconns as (cn' & E' & [= -> _]). by exists c, cn'.
  - congruence.
Qed.

Lemma served_same m0 w w' :
  served m0 w → view w' = view w → server_nextConnId (w_server w') = server_nextConnId (w_server w) →
  (∀ c, (λ cn, (conn_fd cn, conn_output cn)) <$> w_conns w' !! c
        = (λ cn, (conn_fd cn, conn_output cn)) <$> w_conns w !! c) →
  served m0 w'.
Proof. intros (m & Hs & Hr) ???. exists m. split; [done|]. by eapply represents_same. Qed.

(** ** Steps on one session *)

(** Other sessions are not concerned. *)
Lemma traffic_frame v v' fd fd' s :
  view_frame fd v v' → fd' ≠ fd → traffic_ok v fd' s → traffic_ok v' fd' s.
Proof.
  intros (Ho & Hf & _) Hne (Hin & Hr & Hs). destruct (Hf fd' Hne) as (_ & Er & Es).
  split_and!; [by rewrite Ho|by rewrite Er|by rewrite Es].
Qed.

Lemma size_insert_present (m : service) fd s s' : m !! fd = Some s → size (<[fd := s']> m) = size m.
Proof. intros E. rewrite map_size_insert, E. done. Qed.

(** A live connection goes on, with another output buffer. *)
Lemma represents_upd w m c cn cn' k' sent pending sent' :
  Inv w → represents w m → w_conns w !! c = Some cn → conn_fd cn' = conn_fd cn →
  view_frame (conn_fd cn) (view w) (k_view k') →
  m !! conn_fd cn = Some (mkSession sent pending true) →
  traffic_ok (k_view k') (conn_fd cn) (mkSession sent' (peek (conn_output cn')) true) →
  represents (upd_conn c cn' k' w)
    (<[conn_fd cn := mkSession sent' (peek (conn_output cn')) true]> m).
Proof.
  intros HI [Ht Hc Hl Hn] E Hfd Hfr Em Htr. constructor; simpl.
  - intros fd s [[<- <-]|[Hne Es]]%lookup_insert_Some; [done|]. by eapply traffic_frame; eauto.
  - intros c' cn2 [[<- <-]|[Hne E2]]%lookup_insert_Some.
    + exists sent'. by rewrite Hfd, lookup_insert_eq.
    + rewrite lookup_insert_ne; [by eapply Hc|]. intros Efd. by apply Hne, (Inv_fd_inj w c c' cn cn2).
  - intros fd s [[<- <-]|[Hne Es]]%lookup_insert_Some Hs.
    + exists c, cn'. by rewrite lookup_insert_eq.
    + destruct (Hl fd s Es Hs) as (c' & cn2 & E2 & Hfd2). exists c', cn2.
      rewrite lookup_insert_ne; [done|]. intros <-. simplify_eq.
  - by erewrite size_insert_present.
Qed.

(** The session that a live connection has. *)
Lemma represents_session w m c cn :
  represents w m → w_conns w !! c = Some cn →
  m !! conn_fd cn = Some (mkSession (trace_of (v_sent (view w)) (conn_fd cn)) (peek (conn_output cn)) true).
Proof.
  intros Hr E. destruct (r_conn w m Hr c cn E) as [sent Em].
  destruct (r_traffic w m Hr _ _ Em) as (_ & _ & Hs). by rewrite Hs.
Qed.

(** [data] was received and put behind the output. *)
Lemma served_receive m0 w c cn cn' k' data :
  Inv w → served m0 w → w_conns w !! c = Some cn → conn_fd cn' = conn_fd cn →
  view_frame (conn_fd cn) (view w) (k_view k') → (0 < length data ≤ MAX_READ)%nat →
  peek (conn_output cn') = peek (conn_output cn) ++ data →
  trace_of (v_recvd (k_view k')) (conn_fd cn) = trace_of (v_recvd (view w)) (conn_fd cn) ++ data →
  trace_of (v_sent (k_view k')) (conn_fd cn) = trace_of (v_sent (view w)) (conn_fd cn) →
  served m0 (upd_conn c cn' k' w).
Proof.
  intros HI (m & Hs & Hr) E Hfd Hfr Hd Hp Erec Esent. pose proof (represents_session w m c cn Hr E) as Em.
  destruct (r_traffic w m Hr _ _ Em) as (Ho & Er0 & _).
  eexists. split; [eapply star_trans; [exact Hs|apply star_one, (serve_receive _ _ _ _ _ Em Hd)]|].
  rewrite <- Hp. eapply represents_upd; try done. split_and!.
  - by rewrite (proj1 Hfr).
  - rewrite Erec, Er0, Hp. unfold s_received; simpl. by rewrite app_assoc.
  - done.
Qed.

(** [data], the front of the output, was sent. *)
Lemma served_transmit m0 w c cn cn' k' data :
  Inv w → served m0 w → w_conns w !! c = Some cn → conn_fd cn' = conn_fd cn →
  view_frame (conn_fd cn) (view w) (k_view k') →
  peek (conn_output cn) = data ++ peek (conn_output cn') →
  trace_of (v_recvd (k_view k')) (conn_fd cn) = trace_of (v_recvd (view w)) (conn_fd cn) →
  trace_of (v_sent (k_view k')) (conn_fd cn) = trace_of (v_sent (view w)) (conn_fd cn) ++ data →
  served m0 (upd_conn c cn' k' w).
Proof.
  intros HI (m & Hs & Hr) E Hfd Hfr Hp Erec Esent. pose proof (represents_session w m c cn Hr E) as Em.
  destruct (r_traffic w m Hr _ _ Em) as (Ho & Er0 & _).
  assert (traffic_ok (k_view k') (conn_fd cn)
    (mkSession (trace_of (v_sent (view w)) (conn_fd cn) ++ data) (peek (conn_output cn')) true)) as Htr.
  { split_and!; [by rewrite (proj1 Hfr)| |done]. rewrite Erec, Er0. unfold s_received; simpl.
    by rewrite Hp, app_assoc. }
  eexists. split; [|by eapply represents_upd]. destruct (decide (data = [])) as [->|Hne].
  - rewrite app_nil_r. rewrite insert_id; [done|]. by rewrite Em, Hp.
  - rewrite Hp in Em. eapply star_trans; [exact Hs|]. by apply star_one, serve_transmit.
Qed.

(** ** Closing and accepting *)

Lemma served_closed m0 w c cn k' :
  Inv w → served m0 w → w_conns w !! c = Some cn →
  unwatched (conn_fd cn) (view w) (k_view k') →
  served m0 (with_conns (delete c) (closed_world c cn k' w)).
Proof.
  intros HI (m & Hs & Hr) E [[Ho Hrec Hsent _ _ _] _]. pose proof (represents_session w m c cn Hr E) as Em.
  destruct Hr as [Ht Hc Hl Hn]. eexists.
  split; [eapply star_trans; [exact Hs|apply star_one, (serve_close _ _ _ _ Em)]|].
  constructor; simpl.
  - intros fd s. unfold traffic_ok. rewrite Ho, Hrec, Hsent.
    intros [[<- <-]|[Hne Es]]%lookup_insert_Some; [exact (Ht _ _ Em)|exact (Ht _ _ Es)].
  - rewrite delete_insert_eq. intros c' cn2 [Hne E2]%lookup_delete_Some.
    rewrite lookup_insert_ne; [by eapply Hc|]. intros Efd. by apply Hne, (Inv_fd_inj w c c' cn cn2).
  - rewrite delete_insert_eq. intros fd s [[<- <-]|[Hne Es]]%lookup_insert_Some Hlive; [done|].
    destruct (Hl fd s Es Hlive) as (c' & cn2 & E2 & Hfd2). exists c', cn2. split; [|done].
    rewrite lookup_delete_ne; [done|]. intros <-. simplify_eq.
  - by erewrite size_insert_present.
Qed.

Lemma served_accepted m0 w fd la pa k1 k' :
  Inv w → served m0 w → fd ∉ v_open (view w) →
  accept_view w fd (interest_of (ConnChannel (w_next_ptr w)) (conn_channel (new_conn fd la pa w)))
    (k_view k') →
  served m0 (accepted_world fd la pa k' (with_kernel k1 w)).
Proof.
  intros HI (m & Hs & Hr) Hnew [[Ho Hrec Hsent _ _ _] _]. destruct Hr as [Ht Hc Hl Hn].
  assert (m !! fd = None) as Em.
  { destruct (m !! fd) as [s|] eqn:Em; [|done]. by destruct (Ht fd s Em) as [? _]. }
  assert (w_conns w !! w_next_ptr w = None) as Hptr.
  { destruct (w_conns w !! w_next_ptr w) eqn:E; [|done]. pose proof (i_fresh w HI _ ltac:(eauto)). lia. }
  eexists. split; [eapply star_trans; [exact Hs|apply star_one, (serve_accept _ _ Em)]|].
  constructor; simpl.
  - intros fd' s. unfold traffic_ok. rewrite Ho, Hrec, Hsent. simpl.
    intros [[<- <-]|[Hne Es]]%lookup_insert_Some.
    + rewrite !trace_of_insert_eq. split_and!; [clear -m; set_solver|done|done].
    + rewrite !trace_of_insert_ne by done. destruct (Ht _ _ Es) as (? & ? & ?). split_and!; [set_solver|done..].
  - rewrite insert_insert_eq. intros c' cn2 [[<- <-]|[Hne E2]]%lookup_insert_Some.
    + exists []. simpl. by rewrite lookup_insert_eq.
    + destruct (Hc c' cn2 E2) as [sent Em2]. exists sent. rewrite lookup_insert_ne; [done|].
      intros Efd; congruence.
  - rewrite insert_insert_eq. intros fd' s [[<- <-]|[Hne Es]]%lookup_insert_Some Hlive.
    + eexists _, _. by rewrite lookup_insert_eq.
    + destruct (Hl fd' s Es Hlive) as (c' & cn2 & E2 & Hfd2). exists c', cn2.
      rewrite lookup_insert_ne; [done|]. intros <-. congruence.
  - rewrite map_size_insert_None by done. rewrite Hn. lia.
Qed.
End Represents.
