(* ===== verification/EchoSafe.v ===== *)
(** * Runs of the echo server

    The invariant of Echo.v is preserved by every callback, every event, every
    turn of the loop, and established before the loop ([serving]), and all that they
    do is steps of the service of EchoSpec.v; the properties of the server for any
    number of turns follow. *)

From S2P Require Import Prelude Kernel Buffer LoopPool Net Poller Connection Server Echo EchoSpec.

Section Steps.
Context {K : Type} `{KernelLaws chan_ptr K}.
Implicit Types (w : World K) (v : kview chan_ptr) (c : conn_ptr) (cn : TcpConnection).

(** Where the service started. *)
Context (m0 : service).

Abbreviation view w := (k_view (w_kernel w)).
Abbreviation channels w := (poller_channels (loop_poller (w_loop w))).
Abbreviation connections w := (server_connections (w_server w)).

(** ** The callbacks of a connection *)

Definition Good w : Prop := Inv w ∧ served m0 w.

(** In the middle of [handleEvent] for the connection [c], whose events are
    [r]: the guard keeps it allocated, closed or not. *)
Definition Mid c (r : Z) (alive : bool) w : Prop :=
  ∃ cn, w_conns w !! c = Some cn ∧ ch_revents (conn_channel cn) = r
        ∧ if alive then Good w else Dead c w ∧ served m0 (with_conns (delete c) w).

Lemma isWriting_mask ch pending :
  ch_events ch = mask_of pending → isWriting ch = negb (bool_decide (pending = [])).
Proof. intros E. unfold isWriting. rewrite E. by destruct pending. Qed.

Lemma mask_of_app pending data : data ≠ [] → mask_of (pending ++ data) = RW.
Proof. intros. by destruct pending, data. Qed.

(** The channel of a connection after more output has been queued. *)
Lemma writing_channel_ok fd r pending data tie rc wc cc ec :
  data ≠ [] →
  writing_channel (mkChannel fd r (mask_of pending) tie rc wc cc ec)
  = mkChannel fd r (mask_of (pending ++ data)) tie rc wc cc ec.
Proof.
  intros Hd. rewrite mask_of_app by done. unfold writing_channel.
  erewrite isWriting_mask by reflexivity. by destruct pending.
Qed.

(** What the kernel knows of [c] after its channel asked for output events. *)
Lemma writing_view_spec c ch (v v' : kview chan_ptr) :
  registered_for (ch_fd ch) (interest_of (ConnChannel c) ch) v → writing_view c ch v v' →
  view_frame (ch_fd ch) v v'
  ∧ now_watched (ch_fd ch) (interest_of (ConnChannel c) (writing_channel ch)) v v'
  ∧ v_recvd v' = v_recvd v ∧ v_sent v' = v_sent v.
Proof.
  unfold writing_view, writing_channel. destruct (isWriting ch); intros Hint Hv.
  - subst v'. split_and!; try done. by apply registered_now.
  - destruct (mod_now_watched _ _ _ _ _ Hint Hv) as [Hf Hn].
    split_and!; [by apply ctl_view_frame|done|apply Hf|apply Hf].
Qed.

Lemma conn_ok_connected v c cn : conn_ok v c cn → conn_state cn = Some kConnected.
Proof. apply ok_state. Qed.

(** EchoServer::onMessage after [data] was read: the data moves to the output. *)
Lemma onMessage_step w c cn input data k1 :
  Good w → w_conns w !! c = Some cn → buffer_wf input → peek input = data →
  (0 < length data ≤ MAX_READ)%nat → buffer_size input = 1032 →
  k_view k1 = view_recv (conn_fd cn) data (view w) →
  runs (onMessage c) (upd_conn c (set_input input cn) k1 w)
    (λ _ w', Mid c (ch_revents (conn_channel cn)) true w' ∧ others_same (ConnChannel c) w w').
Proof.
  intros [HI HS] E Hwf Hpeek Hlen Hsz Hv1.
  assert (data ≠ []) as Hdata by (intros ->; simpl in Hlen; lia).
  destruct (i_conns w HI c cn E) as [Hok _]. pose proof (conn_ok_fd _ _ _ Hok) as Hfd.
  pose proof (Inv_interest_conn w c cn HI E) as Hint.
  destruct (ok_channel _ _ _ Hok) as [r Hch].
  assert (readableBytes input < 2 ^ 31) as Hlt.
  { destruct Hwf as (? & ? & ? & ?). unfold readableBytes, kInitialHeadSize in *. lia. }
  unfold onMessage. eapply runs_bind_Ok; [apply get_conn_run, upd_conn_lookup|]. simpl conn_input.
  unfold print_string. case_decide; [|by right; left]. eapply runs_bind_Ok; [done|].
  pose proof (append_spec (peek input) (conn_output cn) (ok_output _ _ _ Hok)) as Happ.
  destruct (append (peek input) (conn_output cn)) as [e|out] eqn:Eapp.
  { unfold runs, mbind, M_bind. erewrite send_fault; [by left|apply upd_conn_lookup|..]; try done.
    simpl. by eapply conn_ok_connected. }
  destruct Happ as [Hwfo Hpo].
  destruct (send_run c (set_input input cn) input out (upd_conn c (set_input input cn) k1 w))
    as (k2 & Es & Hv2); try done.
  { apply upd_conn_lookup. }
  { simpl. by eapply conn_ok_connected. }
  { by apply (Inv_registered w c cn). }
  runs_step Es. rewrite upd_conn_upd_conn.
  eapply runs_bind_Ok; [apply get_conn_run, upd_conn_lookup|].
  eapply runs_Ok; [apply put_conn_upd|]. rewrite upd_conn_upd_conn. simpl.
  rewrite <- Hfd in Hint.
  simpl in Hv2. rewrite Hv1 in Hv2.
  destruct (writing_view_spec c (conn_channel cn) (view_recv (conn_fd cn) data (view w)) _ Hint Hv2)
    as (Hfr & Hi & Hr & Hs).
  rewrite Hfd in *.
  split; [|apply others_same_upd]. eexists; split; [apply upd_conn_lookup|].
  split; [simpl; rewrite Hch; unfold writing_channel; by case_match|].
  assert (view_frame (conn_fd cn) (view w) (k_view k2)) as Hframe
    by (eapply view_frame_trans; [apply view_frame_recv|exact Hfr]).
  split.
  2: { apply served_receive with cn data; try done; simpl.
       - by rewrite Hpo, Hpeek.
       - rewrite Hr. simpl. apply trace_of_insert_eq.
       - by rewrite Hs. }
  apply Inv_upd_conn with cn; try done.
  - destruct Hok as [Hst Hin Hou Hc Hm Hcl Hco Hso Hop Hec]. constructor; simpl; try done.
    + destruct (retrieveAll_spec input Hwf). split_and!; try done.
    + exists r. rewrite Hch, Hpo, Hpeek. by apply writing_channel_ok.
    + rewrite (proj1 Hfr). done.
    + rewrite Hr, Hs. simpl. rewrite trace_of_insert_eq, Hec, Hpo, Hpeek. by rewrite app_assoc.
Qed.

Lemma buffer_room b : buffer_wf b → buffer_size b = 1032 → writableBytes b <= 1024.
Proof.
  intros Hwf Hs. rewrite (writableBytes_wf b Hwf), Hs. destruct Hwf as (? & ? & _).
  unfold kInitialHeadSize in *. lia.
Qed.

(** TcpConnection::handleRead: the connection echoes, or is closed. *)
Lemma handleRead_step w c r :
  Mid c r true w →
  runs (handleRead call_close c) w
    (λ _ w', (∃ alive, Mid c r alive w') ∧ others_same (ConnChannel c) w w').
Proof.
  intros (cn & E & <- & [HI HS]).
  destruct (i_conns w HI c cn E) as [Hok _]. pose proof (conn_ok_fd _ _ _ Hok) as Hfd.
  destruct (ok_input _ _ _ Hok) as (Hwf & Hp & Hsz).
  destruct (handleRead_run call_close c cn w E Hwf)
    as (input & k1 & data & Hrun & Hwfi & Hpi & Hszi & Hle & Hv1).
  pose proof (buffer_room _ Hwf Hsz) as Hroom.
  rewrite Hp in Hpi. simpl in Hpi. rewrite Hfd in Hv1.
  unfold runs. rewrite Hrun. clear Hrun. destruct (Z.ltb_spec 0 (Z.of_nat (length data))).
  - rewrite (ok_message _ _ _ Hok). simpl call_or_throw.
    eapply runs_conseq; [apply onMessage_step with (data := data); try done|].
    + unfold MAX_READ. lia.
    + congruence.
    + intros [] w' [Hmid Ho]. split; [by exists true|done].
  - assert (data = []) as -> by (apply length_zero_iff_nil; lia).
    set (w1 := upd_conn c (set_input input cn) k1 w).
    assert (Inv w1) as HI1.
    { apply Inv_upd_conn with cn; try done.
      - rewrite Hv1. destruct Hok as [Hst Hin Hou Hc Hm Hcl Hco Hso Hop Hec].
        constructor; simpl; try done.
        + by rewrite Hszi.
        + rewrite trace_of_insert_eq, Hec. by rewrite app_nil_r.
      - rewrite Hv1. apply view_frame_recv.
      - rewrite Hv1. exact (registered_now _ _ _ (Inv_interest_conn w c cn HI E)). }
    assert (served m0 w1) as HS1.
    { apply served_transmit with cn []; rewrite ?Hv1; try done; [apply view_frame_recv|simpl..].
      - by rewrite trace_of_insert_eq, app_nil_r.
      - by rewrite app_nil_r. }
    assert (w_conns w1 !! c = Some (set_input input cn)) as E1 by apply upd_conn_lookup.
    destruct (handleClose_run c (set_input input cn) w1 E1) as (k2 & Hrun & Hv2).
    { by eapply Inv_registered. }
    { by destruct Hok. }
    rewrite Hrun. split.
    + exists false. eexists. split; [apply lookup_insert_eq|]. split; [done|].
      simpl in Hv2. rewrite Hfd in Hv2. split; [apply Dead_closed|apply served_closed]; done.
    + eapply others_same_trans; [apply others_same_upd|apply others_same_closed].
Qed.

(** TcpConnection::handleClose, called by the channel. *)
Lemma handleClose_step w c r :
  Mid c r true w →
  runs (handleClose call_close c) w
    (λ _ w', Mid c r false w' ∧ others_same (ConnChannel c) w w').
Proof.
  intros (cn & E & <- & [HI HS]). destruct (i_conns w HI c cn E) as [Hok _].
  destruct (handleClose_run c cn w E (Inv_registered w c cn HI E) (ok_close _ _ _ Hok))
    as (k' & Hrun & Hv).
  eapply runs_Ok; [exact Hrun|]. split; [|apply others_same_closed].
  exists (closed_conn cn). split; [apply lookup_insert_eq|]. split; [done|].
  rewrite (conn_ok_fd _ _ _ Hok) in Hv. split; [apply Dead_closed|apply served_closed]; done.
Qed.

Lemma flushed_peek c cn v n :
  conn_ok v c cn → n <= Z.of_nat (length (peek (conn_output cn))) →
  peek (conn_output (flushed n cn)) = drop (Z.to_nat n) (peek (conn_output cn)).
Proof.
  intros Hok Hn. unfold flushed. destruct (Z.ltb_spec 0 n).
  - by apply retrieve_spec; [apply (ok_output _ _ _ Hok)|lia].
  - by replace (Z.to_nat n) with 0%nat by lia.
Qed.

(** The output that [send(2)] did not take. *)
Lemma flushed_ok v v' c cn n :
  conn_ok v c cn → isWriting (conn_channel cn) = true →
  -1 <= n <= Z.of_nat (length (peek (conn_output cn))) →
  registered_for (conn_fd cn) (interest_of (ConnChannel c) (conn_channel cn)) v →
  flush_view c n cn v v' →
  conn_ok v' c (flushed n cn) ∧ view_frame (conn_fd cn) v v'
  ∧ now_watched (conn_fd cn) (interest_of (ConnChannel c) (conn_channel (flushed n cn))) v v'
  ∧ v_recvd v' = v_recvd v
  ∧ trace_of (v_sent v') (conn_fd cn)
    = trace_of (v_sent v) (conn_fd cn) ++ take (Z.to_nat n) (peek (conn_output cn)).
Proof.
  intros Hok Hw Hn Hint. pose proof (conn_ok_fd _ _ _ Hok) as Hfd.
  destruct Hok as [Hst Hin Hou [r Hch] Hm Hcl Hco Hso Hop Hec].
  unfold flush_view, flushed. cbv zeta. rewrite Hfd. clear Hfd.
  pose proof (view_frame_send (conn_fd cn) (take (Z.to_nat n) (peek (conn_output cn))) v) as Hfr.
  destruct (Z.ltb_spec 0 n) as [Hpos|Hneg]; simpl andb.
  2: { intros ->. replace (Z.to_nat n) with 0%nat in * by lia. rewrite take_0 in Hfr |- *.
       split_and!; [|exact Hfr|exact (registered_now _ _ _ Hint)|done|].
       - constructor; try done; [by exists r|]. simpl. by rewrite trace_of_insert_eq, app_nil_r.
       - simpl. by rewrite trace_of_insert_eq. }
  destruct (retrieve_spec n (conn_output cn) Hou ltac:(lia)) as [Hwf Hp].
  pose proof (length_peek _ Hwf) as Hl.
  rewrite Hch in Hw. rewrite (isWriting_mask _ (peek (conn_output cn))) in Hw by done.
  assert (mask_of (peek (conn_output cn)) = RW) as Hmask by by destruct (peek (conn_output cn)).
  assert (trace_of (v_recvd v) (conn_fd cn)
    = (trace_of (v_sent v) (conn_fd cn) ++ take (Z.to_nat n) (peek (conn_output cn)))
      ++ peek (retrieve n (conn_output cn))) as Htr.
  { by rewrite Hp, <- app_assoc, take_drop. }
  destruct (Z.eqb_spec (readableBytes (retrieve n (conn_output cn))) 0) as [Hz|Hz]; simpl andb.
  - intros Hc. assert (peek (retrieve n (conn_output cn)) = []) as Hnil by (apply length_zero_iff_nil; lia).
    destruct (mod_now_watched (conn_fd cn) (interest_of (ConnChannel c) (conn_channel cn)) _
      (view_send (conn_fd cn) (take (Z.to_nat n) (peek (conn_output cn))) v) _ Hint Hc) as [Hf Hnw].
    pose proof Hf as [Hfo Hfrec Hfs _ _ _]. simpl in Hfo, Hfrec, Hfs.
    split_and!.
    + constructor; try done; simpl; [|by rewrite Hfo|by rewrite Hfrec, Hfs, trace_of_insert_eq].
      exists r. rewrite Hnil, Hch. unfold add_events, del_events, set_events; simpl.
      by rewrite Hmask.
    + eapply view_frame_trans; [exact Hfr|]. by apply ctl_view_frame.
    + exact Hnw.
    + done.
    + by rewrite Hfs, trace_of_insert_eq.
  - intros ->. assert (mask_of (peek (retrieve n (conn_output cn))) = RW) as Hmask'.
    { destruct (peek (retrieve n (conn_output cn))); [simpl in Hl; lia|done]. }
    split_and!; [|exact Hfr|exact (registered_now _ _ _ Hint)|done|].
    + constructor; try done; simpl; [|by rewrite trace_of_insert_eq].
      exists r. by rewrite Hmask', Hch, Hmask.
    + simpl. by rewrite trace_of_insert_eq.
Qed.

(** TcpConnection::handleWrite when output is waited for. *)
Lemma handleWrite_flush w c cn :
  Inv w → w_conns w !! c = Some cn → isWriting (conn_channel cn) = true →
  sys_sigpipe (w_kernel w) (conn_fd cn) = false →
  ∃ n k', let w' := upd_conn c (flushed n cn) k' w in
    handleWrite c w = Ok tt w' ∧ Inv w'
    ∧ n = (sys_send (w_kernel w) (conn_fd cn) (peek (conn_output cn))).1
    ∧ v_recvd (view w') = v_recvd (view w)
    ∧ (served m0 w → served m0 w').
Proof.
  intros HI E Ew Hpipe. destruct (i_conns w HI c cn E) as [Hok _].
  destruct (handleWrite_run c cn w E (Inv_registered w c cn HI E) Ew)
    as (n & k' & Hrun & Hnv & Hn & Hv).
  { destruct (ok_channel _ _ _ Hok) as [r' Hch]. unfold isNoEvent.
    rewrite (isWriting_mask _ _ (conn_ok_events _ _ _ Hok)) in Ew.
    unfold del_events; simpl. rewrite (conn_ok_events _ _ _ Hok).
    by destruct (peek (conn_output cn)). }
  { by rewrite (conn_ok_fd _ _ _ Hok). }
  destruct (flushed_ok (view w) (k_view k') c cn n Hok Ew Hn
    (Inv_interest_conn w c cn HI E) Hv) as (Hok' & Hfr & Hi & Hr & Hs).
  assert (conn_fd (flushed n cn) = conn_fd cn) as Hfd by (unfold flushed; by repeat case_match).
  exists n, k'. split_and!.
  - exact Hrun.
  - apply Inv_upd_conn with cn; try done; unfold flushed; by repeat case_match.
  - by rewrite (conn_ok_fd _ _ _ Hok) in Hnv.
  - exact Hr.
  - intros HS. eapply served_transmit; [exact HI|exact HS|exact E|exact Hfd|exact Hfr|..|exact Hs].
    + rewrite (flushed_peek c cn (view w) n Hok) by lia. by rewrite take_drop.
    + by rewrite Hr.
Qed.

(** TcpConnection::handleWrite, called by the channel. *)
Lemma handleWrite_step w c r alive :
  Mid c r alive w →
  runs (handleWrite c) w (λ _ w', Mid c r alive w' ∧ others_same (ConnChannel c) w w').
Proof.
  intros Hmid. pose proof Hmid as (cn & E & Er & Hw).
  destruct (isWriting (conn_channel cn)) eqn:Ew.
  2: { eapply runs_Ok; [by apply handleWrite_idle with cn|]. split; [done|]. by intros q ch. }
  destruct alive.
  2: { destruct Hw as [(_ & cn' & E' & Hev & _) _]. rewrite E in E'. injection E' as <-.
       unfold isWriting in Ew. by rewrite Hev in Ew. }
  destruct Hw as [HI HS].
  destruct (sys_sigpipe (w_kernel w) (conn_fd cn)) eqn:Hpipe.
  { destruct (i_conns w HI c cn E) as [Hok _]. unfold runs.
    erewrite handleWrite_killed; [by right; right|done|done|by rewrite (conn_ok_fd _ _ _ Hok)]. }
  destruct (handleWrite_flush w c cn HI E Ew Hpipe) as (n & k' & Hrun & HI' & _ & _ & HS').
  eapply runs_Ok; [exact Hrun|]. split; [|apply others_same_upd].
  exists (flushed n cn). split; [apply upd_conn_lookup|].
  split; [rewrite <- Er; unfold flushed; by repeat case_match|split; [done|by apply HS']].
Qed.

(** ** Channel::handleEvent *)

Lemma has_lor r a b : has r (Z.lor a b) = has r a || has r b.
Proof.
  unfold has. rewrite Z.land_lor_distr_r.
  destruct (Z.eqb_spec (Z.land (u32 r) a) 0) as [->|Ha]; simpl; [by rewrite Z.lor_0_l|].
  apply negb_true_iff, Z.eqb_neq. by intros [? _]%Z.lor_eq_0_iff.
Qed.

(** A reported hang-up without data is not also a read event. *)
Lemma regular_close_read r : regular r → is_close_event r = true → is_read_event r = false.
Proof.
  unfold regular, is_close_event, is_read_event, urgent_hangup. intros [Hrd Hex] [Hh Hi]%andb_true_iff.
  rewrite Hh, Hi in Hex. apply negb_true_iff in Hi. rewrite !has_lor, Hrd, Hi. simpl in *.
  by rewrite Hex.
Qed.

Lemma dispatch_step call p test cb w ch (Q : unit → World K → Prop) :
  channel_at w p = Some ch →
  (test (ch_revents ch) = true → runs (call_if_set call (cb ch)) w Q) →
  (test (ch_revents ch) = false → Q tt w) →
  runs (dispatch call p test cb) w Q.
Proof.
  intros Hch Ht Hf. unfold dispatch. runs_step get_chan_run. by apply runs_when.
Qed.

Lemma Mid_channel c r alive w :
  Mid c r alive w →
  ∃ ch, channel_at w (ConnChannel c) = Some ch ∧ ch_revents ch = r
    ∧ ch_read_callback ch = Some (TcpConnection_handleRead c)
    ∧ ch_write_callback ch = Some (TcpConnection_handleWrite c)
    ∧ ch_error_callback ch = Some (TcpConnection_handleError c)
    ∧ (alive = true → ch_close_callback ch = Some (TcpConnection_handleClose c)
         ∧ ch_tie ch = Some c).
Proof.
  intros (cn & E & Er & Hw). exists (conn_channel cn).
  split; [by apply channel_at_conn|]. split; [done|]. destruct alive.
  - destruct (i_conns w (proj1 Hw) c cn E) as [Hok _]. by destruct (ok_channel _ _ _ Hok) as [r' ->].
  - destruct Hw as [(_ & cn' & E' & _ & _ & He & Hwr & Hr) _]. rewrite E in E'. by injection E' as <-.
Qed.

Lemma handleError_step w c r alive :
  Mid c r alive w → handleError c w = Ok tt w.
Proof. intros (cn & E & _). unfold handleError. by do_step get_conn_run. Qed.

(** Where the guard goes out of scope. *)
Lemma release_step w c r alive :
  Mid c r alive w →
  runs (release_guard (Some c)) w (λ _ w', Good w' ∧ others_same (ConnChannel c) w w').
Proof.
  intros (cn & E & _ & Hw). simpl. destruct alive.
  - eapply runs_Ok; [apply release_alive with cn; [apply Hw|done]|]. split; [done|]. by intros q ch.
  - destruct Hw as [Hdead HS]. eapply runs_Ok; [by apply release_Dead|]. split; [by split; [apply Hdead|]|].
    intros [|c'] ch Hne; simpl; [done|]. by rewrite lookup_delete_ne by congruence.
Qed.

(** One test of [handleEvent] on a connection in the middle of its events. *)
Lemma dispatch_Mid c r alive test cb f w0 w :
  Mid c r alive w → others_same (ConnChannel c) w0 w →
  (∀ ch, channel_at w (ConnChannel c) = Some ch → cb ch = Some f) →
  (test r = true → runs (invoke f) w
     (λ _ w', (∃ alive', Mid c r alive' w') ∧ others_same (ConnChannel c) w w')) →
  runs (dispatch invoke (ConnChannel c) test cb) w
    (λ _ w', ∃ alive', Mid c r alive' w' ∧ others_same (ConnChannel c) w0 w').
Proof.
  intros Hmid Ho Hcb Hrun.
  destruct (Mid_channel c r alive w Hmid) as (ch & Hch & Hr & _).
  eapply dispatch_step; [exact Hch|rewrite Hr, (Hcb ch Hch); intros Ht|by eauto].
  eapply runs_conseq; [by apply Hrun|]. intros [] w' [[alive' Hm] Ho'].
  exists alive'. split; [done|]. by eapply others_same_trans.
Qed.

(** The first test: what is closed has no read event. *)
Lemma dispatch_close w c r :
  Mid c r true w → regular r →
  runs (dispatch invoke (ConnChannel c) is_close_event ch_close_callback) w
    (λ _ w', ∃ alive, Mid c r alive w' ∧ others_same (ConnChannel c) w w'
             ∧ (alive = false → is_read_event r = false)).
Proof.
  intros Hmid Hreg.
  destruct (Mid_channel c r true w Hmid) as (ch & Hch & Hr & _ & _ & _ & Hcl).
  destruct (Hcl eq_refl) as [Hclose _].
  eapply dispatch_step; [exact Hch|rewrite Hclose, Hr; intros Hc; simpl|intros _].
  - eapply runs_conseq; [by apply handleClose_step|].
    intros [] w' [Hm Ho]. exists false. split_and!; [done..|]. intros _.
    by apply regular_close_read.
  - exists true. split_and!; [done| |done]. by intros q x.
Qed.

(** The other tests, in order, and the end of the guard. *)
Lemma dispatch_rest w0 w c r alive :
  Mid c r alive w → others_same (ConnChannel c) w0 w →
  (alive = false → is_read_event r = false) →
  runs (dispatch invoke (ConnChannel c) is_read_event ch_read_callback ;;
        dispatch invoke (ConnChannel c) is_write_event ch_write_callback ;;
        dispatch invoke (ConnChannel c) is_error_event ch_error_callback ;;
        release_guard (Some c)) w
    (λ _ w', Good w' ∧ others_same (ConnChannel c) w0 w').
Proof.
  intros Hmid Ho Hdead. assert (∀ a w, Mid c r a w → ∀ ch, channel_at w (ConnChannel c) = Some ch →
    ch_read_callback ch = Some (TcpConnection_handleRead c)
    ∧ ch_write_callback ch = Some (TcpConnection_handleWrite c)
    ∧ ch_error_callback ch = Some (TcpConnection_handleError c)) as Hcbs.
  { intros a w' Hm ch Hch. destruct (Mid_channel c r a w' Hm) as (ch' & Hch' & ? & ? & ? & ? & _).
    rewrite Hch in Hch'. by injection Hch' as <-. }
  eapply runs_bind, runs_conseq.
  { eapply dispatch_Mid; [done|done|by intros; eapply Hcbs|]. simpl. intros Hrd.
    destruct alive; [by apply handleRead_step|by rewrite Hdead in Hrd]. }
  intros [] w1 (a1 & Hmid1 & Ho1). eapply runs_bind, runs_conseq.
  { eapply dispatch_Mid; [done|done|by intros; eapply Hcbs|]. simpl. intros _.
    eapply runs_conseq; [by apply handleWrite_step|]. intros [] w' [Hm Ho']. eauto. }
  intros [] w2 (a2 & Hmid2 & Ho2). eapply runs_bind, runs_conseq.
  { eapply dispatch_Mid; [done|done|by intros; eapply Hcbs|]. simpl. intros _.
    eapply runs_Ok; [by eapply handleError_step|]. split; [eauto|by intros q x]. }
  intros [] w3 (a3 & Hmid3 & Ho3).
  eapply runs_conseq; [by eapply release_step|]. intros [] w4 [HI4 Ho4].
  split; [done|]. by eapply others_same_trans.
Qed.

(** Every callback of [handleEvent] in turn, for a connection. *)
Lemma handleEvent_conn_step w c ch :
  Good w → channel_at w (ConnChannel c) = Some ch → regular (ch_revents ch) →
  runs (handleEvent invoke (ConnChannel c)) w
    (λ _ w', Good w' ∧ others_same (ConnChannel c) w w').
Proof.
  intros HG Hch Hreg.
  assert (Mid c (ch_revents ch) true w) as Hmid.
  { simpl in Hch. apply fmap_Some in Hch as (cn & E & Ec). exists cn. by rewrite <- Ec. }
  destruct (Mid_channel _ _ _ _ Hmid) as (ch1 & Hch1 & _ & _ & _ & _ & Hcl).
  destruct (Hcl eq_refl) as [_ Htie].
  unfold handleEvent. eapply runs_bind_Ok.
  { unfold lock_tie. do_step get_chan_run. rewrite get_bind, Htie. destruct Hmid as (cn & E & _).
    rewrite decide_True by eauto. reflexivity. }
  eapply runs_bind, runs_conseq; [by apply dispatch_close|].
  intros [] w1 (alive & Hmid1 & Ho1 & Hdead). by eapply dispatch_rest.
Qed.

(** ** The acceptor *)

Lemma Inv_with_kernel w k' : Inv w → k_view k' = view w → Inv (with_kernel k' w).
Proof. intros [] E. constructor; simpl; rewrite ?E; done. Qed.

(** A change that neither the invariant nor the service sees. *)
Lemma Good_same w w' :
  Good w → Inv w' → view w' = view w → w_server w' = w_server w → w_conns w' = w_conns w → Good w'.
Proof.
  intros [_ HS] HI Ev Es Ec. split; [done|]. apply served_same with w; try done; [by rewrite Es|].
  intros c. by rewrite Ec.
Qed.

(** Acceptor::handleRead: a connection is accepted, or nothing changes. *)
Lemma acceptor_handleRead_step w :
  Good w →
  runs acceptor_handleRead w (λ _ w', Good w' ∧ others_same AcceptChannel w w').
Proof.
  intros HG. pose proof HG as [HI HS]. unfold acceptor_handleRead.
  destruct (i_accept w HI) as (_ & _ & Hcb).
  destruct (socket_accept_run (acceptor_fd (w_acceptor w)) w) as (fd & k1 & Ha & Hneg & Hpos).
  eapply runs_bind_Ok; [done|]. eapply runs_bind_Ok; [exact Ha|].
  destruct (Z.leb_spec 0 fd) as [Hfd|Hfd].
  2: { eapply runs_Ok; [done|].
       split; [apply Good_same with w; try done; [apply Inv_with_kernel; auto|simpl; auto]|].
       intros q ch _. by rewrite channel_at_with_kernel. }
  destruct (Hpos Hfd) as (Hlt & Hnew & Hint & Hv1). rewrite Hcb.
  pose proof (Inv_ids_room w fd HI ltac:(lia) Hnew) as Hids.
  destruct (i_server w HI) as [Hcon _].
  destruct (newConnection_run fd zero_addr (with_kernel k1 w)) as (la & k2 & Hn & Hv2).
  { apply (i_loop w HI). }
  { simpl. lia. }
  { exact (Inv_name_fresh w HI). }
  { exact (Inv_fd_fresh w fd HI Hnew). }
  simpl w_server in Hn. rewrite Hcon in Hn.
  eapply runs_Ok; [exact Hn|]. split.
  - assert (accept_view w fd (interest_of (ConnChannel (w_next_ptr w)) (conn_channel (new_conn fd la zero_addr w)))
      (k_view k2)) as Hacc.
    { simpl w_kernel in Hv2. rewrite Hv1 in Hv2. by apply ctl_add_watched in Hv2;
        [|done|simpl; apply elem_of_union; left; by apply elem_of_singleton]. }
    split; [by apply Inv_accepted|by apply served_accepted].
  - intros [|c] ch Hne; simpl; [done|]. rewrite insert_insert_eq.
    intros Hc. rewrite lookup_insert_ne; [done|]. intros <-.
    apply fmap_Some in Hc as (cn & E & _). pose proof (i_fresh w HI _ ltac:(eauto)). lia.
Qed.

Lemma handleEvent_accept_step w :
  Good w →
  runs (handleEvent invoke AcceptChannel) w (λ _ w', Good w' ∧ others_same AcceptChannel w w').
Proof.
  intros HG. pose proof HG as [HI _].
  assert (∀ w', Inv w' → ∃ ch, channel_at w' AcceptChannel = Some ch ∧ ch_tie ch = None
    ∧ ch_close_callback ch = None ∧ ch_read_callback ch = Some Acceptor_handleRead
    ∧ ch_write_callback ch = None ∧ ch_error_callback ch = None) as Hch.
  { intros w' HI'. destruct (i_accept w' HI') as [[r Ha] _]. eexists. split; [done|]. by rewrite Ha. }
  assert (∀ w' test cb, Inv w' → (∀ ch, channel_at w' AcceptChannel = Some ch → cb ch = None) →
    dispatch invoke AcceptChannel test cb w' = Ok tt w') as Hskip.
  { intros w' test cb HI' Hcb. destruct (Hch w' HI') as (ch & Hc & _). unfold dispatch.
    do_step get_chan_run. rewrite (Hcb ch Hc). simpl. by destruct (test _). }
  destruct (Hch w HI) as (ch & Hc & Ht & Hcl & Hr & _).
  unfold handleEvent. eapply runs_bind_Ok.
  { unfold lock_tie. do_step get_chan_run. rewrite get_bind, Ht. reflexivity. }
  eapply runs_bind_Ok; [apply Hskip; [done|congruence]|].
  apply runs_bind, runs_conseq with (λ _ w', Good w' ∧ others_same AcceptChannel w w').
  { eapply dispatch_step; [exact Hc| |].
    - rewrite Hr. intros _. by apply acceptor_handleRead_step.
    - intros _. split; [done|]. by intros q x. }
  intros [] w1 [HG1 Ho1]. pose proof HG1 as [HI1 _]. destruct (Hch w1 HI1) as (ch1 & Hc1 & _ & _ & _ & Hw & He).
  eapply runs_bind_Ok; [apply Hskip; [done|congruence]|].
  eapply runs_bind_Ok; [apply Hskip; [done|congruence]|]. done.
Qed.

(** ** A turn of the loop *)

Lemma handleEvent_step p ps w :
  Good w → active_ok (p :: ps) w →
  runs (handleEvent invoke p) w (λ _ w', Good w' ∧ active_ok ps w').
Proof.
  intros HG [[Hp Hnd]%NoDup_cons Hall].
  assert (∀ w', Good w' ∧ others_same p w w' → Good w' ∧ active_ok ps w') as Hfin.
  { intros w' [HI' Ho]. split; [done|]. split; [done|]. intros q Hq.
    destruct (Hall q) as (ch & Hc & Hr); [by apply elem_of_cons; right|].
    exists ch. split; [|done]. apply Ho; [|done]. by intros ->. }
  apply runs_conseq with (λ _ w', Good w' ∧ others_same p w w'); [|by intros [] w'; apply Hfin].
  destruct p as [|c]; [by apply handleEvent_accept_step|].
  destruct (Hall (ConnChannel c)) as (ch & Hc & Hr); [by apply elem_of_cons; left|].
  by apply handleEvent_conn_step with ch.
Qed.

(** What [poll] writes in a channel is not part of the invariant. *)
Lemma Inv_set_revents w p ch r :
  Inv w → channel_at w p = Some ch → Inv (put_channel p (set_revents r ch) w).
Proof.
  intros HI Hch. destruct p as [|c].
  - simpl in Hch. injection Hch as <-. destruct (i_accept w HI) as ([r0 Ha] & Ho & Hcb).
    destruct HI as [H1 H2 H3 Hlive H4 H5 H6 H7 H8 H9 H10 H11 H12]. constructor; try done; simpl.
    + intros fd [|c]; [|apply (H3 fd (ConnChannel c))]. rewrite (H3 fd AcceptChannel). simpl.
      split; intros (? & [= <-] & <-); eauto.
    + intros fd Hs Hl. rewrite H4 by done. destruct (channels w !! fd) as [[|c]|]; done.
    + split; [|done]. exists r. by rewrite Ha.
  - simpl in Hch. apply fmap_Some in Hch as (cn & E & ->).
    pose proof (put_channel_upd c cn (set_revents r (conn_channel cn)) (w_kernel w) w E) as Hput.
    replace (put_channel _ _ w) with (upd_conn c (set_channel (set_revents r (conn_channel cn)) cn) (w_kernel w) w)
      by (rewrite <- Hput; by destruct w).
    destruct (i_conns w HI c cn E) as [Hok _].
    apply Inv_upd_conn with cn; try done.
    + destruct Hok as [Hst Hin Hou [r0 Hc] Hm Hcl Hco Hso Hop Hec]. constructor; simpl; try done.
      exists r. by rewrite Hc.
    + exact (registered_now _ _ _ (Inv_interest_conn w c cn HI E)).
Qed.

Lemma Inv_with_loop w f :
  Inv w → poller_channels (loop_poller (f (w_loop w))) = channels w →
  poller_epfd (loop_poller (f (w_loop w))) = poller_epfd (loop_poller (w_loop w)) →
  loop_quit (f (w_loop w)) = false → Inv (with_loop f w).
Proof.
  intros HI E Eep Eq. pose proof (i_loop w HI) as [Hp _]. destruct HI.
  constructor; simpl; rewrite ?E; try done. split; [|done]. unfold polling; simpl. by rewrite Eep.
Qed.

(** Nor are they part of what the service sees. *)
Lemma Good_set_revents w p ch r :
  Good w → channel_at w p = Some ch → Good (put_channel p (set_revents r ch) w).
Proof.
  intros [HI HS] Hch. split; [by apply Inv_set_revents|]. destruct p as [|c]; [by eapply served_same|].
  apply served_same with w; [done..|]. intros c'. simpl. destruct (decide (c' = c)) as [->|Hne].
  - rewrite lookup_alter_eq. by destruct (w_conns w !! c).
  - by rewrite lookup_alter_ne.
Qed.

Lemma Good_with_loop w f :
  Good w → poller_channels (loop_poller (f (w_loop w))) = channels w →
  poller_epfd (loop_poller (f (w_loop w))) = poller_epfd (loop_poller (w_loop w)) →
  loop_quit (f (w_loop w)) = false → Good (with_loop f w).
Proof. intros HG ???. apply Good_same with w; try done. by apply Inv_with_loop; [apply HG|..]. Qed.

(** An event that the kernel reports for a known mask, no urgent hang-up, is regular. *)
Lemma event_regular (ie e : epoll_event chan_ptr) :
  known_mask (ev_events ie) → event_ok ie e → urgent_hangup (ev_events e) = false →
  regular (i32 (ev_events e)).
Proof.
  intros Hmask (_ & Hr & Hbits) Hurg. unfold regular, urgent_hangup in *.
  assert (∀ m, has (i32 (ev_events e)) m = has (ev_events e) m) as Hhas.
  { intros m. unfold has. by rewrite u32_i32. }
  rewrite !Hhas. split; [|done]. unfold has. rewrite wrap_u_small by done.
  apply negb_false_iff, Z.eqb_eq. apply Z.bits_inj_0. intros i. rewrite Z.land_spec.
  destruct (Z.testbit EPOLLRDHUP i) eqn:Ei; [|apply andb_false_r].
  assert (i = 13) as ->.
  { destruct (Z.lt_ge_cases i 0); [by rewrite Z.testbit_neg_r in Ei|].
    change EPOLLRDHUP with (2 ^ 13) in Ei. rewrite Z.pow2_bits_eqb in Ei by lia.
    by apply Z.eqb_eq in Ei. }
  destruct (Z.testbit (ev_events e) 13) eqn:E13; [|done]. exfalso.
  specialize (Hbits 13 ltac:(lia) E13). by destruct Hmask as [Hm|[Hm|Hm]]; rewrite Hm in Hbits.
Qed.

(** The reports of [epoll_wait] that are still to be stored. *)
Definition to_store w (evs : list (epoll_event chan_ptr)) : Prop :=
  ∃ fds, NoDup fds
    ∧ Forall2 (λ fd e, ∃ ie, (v_interest (view w) !! fd = Some ie) ∧ event_ok ie e) fds evs
    ∧ (∀ fd p, fd ∈ fds → channels w !! fd = Some p → p ∉ loop_active_channels (w_loop w))
    ∧ v_stale (view w) = false ∧ forallb (λ e, negb (urgent_hangup (ev_events e))) evs = true.

Lemma poller_activate_step e evs w :
  Good w → active_ok (loop_active_channels (w_loop w)) w → to_store w (e :: evs) →
  runs (poller_activate e) w (λ _ w', Good w'
    ∧ active_ok (loop_active_channels (w_loop w')) w' ∧ to_store w' evs).
Proof.
  intros HG [Hnd Hact] (fds0 & Hnd0 & Hev & Hno & Hst & Hurg). pose proof HG as [HI _].
  simpl in Hurg. apply andb_true_iff in Hurg as [Hu%negb_true_iff Hurg].
  apply Forall2_cons_inv_r in Hev as (fd & fds & (ie & Hint & Hok) & Hev & ->).
  apply NoDup_cons in Hnd0 as [Hfd Hnd0].
  destruct (i_live w HI fd ie Hst Hint) as [Ep Hmask]. set (p := ev_ptr ie) in *.
  pose proof (proj1 (i_chans w HI fd p) Ep) as (ch & Hch & Hchfd).
  pose proof (event_regular ie e Hmask Hok Hu) as Hreg.
  destruct Hok as (Hptr & _). fold p in Hptr.
  assert (p ∉ loop_active_channels (w_loop w)) as Hp by (apply (Hno fd); [by left|done]).
  unfold poller_activate. rewrite Hptr. runs_step get_chan_run.
  eapply runs_bind_Ok; [done|]. eapply runs_Ok; [done|].
  pose proof (Good_set_revents w p ch (i32 (ev_events e)) HG Hch) as HG'.
  assert (channels (put_channel p (set_revents (i32 (ev_events e)) ch) w) = channels w
    ∧ view (put_channel p (set_revents (i32 (ev_events e)) ch) w) = view w
    ∧ w_loop (put_channel p (set_revents (i32 (ev_events e)) ch) w) = w_loop w) as (Hcs & Hvs & Hls)
    by by destruct p.
  split_and!.
  - apply Good_with_loop; try done. simpl. rewrite Hls. apply (i_loop w HI).
  - simpl. rewrite Hls. split.
    + apply NoDup_app. split_and!; [done| |apply NoDup_singleton].
      by intros x Hx ->%list_elem_of_singleton.
    + intros q Hq. rewrite channel_at_with_loop. destruct (decide (q = p)) as [->|Hne].
      * exists (set_revents (i32 (ev_events e)) ch).
        split; [by eapply channel_at_put_eq|done].
      * rewrite channel_at_put_ne by done. apply Hact.
        by apply elem_of_app in Hq as [?|?%list_elem_of_singleton].
  - exists fds. simpl. rewrite Hcs, Hvs, Hls. split_and!; [done|done| |done|done].
    intros fd' q Hfd' Hq. apply not_elem_of_app. split; [apply (Hno fd'); [by right|done]|].
    intros ->%list_elem_of_singleton. apply Hfd.
    apply (i_chans w HI) in Hq as (ch' & Hch' & <-). rewrite Hch in Hch'. injection Hch' as <-.
    by rewrite Hchfd in Hfd'.
Qed.

Lemma poller_poll_step w :
  Good w → calm w = true → loop_active_channels (w_loop w) = [] →
  runs poller_poll w (λ _ w', Good w' ∧ active_ok (loop_active_channels (w_loop w')) w').
Proof.
  intros HG Hcalm Hnil. pose proof HG as [HI _]. unfold calm in Hcalm.
  unfold poller_poll, syscall. eapply runs_bind_Ok; [done|].
  destruct (sys_epoll_wait (w_kernel w) (poller_epfd (loop_poller (w_loop w)))
    (i32 (poller_events_size (loop_poller (w_loop w))))) as [[n evs] k'] eqn:Ew.
  apply andb_true_iff in Hcalm as [Hst%negb_true_iff Hurg].
  eapply runs_bind_Ok; [by rewrite Ew|]. apply wait_law in Ew as (Hn & Hlen & Hv & fds & Hnd & Hev);
    [|apply (i_loop w HI)].
  assert (Good (with_kernel k' w)) as HG1 by (apply Good_same with w; try done; by apply Inv_with_kernel).
  assert (active_ok (loop_active_channels (w_loop (with_kernel k' w))) (with_kernel k' w)) as Hact.
  { simpl. rewrite Hnil. split; [constructor|]. by intros p ?%elem_of_nil. }
  destruct (n <=? 0); [by eapply runs_Ok|].
  eapply runs_bind, runs_conseq.
  { apply (safe_iterM poller_activate (λ evs w, Good w
      ∧ active_ok (loop_active_channels (w_loop w)) w ∧ to_store w evs)).
    - intros e evs' w' (HI' & Ha' & Hst'). by apply poller_activate_step.
    - split_and!; [done|done|]. exists fds. simpl. rewrite Hv, Hnil.
      split_and!; [done|done| |done|done]. intros fd p _ _. apply not_elem_of_nil. }
  intros [] w' (HI' & Ha' & _). apply runs_when; [|done]. intros _.
  eapply runs_Ok; [done|]. split; [apply Good_with_loop; try done; apply (i_loop w' (proj1 HI'))|].
  destruct Ha' as [Hd Ha']. split; [done|]. intros p Hp.
  destruct (Ha' p Hp) as (ch & Hc & Hr). exists ch. by destruct p.
Qed.

(** One turn of the loop. *)
Lemma loop_turn_step w : Good w → calm w = true → runs loop_turn w (λ _, Good).
Proof.
  intros HG Hcalm. unfold loop_turn. eapply runs_bind_Ok; [done|].
  eapply runs_bind, runs_conseq.
  { apply poller_poll_step; [|exact Hcalm|done]. apply Good_with_loop; try done. apply (i_loop w (proj1 HG)). }
  intros [] w' [HG' Ha']. eapply runs_bind_Ok; [done|].
  eapply runs_conseq.
  { apply (safe_iterM (handleEvent invoke) (λ ps w, Good w ∧ active_ok ps w)); [|done].
    intros p ps w1 [HI1 Ha1]. by apply handleEvent_step. }
  by intros [] w1 [? _].
Qed.

(** The loop for [n] turns of a run of which [more] are to come. *)
Lemma loop_turns_step n more w :
  Good w → orderly (n + more) w = true →
  runs (loop_turns n) w (λ b w', (Good w' ∧ b = false) ∧ orderly more w' = true).
Proof.
  revert w. induction n as [|n IH]; intros w HG Ho; simpl; (eapply runs_bind_Ok; [done|]);
    destruct (i_loop w (proj1 HG)) as [_ ->].
  - by eapply runs_Ok.
  - simpl in Ho. apply andb_true_iff in Ho as [Hc Ho].
    pose proof (loop_turn_step w HG Hc) as Hturn. apply runs_bind. unfold runs in Hturn.
    unfold runs at 1. destruct (loop_turn w) as [[] w'|e]; [|done]. by apply IH.
Qed.

Lemma loop_step n more w :
  Good w → orderly (n + more) (with_loop set_running w) = true →
  runs (loop n) w (λ b w', (Good w' ∧ b = false) ∧ orderly more w' = true).
Proof.
  intros HG Ho. unfold loop. eapply runs_bind_Ok; [done|].
  apply loop_turns_step; [|done]. by apply Good_with_loop.
Qed.

End Steps.

(** ** The start of the server *)

Section Start.
Context {K : Type} `{KernelLaws chan_ptr K}.
Implicit Types (w : World K).

Abbreviation view w := (k_view (w_kernel w)).
Abbreviation channels w := (poller_channels (loop_poller (w_loop w))).

(** A process that has descriptors of its own, but has sent nothing. *)
Definition fresh_kernel (k : K) : Prop :=
  (∀ fd, fd ∈ v_open (k_view k) → 0 <= fd < 2 ^ 31) ∧ v_sent (k_view k) = ∅.

(** The epoll instance and the listening socket could be created. *)
Definition created w : Prop :=
  polling w ∧ 0 <= acceptor_fd (w_acceptor w).

Lemma EchoServer_with_spec pool port (k : K) :
  let w := EchoServer_with pool port k in
  fresh_kernel k → created w →
  acceptor_channel (w_acceptor w)
    = mkChannel (acceptor_fd (w_acceptor w)) 0 0 None (Some Acceptor_handleRead) None None None
  ∧ acceptor_newconnection_cb (w_acceptor w) = Some TcpServer_newConnection
  ∧ w_server w = mkTcpServer ∅ 0 "EchoServer" (Some EchoServer_onConnect)
      (Some EchoServer_onMessage) None pool
  ∧ w_conns w = ∅ ∧ channels w = ∅ ∧ loop_quit (w_loop w) = false
  ∧ acceptor_fd (w_acceptor w) ∈ v_open (view w) ∧ v_interest (view w) = ∅
  ∧ (∀ fd, fd ∈ v_open (view w) → 0 <= fd < 2 ^ 31)
  ∧ (∀ fd, trace_of (v_sent (view w)) fd = []).
Proof.
  unfold created, polling, EchoServer_with, EventLoop_new, TcpServer_new, Acceptor_new,
    createSocket, socket_bind.
  destruct (sys_epoll_create k) as [epfd k1] eqn:E1.
  destruct (sys_socket k1 _) as [fd k2] eqn:E2.
  destruct (sys_bind k2 fd _) as [r k3] eqn:E3. simpl.
  intros [Hr Hs] [Hep Hfd].
  apply epoll_create_law in E1 as (Hep' & _ & Hv1); [|done].
  apply socket_law in E2 as [_ E2]. destruct (E2 Hfd) as (Hfd' & _ & Hv2).
  apply bind_law in E3 as Hv3. rewrite Hv3, Hv2, Hv1. simpl. rewrite Hs.
  split_and!; try done; [apply elem_of_union; left; by apply elem_of_singleton| |].
  - intros x. rewrite !elem_of_union, !elem_of_singleton. intros [->|[->|Hx]]; [lia|lia|by apply Hr].
  - intros x. destruct (decide (x = fd)) as [->|]; [by rewrite trace_of_insert_eq|].
    rewrite trace_of_insert_ne by done.
    destruct (decide (x = epfd)) as [->|]; [by rewrite trace_of_insert_eq|].
    by rewrite trace_of_insert_ne by done.
Qed.

Lemma acceptor_listen_step pool port (k : K) :
  let w := EchoServer_with pool port k in
  fresh_kernel k → created w → runs acceptor_listen w (λ _ w', Inv w' ∧ represents w' ∅).
Proof.
  intros w Hfresh Hc.
  pose proof (EchoServer_with_spec pool port k Hfresh Hc) as Hspec. cbv zeta in Hspec.
  change (EchoServer_with pool port k) with w in Hspec. clearbody w.
  destruct Hspec as (Ha & Hcb & Hsrv & Hcn & Hch & Hq & Hopen & Hint & Hrange & Hsent).
  destruct Hc as [Hep Hfd]. unfold acceptor_listen.
  eapply runs_bind_Ok; [done|]. unfold socket_listen, syscall.
  destruct (sys_listen (w_kernel w) (acceptor_fd (w_acceptor w)) 5) as [r k1] eqn:El.
  apply listen_law in El as Hv1.
  eapply runs_bind_Ok.
  { erewrite bind_run by (rewrite El; reflexivity). reflexivity. }
  destruct (change_events_add_run (add_events EPOLLIN) AcceptChannel (with_kernel k1 w)
    (acceptor_channel (w_acceptor w))) as (k2 & Hrun & Hc2); try done.
  { simpl. by rewrite Hch. }
  eapply runs_Ok; [exact Hrun|]. rewrite Ha in *. simpl in Hc2. rewrite Hv1 in Hc2.
  apply ctl_add_watched in Hc2; [|by rewrite Hint|done].
  destruct Hc2 as [[Ho2 Hr2 Hs2 Hother _ _] Hreg]. rewrite Hint, lookup_empty in Hreg.
  split; [|by constructor; simpl; rewrite ?Hcn, ?Hsrv].
  constructor; simpl; rewrite ?Ho2, ?Hr2, ?Hs2, ?Hcn, ?Hsrv, ?Hch; simpl.
  - intros c cn. by rewrite lookup_empty.
  - intros name c. by rewrite lookup_empty.
  - intros fd [|c]; simpl.
    + rewrite insert_empty, lookup_singleton_Some. split; [intros [<- _]; eauto|].
      by intros (ch & [= <-] & <-).
    + rewrite Hcn, lookup_empty, insert_empty, lookup_singleton_Some. simpl.
      split; [by intros [_ ?]|by intros (? & ? & _)].
  - intros fd ie _ Hie. rewrite insert_empty.
    destruct (decide (fd = acceptor_fd (w_acceptor w))) as [->|Hne].
    + destruct Hreg as [Hreg|[Hreg _]]; rewrite Hreg in Hie; [|done]. injection Hie as <-.
      rewrite lookup_singleton_eq. split; [done|by left].
    + by rewrite Hother, Hint, lookup_empty in Hie.
  - intros fd Hs Hl. rewrite insert_empty.
    destruct (decide (fd = acceptor_fd (w_acceptor w))) as [->|Hne].
    + rewrite lookup_singleton_eq. destruct Hreg as [Hreg|[_ [?|?]]]; [done|congruence..].
    + by rewrite Hother, Hint, lookup_empty, lookup_singleton_ne.
  - split_and!; [|done|done]. by exists 0.
  - done.
  - intros c. rewrite lookup_empty. by intros [].
  - intros name c. by rewrite lookup_empty.
  - assert (size (v_open (view w)) ≠ 0%nat) as Hs; [|lia].
    intros Hz%size_empty_inv. by apply (not_elem_of_empty (C := gset Z) (acceptor_fd (w_acceptor w))), Hz.
  - done.
  - done.
  - intros fd. rewrite Hsent. apply prefix_nil.
Qed.

(** The server on any pool, the loop for [n] turns of a run of which [more] are to come. *)
Lemma serving_step n more pool port (k : K) :
  let w := EchoServer_with pool port k in
  fresh_kernel k → created w → undisturbed (n + more) w = true →
  runs (serving n) w (λ b w', (Good ∅ w' ∧ b = false) ∧ orderly more w' = true).
Proof.
  intros w Hf Hc Hu. unfold serving, undisturbed in *. apply runs_bind.
  pose proof (acceptor_listen_step pool port k Hf Hc) as Hl. fold w in Hl. unfold runs in Hl. unfold runs at 1.
  destruct (acceptor_listen w) as [[] w1|e]; [|done]. destruct Hl as [HI HR].
  apply loop_step; [|done]. split; [done|]. exists ∅. split; [constructor|done].
Qed.

(** [main]: its thread pool cannot be started with threads. *)
Lemma echo_main_pool n pool port (k : K) :
  echo_main n (EchoServer_with pool port k)
  = if 0 <? Pool.num_threads_ pool then Fault BadFormat
    else serving n (EchoServer_with (Pool.mkPool (Pool.base_loop_ pool) true (Pool.num_threads_ pool)
                                       (Pool.next_ pool) (Pool.loops_ pool)) port k).
Proof.
  unfold echo_main, serving, server_start, EchoServer_with.
  destruct (EventLoop_new k) as [l k1]. destruct (TcpServer_new _ _ _) as [[s a] k2].
  unfold mbind, M_bind. unfold thread_pool_start. rewrite get_bind. simpl w_server. simpl server_thread_pool.
  unfold Pool.start, Pool.start_loop. destruct (Z.ltb_spec 0 (Pool.num_threads_ pool)).
  - destruct (Z.to_nat (Pool.num_threads_ pool)) eqn:E; [lia|]. cbn. by rewrite E.
  - cbn. by replace (Z.to_nat (Pool.num_threads_ pool)) with 0%nat by lia.
Qed.
End Start.
