(* ===== verification/EchoProps.v ===== *)
(** * What the echo server guarantees

    The properties of the server for every kernel that satisfies [KernelLaws],
    every port and any number of turns of the loop, each with an instance on the
    simulated kernel of KernelSim.v.  They are about [serving], what [main] does when
    its thread pool has started: with the four threads that the text asks for, the
    start of the pool passes a [std::string] to [sprintf] ([echo_server_safe]).  They
    are for the runs that are [undisturbed]; what can happen in others is shown by
    [urgent_hangup_dangles]. *)

From S2P Require Import Prelude Kernel Buffer LoopPool Net Poller Connection Server KernelSim Echo EchoSpec EchoSafe.

(** ** Specifications *)

Section Specs.
Context {K : Type} `{KernelLaws chan_ptr K}.
Implicit Types (w : World K) (c : conn_ptr).

(** What is sent back on every descriptor is what was received on it, so far. *)
Definition echoes w : Prop :=
  ∀ fd, trace_of (v_sent (k_view (w_kernel w))) fd
        `prefix_of` trace_of (v_recvd (k_view (w_kernel w))) fd.

(** What a live connection has received it has sent or keeps, in order, and it
    waits for output events exactly when it keeps something. *)
Definition nothing_lost w : Prop :=
  ∀ c cn, w_conns w !! c = Some cn →
    trace_of (v_recvd (k_view (w_kernel w))) (conn_fd cn)
      = trace_of (v_sent (k_view (w_kernel w))) (conn_fd cn) ++ peek (conn_output cn)
    ∧ peek (conn_input cn) = []
    ∧ isWriting (conn_channel cn) = negb (bool_decide (peek (conn_output cn) = [])).

(** The poller's map holds exactly the live channels.  Unless a registration could not
    be removed, the kernel's interest list holds pointers of that map only; unless one
    could not be made or changed either, it holds them all, with the events that the
    channels ask for. *)
Definition interest_agrees w : Prop :=
  let map := poller_channels (loop_poller (w_loop w)) in
  let v := k_view (w_kernel w) in
  (∀ fd p, map !! fd = Some p ↔ ∃ ch, channel_at w p = Some ch ∧ ch_fd ch = fd)
  ∧ (v_stale v = false → ∀ fd e, v_interest v !! fd = Some e → map !! fd = Some (ev_ptr e))
  ∧ (v_stale v = false → v_lost v = false → ∀ fd e, v_interest v !! fd = Some e ↔
      ∃ ch, channel_at w (ev_ptr e) = Some ch ∧ map !! fd = Some (ev_ptr e)
            ∧ ev_events e = u32 (ch_events ch)).

(** The map of the server and the allocated connections are in bijection. *)
Definition connections_agree w : Prop :=
  (∀ name c, server_connections (w_server w) !! name = Some c ↔
     ∃ cn, w_conns w !! c = Some cn ∧ conn_name cn = name)
  ∧ ∀ c1 c2 cn1 cn2, w_conns w !! c1 = Some cn1 → w_conns w !! c2 = Some cn2 →
      conn_name cn1 = conn_name cn2 ∨ conn_fd cn1 = conn_fd cn2 → c1 = c2.

(** [X] are the descriptors that have been accepted: as many as connections were
    numbered, those of the live connections among them, and all of them open. *)
Definition accepted_are (X : gset Z) w : Prop :=
  server_nextConnId (w_server w) = Z.of_nat (size X)
  ∧ X ⊆ v_open (k_view (w_kernel w))
  ∧ ∀ c cn, w_conns w !! c = Some cn → conn_fd cn ∈ X.

(** [shutdown] of a connection with no output pending dereferences [socket_]. *)
Definition shutdown_faults w : Prop :=
  ∀ c cn, w_conns w !! c = Some cn → peek (conn_output cn) = [] →
    shutdown c w = Fault NullDeref.

(** In the next [m] calls of [handleWrite] for [c], [send] takes something when there is
    something to send, and raises no signal. *)
Fixpoint progressing (m : nat) c w : bool :=
  match m with
  | O => true
  | S m' =>
      match w_conns w !! c with
      | Some cn =>
          let data := peek (conn_output cn) in
          bool_decide (data = [])
          || (negb (sys_sigpipe (w_kernel w) (conn_fd cn))
              && (0 <? (sys_send (w_kernel w) (conn_fd cn) data).1))
      | None => true
      end && match handleWrite c w with Ok _ w' => progressing m' c w' | Fault _ => true end
  end.
End Specs.

(** ** They follow from the invariant *)

Section Consequences.
Context {K : Type} `{KernelLaws chan_ptr K}.
Implicit Types (w : World K).

Lemma serving_conseq (P : World K → Prop) n pool port k :
  (∀ w, Inv w → P w) → fresh_kernel k → created (EchoServer_with pool port k) →
  undisturbed n (EchoServer_with pool port k) = true →
  runs (serving n) (EchoServer_with pool port k) (λ ended w, P w ∧ ended = false).
Proof.
  intros HP Hf Hc Hu. eapply runs_conseq; [apply (serving_step n 0); [done..|by rewrite Nat.add_0_r]|].
  intros b w [[[HI _] ->] _]. auto.
Qed.

Lemma Inv_nothing_lost w : Inv w → nothing_lost w.
Proof.
  intros HI c cn E. destruct (i_conns w HI c cn E) as [Hok _]. split_and!.
  - apply (ok_echo _ _ _ Hok).
  - apply (ok_input _ _ _ Hok).
  - apply isWriting_mask. by eapply conn_ok_events.
Qed.

Lemma Inv_interest_agrees w : Inv w → interest_agrees w.
Proof.
  intros HI. split_and!; [apply (i_chans w HI)|intros Hs fd e He; by apply (i_live w HI)|].
  intros Hs Hl fd e. rewrite (i_interest w HI) by done. split.
  - destruct (poller_channels _ !! fd) as [p|] eqn:Ep; [|done].
    intros (ch & Hch & ->)%fmap_Some. by exists ch.
  - intros (ch & Hch & -> & He). rewrite Hch. destruct e as [ev p]. simpl in *. by rewrite He.
Qed.

Lemma Inv_connections_agree w : Inv w → connections_agree w.
Proof.
  intros HI. split.
  - intros name c. split; [apply (i_owned w HI)|].
    intros (cn & E & <-). by destruct (i_conns w HI c cn E).
  - intros c1 c2 cn1 cn2 E1 E2 [En|Ef]; [by eapply Inv_name_inj|by eapply Inv_fd_inj].
Qed.

Lemma represents_accepted w m : represents w m → accepted_are (dom m) w.
Proof.
  intros [Ht Hc _ Hn]. split_and!.
  - by rewrite size_dom.
  - intros fd [s E]%elem_of_dom. apply (Ht fd s E).
  - intros c cn E. destruct (Hc c cn E) as [sent Em]. apply elem_of_dom. eauto.
Qed.

Lemma star_serves_dom m m' : star serves m m' → dom m ⊆ dom m'.
Proof.
  intros Hs fd [s E]%elem_of_dom. destruct (serves_continues m m' fd s Hs E) as (s' & E' & _).
  apply elem_of_dom. eauto.
Qed.

Lemma Inv_shutdown w : Inv w → shutdown_faults w.
Proof.
  intros HI c cn E Hp. destruct (i_conns w HI c cn E) as [Hok _].
  unfold shutdown. erewrite bind_run by (eapply state_is_run; [done|by apply (ok_state _ _ _ Hok)]).
  rewrite bool_decide_true by done. simpl. do_step setConnState_run.
  unfold shutdownInLoop. erewrite bind_run by apply get_conn_run, upd_conn_lookup.
  simpl conn_channel. rewrite (isWriting_mask _ (peek (conn_output cn))) by by eapply conn_ok_events.
  rewrite Hp. simpl. by rewrite (ok_socket _ _ _ Hok).
Qed.

(** Calls of [handleWrite] until all the output is sent. *)
Lemma flush_all m w c cn :
  Inv w → progressing m c w = true → w_conns w !! c = Some cn →
  (length (peek (conn_output cn)) ≤ m)%nat →
  ∃ w' cn', repeatM m (handleWrite c) w = Ok tt w' ∧ Inv w' ∧ w_conns w' !! c = Some cn'
    ∧ conn_fd cn' = conn_fd cn ∧ peek (conn_output cn') = []
    ∧ v_recvd (k_view (w_kernel w')) = v_recvd (k_view (w_kernel w)).
Proof.
  revert w cn. induction m as [|m IH]; intros w cn HI Hs E Hm.
  { exists w, cn. split_and!; try done. apply length_zero_iff_nil. lia. }
  destruct (i_conns w HI c cn E) as [Hok _]. simpl repeatM. simpl in Hs. rewrite E in Hs.
  apply andb_true_iff in Hs as [Hpr Hs].
  pose proof (isWriting_mask _ _ (conn_ok_events _ _ _ Hok)) as Hw.
  destruct (decide (peek (conn_output cn) = [])) as [Hnil|Hne].
  - rewrite (handleWrite_idle c cn w) in Hs by (done || by rewrite Hw, Hnil).
    erewrite bind_run by (apply handleWrite_idle with cn; [done|by rewrite Hw, Hnil]).
    apply IH; [done..|]. rewrite Hnil. simpl. lia.
  - rewrite bool_decide_false in Hw, Hpr by done. simpl in Hpr.
    apply andb_true_iff in Hpr as [Hpipe%negb_true_iff Hpos%Z.ltb_lt].
    destruct (handleWrite_flush ∅ w c cn HI E Hw Hpipe) as (n & k' & Hrun & HI' & Hn & Hr & _).
    rewrite <- Hn in Hpos. rewrite Hrun in Hs.
    erewrite bind_run by exact Hrun.
    destruct (retrieve_spec n (conn_output cn) (ok_output _ _ _ Hok) ltac:(lia)) as [_ Hp].
    assert (conn_fd (flushed n cn) = conn_fd cn
      ∧ peek (conn_output (flushed n cn)) = drop (Z.to_nat n) (peek (conn_output cn))) as [Hfd Hout].
    { unfold flushed. rewrite (proj2 (Z.ltb_lt 0 n)) by done. done. }
    destruct (IH _ (flushed n cn) HI' Hs (upd_conn_lookup _ _ _ _))
      as (w' & cn' & Hrun' & HI2 & E2 & Hfd2 & Hp2 & Hr2).
    { rewrite Hout, length_drop. destruct (peek (conn_output cn)); [done|]. simpl in *. lia. }
    exists w', cn'. split_and!; try done; [congruence|]. by rewrite Hr2.
Qed.
End Consequences.

(** Printing a buffer that has no room left. *)
Lemma print_overreads {K B : Type} b (f : unit → M (World K) B) w :
  buffer_wf b → writableBytes b = 0 → Byte.x00 ∉ peek b → (print_string b ≫= f) w = Fault StringOverread.
Proof.
  intros Hwf Hw Hz. rewrite writableBytes_wf in Hw by done.
  assert (drop (Z.to_nat (read_index_ b)) (buffer_ b) = peek b) as Hd.
  { unfold peek. rewrite take_ge; [done|]. rewrite length_drop.
    destruct Hwf as (? & ? & ? & _). unfold readableBytes, buffer_size, kInitialHeadSize in *. lia. }
  unfold print_string. rewrite Hd. by rewrite decide_False.
Qed.

(** ** Properties *)


(** C4: as long as a connection lives, everything received on it has been sent
    back or is pending in its output buffer, in order, and the channel asks for
    output events exactly when something is pending. *)
Theorem live_connections_lose_nothing {K : Type} `{KernelLaws chan_ptr K} n pool port (k : K) :
  fresh_kernel k → created (EchoServer_with pool port k) →
  undisturbed n (EchoServer_with pool port k) = true →
  runs (serving n) (EchoServer_with pool port k) (λ ended w, nothing_lost w ∧ ended = false).
Proof. apply serving_conseq, Inv_nothing_lost. Qed.

(** C5: after any number of turns the poller's map is the set of live channels; every
    pointer that the kernel holds is in it, unless a registration could not be removed in
    the last turn; and unless an [epoll_ctl] has failed the kernel's interest list is the
    map, with the current event masks. *)
Theorem poller_agrees_with_kernel {K : Type} `{KernelLaws chan_ptr K} n pool port (k : K) :
  fresh_kernel k → created (EchoServer_with pool port k) →
  undisturbed n (EchoServer_with pool port k) = true →
  runs (serving n) (EchoServer_with pool port k) (λ ended w, interest_agrees w ∧ ended = false).
Proof. apply serving_conseq, Inv_interest_agrees. Qed.

(** C6: the map [connections_] holds exactly the connections that are allocated,
    under their names, and no two of them share a name or a descriptor. *)
Theorem connections_map_agrees {K : Type} `{KernelLaws chan_ptr K} n pool port (k : K) :
  fresh_kernel k → created (EchoServer_with pool port k) →
  undisturbed n (EchoServer_with pool port k) = true →
  runs (serving n) (EchoServer_with pool port k) (λ ended w, connections_agree w ∧ ended = false).
Proof. apply serving_conseq, Inv_connections_agree. Qed.

(** C7: pending output is flushed: from any state of the server, as many calls of
    [handleWrite] as there are pending bytes send everything that was received,
    and leave the channel not asking for output events, if in these calls [send] accepts
    at least one byte and raises no signal. *)
Theorem output_is_flushed {K : Type} `{KernelLaws chan_ptr K} n pool port (k : K) :
  fresh_kernel k → created (EchoServer_with pool port k) →
  undisturbed n (EchoServer_with pool port k) = true →
  runs (serving n) (EchoServer_with pool port k) (λ _ w,
    ∀ c cn, w_conns w !! c = Some cn → progressing (length (peek (conn_output cn))) c w = true →
      ∃ w' cn', repeatM (length (peek (conn_output cn))) (handleWrite c) w = Ok tt w'
        ∧ w_conns w' !! c = Some cn' ∧ isWriting (conn_channel cn') = false
        ∧ trace_of (v_sent (k_view (w_kernel w'))) (conn_fd cn)
          = trace_of (v_recvd (k_view (w_kernel w))) (conn_fd cn)).
Proof.
  intros Hf Hc Hu. eapply runs_conseq; [apply (serving_step n 0); [done..|by rewrite Nat.add_0_r]|].
  intros b w [[[HI _] _] _] c cn E Hs.
  destruct (flush_all _ w c cn HI Hs E (le_n _)) as (w' & cn' & Hrun & HI' & E' & Hfd & Hp & Hr).
  exists w', cn'. destruct (i_conns w' HI' c cn' E') as [Hok _]. split_and!; try done.
  - rewrite (isWriting_mask _ _ (conn_ok_events _ _ _ Hok)). by rewrite Hp.
  - pose proof (ok_echo _ _ _ Hok) as He. rewrite Hp, app_nil_r, Hr, Hfd in He. done.
Qed.

(** C8: no accepted descriptor is ever closed: those accepted so far, as many as
    connections were numbered, are open, and are among those accepted and open after
    any further turns, whether their connections live or not; so the counter of
    connection names, an [int], runs out of descriptors before it overflows. *)
Theorem descriptors_never_closed {K : Type} `{KernelLaws chan_ptr K} n more pool port (k : K) :
  fresh_kernel k → created (EchoServer_with pool port k) →
  undisturbed (n + more) (EchoServer_with pool port k) = true →
  runs (serving n) (EchoServer_with pool port k) (λ _ w,
    0 <= server_nextConnId (w_server w) < 2 ^ 31
    ∧ ∃ X, accepted_are X w
      ∧ runs (loop_turns more) w (λ _ w', ∃ X', X ⊆ X' ∧ accepted_are X' w')).
Proof.
  intros Hf Hc Hu. eapply runs_conseq; [by apply serving_step|].
  intros b w [[[HI (m & Hm & Hr)] _] Ho]. split.
  { destruct (i_ids w HI). pose proof (size_range (v_open (k_view (w_kernel w))) (2 ^ 31) (i_fds w HI)). lia. }
  exists (dom m). split; [by apply represents_accepted|].
  eapply runs_conseq; [apply (loop_turns_step m more 0); [|by rewrite Nat.add_0_r]|].
  - split; [done|]. exists m. split; [constructor|done].
  - intros b' w' [[[_ (m' & Hm' & Hr')] _] _]. exists (dom m').
    split; [by apply star_serves_dom|by apply represents_accepted].
Qed.

(** C2: the server implements the abstract service of EchoSpec.v, sessions with
    queues: after any number of turns of the loop the whole state of the program and
    the traffic of the kernel represent a state of the service that it reaches from
    the empty one, and any further turns are a sequence of its steps. *)
Theorem echo_server_refines_service {K : Type} `{KernelLaws chan_ptr K} n more pool port (k : K) :
  fresh_kernel k → created (EchoServer_with pool port k) →
  undisturbed (n + more) (EchoServer_with pool port k) = true →
  runs (serving n) (EchoServer_with pool port k) (λ _ w,
    ∃ m, star serves ∅ m ∧ represents w m
      ∧ runs (loop_turns more) w (λ _ w', ∃ m', star serves m m' ∧ represents w' m')).
Proof.
  intros Hf Hc Hu. eapply runs_conseq; [by apply serving_step|].
  intros b w [[[HI (m & Hm & Hr)] _] Ho]. exists m. split_and!; [done..|].
  eapply runs_conseq; [apply (loop_turns_step m more 0); [|by rewrite Nat.add_0_r]|by intros b' w' [[[_ Hs] _] _]].
  split; [done|]. exists m. split; [constructor|done].
Qed.

(** No session is forgotten in later turns, no byte of it is taken back, and on the
    descriptor of a connection that is closed nothing more is received or sent. *)
Theorem sessions_go_on {K : Type} `{KernelLaws chan_ptr K} n more pool port (k : K) :
  fresh_kernel k → created (EchoServer_with pool port k) →
  undisturbed (n + more) (EchoServer_with pool port k) = true →
  runs (serving n) (EchoServer_with pool port k) (λ _ w, ∃ m, represents w m
    ∧ runs (loop_turns more) w (λ _ w', ∃ m', represents w' m'
        ∧ ∀ fd s, m !! fd = Some s → ∃ s', m' !! fd = Some s' ∧ continues s s')).
Proof.
  intros Hf Hc Hu. eapply runs_conseq; [by apply serving_step|].
  intros b w [[[HI (m & Hm & Hr)] _] Ho]. exists m. split; [done|].
  eapply runs_conseq; [apply (loop_turns_step m more 0); [|by rewrite Nat.add_0_r]|].
  - split; [done|]. exists m. split; [constructor|done].
  - intros b' w' [[[_ (m' & Hm' & Hr')] _] _]. exists m'. split; [done|].
    intros fd s Es. by eapply serves_continues.
Qed.

(** [TcpConnection::shutdown] on any live connection without pending output
    dereferences the null [socket_]. *)
Theorem shutdown_dereferences_null {K : Type} `{KernelLaws chan_ptr K} n pool port (k : K) :
  fresh_kernel k → created (EchoServer_with pool port k) →
  undisturbed n (EchoServer_with pool port k) = true →
  runs (serving n) (EchoServer_with pool port k) (λ ended w, shutdown_faults w ∧ ended = false).
Proof. apply serving_conseq, Inv_shutdown. Qed.

(** C12: in any state of the server, a read event that fills the input buffer of a
    connection with bytes none of which is zero makes [onMessage] print a string
    that does not end inside the buffer. *)
Theorem message_print_overreads {K : Type} `{KernelLaws chan_ptr K} w c cn n err input k' :
  Inv w → w_conns w !! c = Some cn →
  readFd (conn_fd cn) (conn_input cn) (w_kernel w) = inr (n, err, input, k') →
  0 < n → writableBytes input = 0 → Byte.x00 ∉ peek input →
  handleRead call_close c w = Fault StringOverread.
Proof.
  intros HI E Hr Hn Hfull Hz. destruct (i_conns w HI c cn E) as [Hok _].
  destruct (ok_input _ _ _ Hok) as (Hwf & _).
  destruct (readFd_spec (conn_fd cn) (conn_input cn) (w_kernel w) Hwf)
    as (n0 & err0 & input0 & k0 & data & Hr0 & Hwf0 & _).
  rewrite Hr in Hr0. injection Hr0 as <- <- <- <-.
  unfold handleRead. do_step get_conn_run. rewrite get_bind, (conn_ok_fd _ _ _ Hok), Hr. simpl lift.
  rewrite ret_bind, modify_bind. erewrite bind_run by apply put_conn_kernel.
  rewrite (proj2 (Z.ltb_lt 0 n)) by done.
  erewrite bind_run by apply get_conn_run, upd_conn_lookup. simpl conn_message_cb.
  rewrite (ok_message _ _ _ Hok). simpl call_or_throw. unfold onMessage.
  erewrite bind_run by apply get_conn_run, upd_conn_lookup. simpl conn_input.
  by apply print_overreads.
Qed.

(** ** Instances *)

(** A client that connects and sends 1024 bytes, none of them zero. *)
Definition flood : sim :=
  sim_boot 1 {[5 := replicate 1024 Byte.x61]} 3 [[(4, EPOLLIN)]; [(5, EPOLLIN)]].

Lemma flood_fresh : fresh_kernel flood.
Proof.
  split; [|done]. intros fd. simpl. rewrite !elem_of_union, !elem_of_singleton, elem_of_empty. lia.
Defined.

Lemma flood_created : created (EchoServer_new 8883 flood).
Proof. split; by vm_compute. Defined.

Example flood_overreads : serving 2 (EchoServer_new 8883 flood) = Fault StringOverread.
Proof. vm_compute. reflexivity. Qed.

(** A client connects, sends "hello" and reads three bytes at a time. *)
Definition demo : sim :=
  sim_boot 1 {[5 := String.list_byte_of_string "hello"]} 3
    [[(4, EPOLLIN)]; [(5, EPOLLIN)]; [(5, EPOLLOUT)]; [(5, EPOLLOUT)]].

Definition after (n : nat) (P : World sim → bool) : bool :=
  match serving n (EchoServer_new 8883 demo) with
  | Ok _ w => P w
  | Fault _ => false
  end.

Definition sent_on (fd : Z) (w : World sim) : list byte :=
  trace_of (v_sent (sim_view (w_kernel w))) fd.

Lemma demo_fresh : fresh_kernel demo.
Proof.
  split; [|done]. intros fd. simpl. rewrite !elem_of_union, !elem_of_singleton, elem_of_empty. lia.
Defined.

Lemma demo_created : created (EchoServer_new 8883 demo).
Proof. split; by vm_compute. Defined.

Lemma demo_undisturbed : undisturbed 4 (EchoServer_new 8883 demo) = true.
Proof. vm_compute. reflexivity. Defined.

Lemma demo_undisturbed_2 : undisturbed 2 (EchoServer_new 8883 demo) = true.
Proof. vm_compute. reflexivity. Defined.

(** Four turns: accepted, read, and written in two parts. *)
Example demo_runs :
  after 2 (λ w, bool_decide (sent_on 5 w = [])) &&
  after 3 (λ w, bool_decide (sent_on 5 w = String.list_byte_of_string "hel")) &&
  after 4 (λ w, bool_decide (sent_on 5 w = String.list_byte_of_string "hello")) = true.
Proof. vm_compute. reflexivity. Qed.


Lemma echo_server_refines_service_witness :
  runs (serving 2) (EchoServer_new 8883 demo) (λ _ w,
    ∃ m, star serves ∅ m ∧ represents w m
      ∧ runs (loop_turns 2) w (λ _ w', ∃ m', star serves m m' ∧ represents w' m')).
Proof. apply echo_server_refines_service; [apply demo_fresh|apply demo_created|apply demo_undisturbed]. Defined.

Lemma live_connections_lose_nothing_witness :
  runs (serving 4) (EchoServer_new 8883 demo) (λ ended w, nothing_lost w ∧ ended = false).
Proof. apply live_connections_lose_nothing; [apply demo_fresh|apply demo_created|apply demo_undisturbed]. Defined.

Lemma poller_agrees_with_kernel_witness :
  runs (serving 4) (EchoServer_new 8883 demo) (λ ended w, interest_agrees w ∧ ended = false).
Proof. apply poller_agrees_with_kernel; [apply demo_fresh|apply demo_created|apply demo_undisturbed]. Defined.

Lemma connections_map_agrees_witness :
  runs (serving 2) (EchoServer_new 8883 demo) (λ ended w, connections_agree w ∧ ended = false).
Proof. apply connections_map_agrees; [apply demo_fresh|apply demo_created|apply demo_undisturbed_2]. Defined.

(** After two turns five bytes are pending, and the kernel takes three at a time. *)
Lemma output_is_flushed_witness :
  runs (serving 2) (EchoServer_new 8883 demo) (λ _ w,
    ∀ c cn, w_conns w !! c = Some cn → progressing (length (peek (conn_output cn))) c w = true →
      ∃ w' cn', repeatM (length (peek (conn_output cn))) (handleWrite c) w = Ok tt w'
        ∧ w_conns w' !! c = Some cn' ∧ isWriting (conn_channel cn') = false
        ∧ trace_of (v_sent (k_view (w_kernel w'))) (conn_fd cn)
          = trace_of (v_recvd (k_view (w_kernel w))) (conn_fd cn))
  ∧ after 2 (λ w, match w_conns w !! 0%nat with
                  | Some cn => (length (peek (conn_output cn)) =? 5)%nat && progressing 5 0%nat w
                  | None => false
                  end) = true.
Proof.
  split; [apply output_is_flushed; [apply demo_fresh|apply demo_created|apply demo_undisturbed_2]|].
  vm_compute. reflexivity.
Defined.

Lemma descriptors_never_closed_witness :
  runs (serving 2) (EchoServer_new 8883 demo) (λ _ w,
    0 <= server_nextConnId (w_server w) < 2 ^ 31
    ∧ ∃ X, accepted_are X w
      ∧ runs (loop_turns 2) w (λ _ w', ∃ X', X ⊆ X' ∧ accepted_are X' w')).
Proof. apply descriptors_never_closed; [apply demo_fresh|apply demo_created|apply demo_undisturbed]. Defined.

Lemma shutdown_dereferences_null_witness :
  runs (serving 4) (EchoServer_new 8883 demo) (λ ended w, shutdown_faults w ∧ ended = false).
Proof. apply shutdown_dereferences_null; [apply demo_fresh|apply demo_created|apply demo_undisturbed]. Defined.

(** A client connects and goes away; its hang-up is reported with urgent data and
    without anything else to read.  The connection is closed twice, which registers its
    channel again when it is about to be destroyed; the next event for it is for a
    channel that is gone. *)
Definition hangup : sim :=
  sim_boot 1 ∅ 3 [[(4, EPOLLIN)]; [(5, Z.lor EPOLLHUP EPOLLPRI)]; [(5, EPOLLHUP)]].

Example urgent_hangup_dangles :
  serving 3 (EchoServer_new 8883 hangup) = Fault UseAfterFree
  ∧ undisturbed 1 (EchoServer_new 8883 hangup) = true
  ∧ undisturbed 2 (EchoServer_new 8883 hangup) = false.
Proof. split_and!; vm_compute; reflexivity. Qed.

(** The flooding client has been accepted. *)
Definition flooded : World sim :=
  match serving 1 (EchoServer_new 8883 flood) with
  | Ok _ w => w
  | Fault _ => EchoServer_new 8883 flood
  end.

Definition flooded_conn : TcpConnection :=
  default (TcpConnection_new 0%nat "" 0 [] []) (w_conns flooded !! 0%nat).

Lemma flooded_Inv : Inv flooded.
Proof.
  pose proof (serving_step 1 0 (Pool.setThreadNum 4 (Pool.EventLoopThreadPool_new MAIN_LOOP)) 8883 flood
    flood_fresh flood_created ltac:(vm_compute; reflexivity)) as Hs.
  unfold runs in Hs. cbv zeta in Hs. fold (EchoServer_new 8883 flood) in Hs.
  replace (serving 1 (EchoServer_new 8883 flood)) with (Ok false flooded) in Hs by (vm_compute; reflexivity).
  exact (proj1 (proj1 (proj1 Hs))).
Qed.

Lemma message_print_overreads_witness :
  handleRead call_close 0%nat flooded = Fault StringOverread.
Proof.
  destruct (readFd (conn_fd flooded_conn) (conn_input flooded_conn) (w_kernel flooded))
    as [e|[[[n err] input] k']] eqn:E.
  { assert (match readFd (conn_fd flooded_conn) (conn_input flooded_conn) (w_kernel flooded) with
            | inl _ => false | inr _ => true end = true) as Ht by (vm_compute; reflexivity).
    rewrite E in Ht. discriminate. }
  assert (match readFd (conn_fd flooded_conn) (conn_input flooded_conn) (w_kernel flooded) with
          | inl _ => false
          | inr (n, _, b, _) => (0 <? n) && (writableBytes b =? 0) && bool_decide (Byte.x00 ∉ peek b)
          end = true) as Ht by (vm_compute; reflexivity).
  rewrite E in Ht. apply andb_true_iff in Ht as [[Hn%Z.ltb_lt Hw%Z.eqb_eq]%andb_true_iff Hz%bool_decide_eq_true].
  apply (message_print_overreads flooded 0%nat flooded_conn n err input k' flooded_Inv);
    [vm_compute; reflexivity|exact E|exact Hn|exact Hw|exact Hz].
Defined.
