(* ===== verification/NetProps.v ===== *)
(** * Properties of the layers under the server

    The buffer as a queue, reading from a socket, event masks, and what a
    connection does when a read delivers nothing. *)

From S2P Require Import Prelude Kernel Buffer Net Poller Connection Server KernelSim Echo EchoSafe.

(** ** Lemmas *)

Section ReadNothing.
Context {K : Type} `{KernelLaws chan_ptr K}.

Lemma readFd_nothing fd b (k : K) l data err k' :
  buffer_wf b → sys_recv k fd (u64 (writableBytes b)) = (l, data, err, k') → l <= 0 →
  ∃ b', readFd fd b k = inr (0, err, b', k').
Proof.
  intros Hwf Hr Hl. destruct (readFd_turn fd b k l data err k' Hwf Hr) as (b1 & Hst & _).
  exists b1. unfold readFd. simpl. rewrite Hr, Hst. by rewrite (proj2 (Z.leb_le l 0)).
Qed.
End ReadNothing.

Lemma testbit_add m ch i :
  0 <= m < 2 ^ 32 → Z.testbit (u32 (ch_events (add_events m ch))) i
  = Z.testbit (u32 (ch_events ch)) i || Z.testbit m i.
Proof. intros. by rewrite events_add, Z.lor_spec. Qed.

Lemma testbit_del m ch i :
  0 <= m < 2 ^ 32 → Z.testbit (u32 (ch_events (del_events m ch))) i
  = Z.testbit (u32 (ch_events ch)) i && negb (Z.testbit m i).
Proof.
  intros Hm. rewrite events_del, Z.land_spec.
  destruct (Z.lt_ge_cases i 0); [by rewrite !Z.testbit_neg_r by done|].
  unfold wrap_u. rewrite <- !Z.land_ones, !Z.land_spec by lia.
  rewrite Z.lnot_spec by done.
  destruct (Z.testbit (Z.ones 32) i); simpl; rewrite ?andb_true_r, ?andb_false_r; done.
Qed.

(** ** Properties *)

(** C9: a [Buffer] is a queue of bytes: after any sequence of [append],
    [retrieve] and [retrieveAll] its indices are in order and inside the vector,
    and [peek], [readableBytes] show what the same operations leave of a list;
    the only failure is memory running out. *)
Theorem buffer_is_a_queue n os :
  0 <= n < 2 ^ 62 → Forall queue_op_ok os →
  match run_ops os (Buffer_new n) with
  | inr b => buffer_wf b ∧ peek b = foldl (λ q o, spec_op o q) [] os
             ∧ readableBytes b = Z.of_nat (length (peek b))
  | inl e => e = OutOfMemory
  end.
Proof.
  intros Hn Hos.
  pose proof (run_ops_spec os (Buffer_new n) (Buffer_new_wf n Hn) Hos) as H.
  destruct (run_ops os (Buffer_new n)) as [e|b]; [exact H|]. destruct H as [Hwf Hp].
  split_and!; [exact Hwf|exact Hp|]. symmetry. by apply length_peek.
Qed.

(** C10: [readFd] always ends, within the free space of the buffer; what the
    kernel delivered is appended to the contents, and the result is its length,
    so that it is never negative, whatever error [recv] reported. *)
Theorem readFd_delivers {P K : Type} `{KernelLaws P K} fd b (k : K) :
  buffer_wf b →
  ∃ n err b' k' data, readFd fd b k = inr (n, err, b', k')
    ∧ buffer_wf b' ∧ buffer_size b' = buffer_size b ∧ peek b' = peek b ++ data
    ∧ n = Z.of_nat (length data) ∧ 0 <= n <= writableBytes b
    ∧ k_view k' = view_recv fd data (k_view k).
Proof.
  intros Hwf.
  destruct (readFd_spec fd b k Hwf) as (n & err & b' & k' & data & Hr & Hwf' & Hp & Hs & Hn & Hle & Hv).
  exists n, err, b', k', data. split_and!; try done. lia.
Qed.

(** C11: a read event on which [recv] has no data, be it the end of the stream,
    an error or just EAGAIN, closes the connection: it is taken out of the map
    and of the poller, its pending output is never sent, and its descriptor
    stays open.  The kernel forgets it too, unless the [epoll_ctl] for that failed. *)
Theorem read_without_data_closes {K : Type} `{KernelLaws chan_ptr K} w c cn l data err k' :
  Inv w → w_conns w !! c = Some cn →
  sys_recv (w_kernel w) (conn_fd cn) (u64 (writableBytes (conn_input cn))) = (l, data, err, k') →
  l <= 0 →
  ∃ w', handleRead call_close c w = Ok tt w'
    ∧ server_connections (w_server w') !! conn_name cn = None
    ∧ poller_channels (loop_poller (w_loop w')) !! conn_fd cn = None
    ∧ (v_stale (k_view (w_kernel w')) = false → v_interest (k_view (w_kernel w')) !! conn_fd cn = None)
    ∧ trace_of (v_sent (k_view (w_kernel w'))) (conn_fd cn)
      = trace_of (v_sent (k_view (w_kernel w))) (conn_fd cn)
    ∧ conn_fd cn ∈ v_open (k_view (w_kernel w')).
Proof.
  intros HI E Hr Hl. destruct (i_conns w HI c cn E) as [Hok _].
  pose proof (conn_ok_fd _ _ _ Hok) as Hfd. destruct (ok_input _ _ _ Hok) as (Hwf & _).
  destruct (readFd_nothing _ _ _ _ _ _ _ Hwf Hr Hl) as [b1 Hrd].
  destruct (recv_law _ _ _ _ _ _ _ Hr) as (_ & Hlen & Hv1); [apply wrap_u_range; lia|].
  assert (data = []) as -> by (apply length_zero_iff_nil; lia).
  set (w1 := upd_conn c (set_input b1 cn) k' w).
  destruct (handleClose_run c (set_input b1 cn) w1) as (k2 & Hc & Hv2).
  { apply upd_conn_lookup. }
  { by apply (Inv_registered w c cn). }
  { by apply (ok_close _ _ _ Hok). }
  exists (closed_world c (set_input b1 cn) k2 w1). split_and!.
  - unfold handleRead. do_step get_conn_run. rewrite get_bind, Hfd, Hrd. simpl lift.
    rewrite ret_bind, modify_bind. erewrite bind_run by apply put_conn_kernel. exact Hc.
  - apply lookup_delete_eq.
  - simpl. rewrite Hfd. apply lookup_delete_eq.
  - simpl in *. rewrite Hfd in Hv2. apply Hv2.
  - destruct Hv2 as [[_ _ Hs _ _ _] _]. simpl in *. by rewrite Hs, Hv1.
  - destruct Hv2 as [[Ho _ _ _ _ _] _]. simpl in *. rewrite Ho, Hv1. apply (ok_open _ _ _ Hok).
Qed.

(** Enabling an event mask sets its bits and no other, disabling clears them
    and no other; enabling and disabling events that were not asked for restores
    the mask the kernel is given. *)
Theorem event_masks m ch :
  0 <= m < 2 ^ 32 →
  (∀ i, Z.testbit (u32 (ch_events (add_events m ch))) i
        = Z.testbit (u32 (ch_events ch)) i || Z.testbit m i)
  ∧ (∀ i, Z.testbit (u32 (ch_events (del_events m ch))) i
          = Z.testbit (u32 (ch_events ch)) i && negb (Z.testbit m i))
  ∧ (has (ch_events ch) m = false →
     u32 (ch_events (del_events m (add_events m ch))) = u32 (ch_events ch)).
Proof.
  intros Hm. split_and!; [by intros; apply testbit_add|by intros; apply testbit_del|].
  intros Hno. unfold has in Hno. apply negb_false_iff, Z.eqb_eq in Hno.
  apply Z.bits_inj'. intros i Hi. rewrite testbit_del, testbit_add by done.
  apply (f_equal (λ z, Z.testbit z i)) in Hno. rewrite Z.land_spec, Z.testbit_0_l in Hno.
  destruct (Z.testbit (u32 (ch_events ch)) i), (Z.testbit m i); done.
Qed.

(** ** Instances *)

Lemma buffer_is_a_queue_witness :
  match run_ops [QAppend [Byte.x01; Byte.x02]; QRetrieve 1; QAppend [Byte.x03]] (Buffer_new 1) with
  | inr b => peek b = [Byte.x02; Byte.x03]
  | inl e => e = OutOfMemory
  end.
Proof.
  pose proof (buffer_is_a_queue 1 [QAppend [Byte.x01; Byte.x02]; QRetrieve 1; QAppend [Byte.x03]]
    ltac:(lia) ltac:(repeat constructor; simpl; lia)) as H.
  destruct (run_ops _ _); [exact H|]. apply H.
Defined.

(** A kernel with data waiting on descriptor 5. *)
Definition reader : sim := sim_boot 0 {[5 := [Byte.x61; Byte.x62]]} 1 [].

Lemma readFd_delivers_witness :
  ∃ n err b' k' data, readFd 5 (Buffer_new 1024) reader = inr (n, err, b', k')
    ∧ buffer_wf b' ∧ buffer_size b' = buffer_size (Buffer_new 1024)
    ∧ peek b' = peek (Buffer_new 1024) ++ data
    ∧ n = Z.of_nat (length data) ∧ 0 <= n <= writableBytes (Buffer_new 1024)
    ∧ k_view k' = view_recv 5 data (k_view reader).
Proof. apply readFd_delivers. apply Buffer_new_wf. lia. Defined.

Lemma event_masks_witness :
  u32 (ch_events (del_events EPOLLOUT (add_events EPOLLOUT
    (mkChannel 5 0 RD None None None None None)))) = u32 RD.
Proof. apply (event_masks EPOLLOUT (mkChannel 5 0 RD None None None None None)); [unfold EPOLLOUT; lia|reflexivity]. Defined.

(** A client that connects and sends nothing. *)
Definition silent : sim := sim_boot 1 ∅ 3 [[(4, EPOLLIN)]].

Definition silent_world : World sim :=
  match serving 1 (EchoServer_new 8883 silent) with
  | Ok _ w => w
  | Fault _ => EchoServer_new 8883 silent
  end.

Lemma silent_Inv : Inv silent_world.
Proof.
  assert (fresh_kernel silent) as Hf.
  { split; [|done]. intros fd. simpl. rewrite !elem_of_union, !elem_of_singleton, elem_of_empty. lia. }
  assert (created (EchoServer_new 8883 silent)) as Hc by (split; by vm_compute).
  assert (undisturbed (1 + 0) (EchoServer_new 8883 silent) = true) as Hu by by vm_compute.
  pose proof (serving_step 1 0 _ 8883 silent Hf Hc Hu) as H. cbv zeta in H.
  fold (EchoServer_new 8883 silent) in H. unfold runs, silent_world in *.
  destruct (serving 1 (EchoServer_new 8883 silent)) eqn:E; [apply H|].
  vm_compute in E. discriminate E.
Defined.

Lemma read_without_data_closes_witness :
  ∃ cn w', w_conns silent_world !! O = Some cn ∧ handleRead call_close O silent_world = Ok tt w'
    ∧ server_connections (w_server w') !! conn_name cn = None.
Proof.
  destruct (w_conns silent_world !! O) as [cn|] eqn:E; [|vm_compute in E; discriminate E].
  assert (conn_fd cn = 5) as Hfd.
  { assert (conn_fd <$> w_conns silent_world !! O = Some 5) as Hfd by by vm_compute.
    rewrite E in Hfd. by injection Hfd. }
  destruct (read_without_data_closes silent_world O cn (-1) [] 11
    (sim_with_view (view_recv 5 [] (sim_view (w_kernel silent_world))) (w_kernel silent_world)) silent_Inv E)
    as (w' & Hrun & Hm & _).
  - assert (trace_of (sim_incoming (w_kernel silent_world)) 5 = []) as Hno by by vm_compute.
    rewrite Hfd. unfold sys_recv, sim_Kernel, sim_recv. rewrite Hno. reflexivity.
  - lia.
  - exists cn, w'. split; [reflexivity|]. split; [exact Hrun|exact Hm].
Defined.
