(* ===== verification/Redis.v ===== *)
(** * Redis connections and their pool (hiredis_test)

    [RedisConn] and [RedisPool] of redis_pool.cpp, [DBIORedis] of
    redis_client.cpp, which [RedisManage] forwards to.  hiredis and the server
    behind it are outside the repository: the class [Hiredis].  Connection
    objects are on a heap, and a [RedisConnPrt] is an index in it; the model is
    of one thread, for which the pool's mutex is always free.  The Execute functions
    pass a [va_list] where redisCommand takes arguments ([command_va_list]): that is an
    error as soon as the text, which has the user's keys in it, has a [%]. *)

From S2P Require Import Prelude.

(** ** C strings *)

Definition to_lower (c : ascii) : ascii :=
  let n := nat_of_ascii c in
  if (65 <=? n)%nat && (n <=? 90)%nat then ascii_of_nat (n + 32) else c.

Fixpoint lower (s : string) : string :=
  match s with
  | EmptyString => EmptyString
  | String c s' => String (to_lower c) (lower s')
  end.

(** [strcasecmp(a, b) == 0] *)
Definition strcaseeq (a b : string) : bool := String.eqb (lower (cstr a)) (lower (cstr b)).

(** ** hiredis *)

(** [redisReply]: the fields that are set for each [type]. *)
#[warnings="-register-all"]
Inductive redisReply : Type :=
| REDIS_REPLY_STRING (str : string)
| REDIS_REPLY_ARRAY (element : list (option redisReply))
| REDIS_REPLY_INTEGER (integer : Z)
| REDIS_REPLY_NIL
| REDIS_REPLY_STATUS (str : string)
| REDIS_REPLY_ERROR (str : string)
| REDIS_REPLY_OTHER (type : Z).

(** [reply->str], null for the types without text. *)
Definition reply_str (r : redisReply) : option string :=
  match r with
  | REDIS_REPLY_STRING s | REDIS_REPLY_STATUS s | REDIS_REPLY_ERROR s => Some s
  | _ => None
  end.

Definition context : Type := nat.

(** The calls of hiredis.h: a connection attempt returns null, or a context and
    its [err] flag; a command a reply, or null. *)
Class Hiredis (R : Type) : Type := {
  redisConnectWithTimeout : R → string → Z → Z → option (context * bool) * R;
  redisFree : R → context → R;
  redisCommand : R → context → string → list string → option redisReply * R;
}.

(** ** Objects *)

Record RedisConn : Type := mkConn {
  ctx_ : option context;
  redis_ip_ : string;
  redis_port_ : Z;
  time_out_ : Z;
  redis_pwd_ : string;
  status_ : bool;
}.

Definition RedisConnPrt : Type := nat.

Record RedisPool : Type := mkPool {
  conn_pool_ : list (option RedisConnPrt);
  pool_ip_ : string;
  pool_port_ : Z;
  pool_time_out_ : Z;
  pool_pwd_ : string;
  pool_size_ : Z;
  pool_max_size_ : Z;
}.

Record RedisWorld (R : Type) : Type := mkRedis {
  r_server : R;
  r_conns : gmap RedisConnPrt RedisConn;
  r_next : RedisConnPrt;
  r_pool : RedisPool;
}.
Arguments mkRedis {R}.
Arguments r_server {R} _.
Arguments r_conns {R} _.
Arguments r_next {R} _.
Arguments r_pool {R} _.

Definition set_ctx (x : option context) (c : RedisConn) : RedisConn :=
  mkConn x (redis_ip_ c) (redis_port_ c) (time_out_ c) (redis_pwd_ c) (status_ c).

Definition set_status (b : bool) (c : RedisConn) : RedisConn :=
  mkConn (ctx_ c) (redis_ip_ c) (redis_port_ c) (time_out_ c) (redis_pwd_ c) b.

Definition set_queue (q : list (option RedisConnPrt)) (p : RedisPool) : RedisPool :=
  mkPool q (pool_ip_ p) (pool_port_ p) (pool_time_out_ p) (pool_pwd_ p) (pool_size_ p)
    (pool_max_size_ p).

Definition set_pool_size (n : Z) (p : RedisPool) : RedisPool :=
  mkPool (conn_pool_ p) (pool_ip_ p) (pool_port_ p) (pool_time_out_ p) (pool_pwd_ p) n
    (pool_max_size_ p).

(** ** Replies *)

(** [std::string(p)] and [s = p] for a [char *p]: a null [p] is an error. *)
Definition string_of (p : option string) : fault + string :=
  match p with
  | Some s => inr (cstr s)
  | None => inl NullDeref
  end.

(** RedisConn::ParamRly; the elements that are null are skipped. *)
Fixpoint ParamRly (rly : redisReply) (params : list string) : fault + list string :=
  match rly with
  | REDIS_REPLY_ARRAY elements =>
      (fix go (es : list (option redisReply)) (params : list string) : fault + list string :=
         match es with
         | [] => inr params
         | None :: es' => go es' params
         | Some rly0 :: es' =>
             match ParamRly rly0 params with
             | inl e => inl e
             | inr params => go es' params
             end
         end) elements params
  | _ =>
      match string_of (reply_str rly) with
      | inl e => inl e
      | inr s => inr (params ++ [s])
      end
  end.

(** RedisConn::ParamRlyHash: [m] and [key] are local to each call; outside an
    array [rly0] is still null. *)
Fixpoint ParamRlyHash (rly : redisReply) (params : gmap string string)
    : fault + gmap string string :=
  match rly with
  | REDIS_REPLY_ARRAY elements =>
      (fix go (es : list (option redisReply)) (m : bool) (key : string) (params : gmap string string)
          : fault + gmap string string :=
         match es with
         | [] => inr params
         | None :: _ => inl NullDeref
         | Some ((REDIS_REPLY_ARRAY _) as rly0) :: es' =>
             match ParamRlyHash rly0 params with
             | inl e => inl e
             | inr params => go es' m key params
             end
         | Some rly0 :: es' =>
             match string_of (reply_str rly0) with
             | inl e => inl e
             | inr s => if m then go es' false key (<[key := s]> params) else go es' true s params
             end
         end) elements false EmptyString params
  | _ => inl NullDeref
  end.

Section Redis.
Context {R : Type} `{Hiredis R}.

Definition get_rconn (c : RedisConnPrt) : M (RedisWorld R) RedisConn := λ w,
  match r_conns w !! c with
  | Some cn => Ok cn w
  | None => Fault UseAfterFree
  end.

Definition put_rconn (c : RedisConnPrt) (cn : RedisConn) : M (RedisWorld R) unit :=
  modify (λ w, mkRedis (r_server w) (<[c := cn]> (r_conns w)) (r_next w) (r_pool w)).

Definition server_call {A} (f : R → A * R) : M (RedisWorld R) A := λ w,
  let '(a, r) := f (r_server w) in Ok a (mkRedis r (r_conns w) (r_next w) (r_pool w)).

Definition free_ctx (x : context) : M (RedisWorld R) unit :=
  server_call (λ r, (tt, redisFree r x)).

Definition with_pool (f : RedisPool → RedisPool) : M (RedisWorld R) unit :=
  modify (λ w, mkRedis (r_server w) (r_conns w) (r_next w) (f (r_pool w))).

Definition lift_r {A} (x : fault + A) : M (RedisWorld R) A :=
  match x with
  | inl e => throw e
  | inr a => mret a
  end.

(** ** RedisConn *)

Definition RedisConn_new : RedisConn := mkConn None "127.0.0.1" 6379 2000 "" false.

(** [port] is a [size_t] stored in a [uint32_t], [conn_timeout] an [int]. *)
Definition RedisConn_Init (addr : string) (port : Z) (pwd : string) (conn_timeout : Z)
    (c : RedisConn) : RedisConn :=
  mkConn (ctx_ c) addr (u32 port) (u32 conn_timeout) pwd (status_ c).

Definition ConnectWithTimeout (c : RedisConnPrt) : M (RedisWorld R) (option context) :=
  cn ← get_rconn c;
  r ← server_call (λ r, redisConnectWithTimeout r (cstr (redis_ip_ cn)) (redis_port_ cn) (time_out_ cn));
  match r with
  | None => mret None
  | Some (x, true) => free_ctx x ;; mret None
  | Some (x, false) => mret (Some x)
  end.

(** [redisCommand] on the context of [c], which is not null here. *)
Definition command (c : RedisConnPrt) (format : string) (args : list string)
    : M (RedisWorld R) (option redisReply) :=
  cn ← get_rconn c;
  match ctx_ cn with
  | None => throw NullDeref
  | Some x => server_call (λ r, redisCommand r x (cstr format) (cstr <$> args))
  end.

Definition set_conn_status (c : RedisConnPrt) (b : bool) : M (RedisWorld R) unit :=
  cn ← get_rconn c; put_rconn c (set_status b cn).

Definition auth (c : RedisConnPrt) : M (RedisWorld R) bool :=
  cn ← get_rconn c;
  bRet ← (if String.eqb (redis_pwd_ cn) "" then mret true
          else
            reply ← command c "AUTH %s" [redis_pwd_ cn];
            match reply with
            | None => mret false
            | Some rly =>
                match reply_str rly with
                | None => throw NullDeref
                | Some s => mret (strcaseeq s "OK")
                end
            end);
  set_conn_status c bRet ;;
  mret bRet.

Definition RedisConnect (c : RedisConnPrt) : M (RedisWorld R) bool :=
  cn ← get_rconn c;
  match ctx_ cn with
  | Some x => free_ctx x ;; put_rconn c (set_ctx None cn)
  | None => mret tt
  end ;;
  x ← ConnectWithTimeout c;
  cn ← get_rconn c;
  put_rconn c (set_ctx x cn) ;;
  match x with
  | None => mret false
  | Some _ => bRet ← auth c; set_conn_status c bRet ;; mret bRet
  end.

Definition RedisReConnect (c : RedisConnPrt) : M (RedisWorld R) bool :=
  cn ← get_rconn c;
  match ctx_ cn with
  | None => mret false
  | Some old =>
      x ← ConnectWithTimeout c;
      bRet ← match x with
             | None => mret false
             | Some x' =>
                 free_ctx old ;;
                 cn ← get_rconn c;
                 put_rconn c (set_ctx (Some x') cn) ;;
                 auth c
             end;
      set_conn_status c bRet ;;
      mret bRet
  end.

(** RedisConn::Release, and the destructor, after which the object is gone. *)
Definition Release (c : RedisConnPrt) : M (RedisWorld R) unit :=
  cn ← get_rconn c;
  match ctx_ cn with
  | Some x => free_ctx x
  | None => mret tt
  end ;;
  put_rconn c (set_status false (set_ctx None cn)).

Definition destroy (c : RedisConnPrt) : M (RedisWorld R) unit :=
  Release c ;;
  modify (λ w, mkRedis (r_server w) (delete c (r_conns w)) (r_next w) (r_pool w)).

Definition Ping (c : RedisConnPrt) : M (RedisWorld R) bool :=
  cn ← get_rconn c;
  match ctx_ cn with
  | None => mret false
  | Some _ =>
      reply ← command c "PING" [];
      let bRet := match reply with
                  | None => false
                  | Some rly =>
                      match reply_str rly with
                      | None => false
                      | Some s => strcaseeq s "PONG"
                      end
                  end in
      set_conn_status c bRet ;;
      mret bRet
  end.

(** What the three [Execute...] functions start with: [false] when they return
    [false] there. *)
Definition ready (c : RedisConnPrt) : M (RedisWorld R) bool :=
  cn ← get_rconn c;
  match ctx_ cn with
  | None => set_conn_status c false ;; mret false
  | Some _ =>
      ok ← (if status_ cn then mret true else RedisReConnect c);
      if (ok : bool) then set_conn_status c true ;; mret true else mret false
  end.

(** Whether a format asks for an argument. *)
Fixpoint has_conversion (format : string) : bool :=
  match format with
  | EmptyString => false
  | String a format' => Ascii.eqb a "%" || has_conversion format'
  end.

(** [redisCommand(ctx_, format, args)]: redisCommand takes arguments, not a [va_list]; it
    looks for none when the format asks for none. *)
Definition command_va_list (c : RedisConnPrt) (format : string) : M (RedisWorld R) (option redisReply) :=
  if has_conversion (cstr format) then throw BadFormat else command c format [].

(** The reply to [format], with [status_] cleared if there is none. *)
Definition execute (c : RedisConnPrt) (format : string) : M (RedisWorld R) (option redisReply) :=
  ok ← ready c;
  if (ok : bool) then
    reply ← command_va_list c format;
    match reply with
    | None => set_conn_status c false ;; mret None
    | Some rly => mret (Some rly)
    end
  else mret None.

(** RedisConn::ExecuteResonse: the result, and what [response] becomes. *)
Definition ExecuteResonse (c : RedisConnPrt) (response format : string)
    : M (RedisWorld R) (bool * string) :=
  reply ← execute c format;
  match reply with
  | None => mret (false, response)
  | Some (REDIS_REPLY_INTEGER i) => mret (true, pretty i)
  | Some (REDIS_REPLY_STRING s) => mret (true, s)
  | Some (REDIS_REPLY_STATUS s) => mret (true, s)
  | Some REDIS_REPLY_NIL => mret (true, EmptyString)
  | Some (REDIS_REPLY_ERROR s) => mret (false, s)
  | Some ((REDIS_REPLY_ARRAY _) as rly) =>
      params ← lift_r (ParamRly rly []); mret (true, response)
  | Some (REDIS_REPLY_OTHER _) =>
      set_conn_status c false ;; mret (false, "Undefine Reply Type"%string)
  end.

Definition ExecuteVector (c : RedisConnPrt) (response : list string) (format : string)
    : M (RedisWorld R) (bool * list string) :=
  reply ← execute c format;
  match reply with
  | None => mret (false, response)
  | Some ((REDIS_REPLY_ARRAY _) as rly) => l ← lift_r (ParamRly rly response); mret (true, l)
  | Some _ => mret (true, response)
  end.

Definition ExecuteMap (c : RedisConnPrt) (response : gmap string string) (format : string)
    : M (RedisWorld R) (bool * gmap string string) :=
  reply ← execute c format;
  match reply with
  | None => mret (false, response)
  | Some ((REDIS_REPLY_ARRAY _) as rly) => l ← lift_r (ParamRlyHash rly response); mret (true, l)
  | Some _ => mret (true, response)
  end.

Definition ExecuteCmd (c : RedisConnPrt) (format : string) : M (RedisWorld R) (option redisReply) :=
  cn ← get_rconn c;
  match ctx_ cn with
  | None => mret None
  | Some _ => command_va_list c format
  end.

(** ** RedisPool *)

Definition RedisPool_new : RedisPool := mkPool [] "127.0.0.1" 6379 1 "" 50 150.

(** [new RedisConn] *)
Definition new_conn : M (RedisWorld R) RedisConnPrt :=
  w ← get;
  modify (λ w, mkRedis (r_server w) (<[r_next w := RedisConn_new]> (r_conns w)) (S (r_next w))
                 (r_pool w)) ;;
  mret (r_next w).

Definition CreateConnection : M (RedisWorld R) unit :=
  c ← new_conn;
  w ← get;
  let p := r_pool w in
  cn ← get_rconn c;
  put_rconn c (RedisConn_Init (pool_ip_ p) (pool_port_ p) (pool_pwd_ p) (pool_time_out_ p) cn) ;;
  ok ← RedisConnect c;
  if (ok : bool) then
    with_pool (λ p, set_pool_size (u64 (pool_size_ p + 1)) (set_queue (conn_pool_ p ++ [Some c]) p))
  else destroy c.

(** [pool_max_size_] is assigned to itself. *)
Definition InitPool (addr : string) (port : Z) (pwd : string) (conn_timeout pool_size pool_max_size : Z)
    : M (RedisWorld R) bool :=
  with_pool (λ p, mkPool (conn_pool_ p) addr (u32 port) (u32 conn_timeout) pwd pool_size
                    (pool_max_size_ p)) ;;
  repeatM (Z.to_nat pool_size) CreateConnection ;;
  w ← get;
  mret (negb (bool_decide (conn_pool_ (r_pool w) = []))).

(** The [while (1)] of GetRedisConn, for at most [fuel] turns. *)
Fixpoint GetRedisConn_loop (fuel : nat) : M (RedisWorld R) (option RedisConnPrt) :=
  match fuel with
  | O => throw OutOfFuel
  | S fuel' =>
      w ← get;
      match conn_pool_ (r_pool w) with
      | [] =>
          if pool_size_ (r_pool w) <=? pool_max_size_ (r_pool w) then
            CreateConnection ;;
            w ← get;
            if bool_decide (conn_pool_ (r_pool w) = []) then mret None
            else GetRedisConn_loop fuel'
          else GetRedisConn_loop fuel'
      | front :: q =>
          with_pool (set_queue q) ;;
          match front with
          | Some c => mret (Some c)
          | None => CreateConnection ;; GetRedisConn_loop fuel'
          end
      end
  end.

(** The connection object allocated before the loop is dropped in every case. *)
Definition GetRedisConn (fuel : nat) : M (RedisWorld R) (option RedisConnPrt) :=
  c ← new_conn;
  r ← GetRedisConn_loop fuel;
  destroy c ;;
  mret r.

Definition FreeRedisConn (c : option RedisConnPrt) : M (RedisWorld R) unit :=
  match c with
  | Some c => with_pool (λ p, set_queue (conn_pool_ p ++ [Some c]) p)
  | None => mret tt
  end.

(** [for (int i = 0; i < conn_pool_.size(); i++) conn_pool_.pop();] from [i]; a
    connection popped has no other owner. *)
Fixpoint Release_loop (fuel : nat) (i : nat) : M (RedisWorld R) unit :=
  match fuel with
  | O => throw OutOfFuel
  | S fuel' =>
      w ← get;
      match conn_pool_ (r_pool w) with
      | c :: q =>
          if (i <? length (c :: q))%nat then
            with_pool (set_queue q) ;;
            match c with Some c => destroy c | None => mret tt end ;;
            Release_loop fuel' (S i)
          else mret tt
      | [] => mret tt
      end
  end.

Definition ReleaseRedisConn : M (RedisWorld R) unit :=
  w ← get;
  Release_loop (S (length (conn_pool_ (r_pool w)))) 0.

(** The body of the loop of CheckStatus. *)
Definition CheckFront : M (RedisWorld R) unit :=
  w ← get;
  match conn_pool_ (r_pool w) with
  | Some c :: _ => ok ← Ping c; when (negb ok) (RedisReConnect c ;; mret tt)
  | None :: _ => throw NullDeref
  | [] => mret tt
  end.

Definition CheckStatus : M (RedisWorld R) unit :=
  w ← get;
  repeatM (length (conn_pool_ (r_pool w))) CheckFront.

(** The destructor: its body, and then the queue with what is left in it. *)
Definition RedisPool_destroy : M (RedisWorld R) unit :=
  ReleaseRedisConn ;;
  w ← get;
  iterM (λ c, match c with Some c => destroy c | None => mret tt end) (conn_pool_ (r_pool w)) ;;
  with_pool (set_queue []).

(** ** DBIORedis *)

Section Client.
Context (fuel : nat).

Definition DBIORedis_InitPool := InitPool.
Definition DBIORedis_ReleasePool := ReleaseRedisConn.
Definition DBIORedis_CheckStatus := CheckStatus.

(** A [shared_ptr] to a connection that was taken from the pool is dropped. *)
Definition drop_conn (c : RedisConnPrt) : M (RedisWorld R) unit := destroy c.

Definition command_of (words : list string) : string := String.concat " " words.

(** Set, HSet and HGet: one command on a pooled connection. *)
Definition with_response (response format : string) : M (RedisWorld R) (bool * string) :=
  conn ← GetRedisConn fuel;
  match conn with
  | None => mret (false, response)
  | Some c =>
      r ← ExecuteResonse c response format;
      FreeRedisConn (Some c) ;;
      mret r
  end.

Definition Redis_Set (key field value : string) : M (RedisWorld R) bool :=
  r ← with_response EmptyString (command_of ["set"; key; field; value]); mret (fst r).

Definition Redis_HSet (key field value : string) : M (RedisWorld R) bool :=
  r ← with_response EmptyString (command_of ["hset"; key; field; value]); mret (fst r).

Definition Redis_HGet (key field response : string) : M (RedisWorld R) (bool * string) :=
  with_response response (command_of ["hget"; key; field]).

(** What [Get] returns: null, or a pointer into a string that is destroyed. *)
Inductive get_result : Type := GetNull | GetDangling (freed : string).

Definition Redis_Get (key : string) : M (RedisWorld R) get_result :=
  conn ← GetRedisConn fuel;
  match conn with
  | None => mret GetNull
  | Some c =>
      r ← ExecuteResonse c EmptyString (command_of ["get"; key]);
      FreeRedisConn (Some c) ;;
      mret (GetDangling (snd r))
  end.

Definition nul : string := String Ascii.zero EmptyString.

Definition Redis_HKeys (key : string) (response : list string) : M (RedisWorld R) (bool * list string) :=
  conn ← GetRedisConn fuel;
  match conn with
  | None => mret (false, response)
  | Some c =>
      r ← ExecuteVector c response (command_of ["hkeys"; key] +:+ nul);
      FreeRedisConn (Some c) ;;
      mret r
  end.

Fixpoint hget_all (c : RedisConnPrt) (key : string) (akeys : list string)
    (response : gmap string string) : M (RedisWorld R) (gmap string string) :=
  match akeys with
  | [] => mret response
  | akey :: akeys' =>
      r ← ExecuteResonse c EmptyString (command_of ["hget"; key; akey]);
      hget_all c key akeys' (if (fst r : bool) then <[akey := (snd r)]> response else response)
  end.

(** Without keys the connection is not given back. *)
Definition Redis_HGetAllByKeys (key : string) (response : gmap string string)
    : M (RedisWorld R) (bool * gmap string string) :=
  conn ← GetRedisConn fuel;
  match conn with
  | None => mret (false, response)
  | Some c =>
      r ← Redis_HKeys key [];
      let '(ok, akeys) := r in
      if (ok : bool) then
        response ← hget_all c key akeys response;
        FreeRedisConn (Some c) ;;
        mret (true, response)
      else drop_conn c ;; mret (false, response)
  end.

Definition Redis_HGetAll (key : string) (response : gmap string string)
    : M (RedisWorld R) (bool * gmap string string) :=
  conn ← GetRedisConn fuel;
  match conn with
  | None => mret (false, response)
  | Some c =>
      r ← ExecuteMap c response (command_of ["hgetall"; key] +:+ nul);
      FreeRedisConn (Some c) ;;
      mret r
  end.

(** ** RedisManage

    A [DBIORedis], which it forwards to. *)

Definition Manage_InitPool := DBIORedis_InitPool.
Definition Manage_CheckStatus := DBIORedis_CheckStatus.
Definition Manage_Set := Redis_Set.
Definition Manage_Get := Redis_Get.
Definition Manage_HSet := Redis_HSet.
Definition Manage_HGet := Redis_HGet.

(** The result of [HGetAll] is not returned. *)
Definition Manage_HGetAll (key : string) (response : gmap string string)
    : M (RedisWorld R) (gmap string string) :=
  r ← Redis_HGetAll key response; mret (snd r).
End Client.
End Redis.
