(* ===== verification/RedisProps.v ===== *)
(** * Properties of the Redis client (hiredis_test)

    What the reply readers compute, and how many connections the pool holds
    after each of its operations. *)

From S2P Require Import Prelude Redis.

(** ** Specifications *)

(** The texts of a reply, in order, and whether each of its parts has one. *)
Fixpoint texts (r : redisReply) : list string :=
  match r with
  | REDIS_REPLY_ARRAY es =>
      flat_map (λ o, match o with Some r => texts r | None => [] end) es
  | _ => match reply_str r with Some s => [cstr s] | None => [] end
  end.

Fixpoint has_texts (r : redisReply) : bool :=
  match r with
  | REDIS_REPLY_ARRAY es =>
      forallb (λ o, match o with Some r => has_texts r | None => true end) es
  | _ => match reply_str r with Some _ => true | None => false end
  end.

(** Keys and values alternate; a last key without a value is dropped. *)
Fixpoint pairs_of {A} (l : list A) : list (A * A) :=
  match l with
  | k :: v :: l' => (k, v) :: pairs_of l'
  | _ => []
  end.

(** ** Replies *)

Section ReplyInd.
Context (P : redisReply → Prop).
Context (Hleaf : ∀ r, (∀ es, r ≠ REDIS_REPLY_ARRAY es) → P r).
Context (Harr : ∀ es, (∀ r, Some r ∈ es → P r) → P (REDIS_REPLY_ARRAY es)).

Fixpoint redisReply_nested_ind (r : redisReply) : P r.
Proof.
  refine (match r with
          | REDIS_REPLY_ARRAY es => Harr es _
          | r => Hleaf r _
          end); [discriminate| |discriminate..].
  induction es as [|o es IH]; intros r2 Hr0.
  - clear redisReply_nested_ind. by apply elem_of_nil in Hr0.
  - apply elem_of_cons in Hr0 as [E|Hin]; [|by apply IH].
    destruct o as [r1|]; [|discriminate E]. injection E as ->. apply redisReply_nested_ind.
Defined.
End ReplyInd.

(** The loop of [ParamRly]. *)
Fixpoint ParamRly_go (es : list (option redisReply)) (params : list string) : fault + list string :=
  match es with
  | [] => inr params
  | None :: es' => ParamRly_go es' params
  | Some rly0 :: es' =>
      match ParamRly rly0 params with
      | inl e => inl e
      | inr params => ParamRly_go es' params
      end
  end.

Lemma ParamRly_array es params :
  ParamRly (REDIS_REPLY_ARRAY es) params = ParamRly_go es params.
Proof. simpl. revert params. by induction es as [|[r|] es IH]; intros params; simpl. Qed.

Lemma ParamRly_spec r params :
  ParamRly r params = if has_texts r then inr (params ++ texts r) else inl NullDeref.
Proof.
  revert params. induction r as [r Hr|es IH] using redisReply_nested_ind; intros params.
  - destruct r; simpl; try done. by destruct (Hr element).
  - rewrite ParamRly_array. revert params. induction es as [|o es IHes]; intros params.
    { simpl. by rewrite app_nil_r. }
    destruct o as [r|]; simpl.
    + rewrite (IH r) by by left. destruct (has_texts r); simpl; [|done].
      rewrite IHes by (intros; apply IH; by right). simpl.
      by rewrite <- app_assoc.
    + rewrite IHes by (intros; apply IH; by right). done.
Qed.

(** The loop of [ParamRlyHash]. *)
Fixpoint ParamRlyHash_go (es : list (option redisReply)) (m : bool) (key : string)
    (params : gmap string string) : fault + gmap string string :=
  match es with
  | [] => inr params
  | None :: _ => inl NullDeref
  | Some ((REDIS_REPLY_ARRAY _) as rly0) :: es' =>
      match ParamRlyHash rly0 params with
      | inl e => inl e
      | inr params => ParamRlyHash_go es' m key params
      end
  | Some rly0 :: es' =>
      match string_of (reply_str rly0) with
      | inl e => inl e
      | inr s => if m then ParamRlyHash_go es' false key (<[key := s]> params)
                 else ParamRlyHash_go es' true s params
      end
  end.

Lemma ParamRlyHash_array es params :
  ParamRlyHash (REDIS_REPLY_ARRAY es) params = ParamRlyHash_go es false EmptyString params.
Proof.
  cbn [ParamRlyHash]. match goal with |- ?go es _ _ _ = _ =>
    enough (∀ m key params, go es m key params = ParamRlyHash_go es m key params) as E by apply E end.
  clear params. induction es as [|[r|] es IH]; intros m key params; [done| |done].
  destruct r; cbn [ParamRlyHash_go reply_str string_of]; try done; try (destruct m; apply IH).
Qed.

Lemma ParamRlyHash_strings ss key params :
  ParamRlyHash_go ((λ s, Some (REDIS_REPLY_STRING s)) <$> ss) false key params
  = inr (foldl (λ m kv, <[kv.1 := kv.2]> m) params (pairs_of (cstr <$> ss))).
Proof.
  assert (∀ n ss key params, (length ss ≤ n)%nat →
    ParamRlyHash_go ((λ s, Some (REDIS_REPLY_STRING s)) <$> ss) false key params
    = inr (foldl (λ m kv, <[kv.1 := kv.2]> m) params (pairs_of (cstr <$> ss)))) as Hn.
  { clear. induction n as [|n IH]; intros [|k [|v ss]] key params Hl; simpl in *; try done; try lia.
    apply IH. lia. }
  by apply (Hn (length ss)).
Qed.

(** ** The pool *)

Section Pool.
Context {R : Type} `{Hiredis R}.
Implicit Types (w : RedisWorld R).

(** Every attempt to connect succeeds. *)
Definition server_up : Prop :=
  ∀ (r : R) ip port t, ∃ x r', redisConnectWithTimeout r ip port t = (Some (x, false), r').

(** A computation that does not touch the pool. *)
Definition keeps_pool {A} (m : M (RedisWorld R) A) : Prop :=
  ∀ w a w', m w = Ok a w' → r_pool w' = r_pool w.

Lemma keeps_bind {A B} (m : M (RedisWorld R) A) (f : A → M (RedisWorld R) B) :
  keeps_pool m → (∀ a, keeps_pool (f a)) → keeps_pool (m ≫= f).
Proof.
  intros Hm Hf w b w' E. apply bind_Ok in E as (a & w1 & E1 & E2).
  etransitivity; [by eapply Hf|by eapply Hm].
Qed.

Lemma keeps_ret {A} (a : A) : keeps_pool (mret a).
Proof. intros w a' w' E. unfold mret, M_ret in E. by injection E as _ <-. Qed.

Lemma keeps_throw {A} e : keeps_pool (throw (A := A) e).
Proof. intros w a w' E. unfold throw in E. discriminate E. Qed.

Lemma keeps_get_rconn c : keeps_pool (get_rconn c).
Proof. intros w a w'. unfold get_rconn. destruct (r_conns w !! c); [by intros [= _ <-]|done]. Qed.

Lemma keeps_put_rconn c cn : keeps_pool (put_rconn c cn).
Proof. by intros w [] w' [= <-]. Qed.

Lemma keeps_server_call {A} (f : R → A * R) : keeps_pool (server_call f).
Proof. intros w a w'. unfold server_call. destruct (f (r_server w)). by intros [= _ <-]. Qed.

Lemma keeps_lift {A} (x : fault + A) : keeps_pool (lift_r x).
Proof. destruct x; [apply keeps_throw|apply keeps_ret]. Qed.

(** Composition, with the cases of the code. *)
Ltac keeps :=
  repeat first
    [ apply keeps_bind; [|intros ?] | apply keeps_ret | apply keeps_throw
    | apply keeps_get_rconn | apply keeps_put_rconn | apply keeps_server_call | apply keeps_lift
    | progress unfold free_ctx, set_conn_status
    | case_match ].

Lemma keeps_command c f a : keeps_pool (command c f a).
Proof. unfold command. keeps. Qed.

Lemma keeps_ConnectWithTimeout c : keeps_pool (ConnectWithTimeout c).
Proof. unfold ConnectWithTimeout. keeps. Qed.

Lemma keeps_auth c : keeps_pool (auth c).
Proof. unfold auth. keeps. Qed.

Lemma keeps_RedisReConnect c : keeps_pool (RedisReConnect c).
Proof. unfold RedisReConnect. keeps. Qed.

Lemma keeps_execute c f : keeps_pool (execute c f).
Proof. unfold execute, ready, command_va_list. keeps. Qed.

Lemma keeps_ExecuteResonse c s f : keeps_pool (ExecuteResonse c s f).
Proof. unfold ExecuteResonse. apply keeps_bind; [apply keeps_execute|]. intros o. keeps. Qed.

Lemma keeps_ExecuteVector c s f : keeps_pool (ExecuteVector c s f).
Proof. unfold ExecuteVector. apply keeps_bind; [apply keeps_execute|]. intros o. keeps. Qed.

Lemma keeps_ExecuteMap c s f : keeps_pool (ExecuteMap c s f).
Proof. unfold ExecuteMap. apply keeps_bind; [apply keeps_execute|]. intros o. keeps. Qed.

Lemma keeps_destroy c : keeps_pool (destroy c).
Proof. unfold destroy, Release. keeps. by intros w [] w' [= <-]. Qed.

Lemma keeps_new_conn : keeps_pool new_conn.
Proof. by intros w a w' [= <- <-]. Qed.

(** Taking a connection from a pool that has one. *)
Lemma GetRedisConn_pops fuel w r w' c q :
  conn_pool_ (r_pool w) = Some c :: q → GetRedisConn fuel w = Ok r w' →
  r = Some c ∧ r_pool w' = set_queue q (r_pool w).
Proof.
  intros Hq E. apply bind_Ok in E as (c0 & w1 & E1 & E).
  apply bind_Ok in E as (r1 & w2 & E2 & E). apply bind_Ok in E as ([] & w3 & E3 & [= -> ->]).
  apply keeps_new_conn in E1. apply keeps_destroy in E3. rewrite E3. clear E3.
  destruct fuel as [|fuel]; [done|]. simpl in E2. rewrite get_bind, E1, Hq in E2.
  injection E2 as <- <-. split; [done|]. simpl. by rewrite E1.
Qed.

(** Using a connection of a pool that has one, and giving it back. *)
Lemma use_and_return {A} fuel (m : RedisConnPrt → M (RedisWorld R) A) (d : A) w a w' c q :
  (∀ c, keeps_pool (m c)) → conn_pool_ (r_pool w) = Some c :: q →
  (conn ← GetRedisConn fuel;
   match conn with
   | None => mret d
   | Some c => r ← m c; FreeRedisConn (Some c) ;; mret r
   end) w = Ok a w' →
  r_pool w' = set_queue (q ++ [Some c]) (r_pool w).
Proof.
  intros Hm Hq E. apply bind_Ok in E as (o & w1 & E1 & E).
  apply (GetRedisConn_pops fuel w o w1 c q Hq) in E1 as [-> Hp].
  apply bind_Ok in E as (r & w2 & E2 & E). apply Hm in E2.
  injection E as <- <-. simpl. by rewrite E2, Hp.
Qed.

(** ** Connections created *)

(** The object that CreateConnection puts in the pool. *)
Definition connected_conn (p : RedisPool) (x : context) : RedisConn :=
  mkConn (Some x) (pool_ip_ p) (u32 (pool_port_ p)) (u32 (pool_time_out_ p)) "" true.

Lemma CreateConnection_up w :
  server_up → pool_pwd_ (r_pool w) = "" →
  ∃ x r', CreateConnection w
    = Ok tt (mkRedis r' (<[r_next w := connected_conn (r_pool w) x]> (r_conns w)) (S (r_next w))
        (set_pool_size (u64 (pool_size_ (r_pool w) + 1))
           (set_queue (conn_pool_ (r_pool w) ++ [Some (r_next w)]) (r_pool w)))).
Proof.
  intros Hup Hpwd. destruct w as [r cs nx p]. simpl in *.
  destruct (Hup r (cstr (pool_ip_ p)) (u32 (pool_port_ p)) (u32 (pool_time_out_ p)))
    as (x & r' & Hc). exists x, r'.
  unfold CreateConnection, new_conn, RedisConnect, ConnectWithTimeout, auth, set_conn_status,
    put_rconn, get_rconn, server_call, with_pool, modify, get, mbind, M_bind, mret, M_ret; simpl.
  repeat (rewrite lookup_insert_eq; simpl). rewrite Hc. simpl.
  repeat (rewrite lookup_insert_eq; simpl). rewrite Hpwd. simpl.
  repeat (rewrite lookup_insert_eq; simpl).
  by rewrite !insert_insert_eq.
Qed.

Lemma create_many n w :
  server_up → pool_pwd_ (r_pool w) = "" → 0 <= pool_size_ (r_pool w) →
  pool_size_ (r_pool w) + Z.of_nat n < 2 ^ 64 →
  ∃ w', repeatM n CreateConnection w = Ok tt w'
    ∧ r_pool w' = set_pool_size (pool_size_ (r_pool w) + Z.of_nat n)
        (set_queue (conn_pool_ (r_pool w) ++ (Some <$> seq (r_next w) n)) (r_pool w)).
Proof.
  intros Hup. revert w. induction n as [|n IH]; intros w Hpwd Hs0 Hs; simpl.
  { exists w. split; [done|]. rewrite app_nil_r, Z.add_0_r. by destruct w as [? ? ? []]. }
  destruct (CreateConnection_up w Hup Hpwd) as (x & r' & Hc).
  erewrite bind_run by exact Hc. rewrite wrap_u_small by lia.
  destruct (IH (mkRedis r' (<[r_next w := connected_conn (r_pool w) x]> (r_conns w)) (S (r_next w))
    (set_pool_size (pool_size_ (r_pool w) + 1)
       (set_queue (conn_pool_ (r_pool w) ++ [Some (r_next w)]) (r_pool w))))) as (w' & Hr & Hp);
    simpl; [done|lia|lia|].
  exists w'. split; [exact Hr|]. rewrite Hp. simpl. unfold set_pool_size, set_queue; simpl.
  rewrite <- app_assoc. simpl. f_equal. lia.
Qed.

(** ** Connections released *)

Lemma destroy_run c cn w :
  r_conns w !! c = Some cn →
  ∃ r', destroy c w = Ok tt (mkRedis r' (delete c (r_conns w)) (r_next w) (r_pool w)).
Proof.
  intros E. unfold destroy, Release, get_rconn, put_rconn, free_ctx, server_call, modify,
    mbind, M_bind; simpl. rewrite E.
  destruct (ctx_ cn) as [x|]; simpl; eexists; by rewrite delete_insert_eq.
Qed.

(** The connections [cs] deleted. *)
Definition without (cs : list RedisConnPrt) (conns : gmap RedisConnPrt RedisConn) : gmap RedisConnPrt RedisConn :=
  foldl (λ m c, delete c m) conns cs.

Lemma without_lookup cs conns c :
  without cs conns !! c = if decide (c ∈ cs) then None else conns !! c.
Proof.
  revert conns. induction cs as [|c0 cs IH]; intros conns; [by rewrite decide_False by apply not_elem_of_nil|].
  change (without (c0 :: cs) conns) with (without cs (delete c0 conns)). rewrite IH. destruct (decide (c ∈ cs)) as [Hc|Hc]; [by rewrite decide_True by by right|].
  destruct (decide (c = c0)) as [->|Hne].
  - rewrite lookup_delete_eq. by rewrite decide_True by by left.
  - rewrite lookup_delete_ne by done. rewrite decide_False; [done|]. by intros [?|?]%elem_of_cons.
Qed.

(** What is left after the loop from index [i], with [k] turns: each turn takes
    one from the queue and adds one to the index. *)
Lemma Release_loop_spec fuel i (w : RedisWorld R) (cs : list RedisConnPrt) :
  conn_pool_ (r_pool w) = Some <$> cs → NoDup cs → (∀ c, c ∈ cs → is_Some (r_conns w !! c)) →
  (length cs < fuel)%nat →
  ∃ w', Release_loop fuel i w = Ok tt w'
    ∧ conn_pool_ (r_pool w') = Some <$> drop (Nat.div2 (S (length cs - i))) cs
    ∧ r_conns w' = without (take (Nat.div2 (S (length cs - i))) cs) (r_conns w).
Proof.
  revert i w cs. induction fuel as [|fuel IH]; intros i w cs Hq Hnd Hall Hf; [lia|].
  simpl. rewrite get_bind, Hq. destruct cs as [|c cs].
  { eexists. split; [done|]. by rewrite Hq, drop_nil, take_nil. }
  simpl in *. rewrite length_fmap. destruct (Nat.ltb_spec i (S (length cs))) as [Hlt|Hge].
  2: { eexists. split; [done|]. rewrite Hq. by replace (S (length cs) - i)%nat with O by lia. }
  apply NoDup_cons in Hnd as [Hc Hnd]. destruct (Hall c ltac:(by left)) as [cn Ecn].
  set (w1 := mkRedis (r_server w) (r_conns w) (r_next w) (set_queue (Some <$> cs) (r_pool w))).
  destruct (destroy_run c cn w1 Ecn) as [r' Hd].
  destruct (IH (S i) (mkRedis r' (delete c (r_conns w)) (r_next w) (r_pool w1)) cs)
    as (w' & Hr & Hp & Hcs); simpl; [done|done| |lia|].
  { intros c' Hc'. rewrite lookup_delete_ne by (intros ->; done). apply Hall. by right. }
  exists w'. split.
  - unfold with_pool. rewrite modify_bind. erewrite bind_run by exact Hd. exact Hr.
  - rewrite Hp, Hcs. destruct (length cs - i)%nat as [|k] eqn:Ek.
    + replace (S (length cs) - i)%nat with 1%nat by lia.
      replace (length cs - S i)%nat with O by lia. done.
    + replace (S (length cs) - i)%nat with (S (S k)) by lia.
      replace (length cs - S i)%nat with k by lia. done.
Qed.

Lemma destroy_all (w : RedisWorld R) (cs : list RedisConnPrt) :
  NoDup cs → (∀ c, c ∈ cs → is_Some (r_conns w !! c)) →
  ∃ w', iterM (λ c, match c with Some c => destroy c | None => mret tt end) (Some <$> cs) w = Ok tt w'
    ∧ r_conns w' = without cs (r_conns w).
Proof.
  revert w. induction cs as [|c cs IH]; intros w Hnd Hall; [by exists w|].
  apply NoDup_cons in Hnd as [Hc Hnd]. destruct (Hall c ltac:(by left)) as [cn Ecn].
  destruct (destroy_run c cn w Ecn) as [r' Hd].
  destruct (IH (mkRedis r' (delete c (r_conns w)) (r_next w) (r_pool w)) Hnd) as (w' & Hr & Hcs).
  { intros c' Hc'. simpl. rewrite lookup_delete_ne by (intros ->; done). apply Hall. by right. }
  exists w'. split; [|exact Hcs]. cbn [fmap list_fmap iterM]. by erewrite bind_run by exact Hd.
Qed.
End Pool.

(** ** Properties *)

(** C23: [ParamRly] appends the texts of a reply, however deeply its arrays are
    nested, in order; a part without a text (an integer, a nil) makes it read
    through a null pointer. *)
Theorem ParamRly_flattens r params :
  ParamRly r params = if has_texts r then inr (params ++ texts r) else inl NullDeref.
Proof. revert params. intros params. exact (ParamRly_spec r params). Qed.

(** [ParamRlyHash] on an array of strings stores each value under the key
    before it, later pairs over earlier ones; a reply that is not an array makes
    it read through a null pointer. *)
Theorem ParamRlyHash_pairs ss params :
  ParamRlyHash (REDIS_REPLY_ARRAY ((λ s, Some (REDIS_REPLY_STRING s)) <$> ss)) params
    = inr (foldl (λ m kv, <[kv.1 := kv.2]> m) params (pairs_of (cstr <$> ss)))
  ∧ ∀ r, (∀ es, r ≠ REDIS_REPLY_ARRAY es) → ParamRlyHash r params = inl NullDeref.
Proof.
  split.
  - rewrite ParamRlyHash_array. apply ParamRlyHash_strings.
  - intros r Hr. destruct r; try reflexivity. by destruct (Hr element).
Qed.

(** [InitPool] with [n] connections asked for, all of which succeed, pools [n]
    connections, counts them twice in [pool_size_], and keeps the old limit
    [pool_max_size_] whatever is asked for. *)
Theorem InitPool_counts {R : Type} `{Hiredis R} (w : RedisWorld R) addr port timeout n max :
  server_up → 0 <= n < 2 ^ 31 → conn_pool_ (r_pool w) = [] →
  ∃ w', InitPool addr port "" timeout n max w = Ok (negb (n =? 0)) w'
    ∧ conn_pool_ (r_pool w') = Some <$> seq (r_next w) (Z.to_nat n)
    ∧ pool_size_ (r_pool w') = 2 * n
    ∧ pool_max_size_ (r_pool w') = pool_max_size_ (r_pool w).
Proof.
  intros Hup Hn Hq. unfold InitPool, with_pool. rewrite modify_bind.
  match goal with |- context [ repeatM _ _ ≫= _ ] => idtac end.
  set (w1 := mkRedis _ _ _ _).
  destruct (create_many (Z.to_nat n) w1 Hup) as (w' & Hr & Hp); simpl; [done|lia|lia|].
  erewrite bind_run by exact Hr. rewrite get_bind.
  assert (conn_pool_ (r_pool w') = Some <$> seq (r_next w) (Z.to_nat n)) as Hq'.
  { rewrite Hp. simpl. by rewrite Hq. }
  exists w'. split_and!.
  - rewrite Hq'. unfold mret, M_ret. f_equal. f_equal.
    destruct (Z.eqb_spec n 0) as [->|]; [done|]. apply bool_decide_eq_false.
    destruct (Z.to_nat n) eqn:E; [lia|done].
  - exact Hq'.
  - rewrite Hp. simpl. lia.
  - by rewrite Hp.
Qed.

(** C24: [Set], [HSet], [HGet], [Get], [HKeys] and [HGetAll] on a pool that is not
    empty use the connection in front and put it back at the end, whatever the
    server replies. *)
Theorem commands_rotate_the_pool {R : Type} `{Hiredis R} fuel (w : RedisWorld R) c q key field value :
  conn_pool_ (r_pool w) = Some c :: q →
  let rotated w' := r_pool w' = set_queue (q ++ [Some c]) (r_pool w) in
  (∀ a w', Redis_Set fuel key field value w = Ok a w' → rotated w')
  ∧ (∀ a w', Redis_HSet fuel key field value w = Ok a w' → rotated w')
  ∧ (∀ s a w', Redis_HGet fuel key field s w = Ok a w' → rotated w')
  ∧ (∀ a w', Redis_Get fuel key w = Ok a w' → rotated w')
  ∧ (∀ l a w', Redis_HKeys fuel key l w = Ok a w' → rotated w')
  ∧ (∀ m a w', Redis_HGetAll fuel key m w = Ok a w' → rotated w').
Proof.
  intros Hq rotated.
  assert (∀ s f a w', with_response fuel s f w = Ok a w' → rotated w') as Hresp.
  { intros s f a w' E. by eapply use_and_return; [intros; apply keeps_ExecuteResonse|..|exact E]. }
  split_and!.
  - intros a w' E. apply bind_Ok in E as (r & w1 & E & [= _ <-]). eauto.
  - intros a w' E. apply bind_Ok in E as (r & w1 & E & [= _ <-]). eauto.
  - intros s a w' E. eauto.
  - intros a w' E. eapply (use_and_return fuel (λ c, r ← ExecuteResonse c "" (command_of ["get"; key]); mret (GetDangling (snd r)))
      GetNull); [|exact Hq|].
    + intros c'. apply keeps_bind; [apply keeps_ExecuteResonse|intros; apply keeps_ret].
    + rewrite <- E. unfold Redis_Get, mbind, M_bind.
      destruct (GetRedisConn fuel w) as [[c'|] w1|e]; [|done|done].
      by destruct (ExecuteResonse c' _ _ w1).
  - intros l a w' E. by eapply use_and_return; [intros; apply keeps_ExecuteVector|..|exact E].
  - intros m a w' E. by eapply use_and_return; [intros; apply keeps_ExecuteMap|..|exact E].
Qed.

(** Once the pool is empty and [pool_size_] is past [pool_max_size_],
    [GetRedisConn] does not return: it spins until some other thread gives a
    connection back. *)
Theorem GetRedisConn_spins {R : Type} `{Hiredis R} fuel (w : RedisWorld R) :
  conn_pool_ (r_pool w) = [] → pool_max_size_ (r_pool w) < pool_size_ (r_pool w) →
  GetRedisConn fuel w = Fault OutOfFuel.
Proof.
  intros Hq Hlt. unfold GetRedisConn. erewrite bind_run by reflexivity.
  set (w1 := mkRedis _ _ _ _).
  assert (GetRedisConn_loop fuel w1 = Fault OutOfFuel) as Hspin; [|unfold mbind, M_bind; by rewrite Hspin].
  induction fuel as [|fuel IH]; simpl; [done|]. rewrite get_bind. simpl. rewrite Hq.
  by rewrite (proj2 (Z.leb_gt _ _)) by done.
Qed.

(** [ReleaseRedisConn] counts its index up while the queue shrinks, and so
    releases only half of the pooled connections, rounded up. *)
Theorem ReleaseRedisConn_releases_half {R : Type} `{Hiredis R} (w : RedisWorld R) cs :
  conn_pool_ (r_pool w) = Some <$> cs → NoDup cs → (∀ c, c ∈ cs → is_Some (r_conns w !! c)) →
  ∃ w', ReleaseRedisConn w = Ok tt w'
    ∧ conn_pool_ (r_pool w') = Some <$> drop (Nat.div2 (S (length cs))) cs.
Proof.
  intros Hq Hnd Hall. unfold ReleaseRedisConn. rewrite get_bind.
  destruct (Release_loop_spec (S (length (conn_pool_ (r_pool w)))) 0 w cs Hq Hnd Hall)
    as (w' & Hr & Hp & _).
  { rewrite Hq, length_fmap. lia. }
  exists w'. split; [exact Hr|]. rewrite Hp. by rewrite Nat.sub_0_r.
Qed.

(** The destructor of the pool does free what [ReleaseRedisConn] leaves: no
    connection that was pooled is left, and no other is touched. *)
Theorem destructor_frees_the_rest {R : Type} `{Hiredis R} (w : RedisWorld R) cs :
  conn_pool_ (r_pool w) = Some <$> cs → NoDup cs → (∀ c, c ∈ cs → is_Some (r_conns w !! c)) →
  ∃ w', RedisPool_destroy w = Ok tt w' ∧ conn_pool_ (r_pool w') = []
    ∧ ∀ c, r_conns w' !! c = if decide (c ∈ cs) then None else r_conns w !! c.
Proof.
  intros Hq Hnd Hall. unfold RedisPool_destroy.
  destruct (Release_loop_spec (S (length (conn_pool_ (r_pool w)))) 0 w cs Hq Hnd Hall)
    as (w1 & Hr & Hp & Hcs).
  { rewrite Hq, length_fmap. lia. }
  erewrite bind_run by (unfold ReleaseRedisConn; rewrite get_bind; exact Hr). rewrite get_bind, Hp.
  set (k := Nat.div2 (S (length cs - 0))) in *. rewrite <- (take_drop k cs) in Hnd.
  apply NoDup_app in Hnd as (_ & Hdis & Hnd).
  destruct (destroy_all w1 (drop k cs) Hnd) as (w2 & Hr2 & Hcs2).
  { intros c Hc. rewrite Hcs, without_lookup, decide_False.
    - apply Hall. rewrite <- (take_drop k cs). apply elem_of_app. by right.
    - intros Hc'. by apply (Hdis c). }
  erewrite bind_run by exact Hr2. eexists. split_and!; [done|done|]. intros c. simpl.
  rewrite Hcs2, Hcs, !without_lookup.
  assert (c ∈ cs ↔ c ∈ take k cs ∨ c ∈ drop k cs) as Hin by (by rewrite <- elem_of_app, take_drop).
  repeat case_decide; naive_solver.
Qed.

(** When the keys cannot be read, [HGetAllByKeys] drops the connection it
    took: the pool has one connection less, and [pool_size_] still counts it. *)
Theorem HGetAllByKeys_loses_a_connection {R : Type} `{Hiredis R} fuel (w w1 w' : RedisWorld R)
    c1 c2 q key response r :
  conn_pool_ (r_pool w) = Some c1 :: Some c2 :: q →
  Redis_HGetAllByKeys fuel key response w = Ok (false, r) w' →
  conn_pool_ (r_pool w') = q ++ [Some c2]
  ∧ pool_size_ (r_pool w') = pool_size_ (r_pool w)
  ∧ r_conns w' !! c1 = None.
Proof.
  intros Hq E. unfold Redis_HGetAllByKeys in E. apply bind_Ok in E as (o & w2 & E1 & E).
  apply (GetRedisConn_pops fuel w o w2 c1 (Some c2 :: q) Hq) in E1 as [-> Hp1].
  apply bind_Ok in E as ([ok akeys] & w3 & E2 & E).
  unfold Redis_HKeys in E2. apply (use_and_return fuel _ _ w2 _ w3 c2 q) in E2 as Hp2;
    [|intros; apply keeps_ExecuteVector|by rewrite Hp1].
  destruct ok.
  { apply bind_Ok in E as (m & w4 & E3 & E). apply bind_Ok in E as ([] & w5 & E4 & E).
    discriminate E. }
  apply bind_Ok in E as ([] & w4 & E3 & [= _ <-]).
  pose proof (keeps_destroy c1 w3 tt w4 E3) as Hp3. rewrite Hp3, Hp2, Hp1. split_and!; [done..|].
  unfold drop_conn, destroy in E3. apply bind_Ok in E3 as ([] & w5 & _ & [= <-]).
  simpl. apply lookup_delete_eq.
Qed.

(** ** Instances *)

(** A server on which every connection succeeds, with scripted replies. *)
Record script : Type := mkScript { next_ctx : context; replies : list (option redisReply) }.

#[export] Instance script_Hiredis : Hiredis script := {|
  redisConnectWithTimeout s ip port t :=
    (Some (next_ctx s, false), mkScript (S (next_ctx s)) (replies s));
  redisFree s x := s;
  redisCommand s x fmt args :=
    match replies s with
    | [] => (None, s)
    | r :: rs => (r, mkScript (next_ctx s) rs)
    end;
|}.

Definition redis_start (rs : list (option redisReply)) : RedisWorld script :=
  mkRedis (mkScript 0%nat rs) ∅ 0%nat RedisPool_new.

(** The pool after InitPool with [n] connections. *)
Definition pool_of (n : Z) (rs : list (option redisReply)) : RedisWorld script :=
  match InitPool "127.0.0.1" 6379 "" 1 n 100 (redis_start rs) with
  | Ok _ w => w
  | Fault _ => redis_start rs
  end.

Lemma script_up : server_up (R := script).
Proof. intros r ip port t. eexists _, _. reflexivity. Defined.

Lemma InitPool_counts_witness :
  ∃ w', InitPool "127.0.0.1" 6379 "" 1 50 100 (redis_start []) = Ok true w'
    ∧ conn_pool_ (r_pool w') = Some <$> seq 0%nat 50
    ∧ pool_size_ (r_pool w') = 100 ∧ pool_max_size_ (r_pool w') = 150.
Proof.
  apply (InitPool_counts (redis_start []) "127.0.0.1" 6379 1 50 100); [apply script_up|lia|reflexivity].
Defined.

Lemma commands_rotate_the_pool_witness :
  ∃ w', Redis_HGet 5 "k" "f" "" (pool_of 2 [Some (REDIS_REPLY_STRING "v")]) = Ok (true, "v"%string) w'
    ∧ conn_pool_ (r_pool w') = [Some 1%nat; Some 0%nat].
Proof.
  destruct (Redis_HGet 5 "k" "f" "" (pool_of 2 [Some (REDIS_REPLY_STRING "v")])) as [a w'|e] eqn:E;
    [|vm_compute in E; discriminate E].
  pose proof (commands_rotate_the_pool 5 (pool_of 2 [Some (REDIS_REPLY_STRING "v")]) 0%nat [Some 1%nat]
    "k" "f" "" ltac:(reflexivity)) as (_ & _ & H & _).
  exists w'. split.
  - f_equal. vm_compute in E. by injection E as <- _.
  - rewrite (H _ _ _ E). reflexivity.
Defined.

Lemma GetRedisConn_spins_witness :
  ∃ w : RedisWorld script, ∀ fuel, GetRedisConn fuel w = Fault OutOfFuel.
Proof.
  exists (mkRedis (mkScript 0%nat []) ∅ 0%nat (set_pool_size 152 RedisPool_new)).
  intros fuel. apply GetRedisConn_spins; reflexivity.
Defined.

Lemma ReleaseRedisConn_releases_half_witness :
  ∃ w', ReleaseRedisConn (pool_of 5 []) = Ok tt w'
    ∧ conn_pool_ (r_pool w') = [Some 3%nat; Some 4%nat].
Proof.
  apply (ReleaseRedisConn_releases_half (pool_of 5 []) (seq 0 5)).
  - reflexivity.
  - apply NoDup_seq.
  - intros c Hc. apply elem_of_seq in Hc. destruct c as [|[|[|[|[|c]]]]]; [..|lia];
      match goal with |- is_Some ?x => destruct x eqn:E; [eauto|vm_compute in E; discriminate E] end.
Defined.

Lemma destructor_frees_the_rest_witness :
  ∃ w', RedisPool_destroy (pool_of 3 []) = Ok tt w' ∧ r_conns w' !! 2%nat = None.
Proof.
  destruct (destructor_frees_the_rest (pool_of 3 []) (seq 0 3)) as (w' & Hd & _ & Hc).
  - reflexivity.
  - apply NoDup_seq.
  - intros c Hc. apply elem_of_seq in Hc. destruct c as [|[|[|c]]]; [..|lia];
      match goal with |- is_Some ?x => destruct x eqn:E; [eauto|vm_compute in E; discriminate E] end.
  - exists w'. split; [exact Hd|]. apply (Hc 2%nat).
Defined.

Lemma HGetAllByKeys_loses_a_connection_witness :
  ∃ w', Redis_HGetAllByKeys 5 "k" ∅ (pool_of 3 [None]) = Ok (false, ∅) w'
    ∧ conn_pool_ (r_pool w') = [Some 2%nat; Some 1%nat].
Proof.
  destruct (Redis_HGetAllByKeys 5 "k" ∅ (pool_of 3 [None])) as [[b r] w'|e] eqn:E;
    [|vm_compute in E; discriminate E].
  assert (match Redis_HGetAllByKeys 5 "k" ∅ (pool_of 3 [None]) with
          | Ok (b, r) _ => negb b && bool_decide (r = ∅) | Fault _ => false end = true) as Hr
    by (vm_compute; reflexivity).
  rewrite E in Hr. destruct b; [discriminate Hr|]. apply bool_decide_eq_true in Hr as ->.
  exists w'. split; [reflexivity|].
  eapply (HGetAllByKeys_loses_a_connection 5 (pool_of 3 [None]) w' w' 0%nat 1%nat [Some 2%nat]);
    [reflexivity|exact E].
Defined.
