(* ===== verification/RedisThreads.v ===== *)
(** * Threads on one Redis pool (hiredis_test/src/mian.cpp)

    The program fills the pool, reads a hash once and then starts 150 threads that
    read a field of it a thousand times each.  A thread holds the pool's mutex for
    one turn of the loop of [GetRedisConn] and for [FreeRedisConn]; between the two
    it uses the connection it was given.  [thread_step] is what a thread does
    between two points where another can come in, and [step] lets any thread go
    next.  The sleep between two reads is left out. *)

From S2P Require Import Prelude Redis RedisProps.

Section Code.
Context {R : Type} `{Hiredis R}.
#[local] Abbreviation prg := (M (RedisWorld R)).

(** One turn of the loop of GetRedisConn: [None] to go on, [Some] to return. *)
Definition GetRedisConn_turn : prg (option (option RedisConnPrt)) :=
  w ← get;
  match conn_pool_ (r_pool w) with
  | [] =>
      if pool_size_ (r_pool w) <=? pool_max_size_ (r_pool w) then
        CreateConnection ;;
        w ← get;
        mret (if bool_decide (conn_pool_ (r_pool w) = []) then Some None else None)
      else mret None
  | front :: q =>
      with_pool (set_queue q) ;;
      match front with
      | Some c => mret (Some (Some c))
      | None => CreateConnection ;; mret None
      end
  end.

Definition read_command : string :=
  command_of ["hget"; "user:base"; "DE61F1EF-FC53-968F-118A-9378CE037D85@1569505695950"].

(** Where a thread is, with the number of reads it has still to do. *)
Inductive thread : Type :=
| Idle (n : nat)                                   (* at the head of its loop *)
| Polling (n : nat) (fresh : RedisConnPrt)         (* in GetRedisConn *)
| Using (n : nat) (c : RedisConnPrt)               (* in HGet, with its connection *)
| Returning (n : nat) (c : RedisConnPrt) (ret : bool)
| Failed (n : nat).                                (* HGet has returned false *)

(** What comes next.  The string object passed for %s is what [Failed] ends in. *)
Definition thread_step (t : thread) : prg thread :=
  match t with
  | Idle O => mret t
  | Idle (S n) => fresh ← new_conn; mret (Polling n fresh)
  | Polling n fresh =>
      o ← GetRedisConn_turn;
      match o with
      | None => mret t
      | Some None => destroy fresh ;; mret (Failed n)
      | Some (Some c) => destroy fresh ;; mret (Using n c)
      end
  | Using n c => r ← ExecuteResonse c EmptyString read_command; mret (Returning n c (fst r))
  | Returning n c ret =>
      FreeRedisConn (Some c) ;;
      mret (if ret then Idle n else Failed n)
  | Failed n => throw BadFormat
  end.

Record program : Type := mkProgram { world : RedisWorld R; threads : list thread }.

Inductive step : program → program → Prop :=
| step_thread i t t' w w' ts :
    ts !! i = Some t → thread_step t w = Ok t' w' →
    step (mkProgram w ts) (mkProgram w' (<[i := t']> ts)).

(** main up to the threads. *)
Definition main_setup (fuel : nat) : prg unit :=
  _ ← Manage_InitPool "192.168.0.172" 6379 "" 1 50 100;
  Manage_CheckStatus ;;
  _ ← Manage_HGetAll fuel "user:base" ∅;
  mret tt.

Definition workers : list thread := replicate 150 (Idle (Z.to_nat 1000)).

(** The states of the program after its setup on a server [r]. *)
Definition reachable (r : R) (s : program) : Prop :=
  ∃ fuel w, main_setup fuel (mkRedis r ∅ 0%nat RedisPool_new) = Ok tt w
    ∧ star step (mkProgram w workers) s.
End Code.
Arguments program R : clear implicits.
Arguments mkProgram {R} world threads.

(** ** Connections and who has them *)

Definition pooled {R} (w : RedisWorld R) : list RedisConnPrt := omap id (conn_pool_ (r_pool w)).

(** The connection that a thread was given, and all the objects that are its own. *)
Definition busy_of (t : thread) : list RedisConnPrt :=
  match t with Using _ c | Returning _ c _ => [c] | _ => [] end.

Definition own_of (t : thread) : list RedisConnPrt :=
  match t with Polling _ c | Using _ c | Returning _ c _ => [c] | _ => [] end.

Definition busy (ts : list thread) : list RedisConnPrt := flat_map busy_of ts.

Definition own (ts : list thread) : list RedisConnPrt := flat_map own_of ts.

Section Proofs.
Context {R : Type} `{Hiredis R}.
Implicit Types (w : RedisWorld R) (c : RedisConnPrt) (held : list RedisConnPrt).

(** The world, with the connections [held] outside the pool: each connection is in
    one place, and none has been deleted. *)
Record winv (held : list RedisConnPrt) (w : RedisWorld R) : Prop := {
  w_some : None ∉ conn_pool_ (r_pool w);
  w_one : NoDup (pooled w ++ held);
  w_alive : ∀ c, c ∈ pooled w ++ held → is_Some (r_conns w !! c);
  w_next : ∀ c, is_Some (r_conns w !! c) → (c < r_next w)%nat;
}.

(** What [pool_size_] counts: 50 more than there are connections, and at most one
    more than the limit. *)
Record counted (held : list RedisConnPrt) (w : RedisWorld R) : Prop := {
  c_count : pool_size_ (r_pool w) = 50 + Z.of_nat (length (pooled w) + length held);
  c_size : pool_size_ (r_pool w) <= 151;
  c_max : pool_max_size_ (r_pool w) = 150;
}.

Lemma winv_perm held held' w : held ≡ₚ held' → winv held w → winv held' w.
Proof.
  intros Hp [Hs Ho Ha Hn]. constructor; try done.
  - by rewrite <- Hp.
  - intros c Hc. apply Ha. by rewrite Hp.
Qed.

Lemma counted_perm held held' w : held ≡ₚ held' → counted held w → counted held' w.
Proof. intros Hp [Hc Hs Hm]. constructor; try done. by rewrite <- Hp. Qed.

(** ** Operations on one connection *)

(** The same connections, and the same pool. *)
Definition same w w' : Prop :=
  r_pool w' = r_pool w ∧ r_next w' = r_next w
  ∧ ∀ c, is_Some (r_conns w' !! c) ↔ is_Some (r_conns w !! c).

(** [m] uses no connection that is gone, and ends in [Q] or with another fault. *)
Definition alive {A} (m : M (RedisWorld R) A) w (Q : A → RedisWorld R → Prop) : Prop :=
  match m w with Ok a w' => Q a w' | Fault e => e ≠ UseAfterFree end.

Lemma alive_bind {A B} (m : M (RedisWorld R) A) (f : A → M (RedisWorld R) B) w Q :
  alive m w (λ a w', alive (f a) w' Q) → alive (m ≫= f) w Q.
Proof. unfold alive, mbind, M_bind. by destruct (m w). Qed.

Lemma alive_get {A} (f : RedisWorld R → M (RedisWorld R) A) w Q : alive (f w) w Q → alive (get ≫= f) w Q.
Proof. done. Qed.

Lemma alive_conseq {A} (m : M (RedisWorld R) A) w (Q Q' : A → RedisWorld R → Prop) :
  alive m w Q' → (∀ a w', Q' a w' → Q a w') → alive m w Q.
Proof. unfold alive. destruct (m w); eauto. Qed.

(** [m] uses no connection but [c], which is alive. *)
Definition uses c {A} (m : M (RedisWorld R) A) : Prop :=
  ∀ w, is_Some (r_conns w !! c) → alive m w (λ _ w', same w w').

Lemma conn_uses_bind c {A B} (m : M (RedisWorld R) A) (f : A → M (RedisWorld R) B) :
  uses c m → (∀ a, uses c (f a)) → uses c (m ≫= f).
Proof.
  intros Hm Hf w Hc. apply alive_bind. eapply alive_conseq; [by apply Hm|].
  intros a w1 (Hp1 & Hn1 & Hd1). eapply alive_conseq; [apply Hf; by apply Hd1|].
  intros b w2 (Hp2 & Hn2 & Hd2). split_and!; [congruence|congruence|].
  intros c'. by rewrite Hd2, Hd1.
Qed.

Lemma conn_uses_ret c {A} (a : A) : uses c (mret a).
Proof. by intros w Hc. Qed.

Lemma uses_throw c {A} e : e ≠ UseAfterFree → uses c (throw (A := A) e).
Proof. by intros He w Hc. Qed.

Lemma uses_get_rconn c : uses c (get_rconn c).
Proof. intros w [cn Hc]. unfold alive, get_rconn. by rewrite Hc. Qed.

Lemma uses_put_rconn c cn : uses c (put_rconn c cn).
Proof.
  intros w Hc. split_and!; [done..|]. intros c'. simpl.
  destruct (decide (c' = c)) as [->|]; [|by rewrite lookup_insert_ne]. rewrite lookup_insert_eq. naive_solver.
Qed.

Lemma uses_server_call c {A} (f : R → A * R) : uses c (server_call f).
Proof. intros w Hc. unfold alive, server_call. by destruct (f (r_server w)). Qed.

Lemma uses_lift c {A} (x : fault + A) : (∀ e, x = inl e → e = NullDeref) → uses c (lift_r x).
Proof.
  intros Hx. destruct x as [e|a]; simpl; [|apply conn_uses_ret]. apply uses_throw. by rewrite (Hx e eq_refl).
Qed.

Lemma ParamRly_fault r l e : ParamRly r l = inl e → e = NullDeref.
Proof. rewrite ParamRly_spec. destruct (has_texts r); [done|]. by intros [= <-]. Qed.

Lemma ParamRlyHash_fault r l e : ParamRlyHash r l = inl e → e = NullDeref.
Proof.
  revert l. induction r as [r Hr|es IH] using redisReply_nested_ind; intros l.
  - destruct r; simpl; try (by intros [= <-]). by destruct (Hr element).
  - rewrite ParamRlyHash_array. generalize false at 1. generalize EmptyString at 1. revert l.
    induction es as [|o es IHes]; intros l key m; [done|].
    assert (∀ r, Some r ∈ es → ∀ l, ParamRlyHash r l = inl e → e = NullDeref) as IH'.
    { intros r Hr. apply IH. by right. }
    destruct o as [r|]; [|by intros [= <-]].
    destruct r as [s|es0| | |s|s|ty]; cbn [ParamRlyHash_go reply_str string_of];
      try (by intros [= <-]); try (destruct m; by apply IHes).
    destruct (ParamRlyHash (REDIS_REPLY_ARRAY es0) l) eqn:E; [|by apply IHes].
    intros [= <-]. by eapply (IH (REDIS_REPLY_ARRAY es0)), E; left.
Qed.

Ltac uses :=
  repeat first
    [ apply conn_uses_bind; [|intros ?] | apply conn_uses_ret | by apply uses_throw
    | apply uses_get_rconn | apply uses_put_rconn | apply uses_server_call
    | apply uses_lift; [first [apply ParamRly_fault|apply ParamRlyHash_fault]]
    | progress unfold free_ctx, set_conn_status, command, auth, ConnectWithTimeout
    | case_match ].

Lemma uses_auth c : uses c (auth c).
Proof. uses. Qed.

Lemma uses_RedisConnect c : uses c (RedisConnect c).
Proof. unfold RedisConnect. uses. Qed.

Lemma uses_RedisReConnect c : uses c (RedisReConnect c).
Proof. unfold RedisReConnect. uses. Qed.

Lemma uses_Ping c : uses c (Ping c).
Proof. unfold Ping. uses. Qed.

Lemma uses_execute c f : uses c (execute c f).
Proof. unfold execute, ready, command_va_list. repeat (uses || apply uses_RedisReConnect). Qed.

Lemma uses_ExecuteResonse c s f : uses c (ExecuteResonse c s f).
Proof. unfold ExecuteResonse. apply conn_uses_bind; [apply uses_execute|intros ?]. uses. Qed.

Lemma uses_ExecuteMap c m f : uses c (ExecuteMap c m f).
Proof. unfold ExecuteMap. apply conn_uses_bind; [apply uses_execute|intros ?]. uses. Qed.

(** ** Operations of the pool *)

Lemma same_winv held w w' : same w w' → winv held w → winv held w'.
Proof.
  intros (Hp & Hn & Hd) [Hs Ho Ha Hx]. constructor; unfold pooled in *; rewrite ?Hp, ?Hn; try done.
  - intros c Hc. by apply Hd, Ha.
  - intros c Hc. by apply Hx, Hd.
Qed.

Lemma winv_head c held w : winv (c :: held) w → is_Some (r_conns w !! c).
Proof. intros HI. apply (w_alive _ _ HI). apply elem_of_app. right. by left. Qed.

Lemma uses_held c held {A} (m : M (RedisWorld R) A) w :
  uses c m → winv (c :: held) w →
  alive m w (λ _ w', winv (c :: held) w' ∧ r_pool w' = r_pool w).
Proof.
  intros Hm HI. eapply alive_conseq; [apply Hm; by eapply winv_head|].
  intros a w' Hs. split; [exact (same_winv _ _ _ Hs HI)|]. apply Hs.
Qed.

Lemma alive_new_conn held w :
  winv held w → alive new_conn w (λ c w', winv (c :: held) w' ∧ r_pool w' = r_pool w).
Proof.
  intros [Hs Ho Ha Hx]. split; [|done]. constructor; unfold pooled in *; simpl; [done|..].
  - rewrite <- Permutation_middle. apply NoDup_cons. split; [|done].
    intros Hin%Ha%Hx. lia.
  - intros c. rewrite <- Permutation_middle, elem_of_cons. intros [->|Hc].
    + rewrite lookup_insert_eq. by eexists.
    + rewrite lookup_insert_is_Some'. right. by apply Ha.
  - intros c. rewrite lookup_insert_is_Some'. intros [->|Hc%Hx]; lia.
Qed.

Lemma alive_destroy c held w :
  winv (c :: held) w → alive (destroy c) w (λ _ w', winv held w' ∧ r_pool w' = r_pool w).
Proof.
  intros HI. destruct (winv_head c held w HI) as [cn Ecn]. destruct (destroy_run c cn w Ecn) as [r' E].
  unfold alive. rewrite E. split; [|done]. destruct HI as [Hs Ho Ha Hx].
  constructor; unfold pooled in *; simpl; [done|..].
  - rewrite <- Permutation_middle in Ho. by apply NoDup_cons in Ho as [_ ?].
  - intros c' Hc'. rewrite lookup_delete_ne.
    + apply Ha. rewrite <- Permutation_middle. by right.
    + intros <-. rewrite <- Permutation_middle in Ho. apply NoDup_cons in Ho as [? _]. done.
  - intros c' Hc'. apply Hx. destruct Hc' as [cn' Hc']. apply lookup_delete_Some in Hc' as [_ ?]. by eexists.
Qed.

(** A connection put in the queue. *)
Lemma winv_push c held w size :
  winv (c :: held) w →
  winv held (mkRedis (r_server w) (r_conns w) (r_next w)
    (set_pool_size size (set_queue (conn_pool_ (r_pool w) ++ [Some c]) (r_pool w)))).
Proof.
  intros [Hs Ho Ha Hx]. constructor; unfold pooled in *; simpl; rewrite ?omap_app; simpl; try done.
  - intros [?|Hn]%elem_of_app; [done|]. by apply list_elem_of_singleton in Hn.
  - by rewrite <- app_assoc.
  - intros c' Hc'. apply Ha. by rewrite <- app_assoc in Hc'.
Qed.

(** A connection taken from it. *)
Lemma winv_pop c q held w :
  conn_pool_ (r_pool w) = Some c :: q → winv held w →
  winv (c :: held) (mkRedis (r_server w) (r_conns w) (r_next w) (set_queue q (r_pool w))).
Proof.
  intros Hq [Hs Ho Ha Hx]. unfold pooled in *. rewrite Hq in *. simpl in *.
  constructor; unfold pooled; simpl; try done.
  - intros Hn. apply Hs. by right.
  - by rewrite <- Permutation_middle.
  - intros c'. rewrite <- Permutation_middle. apply Ha.
Qed.

(** Neither moves the count. *)
Lemma counted_pop c q held w :
  conn_pool_ (r_pool w) = Some c :: q → counted held w →
  counted (c :: held) (mkRedis (r_server w) (r_conns w) (r_next w) (set_queue q (r_pool w))).
Proof.
  intros Hq [Hc Hs Hm]. split; [|done..]. unfold pooled in *. rewrite Hq in Hc.
  cbn [conn_pool_ pool_size_ r_pool set_queue omap list_omap id length] in *. lia.
Qed.

Lemma counted_push c held w :
  counted (c :: held) w →
  counted held (mkRedis (r_server w) (r_conns w) (r_next w)
    (set_queue (conn_pool_ (r_pool w) ++ [Some c]) (r_pool w))).
Proof.
  intros [Hc Hs Hm]. split; [|done..]. unfold pooled in *.
  cbn [conn_pool_ pool_size_ r_pool set_queue]. rewrite omap_app, length_app.
  cbn [omap list_omap id length] in *. lia.
Qed.

Lemma counted_created c held w :
  counted held w → pool_size_ (r_pool w) <= 150 →
  counted held (mkRedis (r_server w) (r_conns w) (r_next w)
    (set_pool_size (u64 (pool_size_ (r_pool w) + 1)) (set_queue (conn_pool_ (r_pool w) ++ [Some c]) (r_pool w)))).
Proof.
  intros [Hc Hs Hm] Hle. rewrite wrap_u_small by lia.
  split; [|cbn [pool_size_ r_pool set_pool_size]; lia|done]. unfold pooled in *.
  cbn [conn_pool_ pool_size_ r_pool set_queue set_pool_size]. rewrite omap_app, length_app.
  cbn [omap list_omap id length] in *. lia.
Qed.

Lemma counted_pool held w w' : r_pool w' = r_pool w → counted held w → counted held w'.
Proof. intros Hp [Hc Hs Hm]. constructor; unfold pooled in *; by rewrite Hp. Qed.

(** Creating a connection, for a pool below its limit. *)
Lemma alive_CreateConnection held held' w :
  winv held w → counted held' w → pool_size_ (r_pool w) <= 150 →
  alive CreateConnection w (λ _ w', winv held w' ∧ counted held' w'
    ∧ pool_size_ (r_pool w') <= pool_size_ (r_pool w) + 1).
Proof.
  intros HI HC Hle. unfold CreateConnection. apply alive_bind.
  eapply alive_conseq; [by apply alive_new_conn|]. intros c w1 [HI1 Hp1].
  apply alive_get. apply alive_bind. eapply alive_conseq; [apply (uses_held c held), HI1; apply uses_get_rconn|].
  intros cn w2 [HI2 Hp2]. apply alive_bind.
  eapply alive_conseq; [apply (uses_held c held), HI2; apply uses_put_rconn|].
  intros [] w3 [HI3 Hp3]. apply alive_bind.
  eapply alive_conseq; [apply (uses_held c held), HI3; apply uses_RedisConnect|].
  intros ok w4 [HI4 Hp4].
  assert (r_pool w4 = r_pool w) as Hp by congruence.
  apply (counted_pool _ _ _ Hp) in HC. rewrite <- Hp in Hle. destruct ok.
  - split_and!; [by apply winv_push|by apply counted_created|]. simpl. rewrite <- Hp.
    rewrite wrap_u_small; [lia|]. destruct HC. lia.
  - eapply alive_conseq; [by apply alive_destroy|]. intros [] w5 [HI5 Hp5].
    split_and!; [done|by eapply counted_pool|]. rewrite Hp5, Hp. lia.
Qed.

Lemma alive_GetRedisConn_turn held held' w :
  winv held w → counted held' w →
  alive GetRedisConn_turn w (λ o w', match o with
    | Some (Some c) => winv (c :: held) w' ∧ counted (c :: held') w'
    | _ => winv held w' ∧ counted held' w'
    end).
Proof.
  intros HI HC. unfold GetRedisConn_turn. apply alive_get.
  destruct (conn_pool_ (r_pool w)) as [|[c|] q] eqn:Hq.
  - destruct (Z.leb_spec (pool_size_ (r_pool w)) (pool_max_size_ (r_pool w))); [|done].
    apply alive_bind. eapply alive_conseq; [eapply alive_CreateConnection; [done..|]|].
    { by rewrite <- (c_max _ _ HC). }
    intros [] w1 (HI1 & HC1 & _). apply alive_get. by case_bool_decide.
  - split; [by apply winv_pop|by apply counted_pop].
  - exfalso. apply (w_some _ _ HI). rewrite Hq. by left.
Qed.

Lemma alive_FreeRedisConn c held held' w :
  winv (c :: held) w → counted (c :: held') w →
  alive (FreeRedisConn (Some c)) w (λ _ w', winv held w' ∧ counted held' w').
Proof.
  intros HI HC. split; [|by apply counted_push].
  replace (set_queue _ _) with (set_pool_size (pool_size_ (r_pool w)) (set_queue (conn_pool_ (r_pool w) ++ [Some c]) (r_pool w)))
    by done. by apply winv_push.
Qed.

(** ** Threads *)

(** A step of a thread, beside the objects of the others. *)
Lemma alive_thread_step t os bs w :
  winv (own_of t ++ os) w → counted (busy_of t ++ bs) w →
  alive (thread_step t) w (λ t' w', winv (own_of t' ++ os) w' ∧ counted (busy_of t' ++ bs) w').
Proof.
  intros HI HC. destruct t as [[|n]|n c|n c|n c ret|n]; simpl in *.
  - done.
  - apply alive_bind. eapply alive_conseq; [by apply alive_new_conn|].
    intros c w1 [HI1 Hp1]. split; [done|]. by eapply counted_pool.
  - apply alive_bind. eapply alive_conseq; [by eapply alive_GetRedisConn_turn|].
    intros [[c'|]|] w1 [HI1 HC1]; [..|done]; apply alive_bind.
    + eapply alive_conseq; [apply alive_destroy; eapply winv_perm, HI1; constructor|].
      intros [] w2 [HI2 Hp2]. split; [done|]. by eapply counted_pool.
    + eapply alive_conseq; [by apply alive_destroy|].
      intros [] w2 [HI2 Hp2]. split; [done|]. by eapply counted_pool.
  - apply alive_bind. eapply alive_conseq; [apply uses_held, HI; apply uses_ExecuteResonse|].
    intros r w1 [HI1 Hp1]. split; [done|]. by eapply counted_pool.
  - apply alive_bind. eapply alive_conseq; [by eapply alive_FreeRedisConn|].
    intros [] w1 [HI1 HC1]. by destruct ret.
  - done.
Qed.

(** ** The program *)

Record Inv (s : program R) : Prop := {
  i_world : winv (own (threads s)) (world s);
  i_count : counted (busy (threads s)) (world s);
}.

Lemma Inv_thread s i t :
  Inv s → threads s !! i = Some t →
  alive (thread_step t) (world s) (λ t' w', Inv (mkProgram w' (<[i := t']> (threads s)))).
Proof.
  intros [HI HC] Hi. eapply alive_conseq.
  - apply (alive_thread_step t (own (delete i (threads s))) (busy (delete i (threads s)))).
    + eapply winv_perm, HI. by eapply flat_map_at.
    + eapply counted_perm, HC. by eapply flat_map_at.
  - intros t' w' [HI' HC']. split; simpl.
    + eapply winv_perm, HI'. symmetry. by eapply flat_map_at.
    + eapply counted_perm, HC'. symmetry. by eapply flat_map_at.
Qed.

Lemma Inv_star s s' : Inv s → star step s s' → Inv s'.
Proof.
  intros HI Hs. induction Hs as [s|s1 s2 s3 Hst _ IH]; [done|]. apply IH.
  destruct Hst as [i t t' w w' ts Hi E]. pose proof (Inv_thread (mkProgram w ts) i t HI Hi) as Hal.
  unfold alive in Hal. simpl in Hal. by rewrite E in Hal.
Qed.

(** ** The setup *)

Lemma create_all n w :
  winv [] w → counted [] w → pool_size_ (r_pool w) + Z.of_nat n <= 151 →
  alive (repeatM n CreateConnection) w (λ _ w', winv [] w' ∧ counted [] w').
Proof.
  revert w. induction n as [|n IH]; intros w HI HC Hn; [done|]. apply alive_bind.
  eapply alive_conseq; [eapply alive_CreateConnection; [done..|lia]|].
  intros [] w1 (HI1 & HC1 & Hs1). apply IH; [done|done|lia].
Qed.

Lemma alive_CheckFront w :
  winv [] w → counted [] w → alive CheckFront w (λ _ w', winv [] w' ∧ counted [] w').
Proof.
  intros HI HC. unfold CheckFront. apply alive_get.
  destruct (conn_pool_ (r_pool w)) as [|[c|] q] eqn:Hq; [done| |done].
  assert (uses c (ok ← Ping c; when (negb ok) (RedisReConnect c ;; mret tt))) as Hu.
  { apply conn_uses_bind; [apply uses_Ping|]. intros []; simpl; [apply conn_uses_ret|].
    apply conn_uses_bind; [apply uses_RedisReConnect|]. intros _. apply conn_uses_ret. }
  eapply alive_conseq; [apply Hu, (w_alive _ _ HI); unfold pooled; rewrite Hq; by left|].
  intros [] w1 Hs. split; [by eapply same_winv|]. by eapply counted_pool, HC; apply Hs.
Qed.

Lemma check_all n w :
  winv [] w → counted [] w → alive (repeatM n CheckFront) w (λ _ w', winv [] w' ∧ counted [] w').
Proof.
  revert w. induction n as [|n IH]; intros w HI HC; [done|]. apply alive_bind.
  eapply alive_conseq; [by apply alive_CheckFront|]. intros [] w1 [HI1 HC1]. by apply IH.
Qed.

Lemma GetRedisConn_loop_turns fuel w :
  GetRedisConn_loop (S fuel) w
  = (o ← GetRedisConn_turn; match o with Some r => mret r | None => GetRedisConn_loop fuel end) w.
Proof.
  unfold GetRedisConn_turn. simpl. unfold mbind, M_bind, get. cbn beta iota.
  destruct (conn_pool_ (r_pool w)) as [|[c|] q]; simpl.
  - destruct (_ <=? _); [|done]. destruct (CreateConnection w) as [[] w1|e]; [|done].
    by case_bool_decide.
  - done.
  - by destruct (CreateConnection _) as [[] w1|e].
Qed.

Lemma alive_GetRedisConn_loop fuel held held' w :
  winv held w → counted held' w →
  alive (GetRedisConn_loop fuel) w (λ o w', match o with
    | Some c => winv (c :: held) w' ∧ counted (c :: held') w'
    | None => winv held w' ∧ counted held' w'
    end).
Proof.
  revert w. induction fuel as [|fuel IH]; intros w HI HC; [done|].
  unfold alive. rewrite GetRedisConn_loop_turns.
  match goal with |- match ?m w with _ => _ end => change (alive m w (λ o w', match o with
    | Some c => winv (c :: held) w' ∧ counted (c :: held') w'
    | None => winv held w' ∧ counted held' w'
    end)) end.
  apply alive_bind. eapply alive_conseq; [by eapply alive_GetRedisConn_turn|].
  intros [[c|]|] w1 [HI1 HC1]; [done|done|by apply IH].
Qed.

Lemma alive_HGetAll fuel key m w :
  winv [] w → counted [] w →
  alive (Redis_HGetAll fuel key m) w (λ _ w', winv [] w' ∧ counted [] w').
Proof.
  intros HI HC. unfold Redis_HGetAll, GetRedisConn. apply alive_bind, alive_bind.
  eapply alive_conseq; [by apply alive_new_conn|]. intros fresh w1 [HI1 Hp1].
  apply (counted_pool _ _ _ Hp1) in HC. apply alive_bind.
  eapply alive_conseq; [by eapply alive_GetRedisConn_loop|]. intros [c|] w2 [HI2 HC2]; apply alive_bind.
  - eapply alive_conseq; [apply alive_destroy; eapply winv_perm, HI2; constructor|].
    intros [] w3 [HI3 Hp3]. apply (counted_pool _ _ _ Hp3) in HC2. apply alive_bind.
    eapply alive_conseq; [apply uses_held, HI3; apply uses_ExecuteMap|]. intros r w4 [HI4 Hp4].
    apply (counted_pool _ _ _ Hp4) in HC2. apply alive_bind.
    eapply alive_conseq; [by eapply alive_FreeRedisConn|]. by intros [] w5 HIC.
  - eapply alive_conseq; [by apply alive_destroy|]. intros [] w3 [HI3 Hp3].
    split; [done|]. by eapply counted_pool.
Qed.

Lemma alive_setup fuel r :
  alive (main_setup fuel) (mkRedis r ∅ 0%nat RedisPool_new) (λ _ w', winv [] w' ∧ counted [] w').
Proof.
  unfold main_setup, Manage_InitPool, DBIORedis_InitPool, InitPool, Manage_HGetAll, Manage_CheckStatus,
    DBIORedis_CheckStatus, CheckStatus.
  apply alive_bind, alive_bind. unfold with_pool. unfold alive at 1.
  match goal with |- match modify ?f ?w with _ => _ end => set (w0 := f w) end.
  cbn beta iota delta [modify]. apply alive_bind. eapply alive_conseq; [apply create_all|].
  - constructor; unfold pooled; simpl.
    + apply not_elem_of_nil.
    + apply NoDup_nil_2.
    + by intros c Hc%elem_of_nil.
    + intros c. rewrite lookup_empty. by intros [? ?].
  - by constructor.
  - simpl. lia.
  - intros [] w1 [HI1 HC1]. apply alive_get. apply alive_bind, alive_get.
    eapply alive_conseq; [by apply check_all|]. intros [] w2 [HI2 HC2]. apply alive_bind, alive_bind.
    eapply alive_conseq; [by apply alive_HGetAll|]. by intros [b m] w3 HIC.
Qed.

Lemma threads_Inv_reachable r s : reachable r s → Inv s.
Proof.
  intros (fuel & w & E & Hst). eapply Inv_star, Hst. pose proof (alive_setup fuel r) as Hal.
  unfold alive in Hal. rewrite E in Hal. destruct Hal as [HI HC].
  split; simpl; [by replace (own workers) with (@nil RedisConnPrt)|by replace (busy workers) with (@nil RedisConnPrt)].
Qed.

(** ** One thread alone *)

Inductive solo : RedisWorld R * thread → RedisWorld R * thread → Prop :=
| solo_step w t t' w' : thread_step t w = Ok t' w' → solo (w, t) (w', t').

Lemma solo_loop fuel n c w o w1 w' :
  GetRedisConn_loop fuel w = Ok o w1 → destroy c w1 = Ok tt w' →
  star solo (w, Polling n c) (w', match o with Some c' => Using n c' | None => Failed n end).
Proof.
  intros E Ed. revert w E. induction fuel as [|fuel IH]; intros w E; [done|].
  rewrite GetRedisConn_loop_turns in E. apply bind_Ok in E as (o1 & w2 & E1 & E). destruct o1 as [o1|].
  - injection E as <- <-. eapply star_step; [|apply star_refl]. constructor. simpl.
    erewrite bind_run by exact E1. by destruct o1; erewrite bind_run by exact Ed.
  - eapply star_step; [|by apply IH]. constructor. simpl. by erewrite bind_run by exact E1.
Qed.
End Proofs.

(** ** Properties *)

(** C15: In every interleaving of the threads, with whatever the server answers: no
    connection is used by two threads, or by one while it is in the pool; no thread
    uses one that is gone; and there are never more than 101, although the limit
    asked for is 100. *)
Theorem connections_are_exclusive {R : Type} `{Hiredis R} (r : R) (s : program R) :
  reachable r s →
  NoDup (pooled (world s) ++ own (threads s))
  ∧ (length (pooled (world s)) + length (busy (threads s)) ≤ 101)%nat
  ∧ ∀ t, t ∈ threads s → thread_step t (world s) ≠ Fault UseAfterFree.
Proof.
  intros HI%threads_Inv_reachable. split_and!.
  - apply (i_world s HI).
  - destruct (i_count s HI). lia.
  - intros t [i Hi]%list_elem_of_lookup E. pose proof (Inv_thread s i t HI Hi) as Hal.
    unfold alive in Hal. by rewrite E in Hal.
Qed.

(** C25: A thread that asks for a connection in vain finds one in its next turn, if no
    other thread takes it, or all of 101 connections are in use: the program cannot
    be stuck. *)
Theorem polling_waits_for_101 {R : Type} `{Hiredis R} (r : R) (s : program R) n c w' :
  reachable r s → Polling n c ∈ threads s →
  thread_step (Polling n c) (world s) = Ok (Polling n c) w' →
  pooled w' ≠ [] ∨ length (busy (threads s)) = 101%nat.
Proof.
  intros HI%threads_Inv_reachable [i Hi]%list_elem_of_lookup E.
  pose proof (Inv_thread s i _ HI Hi) as Hal. unfold alive in Hal. rewrite E in Hal.
  apply i_world, w_some in Hal. cbn [world] in Hal.
  simpl in E. apply bind_Ok in E as (o & w1 & E1 & E).
  destruct o as [[c'|]|]; [by apply bind_Ok in E as (? & ? & _ & E)..|]. injection E as ->.
  unfold GetRedisConn_turn in E1. rewrite get_bind in E1.
  destruct (conn_pool_ (r_pool (world s))) as [|[c'|] q] eqn:Hq; [| done|].
  - destruct (Z.leb_spec (pool_size_ (r_pool (world s))) (pool_max_size_ (r_pool (world s)))) as [_|Hlt].
    + left. apply bind_Ok in E1 as ([] & w2 & _ & E1). rewrite get_bind in E1.
      case_bool_decide as Hne; [done|]. injection E1 as ->. unfold pooled.
      destruct (conn_pool_ (r_pool w')) as [|[c'|] q]; [done|done|]. destruct Hal. by left.
    + right. destruct (i_count s HI) as [Hc Hs Hm]. unfold pooled in Hc. rewrite Hq in Hc.
      cbn [omap list_omap length] in Hc. lia.
  - exfalso. apply (w_some _ _ (i_world s HI)). rewrite Hq. by left.
Qed.

(** A thread that no other one disturbs does what [HGet] does: its steps are those
    of the sequential definition. *)
Theorem alone_it_is_HGet {R : Type} `{Hiredis R} fuel n (w w' : RedisWorld R) b s :
  Redis_HGet fuel "user:base" "DE61F1EF-FC53-968F-118A-9378CE037D85@1569505695950" "" w = Ok (b, s) w' →
  star solo (w, Idle (S n)) (w', if b then Idle n else Failed n).
Proof.
  unfold Redis_HGet, with_response. fold read_command. intros E.
  apply bind_Ok in E as (o & w1 & E1 & E). unfold GetRedisConn in E1.
  apply bind_Ok in E1 as (c & w2 & En & E1). apply bind_Ok in E1 as (o' & w3 & El & E1).
  apply bind_Ok in E1 as ([] & w4 & Ed & E1). injection E1 as -> ->.
  eapply star_step; [constructor; simpl; by erewrite bind_run by exact En|].
  eapply star_trans; [by eapply solo_loop|]. destruct o as [c'|].
  - apply bind_Ok in E as (r & w5 & Ex & E). apply bind_Ok in E as ([] & w6 & Ef & E).
    injection E as -> ->. eapply star_step; [constructor; simpl; by erewrite bind_run by exact Ex|].
    eapply star_step; [constructor; simpl; by erewrite bind_run by exact Ef|]. apply star_refl.
  - injection E as <- <- <-. apply star_refl.
Qed.

(** ** Instances *)

(** The program with its threads scheduled in the order [sch]. *)
Fixpoint schedule {R} `{Hiredis R} (sch : list nat) (s : program R) : option (program R) :=
  match sch with
  | [] => Some s
  | i :: sch' =>
      match threads s !! i with
      | None => None
      | Some t =>
          match thread_step t (world s) with
          | Ok t' w' => schedule sch' (mkProgram w' (<[i := t']> (threads s)))
          | Fault _ => None
          end
      end
  end.

Lemma schedule_star {R} `{Hiredis R} sch (s s' : program R) : schedule sch s = Some s' → star step s s'.
Proof.
  revert s. induction sch as [|i sch IH]; intros s; simpl; [intros [= ->]; apply star_refl|].
  destruct (threads s !! i) as [t|] eqn:Hi; [|done].
  destruct (thread_step t (world s)) as [t' w'|e] eqn:Et; [|done]. intros E.
  eapply star_step; [|by apply IH]. destruct s as [w ts]. by apply (step_thread i t t' w w' ts).
Qed.

(** The program after its setup, run by a schedule. *)
Definition after {R} `{Hiredis R} (fuel : nat) (r : R) (sch : list nat) : option (program R) :=
  match main_setup fuel (mkRedis r ∅ 0%nat RedisPool_new) with
  | Ok _ w => schedule sch (mkProgram w workers)
  | Fault _ => None
  end.

Lemma after_reachable {R} `{Hiredis R} fuel (r : R) sch s : after fuel r sch = Some s → reachable r s.
Proof.
  unfold after. destruct (main_setup fuel _) as [[] w|e] eqn:E; [|done]. intros Hs%schedule_star.
  by exists fuel, w.
Qed.

(** A server that never answers, and 102 threads that ask for a connection. *)
Definition silent : script := mkScript 0%nat [].

Definition crowded : option (program script) :=
  after 1 silent (flat_map (λ i, [i; i; i]) (seq 0 101) ++ [101%nat]).

Definition crowded_state : program script :=
  default (mkProgram (mkRedis silent ∅ 0%nat RedisPool_new) []) crowded.

Lemma crowded_reachable : reachable silent crowded_state.
Proof. apply (after_reachable 1 silent (flat_map (λ i, [i; i; i]) (seq 0 101) ++ [101%nat])). vm_compute. reflexivity. Qed.

Lemma connections_are_exclusive_witness :
  length (busy (threads crowded_state)) = 101%nat
  ∧ NoDup (pooled (world crowded_state) ++ own (threads crowded_state)).
Proof.
  split; [vm_compute; reflexivity|].
  exact (proj1 (connections_are_exclusive silent crowded_state crowded_reachable)).
Defined.

Lemma polling_waits_for_101_witness :
  ∃ w', thread_step (Polling 999 203%nat) (world crowded_state) = Ok (Polling 999 203%nat) w'
    ∧ (pooled w' ≠ [] ∨ length (busy (threads crowded_state)) = 101%nat).
Proof.
  exists (world crowded_state).
  assert (thread_step (Polling 999 203%nat) (world crowded_state)
    = Ok (Polling 999 203%nat) (world crowded_state)) as E by (vm_compute; reflexivity).
  split; [exact E|]. eapply (polling_waits_for_101 silent crowded_state 999 203%nat).
  - exact crowded_reachable.
  - apply (list_elem_of_lookup_2 _ 101%nat). vm_compute. reflexivity.
  - exact E.
Defined.

Lemma alone_it_is_HGet_witness :
  ∃ w', star solo (pool_of 2 [Some (REDIS_REPLY_STRING "v")], Idle 1) (w', Idle 0).
Proof.
  destruct (Redis_HGet 5 "user:base" "DE61F1EF-FC53-968F-118A-9378CE037D85@1569505695950" ""
    (pool_of 2 [Some (REDIS_REPLY_STRING "v")])) as [[b s] w'|e] eqn:E; [|vm_compute in E; discriminate E].
  exists w'. assert (b = true) as -> by (vm_compute in E; by injection E).
  exact (alone_it_is_HGet 5 0 _ _ true s E).
Defined.
