(* ===== verification/ThreadPool.v ===== *)
(** * The thread pool (mong-c-test/inc/ThreadPool.h)

    Workers, submitters and the destructor share a task queue under a mutex and
    a condition variable.  The state has a worker's place for each thread; a
    critical section is one step, a worker asleep in [condition.wait] is
    [Asleep], and a notification is a step of its own after the critical section
    that it follows, so that wake-ups can be late, spurious or find nobody.  A
    [std::packaged_task] is a name, and what its future holds is in [futures]; the
    function that it calls is the user's: it ends with any value or exception.
    ThreadPoolSpec.v has the abstract executor and the end of the destructor. *)

From S2P Require Import Prelude.

Definition task : Type := nat.

(** How a function ends; values and exceptions are names. *)
Inductive result : Type :=
| Returns (v : nat)
| Throws (e : nat).

Inductive worker : Type :=
| Ready            (* about to lock and test the predicate *)
| Asleep           (* in [condition.wait] *)
| Running (t : task)
| Returned.

Inductive destructor : Type :=
| NotCalled
| Stopped          (* [stop] is set, [notify_all] is to be called *)
| Joining (k : nat)  (* the first [k] workers are joined *)
| Gone.

Record pool : Type := mkPool {
  workers : list worker;
  tasks : list task;
  stop : bool;
  notify_one : nat;                 (* calls of notify_one still to come *)
  dtor : destructor;
  futures : list (option result);   (* of the tasks that enqueue has accepted *)
  started : list task;              (* what workers have taken, in order *)
  finished : list (task * result);  (* what has been run to the end *)
}.

(** ThreadPool::ThreadPool *)
Definition ThreadPool_new (threads : nat) : pool :=
  mkPool (replicate threads Ready) [] false 0 NotCalled [] [] [].

Definition set_worker (i : nat) (x : worker) (p : pool) : pool :=
  mkPool (<[i := x]> (workers p)) (tasks p) (stop p) (notify_one p) (dtor p)
    (futures p) (started p) (finished p).

Definition set_notify_one (n : nat) (p : pool) : pool :=
  mkPool (workers p) (tasks p) (stop p) n (dtor p) (futures p) (started p) (finished p).

Definition set_dtor (d : destructor) (p : pool) : pool :=
  mkPool (workers p) (tasks p) (stop p) (notify_one p) d (futures p) (started p) (finished p).

(** ThreadPool::enqueue up to the end of its critical section, with the future that
    it returns; [None] when it throws. *)
Definition enqueue (p : pool) : option (task * pool) :=
  let task := length (futures p) in
  if stop p then None
  else Some (task, mkPool (workers p) (tasks p ++ [task]) (stop p) (S (notify_one p)) (dtor p)
               (futures p ++ [None]) (started p) (finished p)).

(** The critical section of a worker, from the test of the predicate. *)
Definition worker_section (i : nat) (p : pool) : pool :=
  if stop p || negb (bool_decide (tasks p = [])) then
    match tasks p with
    | [] => set_worker i Returned p
    | t :: ts =>
        mkPool (<[i := Running t]> (workers p)) ts (stop p) (notify_one p) (dtor p)
          (futures p) (started p ++ [t]) (finished p)
    end
  else set_worker i Asleep p.

(** [task()] ends: the [packaged_task] keeps the value or the exception, and the
    worker goes on. *)
Definition finish (i : nat) (t : task) (r : result) (p : pool) : pool :=
  mkPool (<[i := Ready]> (workers p)) (tasks p) (stop p) (notify_one p) (dtor p)
    (<[t := Some r]> (futures p)) (started p) (finished p ++ [(t, r)]).

(** The critical section of the destructor. *)
Definition destructor_section (p : pool) : pool :=
  mkPool (workers p) (tasks p) true (notify_one p) Stopped (futures p) (started p) (finished p).

Definition wake (x : worker) : worker := match x with Asleep => Ready | _ => x end.

(** [condition.notify_all()] in the destructor. *)
Definition notify_everyone (p : pool) : pool :=
  mkPool (wake <$> workers p) (tasks p) (stop p) (notify_one p) (Joining 0)
    (futures p) (started p) (finished p).

(** What the threads of the pool and a destructor that has begun have to do next. *)
Inductive act : pool → pool → Prop :=
| act_worker p i : workers p !! i = Some Ready → act p (worker_section i p)
| act_finish p i t r : workers p !! i = Some (Running t) → act p (finish i t r p)
| act_notify p n i :
    notify_one p = S n → workers p !! i = Some Asleep →
    act p (set_worker i Ready (set_notify_one n p))
| act_notify_nobody p n :
    notify_one p = S n → Asleep ∉ workers p → act p (set_notify_one n p)
| act_notify_all p : dtor p = Stopped → act p (notify_everyone p)
| act_join p k :
    dtor p = Joining k → workers p !! k = Some Returned → act p (set_dtor (Joining (S k)) p)
| act_joined p : dtor p = Joining (length (workers p)) → act p (set_dtor Gone p).

(** Whatever can happen: also calls of [enqueue] and of the destructor, and spurious
    wake-ups. *)
Inductive step : pool → pool → Prop :=
| step_act p p' : act p p' → step p p'
| step_enqueue p p' t : enqueue p = Some (t, p') → step p p'
| step_spurious p i : workers p !! i = Some Asleep → step p (set_worker i Ready p)
| step_destroy p : dtor p = NotCalled → step p (destructor_section p).

(** [worker.join()] of every worker has returned. *)
Definition joined (p : pool) : Prop := ∀ x, x ∈ workers p → x = Returned.

(** What enqueue has accepted, in order. *)
Definition submitted (p : pool) : list task := seq 0 (length (futures p)).

(** ** Invariant *)

Definition running_task (x : worker) : list task :=
  match x with Running t => [t] | _ => [] end.

(** The tasks that are being run. *)
Definition running (p : pool) : list task := flat_map running_task (workers p).

(** A worker that will test the predicate again without being woken. *)
Definition awake (x : worker) : bool :=
  match x with Ready | Running _ => true | _ => false end.

(** [stop] and the workers as the destructor sees them. *)
Definition dtor_ok (p : pool) : Prop :=
  match dtor p with
  | NotCalled => stop p = false
  | Stopped => stop p = true
  | Joining k => stop p = true ∧ (k ≤ length (workers p))%nat
                 ∧ (Asleep ∉ workers p) ∧ ∀ i, (i < k)%nat → workers p !! i = Some Returned
  | Gone => stop p = true ∧ joined p
  end.

Record Inv (p : pool) : Prop := {
  p_order : submitted p = started p ++ tasks p;
  p_started : started p ≡ₚ (finished p).*1 ++ running p;
  p_returned : Returned ∈ workers p → stop p = true ∧ tasks p = [];
  p_wake : tasks p ≠ [] → (∃ x, (x ∈ workers p) ∧ awake x = true) ∨ (0 < notify_one p)%nat
                           ∨ workers p = [];
  p_dtor : dtor_ok p;
  p_futures : ∀ t r, futures p !! t = Some (Some r) ↔ (t, r) ∈ finished p;
}.

Lemma running_insert ws i x y :
  ws !! i = Some x →
  running_task x ++ flat_map running_task (<[i := y]> ws)
  ≡ₚ running_task y ++ flat_map running_task ws.
Proof.
  intros Hi. destruct (flat_map_at running_task ws i x y Hi) as [-> ->].
  rewrite !(assoc_L (++)). by rewrite (comm (++) (running_task x)).
Qed.

Lemma in_insert {A} (ws : list A) i x y z :
  ws !! i = Some x → z ∈ <[i := y]> ws → z = y ∨ z ∈ ws.
Proof.
  intros Hi [j Hj]%list_elem_of_lookup. apply list_lookup_insert_Some in Hj as [(_ & <- & _)|[_ Hj]].
  - by left.
  - right. by eapply list_elem_of_lookup_2.
Qed.

Lemma insert_in {A} (ws : list A) i x y :
  ws !! i = Some x → y ∈ <[i := y]> ws.
Proof.
  intros Hi. apply (list_elem_of_lookup_2 _ i). apply list_lookup_insert_eq.
  by eapply lookup_lt_Some.
Qed.

Lemma running_same ws i x y :
  ws !! i = Some x → running_task x = [] → running_task y = [] →
  flat_map running_task (<[i := y]> ws) ≡ₚ flat_map running_task ws.
Proof. intros Hi Hx Hy. pose proof (running_insert ws i x y Hi) as H. by rewrite Hx, Hy in H. Qed.

Lemma running_wake ws : flat_map running_task (wake <$> ws) = flat_map running_task ws.
Proof.
  induction ws as [|x ws IH]; [done|]. rewrite fmap_cons. cbn [flat_map]. rewrite IH. by destruct x.
Qed.

Lemma running_returned ws : (∀ x, x ∈ ws → x = Returned) → flat_map running_task ws = [].
Proof.
  induction ws as [|y ws IH]; intros Hj; [done|]. simpl. rewrite (Hj y) by by left.
  apply IH. intros z Hz. apply Hj. by right.
Qed.

Lemma Inv_new n : Inv (ThreadPool_new n).
Proof.
  constructor; simpl; try done.
  - unfold running. simpl. induction n; [done|exact IHn].
  - by intros [? _]%elem_of_replicate.
  - intros t r. rewrite lookup_nil. split; [done|]. by intros ?%elem_of_nil.
Qed.

(** A worker that has not returned goes on. *)
Lemma dtor_ok_worker p p' i x y :
  dtor_ok p → dtor p' = dtor p → stop p' = stop p → workers p' = <[i := y]> (workers p) →
  workers p !! i = Some x → x ≠ Returned → (stop p = true → y ≠ Asleep) → dtor_ok p'.
Proof.
  unfold dtor_ok. intros Hd -> -> -> Hi Hx Hy. destruct (dtor p) as [| |k|]; [done|done| |].
  - destruct Hd as (Hs & Hk & Ha & Hr). split_and!; [done|by rewrite length_insert| |].
    + intros Hin. eapply in_insert in Hin as [?|?]; [|done|exact Hi]. by apply Hy.
    + intros j Hj. rewrite list_lookup_insert_ne; [by apply Hr|]. intros <-.
      specialize (Hr _ Hj). congruence.
  - destruct Hd as [Hs Hj]. destruct Hx. apply Hj. by eapply list_elem_of_lookup_2.
Qed.

(** The tasks that are running or have finished are distinct, and have futures. *)
Lemma Inv_names p : Inv p →
  NoDup ((finished p).*1 ++ running p)
  ∧ ∀ t, t ∈ running p → (t < length (futures p))%nat ∧ (t ∉ (finished p).*1).
Proof.
  intros [Ho Hs _ _ _ _].
  assert (NoDup (started p ++ tasks p)) as Hn by (rewrite <- Ho; apply NoDup_seq).
  apply NoDup_app in Hn as (Hn & _ & _). rewrite Hs in Hn. split; [done|]. intros t Ht. split.
  - assert (t ∈ submitted p) as Hin.
    { rewrite Ho, elem_of_app. left. rewrite Hs, elem_of_app. by right. }
    unfold submitted in Hin. rewrite elem_of_seq in Hin. lia.
  - apply NoDup_app in Hn as (_ & Hn & _). intros Hin. by apply (Hn t).
Qed.

(** Every awake worker stays so when one that is asleep wakes up. *)
Lemma Inv_set_worker p i x y :
  Inv p → workers p !! i = Some x → x ≠ Returned → running_task x = [] → awake y = true →
  running_task y = [] → Inv (set_worker i y p).
Proof.
  intros [Ho Hs Hr Hw Hd Hf] Hi Hxr Hx Hy Hy0. constructor; simpl; try done.
  - unfold running; simpl. rewrite Hs. f_equiv. symmetry. by eapply running_same.
  - intros Hin. eapply in_insert in Hin as [<-|Hin]; [done|auto|exact Hi].
  - intros _. left. exists y. split; [by eapply insert_in|done].
  - eapply dtor_ok_worker; try done. by intros _ ->.
Qed.

Lemma Inv_enqueue p p' t : Inv p → enqueue p = Some (t, p') → Inv p'.
Proof.
  unfold enqueue. intros [Ho Hs Hr Hw Hd Hf]. destruct (stop p) eqn:Estop; [done|]. intros [= _ <-].
  assert (dtor p = NotCalled) as Ed.
  { unfold dtor_ok in Hd. rewrite Estop in Hd. destruct (dtor p); try done; by destruct Hd. }
  constructor; unfold submitted in *; simpl; try done.
  - rewrite length_app, Nat.add_1_r, seq_S, Ho. by rewrite (assoc_L (++)).
  - by intros [? _]%Hr.
  - intros _. right. left. lia.
  - unfold dtor_ok. simpl. by rewrite Ed.
  - intros t' r. rewrite <- Hf, lookup_app_Some. split; [|by left].
    intros [?|[_ Hl]]; [done|]. by apply list_lookup_singleton_Some in Hl as [_ ?].
Qed.

Lemma Inv_worker_section p i : Inv p → workers p !! i = Some Ready → Inv (worker_section i p).
Proof.
  intros HI Hi. unfold worker_section. destruct (tasks p) as [|t ts] eqn:Et.
  - rewrite bool_decide_true by done. rewrite orb_false_r.
    destruct (stop p) eqn:Estop; destruct HI as [Ho Hs Hr Hw Hd Hf]; constructor; simpl; try done.
    + unfold running; simpl. rewrite Hs. f_equiv. symmetry. by eapply running_same.
    + by eapply dtor_ok_worker.
    + unfold running; simpl. rewrite Hs. f_equiv. symmetry. by eapply running_same.
    + intros Hin. eapply in_insert in Hin as [?|Hin]; [done|auto|exact Hi].
    + eapply dtor_ok_worker; try done. by rewrite Estop.
  - rewrite bool_decide_false by done. rewrite orb_true_r.
    destruct HI as [Ho Hs Hr Hw Hd Hf]; constructor; simpl; try done.
    + rewrite <- (assoc_L (++)). simpl. by rewrite <- Et.
    + unfold running; simpl. pose proof (running_insert (workers p) i Ready (Running t) Hi) as Hp.
      simpl in Hp. rewrite Hp, Hs. unfold running. by rewrite (comm (++) _ [t]), <- Permutation_middle.
    + intros Hin. eapply in_insert in Hin as [?|Hin]; [done| |exact Hi].
      apply Hr in Hin as [_ ?]. congruence.
    + intros _. left. exists (Running t). split; [by eapply insert_in|done].
    + by eapply dtor_ok_worker.
Qed.

Lemma Inv_finish p i t r : Inv p → workers p !! i = Some (Running t) → Inv (finish i t r p).
Proof.
  intros HI Hi. destruct (Inv_names p HI) as [_ Hn].
  destruct (Hn t) as [Hlt Hnew].
  { apply list_elem_of_In, in_flat_map. exists (Running t). split; [|by left].
    apply list_elem_of_In. by eapply list_elem_of_lookup_2. }
  destruct HI as [Ho Hs Hr Hw Hd Hf]. constructor; unfold submitted in *; simpl.
  - by rewrite length_insert.
  - unfold running; simpl. pose proof (running_insert (workers p) i (Running t) Ready Hi) as Hp.
    simpl in Hp. rewrite fmap_app, <- (assoc_L (++)). simpl. by rewrite Hs, <- Hp.
  - intros Hin. eapply in_insert in Hin as [?|Hin]; [done|auto|exact Hi].
  - intros _. left. exists Ready. split; [by eapply insert_in|done].
  - by eapply dtor_ok_worker.
  - intros t' r'. rewrite elem_of_app, list_elem_of_singleton. destruct (decide (t' = t)) as [->|Hne].
    + rewrite list_lookup_insert_eq by done. split.
      * intros [= ->]. by right.
      * intros [Hin|[= ->]]; [|done]. destruct Hnew. apply list_elem_of_fmap. by exists (t, r').
    + rewrite list_lookup_insert_ne by done. rewrite Hf. split; [by left|].
      by intros [?|[= ]].
Qed.

Lemma Inv_notify_everyone p : Inv p → dtor p = Stopped → Inv (notify_everyone p).
Proof.
  intros [Ho Hs Hr Hw Hd Hf] Ed. constructor; simpl; try done.
  - unfold running in *; simpl. by rewrite running_wake.
  - intros (x & Hx & Hin)%list_elem_of_fmap. apply Hr. by destruct x.
  - intros Ht. destruct (Hw Ht) as [(x & Hx & Hax)|[Hn| ->]]; [|by right; left|by right; right].
    left. exists x. split; [|done]. apply list_elem_of_fmap. exists x. by destruct x.
  - unfold dtor_ok in *. rewrite Ed in Hd. simpl. split_and!; [done|lia| |intros i; lia].
    intros (x & Hx & _)%list_elem_of_fmap. by destruct x.
Qed.

Lemma Inv_join p k :
  Inv p → dtor p = Joining k → workers p !! k = Some Returned → Inv (set_dtor (Joining (S k)) p).
Proof.
  intros [Ho Hs Hr Hw Hd Hf] Ed Hk. constructor; simpl; try done.
  unfold dtor_ok in *. rewrite Ed in Hd. simpl. destruct Hd as (Hst & _ & Ha & Hret).
  split_and!; [done|by apply lookup_lt_Some in Hk|done|]. intros i Hi.
  destruct (decide (i = k)) as [->|]; [done|]. apply Hret. lia.
Qed.

Lemma Inv_gone p : Inv p → dtor p = Joining (length (workers p)) → Inv (set_dtor Gone p).
Proof.
  intros [Ho Hs Hr Hw Hd Hf] Ed. constructor; simpl; try done.
  unfold dtor_ok in *. rewrite Ed in Hd. simpl. destruct Hd as (Hst & _ & _ & Hret). split; [done|].
  intros x [i Hi]%list_elem_of_lookup. pose proof (lookup_lt_Some _ _ _ Hi) as Hl.
  specialize (Hret i Hl). simpl in Hi. congruence.
Qed.

Lemma Inv_act p p' : Inv p → act p p' → Inv p'.
Proof.
  intros HI Hact. destruct Hact as [p i Hi|p i t r Hi|p n i Hn Hi|p n Hn Hno|p Hd|p k Hd Hk|p Hd].
  - by apply Inv_worker_section.
  - by apply Inv_finish.
  - assert (Inv (set_worker i Ready p)) as [Ho Hs Hr Hw Hd Hf] by by eapply Inv_set_worker.
    constructor; simpl in *; try done. intros _. left. exists Ready. split; [by eapply insert_in|done].
  - destruct HI as [Ho Hs Hr Hw Hd Hf]. constructor; simpl; try done. intros Ht.
    destruct (workers p) as [|x ws] eqn:Ew; [by right; right|]. left.
    exists x. split; [by left|]. destruct x; [done| |done|].
    + exfalso. apply Hno. by left.
    + destruct Hr as [_ Hr]; [by left|done].
  - by apply Inv_notify_everyone.
  - by apply Inv_join.
  - by apply Inv_gone.
Qed.

Lemma pool_Inv_step p p' : Inv p → step p p' → Inv p'.
Proof.
  intros HI Hstep. destruct Hstep as [p p' Ha|p p' t He|p i Hi|p Hd].
  - by eapply Inv_act.
  - by eapply Inv_enqueue.
  - by eapply Inv_set_worker.
  - destruct HI as [Ho Hs' Hr Hw _ Hf]. constructor; simpl; try done.
    intros Hin. split; [done|]. by apply Hr.
Qed.

Lemma pool_Inv_reachable n p : star step (ThreadPool_new n) p → Inv p.
Proof.
  intros Hs. eapply (star_invariant step Inv); [apply pool_Inv_step|exact Hs|apply Inv_new].
Qed.

Lemma length_worker_section i p : length (workers (worker_section i p)) = length (workers p).
Proof.
  unfold worker_section. destruct (stop p || _), (tasks p); simpl; apply length_insert.
Qed.

Lemma length_workers_step p p' : step p p' → length (workers p') = length (workers p).
Proof.
  intros [q q' Ha|q q' t He|q i Hi|q Hd]; simpl; rewrite ?length_insert; [|revert He|done..].
  - destruct Ha; simpl; by rewrite ?length_worker_section, ?length_insert, ?length_fmap.
  - unfold enqueue. destruct (stop q); [done|]. by intros [= _ <-].
Qed.

Lemma length_workers n p : star step (ThreadPool_new n) p → length (workers p) = n.
Proof.
  intros Hs. eapply (star_invariant step (λ p, length (workers p) = n)); [|exact Hs|apply length_replicate].
  intros q q' Hl Hstep. by rewrite (length_workers_step _ _ Hstep).
Qed.

(** A worker has returned when there is one and all are joined. *)
Lemma joined_drained p :
  Inv p → workers p ≠ [] → joined p → tasks p = [] ∧ submitted p ≡ₚ (finished p).*1.
Proof.
  intros [Ho Hst Hr _ _ _] Hne Hj.
  assert (Returned ∈ workers p) as [_ Ht]%Hr.
  { unfold joined in Hj. destruct (workers p) as [|x ws]; [done|]. rewrite (Hj x) by by left. by left. }
  split; [done|]. rewrite Ho, Ht, app_nil_r, Hst. unfold running. by rewrite running_returned, app_nil_r.
Qed.

(** ** Draining *)

(** Some run of the pool goes on until the tasks of [p] are all started. *)
Lemma worker_takes p i t ts :
  workers p !! i = Some Ready → tasks p = t :: ts →
  tasks (worker_section i p) = ts
  ∧ workers (worker_section i p) !! i = Some (Running t)
  ∧ futures (worker_section i p) = futures p.
Proof.
  intros Hi Ht. unfold worker_section. rewrite Ht.
  rewrite bool_decide_false, orb_true_r by done. simpl. split_and!; try done.
  apply list_lookup_insert_eq. by eapply lookup_lt_Some.
Qed.

Lemma worker_drains p i :
  workers p !! i = Some Ready →
  ∃ p', star act p p' ∧ tasks p' = [] ∧ submitted p' = submitted p.
Proof.
  remember (tasks p) as ts eqn:Et. revert p Et. induction ts as [|t ts IH]; intros p Et Hi.
  { exists p. split_and!; [constructor|done..]. }
  destruct (worker_takes p i t ts Hi (eq_sym Et)) as (Ht1 & Hi1 & Hf1).
  destruct (IH (finish i t (Returns 0) (worker_section i p))) as (p' & Hs & Ht & Hsub).
  { done. }
  { simpl. apply list_lookup_insert_eq. by eapply lookup_lt_Some. }
  exists p'. split_and!; [|done|].
  - eapply star_step; [by apply act_worker|]. eapply star_step; [by apply act_finish|exact Hs].
  - rewrite Hsub. unfold submitted. simpl. by rewrite length_insert, Hf1.
Qed.

(** A queued task has a worker that gets to test the predicate, woken by a
    notification if need be. *)
Lemma some_worker_ready p :
  Inv p → workers p ≠ [] → tasks p ≠ [] →
  ∃ p' i, star act p p' ∧ workers p' !! i = Some Ready ∧ submitted p' = submitted p.
Proof.
  intros HI Hne Ht.
  assert (∀ i t, workers p !! i = Some (Running t) →
    ∃ p' i, star act p p' ∧ workers p' !! i = Some Ready ∧ submitted p' = submitted p) as Hrun.
  { intros i t Hi. exists (finish i t (Returns 0) p), i.
    split_and!; [by apply star_one, act_finish|simpl|].
    - apply list_lookup_insert_eq. by eapply lookup_lt_Some.
    - unfold submitted. simpl. by rewrite length_insert. }
  destruct (p_wake p HI Ht) as [(x & Hin & Hx)|[Hn|?]]; [| |done].
  - apply list_elem_of_lookup in Hin as [i Hi]. destruct x as [| |t|]; try done; [|by eapply Hrun].
    exists p, i. split_and!; [constructor|done..].
  - destruct (workers p) as [|x ws] eqn:Ew; [done|].
    assert (workers p !! O = Some x) as H0 by by rewrite Ew.
    destruct x as [| |t|].
    + exists p, O. split_and!; [constructor|exact H0|done].
    + destruct (notify_one p) as [|n] eqn:En; [lia|].
      eexists _, O. split_and!; [by eapply star_one, act_notify|simpl|done].
      apply list_lookup_insert_eq. by eapply lookup_lt_Some.
    + by apply (Hrun O t).
    + destruct (p_returned p HI) as [_ ?]; [rewrite Ew; by left|done].
Qed.

(** ** Properties *)

(** C19: tasks are taken in the order in which they were submitted, each of them
    once: in every interleaving, what was accepted is what has been started
    followed by what is queued, and what was started has finished or is running,
    all of it distinct.  The future of a task holds how its function ended, an
    exception included, from then on and not before. *)
Theorem tasks_run_once_in_order n p :
  star step (ThreadPool_new n) p →
  submitted p = started p ++ tasks p
  ∧ started p ≡ₚ (finished p).*1 ++ running p ∧ NoDup (started p)
  ∧ ∀ t r, futures p !! t = Some (Some r) ↔ (t, r) ∈ finished p.
Proof.
  intros Hs. apply pool_Inv_reachable in Hs as HI. destruct (Inv_names p HI) as [Hn _].
  destruct HI as [Ho Hst _ _ _ Hf]. split_and!; [done|done|by rewrite Hst|exact Hf].
Qed.

(** When the destructor has joined the workers, every task that [enqueue]
    ever accepted has been run to its end, if there is a worker. *)
Theorem destructor_drains n p :
  star step (ThreadPool_new (S n)) p → joined p → tasks p = [] ∧ submitted p ≡ₚ (finished p).*1.
Proof.
  intros Hs. pose proof (length_workers _ _ Hs) as Hl.
  apply joined_drained; [by eapply pool_Inv_reachable|]. by intros Hw; rewrite Hw in Hl.
Qed.

(** C20: no notification is lost: in every interleaving, a queued task has a worker
    that will test the predicate without being woken, or a notification still to
    come; and after [stop] a worker is asleep only until [notify_all]. *)
Theorem no_lost_notification n p :
  star step (ThreadPool_new (S n)) p →
  (tasks p ≠ [] → (∃ x, (x ∈ workers p) ∧ awake x = true) ∨ (0 < notify_one p)%nat)
  ∧ (stop p = true → Asleep ∈ workers p → dtor p = Stopped).
Proof.
  intros Hs. pose proof (length_workers _ _ Hs) as Hl. apply pool_Inv_reachable in Hs as [_ _ _ Hw Hd _].
  split.
  - intros Ht. destruct (Hw Ht) as [?|[?|Hnil]]; [by left|by right|]. by rewrite Hnil in Hl.
  - intros Hst Ha. unfold dtor_ok in Hd. destruct (dtor p); [congruence|done| |].
    + by destruct Hd as (_ & _ & ? & _).
    + destruct Hd as [_ Hj]. by specialize (Hj _ Ha).
Qed.

(** Whatever has happened, a pool with a worker can still start all the tasks
    that are queued. *)
Theorem queued_tasks_can_start n p :
  star step (ThreadPool_new (S n)) p →
  ∃ p', star act p p' ∧ tasks p' = [] ∧ submitted p' = submitted p.
Proof.
  intros Hs. destruct (decide (tasks p = [])) as [Ht|Ht].
  { exists p. split_and!; [constructor|done..]. }
  pose proof (length_workers _ _ Hs) as Hl. apply pool_Inv_reachable in Hs.
  destruct (some_worker_ready p Hs) as (p1 & i & Hs1 & Hi & Hsub1); [by intros Hw; rewrite Hw in Hl|done|].
  destruct (worker_drains p1 i Hi) as (p2 & Hs2 & Ht2 & Hsub2).
  exists p2. split_and!; [by eapply star_trans|done|congruence].
Qed.

(** ** Instances *)

(** Two workers; one task throws while the other worker goes to sleep, and a second
    one waits in the queue. *)
Lemma two_workers :
  ∃ p, star step (ThreadPool_new 2) p ∧ started p = [0%nat] ∧ tasks p = [1%nat]
    ∧ finished p = [(0%nat, Throws 5)].
Proof.
  eexists. split.
  - eapply star_step; [by eapply step_enqueue|].
    eapply star_step; [by apply step_act, (act_worker _ 0%nat)|].
    eapply star_step; [by apply step_act, (act_worker _ 1%nat)|].
    eapply star_step; [by apply step_act, (act_finish _ 0%nat 0%nat (Throws 5))|].
    eapply star_step; [by eapply step_enqueue|]. apply star_refl.
  - split_and!; reflexivity.
Defined.

Lemma tasks_run_once_in_order_witness :
  ∃ p, started p = [0%nat] ∧ submitted p = started p ++ tasks p ∧ futures p !! 0%nat = Some (Some (Throws 5)).
Proof.
  destruct two_workers as (p & Hs & Hst & _ & Hf). exists p.
  destruct (tasks_run_once_in_order 2 p Hs) as (Ho & _ & _ & Hfut).
  split_and!; [exact Hst|exact Ho|]. apply Hfut. rewrite Hf. by left.
Defined.

Lemma no_lost_notification_witness :
  ∃ p, tasks p = [1%nat] ∧ ((∃ x, (x ∈ workers p) ∧ awake x = true) ∨ (0 < notify_one p)%nat).
Proof.
  destruct two_workers as (p & Hs & _ & Ht & _). exists p. split; [exact Ht|].
  apply (no_lost_notification 1 p Hs). by rewrite Ht.
Defined.

(** One worker, that runs its task when the destructor has been called. *)
Lemma one_worker :
  ∃ p, star step (ThreadPool_new 1) p ∧ workers p = [Returned] ∧ submitted p = [0%nat]
    ∧ dtor p = Stopped.
Proof.
  eexists. split.
  - eapply star_step; [by eapply step_enqueue|].
    eapply star_step; [by apply step_destroy|].
    eapply star_step; [by apply step_act, (act_worker _ 0%nat)|].
    eapply star_step; [by apply step_act, (act_finish _ 0%nat 0%nat (Returns 3))|].
    eapply star_step; [by apply step_act, (act_worker _ 0%nat)|]. apply star_refl.
  - split_and!; reflexivity.
Defined.

Lemma destructor_drains_witness :
  ∃ p, joined p ∧ submitted p = [0%nat] ∧ submitted p ≡ₚ (finished p).*1.
Proof.
  destruct one_worker as (p & Hs & Hw & Hsub & _).
  assert (joined p) as Hj by (unfold joined; rewrite Hw; by intros x ->%list_elem_of_singleton).
  exists p. split; [exact Hj|]. split; [exact Hsub|]. apply (destructor_drains 0 p Hs Hj).
Defined.

Lemma queued_tasks_can_start_witness :
  ∃ p', tasks p' = [] ∧ submitted p' = [0%nat; 1%nat].
Proof.
  destruct two_workers as (p & Hs & Hst & Ht & _).
  destruct (queued_tasks_can_start 1 p Hs) as (p' & _ & Ht' & Hsub). exists p'. split; [exact Ht'|].
  rewrite Hsub, (p_order p (pool_Inv_reachable 2 p Hs)), Hst, Ht. reflexivity.
Defined.
