(* ===== verification/ThreadPoolSpec.v ===== *)
(** * What the thread pool promises (mong-c-test/inc/ThreadPool.h)

    The abstract executor has a queue, the set of the tasks that run and what their
    futures hold; every step of the pool is one of its steps or none.  The end of the
    destructor is shown with a measure, [work], that every step lowers once [stop] is
    set.  It is assumed that a function that is called ends. *)

From S2P Require Import Prelude ThreadPool.

(** ** The abstract executor *)

Record executor : Type := mkExecutor {
  queued : list task;
  active : gset task;
  outcomes : list (option result);
}.

Definition idle : executor := mkExecutor [] ∅ [].

(** An executor that runs at most [n] tasks at a time, the oldest first. *)
Inductive executes (n : nat) : executor → executor → Prop :=
| ex_submit e :
    executes n e (mkExecutor (queued e ++ [length (outcomes e)]) (active e) (outcomes e ++ [None]))
| ex_start e t ts :
    queued e = t :: ts → t ∉ active e → (size (active e) < n)%nat →
    executes n e (mkExecutor ts ({[t]} ∪ active e) (outcomes e))
| ex_complete e t r :
    t ∈ active e → outcomes e !! t = Some None →
    executes n e (mkExecutor (queued e) (active e ∖ {[t]}) (<[t := Some r]> (outcomes e))).

Definition executor_of (p : pool) : executor :=
  mkExecutor (tasks p) (list_to_set (running p)) (futures p).

(** A future is set once. *)
Lemma outcome_stays n e e' (t : task) r :
  star (executes n) e e' → outcomes e !! t = Some (Some r) → outcomes e' !! t = Some (Some r).
Proof.
  induction 1 as [|e1 e2 e3 Hs _ IH]; [done|]. intros He. apply IH.
  destruct Hs as [e|e t' ts|e t' r' Hin Hn]; simpl; [|done|].
  - by apply lookup_app_l_Some.
  - rewrite list_lookup_insert_ne; [done|]. intros ->. congruence.
Qed.

(** ** The pool is one *)

Lemma length_running ws : (length (flat_map running_task ws) ≤ length ws)%nat.
Proof.
  induction ws as [|x ws IH]; [done|]. cbn [flat_map length]. rewrite length_app.
  destruct x; simpl; lia.
Qed.

Lemma executor_same p p' :
  tasks p' = tasks p → futures p' = futures p → running p' ≡ₚ running p →
  executor_of p' = executor_of p.
Proof. intros Ht Hf Hr. unfold executor_of. rewrite Ht, Hf. f_equal. by apply list_to_set_perm_L. Qed.

Lemma set_worker_same p i x y :
  workers p !! i = Some x → running_task x = [] → running_task y = [] →
  executor_of (set_worker i y p) = executor_of p.
Proof. intros Hi Hx Hy. apply executor_same; [done..|]. by eapply running_same. Qed.

Lemma worker_section_executes n p i :
  Inv p → length (workers p) = n → workers p !! i = Some Ready →
  executor_of (worker_section i p) = executor_of p
  ∨ executes n (executor_of p) (executor_of (worker_section i p)).
Proof.
  intros HI Hn Hi. pose proof (Inv_worker_section p i HI Hi) as HI'. revert HI'.
  unfold worker_section. case_match; [|left; by eapply set_worker_same].
  destruct (tasks p) as [|t ts] eqn:Et; [left; by eapply set_worker_same|].
  intros HI'. right. destruct (Inv_names _ HI') as [[_ [_ Hnd]]%NoDup_app _].
  pose proof (running_insert (workers p) i Ready (Running t) Hi) as Hp. simpl in Hp.
  unfold running in Hnd. simpl in Hnd. rewrite Hp in Hnd. apply NoDup_cons in Hnd as [Hnt Hnd].
  assert (executor_of (mkPool (<[i := Running t]> (workers p)) ts (stop p) (notify_one p) (dtor p)
            (futures p) (started p ++ [t]) (finished p))
          = mkExecutor ts ({[t]} ∪ active (executor_of p)) (outcomes (executor_of p))) as ->.
  { unfold executor_of, running. simpl. f_equal. rewrite (list_to_set_perm_L _ _ Hp). done. }
  apply ex_start; [done|by simpl; rewrite elem_of_list_to_set|].
  simpl. rewrite size_list_to_set by done.
  pose proof (length_running (<[i := Running t]> (workers p))) as Hl.
  rewrite Hp, length_insert in Hl. simpl in Hl. unfold running. lia.
Qed.

Lemma finish_executes n p i t r :
  Inv p → workers p !! i = Some (Running t) →
  executes n (executor_of p) (executor_of (finish i t r p)).
Proof.
  intros HI Hi. destruct (Inv_names p HI) as [[_ [_ Hnd]]%NoDup_app Hfut].
  pose proof (running_insert (workers p) i (Running t) Ready Hi) as Hp. simpl in Hp.
  change (t :: running (finish i t r p) ≡ₚ running p) in Hp. rewrite <- Hp in Hnd.
  apply NoDup_cons in Hnd as [Hnt _].
  assert (t ∈ running p) as Hin by (rewrite <- Hp; by left).
  destruct (Hfut t Hin) as [[o Ho]%lookup_lt_is_Some Hnew].
  assert (executor_of (finish i t r p)
    = mkExecutor (queued (executor_of p)) (active (executor_of p) ∖ {[t]})
        (<[t := Some r]> (outcomes (executor_of p)))) as ->.
  { unfold executor_of. simpl. f_equal. rewrite <- (list_to_set_perm_L _ _ Hp).
    apply set_eq. intros x. rewrite elem_of_difference, !elem_of_list_to_set, elem_of_cons, elem_of_singleton.
    split; [|tauto]. intros Hx. split; [by right|by intros ->]. }
  apply ex_complete; [by apply elem_of_list_to_set|]. simpl.
  destruct o as [r'|]; [|done]. apply (p_futures p HI) in Ho. destruct Hnew.
  apply list_elem_of_fmap. by exists (t, r').
Qed.

Lemma step_executes n p p' :
  Inv p → length (workers p) = n → step p p' →
  executor_of p' = executor_of p ∨ executes n (executor_of p) (executor_of p').
Proof.
  intros HI Hn Hstep. destruct Hstep as [p p' Ha|p p' t He|p i Hi|p Hd].
  - destruct Ha as [p i Hi|p i t r Hi|p m i Hm Hi|p m Hm Hno|p Hd|p k Hd Hk|p Hd]; try by left.
    + by apply worker_section_executes.
    + right. by apply finish_executes.
    + left. by apply (set_worker_same (set_notify_one m p) i Asleep).
    + left. apply executor_same; [done..|]. unfold running. simpl. by rewrite running_wake.
  - unfold enqueue in He. destruct (stop p); [done|]. injection He as _ <-. right. apply (ex_submit n (executor_of p)).
  - left. by eapply set_worker_same.
  - by left.
Qed.

Lemma star_executes n p p' :
  Inv p → length (workers p) = n → star step p p' →
  star (executes n) (executor_of p) (executor_of p').
Proof.
  intros HI Hn Hs. induction Hs as [|p1 p2 p3 H1 _ IH]; [constructor|].
  specialize (IH (pool_Inv_step _ _ HI H1)). rewrite (length_workers_step _ _ H1) in IH.
  destruct (step_executes n _ _ HI Hn H1) as [E|E]; [rewrite <- E; by apply IH|].
  eapply star_step; [exact E|by apply IH].
Qed.

(** ** The destructor ends *)

Definition worker_work (x : worker) : nat :=
  match x with Ready => 1 | Asleep => 2 | Running _ => 2 | Returned => 0 end.

Definition dtor_work (n : nat) (d : destructor) : nat :=
  match d with NotCalled => 0 | Stopped => n + 2 | Joining k => n - k + 1 | Gone => 0 end.

Definition work (p : pool) : nat :=
  2 * length (tasks p) + sum_list_with worker_work (workers p) + notify_one p
  + dtor_work (length (workers p)) (dtor p).

Lemma sum_insert {A} (f : A → nat) (l : list A) i x y :
  l !! i = Some x →
  (sum_list_with f (<[i := y]> l) + f x = sum_list_with f l + f y)%nat.
Proof.
  revert i. induction l as [|z l IH]; intros [|i] Hi; simplify_eq/=; [lia|].
  specialize (IH i Hi). lia.
Qed.

Lemma sum_wake ws : (sum_list_with worker_work (wake <$> ws) ≤ sum_list_with worker_work ws)%nat.
Proof. induction ws as [|x ws IH]; [done|]. rewrite fmap_cons. cbn [sum_list_with]. destruct x; simpl; lia. Qed.

Lemma called_stops p : Inv p → dtor p ≠ NotCalled → stop p = true.
Proof.
  intros HI Hd. pose proof (p_dtor p HI) as H. unfold dtor_ok in H.
  destruct (dtor p); [done|done|by destruct H..].
Qed.

Lemma worker_section_work p i :
  stop p = true → workers p !! i = Some Ready →
  (work (worker_section i p) < work p)%nat ∧ dtor (worker_section i p) = dtor p.
Proof.
  intros Hst Hi. unfold worker_section. rewrite Hst. simpl.
  destruct (tasks p) as [|t ts] eqn:Et; split; try done; unfold work; simpl;
    rewrite ?Et, length_insert; simpl length.
  - pose proof (sum_insert worker_work (workers p) i Ready Returned Hi) as E. simpl in E. lia.
  - pose proof (sum_insert worker_work (workers p) i Ready (Running t) Hi) as E. simpl in E. lia.
Qed.

Lemma wake_one_work p i :
  workers p !! i = Some Asleep → (work (set_worker i Ready p) < work p)%nat.
Proof.
  intros Hi. pose proof (sum_insert worker_work (workers p) i Asleep Ready Hi) as E.
  simpl in E. unfold work. simpl. rewrite length_insert. lia.
Qed.

Lemma act_work p p' :
  Inv p → dtor p ≠ NotCalled → act p p' → (work p' < work p)%nat ∧ dtor p' ≠ NotCalled.
Proof.
  intros HI Hc Ha. pose proof (called_stops p HI Hc) as Hst.
  destruct Ha as [p i Hi|p i t r Hi|p m i Hm Hi|p m Hm Hno|p Hd|p k Hd Hk|p Hd].
  - destruct (worker_section_work p i Hst Hi) as [? ->]. done.
  - split; [|done]. pose proof (sum_insert worker_work (workers p) i (Running t) Ready Hi) as E.
    simpl in E. unfold work. simpl. rewrite length_insert. lia.
  - split; [|done]. pose proof (wake_one_work (set_notify_one m p) i Hi) as Hw.
    assert (work (set_notify_one m p) ≤ work p)%nat by (unfold work; simpl; lia). lia.
  - split; [|done]. unfold work. simpl. lia.
  - split; [|done]. pose proof (sum_wake (workers p)). unfold work. simpl. rewrite length_fmap, Hd. simpl. lia.
  - split; [|done]. apply lookup_lt_Some in Hk. unfold work. simpl. rewrite Hd. simpl. lia.
  - split; [|done]. unfold work. simpl. rewrite Hd. simpl. lia.
Qed.

(** Once the destructor is called, every step leaves less to do. *)
Lemma step_work p p' :
  Inv p → dtor p ≠ NotCalled → step p p' → (work p' < work p)%nat ∧ dtor p' ≠ NotCalled.
Proof.
  intros HI Hc Hstep. destruct Hstep as [p p' Ha|p p' t He|p i Hi|p Hd]; [| | |done].
  - by apply act_work.
  - unfold enqueue in He. by rewrite (called_stops p HI Hc) in He.
  - split; [by apply wake_one_work|done].
Qed.

Lemma nsteps_work k p p' :
  Inv p → dtor p ≠ NotCalled → nsteps step k p p' → (k + work p' ≤ work p)%nat.
Proof.
  intros HI Hc Hs. induction Hs as [|k p1 p2 p3 H1 _ IH]; [lia|].
  destruct (step_work p1 p2 HI Hc H1) as [Hw Hc2]. specialize (IH (pool_Inv_step _ _ HI H1) Hc2). lia.
Qed.

Lemma star_called p p' : Inv p → dtor p ≠ NotCalled → star step p p' → Inv p' ∧ dtor p' ≠ NotCalled.
Proof.
  intros HI Hc Hs. eapply (star_invariant step (λ q, Inv q ∧ dtor q ≠ NotCalled)); [|exact Hs|done].
  intros q q' [Hq Hqc] H1. split; [by eapply pool_Inv_step|]. by apply (step_work q q').
Qed.

(** The destructor does not wait in vain. *)
Lemma destructor_goes_on p :
  Inv p → dtor p ≠ NotCalled → dtor p ≠ Gone → ∃ p', act p p'.
Proof.
  intros HI Hc Hg. pose proof (p_dtor p HI) as Hd. unfold dtor_ok in Hd.
  destruct (dtor p) as [| |k|] eqn:Ed; [done| | |done].
  - eexists. by apply act_notify_all.
  - destruct Hd as (_ & Hk & Ha & _). destruct (decide (k = length (workers p))) as [->|Hne].
    { eexists. by apply act_joined. }
    destruct (lookup_lt_is_Some_2 (workers p) k) as [x Hx]; [lia|]. destruct x as [| |t|].
    + eexists. by apply (act_worker p k).
    + destruct Ha. by eapply list_elem_of_lookup_2.
    + eexists. by apply (act_finish p k t (Returns 0)).
    + eexists. by apply (act_join p k).
Qed.

(** A submitter that is slow to call [notify_one] can find the pool gone: the
    destructor does not wait for the calls of [enqueue]. *)
Theorem notification_may_be_late :
  ∃ p, star step (ThreadPool_new 1) p ∧ dtor p = Gone ∧ notify_one p = 1%nat ∧ tasks p = [].
Proof.
  eexists. split.
  - eapply star_step; [by eapply step_enqueue|].
    eapply star_step; [by apply step_destroy|].
    eapply star_step; [by apply step_act, act_notify_all|].
    eapply star_step; [by apply step_act, (act_worker _ 0%nat)|].
    eapply star_step; [by apply step_act, (act_finish _ 0%nat 0%nat (Returns 3))|].
    eapply star_step; [by apply step_act, (act_worker _ 0%nat)|].
    eapply star_step; [by apply step_act, (act_join _ 0%nat)|].
    eapply star_step; [by apply step_act, act_joined|]. apply star_refl.
  - split_and!; reflexivity.
Qed.

(** ** Properties *)

(** C17: the pool of [n] threads implements an executor that starts tasks in the order
    of their submission, has at most [n] running at a time, and sets the future of
    each once: every step, of any thread, is a step of the executor or changes
    nothing that it has, and a future that is set is never changed. *)
Theorem pool_refines_executor n p :
  star step (ThreadPool_new n) p →
  star (executes n) idle (executor_of p)
  ∧ (∀ p', step p p' → executor_of p' = executor_of p ∨ executes n (executor_of p) (executor_of p'))
  ∧ ∀ p' t r, star step p p' → futures p !! t = Some (Some r) → futures p' !! t = Some (Some r).
Proof.
  intros Hs. pose proof (pool_Inv_reachable n p Hs) as HI. pose proof (length_workers n p Hs) as Hn.
  split_and!.
  - assert (executor_of (ThreadPool_new n) = idle) as <-.
    { unfold executor_of, running. simpl. rewrite (list_to_set_perm_L _ []); [done|].
      clear. by induction n. }
    apply star_executes; [apply Inv_new|apply length_replicate|done].
  - intros p'. by apply step_executes.
  - intros p' t r Hs' Hf. by apply (outcome_stays n (executor_of p) (executor_of p')); [apply star_executes|].
Qed.

(** C18: the destructor of a pool with threads returns, whatever the threads do from
    the time it is called: there are at most [work p] steps, spurious wake-ups
    included, and always a next one until it has returned; then no task is queued and
    every future that [enqueue] gave out is set. *)
Theorem destructor_returns n p :
  star step (ThreadPool_new (S n)) p → dtor p ≠ NotCalled →
  (∀ k p', nsteps step k p p' → (k ≤ work p)%nat)
  ∧ ∀ p', star step p p' →
      (dtor p' ≠ Gone ∧ ∃ p'', act p' p'')
      ∨ (dtor p' = Gone ∧ tasks p' = []
         ∧ ∀ t, (t < length (futures p'))%nat → ∃ r, futures p' !! t = Some (Some r)).
Proof.
  intros Hs Hc. pose proof (pool_Inv_reachable _ _ Hs) as HI. split.
  { intros k p' Hk. pose proof (nsteps_work k p p' HI Hc Hk). lia. }
  intros p' Hs'. destruct (star_called p p' HI Hc Hs') as [HI' Hc'].
  assert (dtor p' = Gone ∨ dtor p' ≠ Gone) as [Hg|Hg] by (destruct (dtor p'); auto).
  2: { left. split; [done|]. by apply destructor_goes_on. }
  right. split; [done|].
  pose proof (length_workers _ p' (star_trans _ _ _ _ Hs Hs')) as Hl.
  pose proof (p_dtor p' HI') as Hd. unfold dtor_ok in Hd. rewrite Hg in Hd.
  destruct (joined_drained p' HI') as [Ht Hsub]; [by intros Hw; rewrite Hw in Hl|by apply Hd|].
  split; [done|]. intros t Hlt. assert (t ∈ submitted p') as Hin by (apply elem_of_seq; lia).
  rewrite Hsub in Hin. apply list_elem_of_fmap in Hin as ([t' r] & -> & Hin). exists r.
  by apply (p_futures p' HI').
Qed.

(** ** Instances *)

Lemma pool_refines_executor_witness :
  ∃ p, star (executes 2) idle (executor_of p) ∧ queued (executor_of p) = [1%nat]
    ∧ ∀ p', star step p p' → futures p' !! 0%nat = Some (Some (Throws 5)).
Proof.
  destruct two_workers as (p & Hs & _ & Ht & Hf). exists p.
  destruct (pool_refines_executor 2 p Hs) as (Hex & _ & Hst). split; [exact Hex|]. split; [exact Ht|].
  intros p' Hs'. apply (Hst p' 0%nat (Throws 5) Hs').
  apply (p_futures p (pool_Inv_reachable 2 p Hs)). rewrite Hf. by left.
Defined.

Lemma destructor_returns_witness :
  ∃ p, dtor p = Stopped ∧ submitted p = [0%nat] ∧ ∀ k p', nsteps step k p p' → (k ≤ work p)%nat.
Proof.
  destruct one_worker as (p & Hs & _ & Hsub & Hd). exists p. split; [exact Hd|]. split; [exact Hsub|].
  apply (destructor_returns 0 p Hs). rewrite Hd. discriminate.
Defined.
