(* ===== verification/Mongo.v ===== *)
(** * The MongoDB access layer (mong-c-test)

    [MongoDBConnectionPool] and [DBIOMongoDB] of dbio_mongodb.cpp.  libmongoc and
    the server are outside the repository: the class [Mongoc].  A BSON document is
    the list of its fields; what the code relies on of libbson is that an append
    adds a field at the end and an iterator visits the fields in order.  A
    [std::map] is a finite map, walked in the order of its keys.  The memory of
    documents that are never destroyed is not modelled. *)

From stdpp Require Import sorting.
From S2P Require Import Prelude.

(** ** Documents *)

#[warnings="-register-all"]
Inductive bson_value : Type :=
| BSON_TYPE_UTF8 (s : string)
| BSON_TYPE_ARRAY (fields : list (string * bson_value))
| BSON_TYPE_DOCUMENT (fields : list (string * bson_value))
| BSON_TYPE_OTHER (type : Z).

Abbreviation bson := (list (string * bson_value)).

Abbreviation record := (gmap string string).

(** [BSON_APPEND_UTF8(doc, key.c_str(), value.c_str())] *)
Definition append_utf8 (doc : bson) (kv : string * string) : bson :=
  doc ++ [(cstr kv.1, BSON_TYPE_UTF8 (cstr kv.2))].

Definition key_le {A} (x y : string * A) : Prop := String.leb x.1 y.1 = true.

#[export] Instance key_le_dec {A} (x y : string * A) : Decision (key_le x y).
Proof. apply bool_eq_dec. Defined.

(** The entries of a [std::map], in the order of iteration. *)
Definition entries {A} (m : gmap string A) : list (string * A) :=
  merge_sort key_le (map_to_list m).

(** [for (auto &itr : m) BSON_APPEND_UTF8(doc, ...);] *)
Definition append_map (doc : bson) (m : record) : bson := foldl append_utf8 doc (entries m).

(** ** Reading documents *)

(** The [switch] of GetRecord. *)
Definition record_field (tmp_data : record) (f : string * bson_value) : record :=
  match f.2 with
  | BSON_TYPE_UTF8 s => <[cstr f.1 := cstr s]> tmp_data
  | _ => tmp_data
  end.

Definition GetRecord (doc : bson) (msg_data : list record) : list record :=
  let tmp_data := foldl record_field ∅ doc in
  if (size tmp_data <? 1)%nat then msg_data else msg_data ++ [tmp_data].

(** The variables of GetVecRecord that live through its loops; [v_child1] says
    whether the iterator [child1] has been set. *)
Record vec_state : Type := mkVec {
  v_value : string;
  v_tmp_data : record;
  v_child1 : bool;
  v_msg_data : list record;
}.

(** The innermost [while]: a value that is not a string leaves [value] as it was. *)
Definition vec_field (st : vec_state) (f : string * bson_value) : vec_state :=
  let value := match f.2 with BSON_TYPE_UTF8 s => cstr s | _ => v_value st end in
  mkVec value (<[cstr f.1 := value]> (v_tmp_data st)) (v_child1 st) (v_msg_data st).

(** The loop over an array: one record is pushed for each element, with all that
    [tmp_data] has gathered. *)
Fixpoint vec_array (es : bson) (st : vec_state) : fault + vec_state :=
  match es with
  | [] => inr st
  | (_, e) :: es' =>
      let inner :=
        match e with
        | BSON_TYPE_DOCUMENT fs | BSON_TYPE_ARRAY fs =>
            inr (foldl vec_field (mkVec (v_value st) (v_tmp_data st) true (v_msg_data st)) fs)
        | _ => if v_child1 st then inr st else inl UninitRead
        end in
      match inner with
      | inl e => inl e
      | inr st =>
          vec_array es' (mkVec (v_value st) (v_tmp_data st) (v_child1 st)
                           (v_msg_data st ++ [v_tmp_data st]))
      end
  end.

(** The outer loop. *)
Fixpoint vec_loop (doc : bson) (st : vec_state) : fault + vec_state :=
  match doc with
  | [] => inr st
  | (key, BSON_TYPE_UTF8 s) :: doc' =>
      vec_loop doc' (mkVec (cstr s) (<[cstr key := cstr s]> (v_tmp_data st)) (v_child1 st) (v_msg_data st))
  | (_, BSON_TYPE_ARRAY es) :: doc' =>
      match vec_array es (mkVec (v_value st) ∅ (v_child1 st) (v_msg_data st)) with
      | inl e => inl e
      | inr st => vec_loop doc' st
      end
  | _ :: doc' => vec_loop doc' st
  end.

Definition GetVecRecord (doc : bson) (msg_data : list record) : fault + list record :=
  match vec_loop doc (mkVec EmptyString ∅ false msg_data) with
  | inl e => inl e
  | inr st => inr (v_msg_data st)
  end.

(** ** libmongoc *)

Definition client : Type := nat.
Definition handle : Type := nat.

Class Mongoc (D : Type) : Type := {
  mongoc_uri_new : D → string → option handle * D;
  mongoc_client_pool_new : D → option handle → option handle * D;
  mongoc_client_pool_destroy : D → handle → D;
  mongoc_uri_destroy : D → handle → D;
  mongoc_cleanup : D → D;
  mongoc_client_pool_pop : D → handle → option client * D;
  mongoc_client_pool_push : D → handle → client → D;
  mongoc_collection_insert : D → client → string → string → bson → bool * D;
  mongoc_collection_remove : D → client → string → string → bson → bool * D;
  mongoc_collection_update : D → client → string → string → bson → bson → bool * D;
  mongoc_collection_insert_many : D → client → string → string → list bson → bool * D;
  mongoc_collection_find : D → client → string → string → bson → option bson → handle * D;
  mongoc_cursor_error : D → handle → bool;
  mongoc_cursor_more : D → handle → bool;
  mongoc_cursor_next : D → handle → (bool * option bson) * D;
  mongoc_cursor_destroy : D → handle → D;
}.

(** [MongoDBConnectionPool], and the state of the library. *)
Record mongo (D : Type) : Type := mkMongo {
  lib : D;
  m_pool : option handle;
  m_url : option handle;
}.
Arguments mkMongo {D}.
Arguments lib {D} _.
Arguments m_pool {D} _.
Arguments m_url {D} _.

Section Pool.
Context {D : Type} `{Mongoc D}.

Definition call {A} (f : D → A * D) : M (mongo D) A := λ w,
  let '(a, d) := f (lib w) in Ok a (mkMongo d (m_pool w) (m_url w)).

Definition call_ (f : D → D) : M (mongo D) unit := call (λ d, (tt, f d)).

(** mongodb_init and create_client_pool; the result is always [true]. *)
Definition create_client_pool (url : string) : M (mongo D) bool :=
  uri ← call (λ d, mongoc_uri_new d (cstr url));
  client_pool ← call (λ d, mongoc_client_pool_new d uri);
  modify (λ w, mkMongo (lib w) client_pool uri) ;;
  mret true.

Definition destory_client_pool : M (mongo D) bool :=
  w ← get;
  match m_url w, m_pool w with
  | Some url, Some pool =>
      call_ (λ d, mongoc_client_pool_destroy d pool) ;;
      call_ (λ d, mongoc_uri_destroy d url) ;;
      call_ mongoc_cleanup ;;
      mret true
  | _, _ => mret false
  end.

(** The pool that [m_pool] points to, which the calls of libmongoc need. *)
Definition the_pool : M (mongo D) handle := λ w,
  match m_pool w with
  | Some pool => Ok pool w
  | None => Fault NullDeref
  end.

Definition pop : M (mongo D) (option client) :=
  pool ← the_pool; call (λ d, mongoc_client_pool_pop d pool).

Definition push (c : client) : M (mongo D) unit :=
  pool ← the_pool; call_ (λ d, mongoc_client_pool_push d pool c).

(** The common text of insert_coll, delete_coll and update_coll: [op] is the call on
    the collection. *)
Definition write_coll (op : client → D → bool * D) : M (mongo D) bool :=
  client ← pop;
  match client with
  | None => mret false
  | Some c => ok ← call (op c); push c ;; mret ok
  end.

Definition insert_coll (db coll : string) (doc : bson) : M (mongo D) bool :=
  write_coll (λ c d, mongoc_collection_insert d c db coll doc).

Definition delete_coll (db coll : string) (doc : bson) : M (mongo D) bool :=
  write_coll (λ c d, mongoc_collection_remove d c db coll doc).

Definition update_coll (db coll : string) (query doc : bson) : M (mongo D) bool :=
  write_coll (λ c d, mongoc_collection_update d c db coll query doc).

(** [*docs], after the call, is the first document of an array that has one. *)
Definition batch_insert_coll (db coll : string) (docs : list bson) : M (mongo D) bool :=
  client ← pop;
  match client with
  | None => mret false
  | Some c =>
      ok ← call (λ d, mongoc_collection_insert_many d c db coll docs);
      match docs with
      | [] => throw OutOfBounds
      | _ :: _ => push c ;; mret ok
      end
  end.

(** The [while] over a cursor, for at most [fuel] turns; [doc] is the variable
    of that name, [None] while it has no value. *)
Fixpoint read_cursor {A} (fuel : nat) (get_record : bson → A → fault + A) (cursor : handle)
    (doc : option (option bson)) (msg_data : A) : M (mongo D) (option (option bson) * A) :=
  match fuel with
  | O => throw OutOfFuel
  | S fuel' =>
      w ← get;
      if negb (mongoc_cursor_error (lib w) cursor) && mongoc_cursor_more (lib w) cursor then
        r ← call (λ d, mongoc_cursor_next d cursor);
        match r with
        | (true, Some d) =>
            match get_record d msg_data with
            | inl e => throw e
            | inr msg_data => read_cursor fuel' get_record cursor (Some (Some d)) msg_data
            end
        | (true, None) => throw NullDeref
        | (false, out) => read_cursor fuel' get_record cursor (Some out) msg_data
        end
      else mret (doc, msg_data)
  end.

(** [if (doc) free_bjson(doc); delete doc;]: the document belongs to the cursor. *)
Definition delete_doc (doc : option (option bson)) : M (mongo D) unit :=
  match doc with
  | None => throw UninitRead
  | Some None => mret tt
  | Some (Some _) => throw BadFree
  end.

(** The common text of select_coll and select_coll_by_fields. *)
Definition select_with {A} (fuel : nat) (get_record : bson → A → fault + A) (db coll : string)
    (query : bson) (fields : option bson) (msg_data : A) : M (mongo D) (bool * A) :=
  client ← pop;
  match client with
  | None => mret (false, msg_data)
  | Some c =>
      cursor ← call (λ d, mongoc_collection_find d c db coll query fields);
      r ← read_cursor fuel get_record cursor None msg_data;
      w ← get;
      let result := negb (mongoc_cursor_error (lib w) cursor) in
      delete_doc (fst r) ;;
      call_ (λ d, mongoc_cursor_destroy d cursor) ;;
      push c ;;
      mret (result, snd r)
  end.

Definition select_coll (fuel : nat) (db coll : string) (query : bson) (msg_data : list record)
    : M (mongo D) (bool * list record) :=
  select_with fuel (λ d l, inr (GetRecord d l)) db coll query None msg_data.

Definition select_coll_by_fields (fuel : nat) (db coll : string) (query fields : bson)
    (msg_data : list record) : M (mongo D) (bool * list record) :=
  select_with fuel GetVecRecord db coll query (Some fields) msg_data.

(** The [while] of find_coll: whether a document was found. *)
Fixpoint find_cursor (fuel : nat) (cursor : handle) : M (mongo D) bool :=
  match fuel with
  | O => throw OutOfFuel
  | S fuel' =>
      w ← get;
      if negb (mongoc_cursor_error (lib w) cursor) && mongoc_cursor_more (lib w) cursor then
        r ← call (λ d, mongoc_cursor_next d cursor);
        if (fst r : bool) then mret true else find_cursor fuel' cursor
      else mret false
  end.

(** A document found is returned at once, without the cursor being destroyed or
    the client pushed back. *)
Definition find_coll (fuel : nat) (db coll : string) (query : bson) : M (mongo D) bool :=
  client ← pop;
  match client with
  | None => mret false
  | Some c =>
      cursor ← call (λ d, mongoc_collection_find d c db coll query None);
      found ← find_cursor fuel cursor;
      if (found : bool) then mret true
      else
        call_ (λ d, mongoc_cursor_destroy d cursor) ;;
        push c ;;
        mret false
  end.

(** ** DBIOMongoDB *)

Definition empty_map {A} (m : gmap string A) : bool := (size m <? 1)%nat.

(** A new MongoDBConnectionPool, and its mongodb_init. *)
Definition dbio_mongodb_init (url : string) : M (mongo D) bool :=
  modify (λ w, mkMongo (lib w) None None) ;;
  _ ← create_client_pool url;
  mret true.

Definition dbio_mongodb_cleanup : M (mongo D) bool := destory_client_pool.

Definition dbio_select_all (fuel : nat) (db coll : string) (msg_data : list record)
    : M (mongo D) (bool * list record) :=
  select_coll fuel db coll [] msg_data.

Definition dbio_insert_coll (db coll : string) (map_data : record) : M (mongo D) bool :=
  insert_coll db coll (append_map [] map_data).

Definition dbio_delete_coll (db coll : string) (map_data : record) : M (mongo D) bool :=
  if empty_map map_data then mret false
  else delete_coll db coll (append_map [] map_data).

Definition dbio_update_coll (db coll : string) (map_query map_data : record) : M (mongo D) bool :=
  if empty_map map_data || empty_map map_query then mret false
  else update_coll db coll (append_map [] map_query) (append_map [] map_data).

Definition dbio_select_coll (fuel : nat) (db coll : string) (map_data : record)
    (msg_data : list record) : M (mongo D) (bool * list record) :=
  if empty_map map_data then mret (false, msg_data)
  else select_coll fuel db coll (append_map [] map_data) msg_data.

Definition dbio_find_coll (fuel : nat) (db coll : string) (map_data : record) : M (mongo D) bool :=
  find_coll fuel db coll (append_map [] map_data).

(** The array of documents under a key: the elements are named by their index. *)
Definition notice_array (ms : list record) : bson :=
  imap (λ i m, (pretty (N.of_nat i), BSON_TYPE_DOCUMENT (append_map [] m))) ms.

Definition notice_doc (id_map : record) (map_data : gmap string (list record)) : bson :=
  foldl (λ doc kv, doc ++ [(cstr kv.1, BSON_TYPE_ARRAY (notice_array kv.2))])
    (append_map [] id_map) (entries map_data).

Definition InsertNoticeColl (db coll : string) (id_map : record)
    (map_data : gmap string (list record)) : M (mongo D) bool :=
  if empty_map map_data then mret false
  else insert_coll db coll (notice_doc id_map map_data).

(** The document of PushNoticeColl and DelNoticeColl, under their operator. *)
Definition operator_doc (operator : string) (map_data : gmap string record) : bson :=
  [(operator, BSON_TYPE_DOCUMENT
      (foldl (λ doc kv, doc ++ [(cstr kv.1, BSON_TYPE_DOCUMENT (append_map [] kv.2))])
         [] (entries map_data)))].

Definition PushNoticeColl (db coll : string) (id_map : record) (map_data : gmap string record)
    : M (mongo D) bool :=
  if empty_map map_data then mret false
  else update_coll db coll (append_map [] id_map) (operator_doc "$push" map_data).

Definition DelNoticeColl (db coll : string) (id_map : record) (map_data : gmap string record)
    : M (mongo D) bool :=
  if empty_map map_data then mret false
  else update_coll db coll (append_map [] id_map) (operator_doc "$pull" map_data).

Definition SelectNoticeColl (fuel : nat) (db coll : string) (id_map : record)
    (field_map : list string) (map_data : list record) : M (mongo D) (bool * list record) :=
  select_coll_by_fields fuel db coll (append_map [] id_map)
    (foldl (λ doc key, append_utf8 doc (key, "1"%string)) [] field_map) map_data.
End Pool.

(** ** Specifications *)

(** What the manual says of a cursor, as far as it is read: the documents it
    yields, what the variable [doc] holds at the end, and the state then. *)
Inductive cursor_run {D} `{Mongoc D} (cur : handle)
    : D → option (option bson) → list bson → option (option bson) → D → Prop :=
| run_end d doc :
    mongoc_cursor_error d cur = true ∨ mongoc_cursor_more d cur = false →
    cursor_run cur d doc [] doc d
| run_some d d' doc b ds doc' d2 :
    mongoc_cursor_error d cur = false → mongoc_cursor_more d cur = true →
    mongoc_cursor_next d cur = ((true, Some b), d') →
    cursor_run cur d' (Some (Some b)) ds doc' d2 → cursor_run cur d doc (b :: ds) doc' d2
| run_none d d' doc out ds doc' d2 :
    mongoc_cursor_error d cur = false → mongoc_cursor_more d cur = true →
    mongoc_cursor_next d cur = ((false, out), d') →
    cursor_run cur d' (Some out) ds doc' d2 → cursor_run cur d doc ds doc' d2.

(** The clients that are out of the pool: the other calls do not change them. *)
Class MongocLaws (D : Type) `{Mongoc D} : Type := {
  out_of_pool : D → Z;
  pop_law d p c d' : mongoc_client_pool_pop d p = (c, d') →
    out_of_pool d' = out_of_pool d + match c with Some _ => 1 | None => 0 end;
  push_law d p c : out_of_pool (mongoc_client_pool_push d p c) = out_of_pool d - 1;
  insert_law d c db coll doc : out_of_pool (mongoc_collection_insert d c db coll doc).2 = out_of_pool d;
  remove_law d c db coll doc : out_of_pool (mongoc_collection_remove d c db coll doc).2 = out_of_pool d;
  update_law d c db coll q doc : out_of_pool (mongoc_collection_update d c db coll q doc).2 = out_of_pool d;
  insert_many_law d c db coll docs :
    out_of_pool (mongoc_collection_insert_many d c db coll docs).2 = out_of_pool d;
  find_law d c db coll q f : out_of_pool (mongoc_collection_find d c db coll q f).2 = out_of_pool d;
  next_law d cur : out_of_pool (mongoc_cursor_next d cur).2 = out_of_pool d;
  destroy_law d cur : out_of_pool (mongoc_cursor_destroy d cur) = out_of_pool d;
}.

(** A string that survives being passed as a C string. *)
Definition no_nul (s : string) : Prop := cstr s = s.

(** The string fields of a document. *)
Definition utf8_fields (kvs : list (string * string)) : bson :=
  (λ kv, (kv.1, BSON_TYPE_UTF8 kv.2)) <$> kvs.

(** ** Documents *)

Lemma entries_Permutation {A} (m : gmap string A) : entries m ≡ₚ map_to_list m.
Proof. apply merge_sort_Permutation. Qed.

Lemma append_map_fields m : append_map [] m
  = utf8_fields ((λ kv, (cstr kv.1, cstr kv.2)) <$> entries m).
Proof.
  unfold append_map. assert (∀ doc l, foldl append_utf8 doc l
    = doc ++ utf8_fields ((λ kv, (cstr kv.1, cstr kv.2)) <$> l)) as H; [|by rewrite H].
  intros doc l. revert doc. induction l as [|kv l IH]; intros doc; simpl; [by rewrite app_nil_r|].
  rewrite IH. unfold append_utf8. by rewrite <- app_assoc.
Qed.

(** Reading string fields one after the other makes the map of them. *)
Lemma record_fields m0 (kvs : list (string * string)) :
  Forall (λ kv, no_nul kv.1 ∧ no_nul kv.2) kvs →
  foldl record_field m0 (utf8_fields kvs) = foldl (λ m kv, <[kv.1 := kv.2]> m) m0 kvs.
Proof.
  intros Hn. revert m0. induction Hn as [|kv kvs [Hk Hv] _ IH]; intros m0; simpl; [done|].
  rewrite IH. unfold record_field. simpl. by rewrite Hk, Hv.
Qed.

Lemma insert_list_to_map (kvs : list (string * string)) :
  NoDup kvs.*1 → foldl (λ m kv, <[kv.1 := kv.2]> m) ∅ kvs = list_to_map (M := record) kvs.
Proof.
  intros Hnd. assert (∀ m0 : record, foldl (λ m kv, <[kv.1 := kv.2]> m) m0 kvs
    = (list_to_map kvs : record) ∪ m0) as H; [|by rewrite H, map_union_empty].
  induction kvs as [|[k v] kvs IH]; intros m0; simpl; [by rewrite map_empty_union|].
  simpl in Hnd. apply NoDup_cons in Hnd as [Hk Hnd]. rewrite IH by done.
  rewrite <- insert_union_r; [by rewrite insert_union_l|]. by apply not_elem_of_list_to_map_1.
Qed.

Lemma map_record (m : record) :
  (∀ k v, m !! k = Some v → no_nul k ∧ no_nul v) →
  foldl record_field ∅ (append_map [] m) = m.
Proof.
  intros Hn. rewrite append_map_fields.
  assert ((λ kv : string * string, (cstr kv.1, cstr kv.2)) <$> entries m = entries m) as E.
  { assert (∀ l : list (string * string), (∀ kv, kv ∈ l → m !! kv.1 = Some kv.2) →
      (λ kv : string * string, (cstr kv.1, cstr kv.2)) <$> l = l) as Hl.
    { induction l as [|[k v] l IH]; intros Hin; [done|]. rewrite fmap_cons, IH.
      - destruct (Hn k v) as [Hk Hv]; [apply (Hin (k, v)); by left|]. unfold no_nul in *. simpl. by rewrite Hk, Hv.
      - intros kv Hkv. apply Hin. by right. }
    apply Hl. intros [k v] Hkv. rewrite entries_Permutation in Hkv. by apply elem_of_map_to_list. }
  rewrite E, record_fields.
  - rewrite insert_list_to_map.
    + rewrite (list_to_map_proper _ (map_to_list m)), list_to_map_to_list; [done| |].
      * rewrite entries_Permutation. apply NoDup_fst_map_to_list.
      * apply entries_Permutation.
    + rewrite entries_Permutation. apply NoDup_fst_map_to_list.
  - apply Forall_forall. intros [k v] Hkv. rewrite entries_Permutation in Hkv.
    apply Hn. by apply elem_of_map_to_list.
Qed.

(** ** Cursors *)

Section CursorLemmas.
Context {D : Type} `{Mongoc D}.

Lemma read_cursor_run {A} (get_record : bson → A → A) cur d doc ds doc' d2 p u msg :
  cursor_run cur d doc ds doc' d2 →
  ∃ n, ∀ fuel, (n ≤ fuel)%nat →
    read_cursor fuel (λ b l, inr (get_record b l)) cur doc msg (mkMongo d p u)
    = Ok (doc', foldl (λ l b, get_record b l) msg ds) (mkMongo d2 p u).
Proof.
  intros Hrun. revert msg. induction Hrun as [d doc Hend|d d' doc b ds doc' d2 He Hm Hn _ IH
    |d d' doc out ds doc' d2 He Hm Hn _ IH]; intros msg.
  - exists 1%nat. intros [|fuel] Hf; [lia|]. simpl. rewrite get_bind. simpl.
    destruct Hend as [->| ->]; simpl; [done|]. by rewrite andb_false_r.
  - destruct (IH (get_record b msg)) as [n Hn']. exists (S n). intros [|fuel] Hf; [lia|].
    simpl. rewrite get_bind. simpl. rewrite He, Hm. simpl. unfold call at 1, mbind, M_bind. simpl.
    rewrite Hn. simpl. apply Hn'. lia.
  - destruct (IH msg) as [n Hn']. exists (S n). intros [|fuel] Hf; [lia|].
    simpl. rewrite get_bind. simpl. rewrite He, Hm. simpl. unfold call at 1, mbind, M_bind. simpl.
    rewrite Hn. simpl. apply Hn'. lia.
Qed.
End CursorLemmas.

(** ** Clients *)

Section ClientLemmas.
Context {D : Type} `{MongocLaws D}.
Implicit Types (w : mongo D).

(** A computation that changes the number of clients in use by [n]. *)
Definition uses {A} (n : A → Z) (m : M (mongo D) A) : Prop :=
  ∀ w a w', m w = Ok a w' → out_of_pool (lib w') = out_of_pool (lib w) + n a.

Lemma uses_bind {A B} (n : A → Z) (k : B → Z) m (f : A → M (mongo D) B) :
  uses n m → (∀ a, uses (λ b, k b - n a) (f a)) → uses k (m ≫= f).
Proof.
  intros Hm Hf w b w' E. apply bind_Ok in E as (a & w1 & E1 & E2).
  apply Hm in E1. apply Hf in E2. lia.
Qed.

Lemma uses_ret {A} (n : A → Z) (a : A) : n a = 0 → uses n (mret a).
Proof. intros Hn w a' w' [= <- <-]. lia. Qed.

Lemma uses_call {A} (n : A → Z) (f : D → A * D) :
  (∀ d, out_of_pool (f d).2 = out_of_pool d + n (f d).1) → uses n (call f).
Proof.
  intros Hf w a w'. unfold call. pose proof (Hf (lib w)) as Hd. destruct (f (lib w)) as [a0 d].
  intros [= <- <-]. exact Hd.
Qed.

Definition in_use (c : option client) : Z := match c with Some _ => 1 | None => 0 end.

Lemma uses_pop : uses in_use pop.
Proof.
  unfold pop. apply (uses_bind (λ _, 0)).
  - intros w a w'. unfold the_pool. destruct (m_pool w); [intros [= _ <-]; lia|done].
  - intros p. apply uses_call. intros d. destruct (mongoc_client_pool_pop d p) as [c d'] eqn:E.
    simpl. apply pop_law in E. unfold in_use. lia.
Qed.

Lemma uses_push c : uses (λ _, -1) (push c).
Proof.
  unfold push. apply (uses_bind (λ _, 0)).
  - intros w a w'. unfold the_pool. destruct (m_pool w); [intros [= _ <-]; lia|done].
  - intros p. apply uses_call. intros d. simpl. rewrite push_law. lia.
Qed.

Lemma uses_write_coll op :
  (∀ c d, out_of_pool (op c d).2 = out_of_pool d) → uses (λ _, 0) (write_coll op).
Proof.
  intros Hop. unfold write_coll. apply (uses_bind in_use); [apply uses_pop|].
  intros [c|]; [|by apply uses_ret]. apply (uses_bind (λ _, 0)).
  - apply uses_call. intros d. rewrite Hop. lia.
  - intros ok. apply (uses_bind (λ _, -1)); [apply uses_push|]. intros []. by apply uses_ret.
Qed.

Lemma uses_batch_insert_coll db coll docs : uses (λ _, 0) (batch_insert_coll db coll docs).
Proof.
  unfold batch_insert_coll. apply (uses_bind in_use); [apply uses_pop|].
  intros [c|]; [|by apply uses_ret]. apply (uses_bind (λ _, 0)).
  - apply uses_call. intros d. rewrite insert_many_law. lia.
  - intros ok. destruct docs; [done|].
    apply (uses_bind (λ _, -1)); [apply uses_push|]. intros []. by apply uses_ret.
Qed.

Lemma uses_find_cursor fuel cur : uses (λ _, 0) (find_cursor fuel cur).
Proof.
  induction fuel as [|fuel IH]; [done|]. simpl. intros w a w'. rewrite get_bind.
  destruct (negb _ && _); [|intros [= _ <-]; lia].
  revert w a w'. change (uses (λ _, 0) (r ← call (λ d, mongoc_cursor_next d cur);
    if (fst r : bool) then mret true else find_cursor fuel cur)).
  apply (uses_bind (λ _, 0)); [apply uses_call; intros d; rewrite next_law; lia|].
  intros [[] o]; simpl; [by apply uses_ret|]. exact IH.
Qed.

Lemma uses_find_coll fuel db coll query :
  uses (λ found : bool, if found then 1 else 0) (find_coll fuel db coll query).
Proof.
  unfold find_coll. apply (uses_bind in_use); [apply uses_pop|].
  intros [c|]; [|by apply uses_ret]. apply (uses_bind (λ _, 0)).
  - apply uses_call. intros d. rewrite find_law. lia.
  - intros cur. apply (uses_bind (λ _, 0)); [apply uses_find_cursor|]. intros [].
    + by apply uses_ret.
    + apply (uses_bind (λ _, 0)); [apply uses_call; intros d; simpl; rewrite destroy_law; lia|].
      intros []. apply (uses_bind (λ _, -1)); [apply uses_push|]. intros []. by apply uses_ret.
Qed.
End ClientLemmas.

(** The records that GetVecRecord makes of an array of documents. *)
Fixpoint merged (tmp : record) (es : list (list (string * string))) : list record :=
  match es with
  | [] => []
  | kvs :: es' =>
      let tmp' := foldl (λ m kv, <[kv.1 := kv.2]> m) tmp kvs in
      tmp' :: merged tmp' es'
  end.

Lemma vec_fields value tmp c1 msg kvs :
  Forall (λ kv, no_nul kv.1 ∧ no_nul kv.2) kvs →
  ∃ value', foldl vec_field (mkVec value tmp c1 msg) (utf8_fields kvs)
    = mkVec value' (foldl (λ m kv, <[kv.1 := kv.2]> m) tmp kvs) c1 msg.
Proof.
  intros Hn. revert value tmp. induction Hn as [|kv kvs [Hk Hv] _ IH]; intros value tmp; simpl; [by eexists|].
  unfold vec_field at 2; simpl. rewrite Hk, Hv. apply IH.
Qed.

Lemma vec_array_merged names es value tmp c1 msg :
  length names = length es → Forall (Forall (λ kv, no_nul kv.1 ∧ no_nul kv.2)) es →
  ∃ value' tmp' c1',
    vec_array (zip names ((λ kvs, BSON_TYPE_DOCUMENT (utf8_fields kvs)) <$> es)) (mkVec value tmp c1 msg)
    = inr (mkVec value' tmp' c1' (msg ++ merged tmp es)).
Proof.
  intros Hl Hn. revert names Hl value tmp c1 msg.
  induction Hn as [|kvs es Hk _ IH]; intros [|name names] Hl value tmp c1 msg; try done; simpl.
  { rewrite app_nil_r. by eexists _, _, _. }
  destruct (vec_fields value tmp true msg kvs Hk) as [value1 ->]. simpl.
  destruct (IH names ltac:(simpl in Hl; lia) value1 (foldl (λ m kv, <[kv.1 := kv.2]> m) tmp kvs) true
    (msg ++ [foldl (λ m kv, <[kv.1 := kv.2]> m) tmp kvs])) as (v' & t' & c' & E).
  exists v', t', c'. etransitivity; [exact E|]. by rewrite <- app_assoc.
Qed.

(** ** Properties *)

(** C26: a map written as a document is read back by GetRecord as the same map,
    whatever the order of its fields, if its strings have no zero characters. *)
Theorem record_round_trip (m : record) msg_data :
  m ≠ ∅ → (∀ k v, m !! k = Some v → no_nul k ∧ no_nul v) →
  GetRecord (append_map [] m) msg_data = msg_data ++ [m].
Proof.
  intros Hne Hn. unfold GetRecord. rewrite map_record by done.
  destruct (Nat.ltb_spec (size m) 1) as [Hlt|]; [|done].
  exfalso. apply Hne, map_size_empty_iff. lia.
Qed.

(** GetVecRecord does not start a new record for each document of an array:
    the record pushed for a document also has the fields of those before it. *)
Theorem GetVecRecord_merges key names es msg_data :
  length names = length es → Forall (Forall (λ kv, no_nul kv.1 ∧ no_nul kv.2)) es →
  GetVecRecord [(key, BSON_TYPE_ARRAY
      (zip names ((λ kvs, BSON_TYPE_DOCUMENT (utf8_fields kvs)) <$> es)))] msg_data
  = inr (msg_data ++ merged ∅ es).
Proof.
  intros Hl Hn. unfold GetVecRecord. simpl.
  destruct (vec_array_merged names es EmptyString ∅ false msg_data Hl Hn) as (v & t & c & E).
  by rewrite E.
Qed.

(** C27: [select_coll] reads the cursor to its end, adds the record of every
    document in order, and gives the client back, provided the last call of
    mongoc_cursor_next cleared [doc]; a cursor that fails at once leaves [doc]
    without a value, and a document left in [doc] is deleted, though it belongs
    to the cursor. *)
Theorem select_coll_collects {D : Type} `{Mongoc D} (w : mongo D) db coll query msg p c d1 cur d2 ds doc d3 :
  m_pool w = Some p → mongoc_client_pool_pop (lib w) p = (Some c, d1) →
  mongoc_collection_find d1 c db coll query None = (cur, d2) →
  cursor_run cur d2 None ds doc d3 →
  ∃ n, ∀ fuel, (n ≤ fuel)%nat →
    select_coll fuel db coll query msg w =
    match doc with
    | Some None =>
        Ok (negb (mongoc_cursor_error d3 cur), foldl (λ l b, GetRecord b l) msg ds)
           (mkMongo (mongoc_client_pool_push (mongoc_cursor_destroy d3 cur) p c) (Some p) (m_url w))
    | Some (Some _) => Fault BadFree
    | None => Fault UninitRead
    end.
Proof.
  intros Hp Hpop Hfind Hrun.
  destruct (read_cursor_run (λ b l, GetRecord b l) cur d2 None ds doc d3 (Some p) (m_url w) msg Hrun)
    as [n Hn].
  exists n. intros fuel Hf. unfold select_coll, select_with, pop, the_pool.
  unfold mbind, M_bind, call at 1. rewrite Hp. rewrite Hpop. unfold call at 1. simpl. rewrite Hfind.
  rewrite Hp. rewrite (Hn fuel Hf). simpl.
  destruct doc as [[b|]|]; reflexivity.
Qed.

(** C28: insert_coll, delete_coll, update_coll and batch_insert_coll give back the
    client that they take, on every branch on which they return; find_coll keeps one out
    of the pool for every document it finds. *)
Theorem clients_returned {D : Type} `{MongocLaws D} (w w' : mongo D) db coll q doc docs fuel b :
  (insert_coll db coll doc w = Ok b w' ∨ delete_coll db coll doc w = Ok b w'
   ∨ update_coll db coll q doc w = Ok b w' ∨ batch_insert_coll db coll docs w = Ok b w' →
   out_of_pool (lib w') = out_of_pool (lib w))
  ∧ (find_coll fuel db coll q w = Ok b w' →
     out_of_pool (lib w') = out_of_pool (lib w) + if b then 1 else 0).
Proof.
  split; [|apply uses_find_coll]. intros E.
  assert (∀ op, (∀ c d, out_of_pool (op c d).2 = out_of_pool d) → write_coll op w = Ok b w' →
    out_of_pool (lib w') = out_of_pool (lib w)) as Hw.
  { intros op Hop E'. apply uses_write_coll in E'; [lia|exact Hop]. }
  destruct E as [E|[E|[E|E]]]; [(eapply Hw; [|exact E]); intros c d..|].
  - apply insert_law.
  - apply remove_law.
  - apply update_law.
  - apply uses_batch_insert_coll in E. lia.
Qed.

(** With a client to be had, an empty batch reads past its array. *)
Theorem empty_batch_reads_docs {D : Type} `{Mongoc D} (w : mongo D) db coll p c d :
  m_pool w = Some p → mongoc_client_pool_pop (lib w) p = (Some c, d) →
  batch_insert_coll db coll [] w = Fault OutOfBounds.
Proof.
  intros Hp Ec. unfold batch_insert_coll, pop, the_pool, call, mbind, M_bind. rewrite Hp, Ec.
  by destruct (mongoc_collection_insert_many _ _ _ _ _).
Qed.

(** ** Instances *)

(** A library with documents to be found; [fake_more] is whether a cursor has not
    come to its end. *)
Record fake : Type := mkFake { fake_out : Z; fake_docs : list bson; fake_more : bool }.

#[export] Instance fake_Mongoc : Mongoc fake := {|
  mongoc_uri_new d url := (Some 1%nat, d);
  mongoc_client_pool_new d uri := (Some 2%nat, d);
  mongoc_client_pool_destroy d p := d;
  mongoc_uri_destroy d u := d;
  mongoc_cleanup d := d;
  mongoc_client_pool_pop d p := (Some 3%nat, mkFake (fake_out d + 1) (fake_docs d) (fake_more d));
  mongoc_client_pool_push d p c := mkFake (fake_out d - 1) (fake_docs d) (fake_more d);
  mongoc_collection_insert d c db coll doc := (true, d);
  mongoc_collection_remove d c db coll doc := (true, d);
  mongoc_collection_update d c db coll q doc := (true, d);
  mongoc_collection_insert_many d c db coll docs := (true, d);
  mongoc_collection_find d c db coll q f := (4%nat, d);
  mongoc_cursor_error d cur := false;
  mongoc_cursor_more d cur := fake_more d;
  mongoc_cursor_next d cur :=
    match fake_docs d with
    | [] => ((false, None), mkFake (fake_out d) [] false)
    | b :: bs => ((true, Some b), mkFake (fake_out d) bs true)
    end;
  mongoc_cursor_destroy d cur := d;
|}.

#[export] Instance fake_MongocLaws : MongocLaws fake.
Proof.
  refine {| out_of_pool := fake_out |}; simpl; try done.
  - by intros d p c d' [= <- <-].
  - intros d cur. by destruct (fake_docs d).
Defined.

Definition fake_world (docs : list bson) : mongo fake := mkMongo (mkFake 0 docs true) (Some 2%nat) (Some 1%nat).

Lemma record_round_trip_witness :
  GetRecord (append_map [] {["id" := "7"; "name" := "x"]}) [] = [{["id" := "7"; "name" := "x"]}].
Proof.
  apply record_round_trip; [by vm_compute|]. intros k v Hk.
  apply lookup_insert_Some in Hk as [[<- <-]|[_ Hk]]; [done|].
  apply lookup_singleton_Some in Hk as [<- <-]. done.
Defined.

Lemma GetVecRecord_merges_witness :
  GetVecRecord [("notices", BSON_TYPE_ARRAY
    [("0", BSON_TYPE_DOCUMENT [("a", BSON_TYPE_UTF8 "1")]);
     ("1", BSON_TYPE_DOCUMENT [("b", BSON_TYPE_UTF8 "2")])])] []
  = inr [{["a" := "1"]}; {["b" := "2"; "a" := "1"]}].
Proof.
  apply (GetVecRecord_merges "notices" ["0"; "1"] [[("a", "1")]; [("b", "2")]] []);
    [reflexivity|]. repeat constructor.
Defined.

Lemma select_coll_collects_witness :
  ∃ n, ∀ fuel, (n ≤ fuel)%nat →
    select_coll fuel "db" "c" [] [] (fake_world [[("a", BSON_TYPE_UTF8 "1")]])
    = Ok (true, [{["a" := "1"]}]) (mkMongo (mkFake 0 [] false) (Some 2%nat) (Some 1%nat)).
Proof.
  destruct (select_coll_collects (fake_world [[("a", BSON_TYPE_UTF8 "1")]]) "db" "c" [] [] 2%nat 3%nat
    (mkFake 1 [[("a", BSON_TYPE_UTF8 "1")]] true) 4%nat (mkFake 1 [[("a", BSON_TYPE_UTF8 "1")]] true)
    [[("a", BSON_TYPE_UTF8 "1")]] (Some None) (mkFake 1 [] false)) as [n Hn]; [reflexivity..| |].
  - eapply run_some; [reflexivity..|]. eapply run_none; [reflexivity..|].
    apply run_end. right. reflexivity.
  - exists n. intros fuel Hf. rewrite (Hn fuel Hf). vm_compute. reflexivity.
Defined.

Lemma clients_returned_witness :
  ∃ w', find_coll 5 "db" "c" [] (fake_world [[]]) = Ok true w' ∧ out_of_pool (lib w') = 1.
Proof.
  exists (mkMongo (mkFake 1 [] true) (Some 2%nat) (Some 1%nat)). split; [reflexivity|].
  destruct (clients_returned (fake_world [[]]) (mkMongo (mkFake 1 [] true) (Some 2%nat) (Some 1%nat))
    "db" "c" [] [] [] 5 true) as [_ Hfind]. exact (Hfind eq_refl).
Defined.
