(* ===== verification/Chat.v ===== *)
(** * The chat protocol (muduo/chat_server.cc, chat_client.cc)

    Messages are framed by their length, four bytes in network order.  The muduo
    library is outside the repository: a [muduo::net::Buffer] is the queue of its
    readable bytes, a connection is a name, and what is asked of connections
    ([send], [shutdown]) is a list of actions, in order; what the client hands to the
    logger is a list of messages.  The length of a frame is read where the queue begins
    through an [int32_t] pointer, which is not aligned for it after a message whose
    length is not a multiple of four; the model reads the four bytes. *)

From S2P Require Import Prelude.

Definition conn : Type := nat.

(** ** The frame *)

(** [htonl] of an [int32_t], as it is laid out in memory. *)
Definition htonl_bytes (len : Z) : list byte :=
  [Z_byte (u32 len / 2 ^ 24); Z_byte (u32 len / 2 ^ 16); Z_byte (u32 len / 2 ^ 8); Z_byte (u32 len)].

(** [ntohl(be32)], assigned to an [int32_t]. *)
Definition ntohl_bytes (data : list byte) : Z :=
  i32 (foldl (λ acc b, acc * 256 + byte_Z b) 0 (take 4 data)).

(** ChatServer::send and ChatClient::write: the buffer that is sent. *)
Definition encode (msg : list byte) : list byte :=
  htonl_bytes (i32 (Z.of_nat (length msg))) ++ msg.

(** One test of the [while] of the two onMessage functions. *)
Inductive frame : Type :=
| NeedMore
| Invalid (len : Z)
| Message (msg rest : list byte).

Definition next_frame (buf : list byte) : frame :=
  if Z.of_nat (length buf) <? 4 then NeedMore
  else
    let len := ntohl_bytes buf in
    if (65536 <? len) || (len <? 0) then Invalid len
    else if len + 4 <=? Z.of_nat (length buf) then
      let buf := drop 4 buf in
      Message (take (Z.to_nat len) buf) (drop (Z.to_nat len) buf)
    else NeedMore.

(** The loop of onMessage: the messages taken from the buffer, what is left in
    it, and whether the connection is shut down. *)
Fixpoint decode_loop (fuel : nat) (buf : list byte) : list (list byte) * list byte * bool :=
  match fuel with
  | O => ([], buf, false)
  | S fuel' =>
      match next_frame buf with
      | NeedMore => ([], buf, false)
      | Invalid _ => ([], buf, true)
      | Message msg rest =>
          let '(msgs, buf', shut) := decode_loop fuel' rest in (msg :: msgs, buf', shut)
      end
  end.

(** Every turn takes at least four bytes. *)
Definition decode (buf : list byte) : list (list byte) * list byte * bool :=
  decode_loop (S (length buf)) buf.

(** ** The server *)

Inductive action : Type :=
| Send (c : conn) (data : list byte)
| Shutdown (c : conn).

Record server : Type := mkServer {
  connections_ : gset conn;
  inputs : gmap conn (list byte);     (* the input buffers, which muduo keeps *)
}.

Definition server_new : server := mkServer ∅ ∅.

(** The input buffer of a new connection is empty. *)
Definition onConnection (c : conn) (connected : bool) (s : server) : server :=
  if connected then mkServer ({[c]} ∪ connections_ s) (<[c := []]> (inputs s))
  else mkServer (connections_ s ∖ {[c]}) (inputs s).

(** ChatServer::send: to every connection, that of the sender with the rest. *)
Definition broadcast (s : server) (msg : list byte) : list action :=
  (λ c, Send c (encode msg)) <$> elements (connections_ s).

(** muduo appends [data] to the input buffer of [c] and calls onMessage. *)
Definition server_onMessage (c : conn) (data : list byte) (s : server) : server * list action :=
  let '(msgs, rest, shut) := decode (default [] (inputs s !! c) ++ data) in
  (mkServer (connections_ s) (<[c := rest]> (inputs s)),
   (msgs ≫= broadcast s) ++ (if shut then [Shutdown c] else [])).

(** ** The client *)

Record client : Type := mkClient {
  connection_ : option conn;
  received : list byte;               (* the input buffer *)
}.

Definition client_onConnection (c : conn) (connected : bool) (cl : client) : client :=
  if connected then mkClient (Some c) [] else mkClient None (received cl).

(** ChatClient::write, under its mutex. *)
Definition client_write (msg : list byte) (cl : client) : list action :=
  match connection_ cl with
  | Some c => [Send c (encode msg)]
  | None => []
  end.

(** Each message is handed to LOG_INFO; they are the second result.  What muduo's logger,
    whose line has a bounded buffer, does with them is outside the repository. *)
Definition client_onMessage (c : conn) (data : list byte) (cl : client)
    : client * list (list byte) * list action :=
  let '(msgs, rest, shut) := decode (received cl ++ data) in
  (mkClient (connection_ cl) rest, msgs, if shut then [Shutdown c] else []).

(** ** Specifications *)

(** Pieces of a stream arriving one after the other: all the messages, what is
    left, and whether the connection was shut down. *)
Fixpoint feed (chunks : list (list byte)) (buf : list byte) : list (list byte) * list byte * bool :=
  match chunks with
  | [] => ([], buf, false)
  | chunk :: chunks' =>
      let '(msgs, buf, shut) := decode (buf ++ chunk) in
      if shut then (msgs, buf, true)
      else let '(msgs', buf', shut') := feed chunks' buf in (msgs ++ msgs', buf', shut')
  end.

(** A message that the other side accepts. *)
Definition short (msg : list byte) : Prop := Z.of_nat (length msg) <= 65536.

(** What the connection [c] is sent by a list of actions. *)
Definition sent_to (c : conn) (actions : list action) : list byte :=
  actions ≫= λ a, match a with Send c' data => if decide (c' = c) then data else [] | _ => [] end.

(** ** Lemmas *)

Lemma ntohl_htonl len rest : 0 <= len < 2 ^ 31 → ntohl_bytes (htonl_bytes len ++ rest) = len.
Proof.
  intros Hlen. unfold ntohl_bytes, htonl_bytes. simpl. rewrite !byte_Z_Z_byte.
  rewrite wrap_u_small by lia. rewrite wrap_s_small; [|lia|].
  all: pose proof (Z.div_mod len 256 ltac:(lia)); pose proof (Z.div_mod (len / 256) 256 ltac:(lia));
    pose proof (Z.div_mod (len / 256 / 256) 256 ltac:(lia));
    rewrite !Z.div_div in * by lia; change (256 * 256) with (2 ^ 16) in *;
    change (2 ^ 16 * 256) with (2 ^ 24) in *; change (2 ^ 8) with 256;
    rewrite (Z.mod_small (len / 2 ^ 24)) in * by (split; [apply Z.div_pos; lia|apply Z.div_lt_upper_bound; lia]).
  all: lia.
Qed.

Lemma length_encode msg : length (encode msg) = (4 + length msg)%nat.
Proof. reflexivity. Qed.

Lemma next_frame_encode msg rest : short msg → next_frame (encode msg ++ rest) = Message msg rest.
Proof.
  unfold short. intros Hs. unfold next_frame.
  assert (ntohl_bytes (encode msg ++ rest) = Z.of_nat (length msg)) as Hlen.
  { unfold encode. rewrite wrap_s_small by (simpl; lia). rewrite <- app_assoc. apply ntohl_htonl. lia. }
  rewrite Hlen, length_app, length_encode.
  rewrite (proj2 (Z.ltb_ge _ 4)) by lia.
  rewrite (proj2 (Z.ltb_ge 65536 _)), (proj2 (Z.ltb_ge _ 0)) by lia. simpl.
  rewrite (proj2 (Z.leb_le _ _)) by lia.
  rewrite drop_0.
  by rewrite Nat2Z.id, take_app_length, drop_app_length.
Qed.

Lemma next_frame_Message buf msg rest :
  next_frame buf = Message msg rest → (length buf = 4 + length msg + length rest)%nat.
Proof.
  unfold next_frame. destruct (Z.ltb_spec (Z.of_nat (length buf)) 4); [done|].
  destruct (Z.ltb_spec 65536 (ntohl_bytes buf)), (Z.ltb_spec (ntohl_bytes buf) 0); simpl; try done.
  destruct (Z.leb_spec (ntohl_bytes buf + 4) (Z.of_nat (length buf))); [|done].
  intros [= <- <-]. rewrite length_take, !length_drop. lia.
Qed.

(** More data does not change what was already decided. *)
Lemma next_frame_app buf data :
  match next_frame buf with
  | NeedMore => True
  | Invalid len => next_frame (buf ++ data) = Invalid len
  | Message msg rest => next_frame (buf ++ data) = Message msg (rest ++ data)
  end.
Proof.
  destruct (next_frame buf) as [|len|msg rest] eqn:E; [done|..]; revert E; unfold next_frame;
    (destruct (Z.ltb_spec (Z.of_nat (length buf)) 4); [done|]);
    rewrite length_app; rewrite (proj2 (Z.ltb_ge _ 4)) by lia;
    (assert (ntohl_bytes (buf ++ data) = ntohl_bytes buf) as ->
       by (unfold ntohl_bytes; by rewrite take_app_le by lia)).
  - destruct (_ || _); [by intros [= <-]|]. by destruct (_ <=? _).
  - destruct (Z.ltb_spec 65536 (ntohl_bytes buf)), (Z.ltb_spec (ntohl_bytes buf) 0); simpl; try done.
    destruct (Z.leb_spec (ntohl_bytes buf + 4) (Z.of_nat (length buf))); [|done].
    intros [= <- <-]. rewrite (proj2 (Z.leb_le _ _)) by lia.
    rewrite (drop_app_le buf) by lia.
    rewrite take_app_le, drop_app_le by (rewrite length_drop; lia). done.
Qed.

Lemma decode_loop_fuel n1 n2 buf :
  (length buf < n1)%nat → (length buf < n2)%nat → decode_loop n1 buf = decode_loop n2 buf.
Proof.
  revert n2 buf. induction n1 as [|n1 IH]; intros [|n2] buf H1 H2; try lia. simpl.
  destruct (next_frame buf) as [| |msg rest] eqn:E; [done..|].
  apply next_frame_Message in E. by rewrite (IH n2) by lia.
Qed.

Lemma decode_unfold buf :
  decode buf = match next_frame buf with
               | NeedMore => ([], buf, false)
               | Invalid _ => ([], buf, true)
               | Message msg rest => let '(msgs, buf', shut) := decode rest in (msg :: msgs, buf', shut)
               end.
Proof.
  unfold decode at 1. simpl. destruct (next_frame buf) as [| |msg rest] eqn:E; [done..|].
  apply next_frame_Message in E. unfold decode. by rewrite (decode_loop_fuel _ (S (length rest))) by lia.
Qed.

(** Decoding in two steps is decoding at once. *)
Lemma decode_app buf data :
  decode (buf ++ data) =
  let '(msgs, rest, shut) := decode buf in
  if shut then (msgs, rest ++ data, true)
  else let '(msgs', rest', shut') := decode (rest ++ data) in (msgs ++ msgs', rest', shut').
Proof.
  remember (length buf) as n eqn:Hn. revert buf Hn. induction n as [n IH] using lt_wf_ind.
  intros buf ->. rewrite (decode_unfold buf). pose proof (next_frame_app buf data) as Hnext.
  destruct (next_frame buf) as [|len|msg rest] eqn:E.
  - by destruct (decode (buf ++ data)) as [[??] ?].
  - rewrite decode_unfold, Hnext. done.
  - rewrite decode_unfold, Hnext. apply next_frame_Message in E.
    rewrite (IH (length rest)) by (try done; lia).
    destruct (decode rest) as [[msgs buf'] []]; [done|].
    by destruct (decode (buf' ++ data)) as [[??] ?].
Qed.

Lemma decode_frames msgs rest :
  Forall short msgs → next_frame rest = NeedMore →
  decode ((msgs ≫= encode) ++ rest) = (msgs, rest, false).
Proof.
  intros Hs Hr. induction Hs as [|msg msgs Hm _ IH].
  - simpl. by rewrite decode_unfold, Hr.
  - rewrite bind_cons, <- app_assoc, decode_unfold, next_frame_encode by done. by rewrite IH.
Qed.

(** However the stream is cut, nothing is decided differently, until the
    connection is shut down. *)
Lemma feed_decode chunks buf :
  next_frame buf = NeedMore →
  feed chunks buf =
    let '(msgs, rest, shut) := decode (buf ++ concat chunks) in
    if shut then feed chunks buf else (msgs, rest, shut).
Proof.
  intros Hb. destruct (decode (buf ++ concat chunks)) as [[msgs rest] shut] eqn:E. destruct shut; [done|].
  revert buf Hb msgs rest E. induction chunks as [|chunk chunks IH]; intros buf Hb msgs rest; simpl.
  - rewrite app_nil_r, decode_unfold, Hb. by intros [= <- <-].
  - rewrite app_assoc, decode_app. destruct (decode (buf ++ chunk)) as [[msgs1 buf1] shut1] eqn:E1.
    destruct shut1; [done|].
    destruct (decode (buf1 ++ concat chunks)) as [[msgs2 buf2] shut2] eqn:E2.
    intros [= <- <- ->]. erewrite IH; [done| |exact E2].
    clear -E1. remember (buf ++ chunk) as b eqn:Hb. clear Hb. revert b msgs1 E1.
    intros b. remember (length b) as n eqn:Hn. revert b Hn. induction n as [n IH] using lt_wf_ind.
    intros b -> msgs1. rewrite decode_unfold. destruct (next_frame b) as [| |msg rest] eqn:E; [by intros [= _ <-]|done|].
    apply next_frame_Message in E. destruct (decode rest) as [[ms b'] sh] eqn:Er. intros [= _ <- ->].
    by eapply (IH (length rest)); [lia| |exact Er].
Qed.

(** A stream of frames, in pieces. *)
Lemma feed_frames msgs chunks :
  Forall short msgs → concat chunks = msgs ≫= encode → feed chunks [] = (msgs, [], false).
Proof.
  intros Hs Hc. rewrite feed_decode by reflexivity. simpl. rewrite Hc.
  pose proof (decode_frames msgs [] Hs eq_refl) as Hd. rewrite app_nil_r in Hd. by rewrite Hd.
Qed.

Lemma concat_bind {A B} (f : A → list B) l : concat (f <$> l) = l ≫= f.
Proof. induction l as [|x l IH]; [done|]. by rewrite fmap_cons, bind_cons, <- IH. Qed.

Lemma sent_to_app c a1 a2 : sent_to c (a1 ++ a2) = sent_to c a1 ++ sent_to c a2.
Proof. unfold sent_to. by rewrite bind_app. Qed.

Lemma sent_to_conns c data (cs : list conn) :
  NoDup cs → sent_to c ((λ c', Send c' data) <$> cs) = if decide (c ∈ cs) then data else [].
Proof.
  induction 1 as [|c' cs Hc' _ IH]; [done|]. rewrite fmap_cons.
  change (sent_to c (?a :: ?l)) with ((if decide (c' = c) then data else []) ++ sent_to c l). rewrite IH.
  destruct (decide (c' = c)) as [->|Hne].
  - rewrite (decide_False (P := c ∈ cs)) by done.
    by rewrite (decide_True (P := c ∈ c :: cs)), app_nil_r by (apply elem_of_cons; by left).
  - destruct (decide (c ∈ cs)) as [Hin|Hout].
    + by rewrite (decide_True (P := c ∈ c' :: cs)) by (apply elem_of_cons; by right).
    + rewrite (decide_False (P := c ∈ c' :: cs)); [done|]. by intros [->|?]%elem_of_cons.
Qed.

Lemma sent_to_broadcast c s msgs :
  c ∈ connections_ s → sent_to c (msgs ≫= broadcast s) = msgs ≫= encode.
Proof.
  intros Hc. induction msgs as [|msg msgs IH]; [done|]. rewrite !bind_cons, sent_to_app, IH.
  unfold broadcast. rewrite sent_to_conns by apply NoDup_elements.
  by rewrite decide_True by by apply elem_of_elements.
Qed.

(** ** Properties *)

(** C21: messages of at most 65536 bytes that are framed and sent arrive unchanged,
    all of them and in order, however the stream is cut into pieces on the way. *)
Theorem stream_round_trip msgs chunks :
  Forall short msgs → concat chunks = msgs ≫= encode → feed chunks [] = (msgs, [], false).
Proof. apply feed_frames. Qed.

(** What a client writes to the server reaches every connection of the chat,
    the writer's included: the actions of the server, decoded by the client code
    at the other end of any connection, are the messages written. *)
Theorem chat_delivers s writer reader msgs :
  reader ∈ connections_ s → Forall short msgs → default [] (inputs s !! writer) = [] →
  let actions := (server_onMessage writer (msgs ≫= encode) s).2 in
  (client_onMessage reader (sent_to reader actions) (mkClient (Some reader) [])).1.2 = msgs
  ∧ ∀ c, Shutdown c ∉ actions.
Proof.
  intros Hr Hs Hin. unfold server_onMessage. rewrite Hin. simpl.
  pose proof (decode_frames msgs [] Hs eq_refl) as Hd. rewrite app_nil_r in Hd. rewrite Hd. simpl.
  rewrite app_nil_r. split.
  - unfold client_onMessage. simpl. by rewrite sent_to_broadcast, Hd.
  - intros c. rewrite list_elem_of_bind. intros (msg & Hmsg & _).
    by apply list_elem_of_fmap in Hmsg as (? & ? & _).
Qed.

(** [write] frames a message of any length, but a message of more than 65536
    bytes is never accepted: whoever receives it shuts the connection down, keeps
    it in the buffer, and decides the same whatever arrives later. *)
Theorem long_message_shuts_down msg data :
  65536 < Z.of_nat (length msg) < 2 ^ 31 →
  decode (encode msg ++ data) = ([], encode msg ++ data, true).
Proof.
  intros Hl. rewrite decode_unfold. unfold next_frame.
  assert (ntohl_bytes (encode msg ++ data) = Z.of_nat (length msg)) as ->.
  { unfold encode. rewrite wrap_s_small by (simpl; lia). rewrite <- app_assoc. apply ntohl_htonl. lia. }
  rewrite length_app, length_encode, (proj2 (Z.ltb_ge _ 4)) by lia.
  by rewrite (proj2 (Z.ltb_lt 65536 _)) by lia.
Qed.

(** ** Instances *)

Definition hi : list byte := [Byte.x68; Byte.x69].

Lemma stream_round_trip_witness :
  feed [[Byte.x00; Byte.x00]; [Byte.x00; Byte.x02; Byte.x68]; [Byte.x69; Byte.x00; Byte.x00; Byte.x00; Byte.x00]] []
  = ([hi; []], [], false).
Proof. apply stream_round_trip; [repeat constructor; unfold short; simpl; lia|reflexivity]. Defined.

Lemma chat_delivers_witness :
  let s := onConnection 2%nat true (onConnection 1%nat true server_new) in
  (client_onMessage 2%nat (sent_to 2%nat (server_onMessage 1%nat ([hi] ≫= encode) s).2)
     (mkClient (Some 2%nat) [])).1.2 = [hi].
Proof.
  apply chat_delivers.
  - simpl. apply elem_of_union. left. by apply elem_of_singleton.
  - repeat constructor. unfold short. simpl. lia.
  - reflexivity.
Defined.

Lemma long_message_shuts_down_witness :
  decode (encode (replicate (Z.to_nat 65537) Byte.x61)) = ([], encode (replicate (Z.to_nat 65537) Byte.x61), true).
Proof.
  pose proof (long_message_shuts_down (replicate (Z.to_nat 65537) Byte.x61) []) as H.
  rewrite app_nil_r in H. apply H. rewrite length_replicate. lia.
Defined.
