(* ===== verification/ChatSystem.v ===== *)
(** * The chat as a system (muduo/chat_server.cc, chat_client.cc)

    The two mains, and a server with any number of clients.  The loop of muduo is
    outside the repository: a run of a program is the list of what it is given, in
    the order of the critical sections of [mutex_] for the client, whose [main]
    reads lines while the loop's thread calls the callbacks.  A client starts without a
    connection; what it does with a message is to hand it to the logger. *)

From S2P Require Import Prelude Chat.

(** ** The client program *)

Inductive client_event : Type :=
| Typed (line : list byte)                (* std::getline in main *)
| Up (c : conn) | Down (c : conn)         (* onConnection *)
| Arrived (c : conn) (data : list byte).  (* muduo reads, and calls onMessage *)

(** What a program does: an action on a connection, a message handed to LOG_INFO,
    and the calls on the [TcpClient]. *)
Inductive effect : Type :=
| Act (a : action)
| Log (msg : list byte)                  (* LOG_INFO << "<<< " << message *)
| Connect
| Disconnect.

Definition client_step (ev : client_event) (cl : client) : client * list effect :=
  match ev with
  | Typed line => (cl, Act <$> client_write line cl)
  | Up c => (client_onConnection c true cl, [])
  | Down c => (client_onConnection c false cl, [])
  | Arrived c data =>
      let '(cl', msgs, actions) := client_onMessage c data cl in
      (cl', (Log <$> msgs) ++ (Act <$> actions))
  end.

Fixpoint client_run (evs : list client_event) (cl : client) : client * list effect :=
  match evs with
  | [] => (cl, [])
  | ev :: evs' =>
      let '(cl1, effs1) := client_step ev cl in
      let '(cl2, effs2) := client_run evs' cl1 in
      (cl2, effs1 ++ effs2)
  end.

(** main of chat_client.cc, with [argv] without its null at the end, until the
    end of the input. *)
Definition client_main (argv : list string) (evs : list client_event) : M client (Z * list effect) :=
  if (length argv <? 2)%nat then mret (-1, [])
  else
    _ ← atoi (argv !! 2%nat);
    modify (λ _, mkClient None []) ;;
    cl ← get;
    let '(cl', effs) := client_run evs cl in
    modify (λ _, cl') ;;
    mret (1, Connect :: effs ++ [Disconnect]).

(** ** The server program *)

Inductive server_event : Type :=
| Joined (c : conn) | Left (c : conn)        (* onConnection *)
| Received (c : conn) (data : list byte).    (* muduo reads, and calls onMessage *)

Definition server_step (ev : server_event) (s : server) : server * list action :=
  match ev with
  | Joined c => (onConnection c true s, [])
  | Left c => (onConnection c false s, [])
  | Received c data => server_onMessage c data s
  end.

Fixpoint server_run (evs : list server_event) (s : server) : server * list action :=
  match evs with
  | [] => (s, [])
  | ev :: evs' =>
      let '(s1, acts1) := server_step ev s in
      let '(s2, acts2) := server_run evs' s1 in
      (s2, acts1 ++ acts2)
  end.

(** main of chat_server.cc; the usage is logged when there is no port. *)
Definition server_main (argv : list string) (evs : list server_event) : M server (list action) :=
  if (1 <? length argv)%nat then
    _ ← atoi (argv !! 1%nat);
    modify (λ _, server_new) ;;
    s ← get;
    let '(s', acts) := server_run evs s in
    modify (λ _, s') ;;
    mret acts
  else mret [].

(** ** Specifications *)

Definition arrived (evs : list client_event) : list (list byte) :=
  omap (λ ev, match ev with Arrived _ data => Some data | _ => None end) evs.

Definition logged (effs : list effect) : list (list byte) :=
  omap (λ e, match e with Log msg => Some msg | _ => None end) effs.

Definition acted (effs : list effect) : list action :=
  omap (λ e, match e with Act a => Some a | _ => None end) effs.

(** A [TcpClient] that is not told to retry has one connection: it comes up, things
    arrive on it, and it may go down.  Lines are typed all the time. *)
Inductive phase : Type := Before | During | After.

Fixpoint session (w : conn) (p : phase) (evs : list client_event) : Prop :=
  match evs with
  | [] => True
  | Typed _ :: evs' => session w p evs'
  | Up c :: evs' => p = Before ∧ c = w ∧ session w During evs'
  | Arrived c _ :: evs' => p = During ∧ c = w ∧ session w During evs'
  | Down c :: evs' => p = During ∧ c = w ∧ session w After evs'
  end.

(** The lines typed while the connection is up: [write] drops the others. *)
Fixpoint spoken (up : bool) (evs : list client_event) : list (list byte) :=
  match evs with
  | [] => []
  | Typed line :: evs' => if up then line :: spoken up evs' else spoken up evs'
  | Up _ :: evs' => spoken true evs'
  | Arrived _ _ :: evs' => spoken up evs'
  | Down _ :: evs' => spoken false evs'
  end.

(** The client of [w] in a phase, with what it holds of the stream. *)
Definition client_at (w : conn) (p : phase) (buf : list byte) : client :=
  mkClient (match p with During => Some w | _ => None end) buf.

Definition is_up (p : phase) : bool := match p with During => true | _ => false end.

(** What the server reads from [w], piece by piece. *)
Definition received_from (w : conn) (evs : list server_event) : list (list byte) :=
  omap (λ ev, match ev with
              | Received c data => if decide (c = w) then Some data else None
              | _ => None
              end) evs.

(** The messages that the server takes, with their senders. *)
Fixpoint taken (evs : list server_event) (inputs : gmap conn (list byte)) : list (conn * list byte) :=
  match evs with
  | [] => []
  | Received c data :: evs' =>
      let '(msgs, rest, _) := decode (default [] (inputs !! c) ++ data) in
      (pair c <$> msgs) ++ taken evs' (<[c := rest]> inputs)
  | Joined c :: evs' => taken evs' (<[c := []]> inputs)
  | Left _ :: evs' => taken evs' inputs
  end.

(** A connection comes up before anything is received on it. *)
Fixpoint orderly (evs : list server_event) : Prop :=
  match evs with
  | [] => True
  | Received c _ :: evs' => (Joined c ∉ evs') ∧ orderly evs'
  | _ :: evs' => orderly evs'
  end.

(** So the input buffers are empty of those that are still to come up. *)
Definition empty_until_joined (evs : list server_event) (inputs : gmap conn (list byte)) : Prop :=
  orderly evs ∧ ∀ c, Joined c ∈ evs → default [] (inputs !! c) = [].

(** The messages of one sender. *)
Definition of_sender (w : conn) (tagged : list (conn * list byte)) : list (list byte) :=
  (filter (λ p, p.1 = w) tagged).*2.

(** ** The client *)

Lemma acted_app e1 e2 : acted (e1 ++ e2) = acted e1 ++ acted e2.
Proof. apply omap_app. Qed.

Lemma logged_app e1 e2 : logged (e1 ++ e2) = logged e1 ++ logged e2.
Proof. apply omap_app. Qed.

Lemma acted_Act acts : acted (Act <$> acts) = acts.
Proof.
  induction acts as [|a acts IH]; [done|].
  change (acted (Act <$> a :: acts)) with (a :: acted (Act <$> acts)). by rewrite IH.
Qed.

Lemma acted_Log msgs : acted (Log <$> msgs) = [].
Proof. by induction msgs. Qed.

Lemma logged_Log msgs : logged (Log <$> msgs) = msgs.
Proof.
  induction msgs as [|m msgs IH]; [done|].
  change (logged (Log <$> m :: msgs)) with (m :: logged (Log <$> msgs)). by rewrite IH.
Qed.

Lemma logged_Act acts : logged (Act <$> acts) = [].
Proof. by induction acts. Qed.

(** What a client sends is the lines typed while it is connected, framed. *)
Lemma client_sends evs w p buf :
  session w p evs →
  sent_to w (acted (client_run evs (client_at w p buf)).2) = spoken (is_up p) evs ≫= encode.
Proof.
  revert p buf. induction evs as [|ev evs IH]; intros p buf Hs; [done|].
  destruct ev as [line|c|c|c data]; cbn [client_run client_step session spoken] in *.
  - specialize (IH p buf Hs). destruct (client_run evs _) as [cl effs]. cbn [snd] in *.
    rewrite acted_app, acted_Act, sent_to_app, IH. destruct p; try done.
    simpl. by rewrite decide_True, app_nil_r.
  - destruct Hs as (-> & -> & Hs). specialize (IH During [] Hs).
    change (client_onConnection w true _) with (client_at w During []).
    by destruct (client_run evs _) as [cl effs].
  - destruct Hs as (-> & -> & Hs). specialize (IH After buf Hs).
    change (client_onConnection w false _) with (client_at w After buf).
    by destruct (client_run evs _) as [cl effs].
  - destruct Hs as (-> & -> & Hs). unfold client_onMessage. cbn [received connection_ client_at].
    destruct (decode (buf ++ data)) as [[ms buf'] shut].
    specialize (IH During buf' Hs). destruct (client_run evs _) as [cl effs]. cbn [snd] in *.
    rewrite !acted_app, acted_Log, acted_Act, sent_to_app, IH. by destruct shut.
Qed.

(** What it logs is the messages of its stream, if that is well framed. *)
Lemma client_logs evs w p buf msgs rest :
  session w p evs → (p = Before → buf = []) → feed (arrived evs) buf = (msgs, rest, false) →
  logged (client_run evs (client_at w p buf)).2 = msgs.
Proof.
  revert p buf msgs. induction evs as [|ev evs IH]; intros p buf msgs Hs Hb Hf; [by injection Hf|].
  destruct ev as [line|c|c|c data]; cbn [client_run client_step session] in *.
  - specialize (IH p buf msgs Hs Hb Hf). destruct (client_run evs _) as [cl effs].
    cbn [snd] in *. by rewrite logged_app, logged_Act.
  - destruct Hs as (-> & -> & Hs). rewrite (Hb eq_refl) in Hf.
    specialize (IH During [] msgs Hs ltac:(done) Hf).
    change (client_onConnection w true _) with (client_at w During []).
    by destruct (client_run evs _) as [cl effs].
  - destruct Hs as (-> & -> & Hs). specialize (IH After buf msgs Hs ltac:(done) Hf).
    change (client_onConnection w false _) with (client_at w After buf).
    by destruct (client_run evs _) as [cl effs].
  - destruct Hs as (-> & -> & Hs).
    change (arrived (Arrived w data :: evs)) with (data :: arrived evs) in Hf. simpl in Hf.
    unfold client_onMessage. cbn [received connection_ client_at].
    destruct (decode (buf ++ data)) as [[ms buf'] shut].
    destruct shut; [by simplify_eq|]. destruct (feed _ buf') as [[ms' rest'] shut'] eqn:Ef.
    simplify_eq. specialize (IH During buf' ms' Hs ltac:(done) Ef).
    destruct (client_run evs _) as [cl effs]. cbn [snd] in *.
    by rewrite !logged_app, logged_Log, logged_Act, IH, app_nil_r.
Qed.

(** ** The server *)

(** What a connection that stays is sent: the messages taken, framed. *)
Lemma server_run_sent reader evs s :
  reader ∈ connections_ s → (Left reader ∉ evs) →
  sent_to reader (server_run evs s).2 = (taken evs (inputs s)).*2 ≫= encode.
Proof.
  revert s. induction evs as [|ev evs IH]; intros s Hr Hl; [done|].
  apply not_elem_of_cons in Hl as [Hev Hl]. cbn [server_run taken].
  assert (∀ s1 acts1, server_step ev s = (s1, acts1) → reader ∈ connections_ s1 →
    sent_to reader (let '(s1, acts1) := server_step ev s in
                    let '(s2, acts2) := server_run evs s1 in (s2, acts1 ++ acts2)).2
    = sent_to reader acts1 ++ (taken evs (inputs s1)).*2 ≫= encode) as Hstep.
  { intros s1 acts1 E Hr1. rewrite E. specialize (IH s1 Hr1 Hl).
    destruct (server_run evs s1) as [s2 acts2]. simpl in *. by rewrite sent_to_app, IH. }
  destruct ev as [c|c|c data].
  - erewrite Hstep by (done || (simpl; set_solver)). done.
  - erewrite Hstep by (done || (simpl; set_solver)). done.
  - destruct (decode (default [] (inputs s !! c) ++ data)) as [[msgs rest] shut] eqn:Ed.
    erewrite Hstep; [|simpl; unfold server_onMessage; by rewrite Ed|done]. simpl.
    rewrite sent_to_app, sent_to_broadcast by done. rewrite fmap_app, bind_app, <- list_fmap_compose.
    unfold compose. simpl. rewrite list_fmap_id. rewrite <- !app_assoc. f_equal. by destruct shut.
Qed.

Lemma of_sender_app w t1 t2 : of_sender w (t1 ++ t2) = of_sender w t1 ++ of_sender w t2.
Proof. unfold of_sender. by rewrite filter_app, fmap_app. Qed.

Lemma of_sender_pair w c msgs : of_sender w (pair c <$> msgs) = if decide (c = w) then msgs else [].
Proof.
  unfold of_sender. induction msgs as [|m msgs IH]; [by case_decide|].
  rewrite fmap_cons, filter_cons. simpl. case_decide; [|done]. by rewrite fmap_cons, IH.
Qed.

Lemma received_same w data evs : received_from w (Received w data :: evs) = data :: received_from w evs.
Proof. unfold received_from. simpl. by rewrite decide_True. Qed.

Lemma received_other w c data evs :
  c ≠ w → received_from w (Received c data :: evs) = received_from w evs.
Proof. intros. unfold received_from. simpl. by rewrite decide_False. Qed.

Lemma empty_next ev evs ins :
  empty_until_joined (ev :: evs) ins →
  match ev with
  | Joined c => default [] (ins !! c) = [] ∧ empty_until_joined evs (<[c := []]> ins)
  | Left _ => empty_until_joined evs ins
  | Received c _ => ∀ rest, empty_until_joined evs (<[c := rest]> ins)
  end.
Proof.
  intros [Ho He]. assert (∀ c, Joined c ∈ evs → default [] (ins !! c) = []) as He'.
  { intros c Hc. apply He, elem_of_cons. by right. }
  destruct ev as [c|c|c data]; [|done|].
  - split; [apply He, elem_of_cons; by left|]. split; [done|]. intros c' Hc'.
    destruct (decide (c = c')) as [->|Hne]; [by rewrite lookup_insert_eq|].
    rewrite lookup_insert_ne by done. by apply He'.
  - destruct Ho as [Hc Ho]. intros rest. split; [done|]. intros c' Hc'.
    rewrite lookup_insert_ne; [by apply He'|]. by intros ->.
Qed.

(** The input buffer of [w] when [c], whose buffer is empty, comes up. *)
Lemma joined_input (ins : gmap conn (list byte)) c w :
  default [] (ins !! c) = [] → default [] (<[c := []]> ins !! w) = default [] (ins !! w).
Proof.
  intros E. destruct (decide (c = w)) as [->|Hne]; [by rewrite lookup_insert_eq, E|].
  by rewrite lookup_insert_ne.
Qed.

(** Of the messages taken, those of one sender are those of its stream. *)
Lemma taken_of w evs ins msgs rest :
  empty_until_joined evs ins →
  feed (received_from w evs) (default [] (ins !! w)) = (msgs, rest, false) →
  of_sender w (taken evs ins) = msgs.
Proof.
  revert ins msgs. induction evs as [|ev evs IH]; intros ins msgs He Hf; [by injection Hf|].
  apply empty_next in He. destruct ev as [c|c|c data]; cbn [taken].
  { destruct He as [Hc He]. apply IH; [done|]. by rewrite joined_input. }
  { by apply IH. }
  destruct (decode (default [] (ins !! c) ++ data)) as [[ms buf'] shut] eqn:Ed.
  rewrite of_sender_app, of_sender_pair.
  destruct (decide (c = w)) as [->|Hne].
  - rewrite received_same in Hf. simpl in Hf. rewrite Ed in Hf. destruct shut; [done|].
    destruct (feed _ buf') as [[ms' rest'] shut'] eqn:Ef. simplify_eq. f_equal.
    apply IH; [done|]. by rewrite lookup_insert_eq.
  - rewrite received_other in Hf by done. apply IH; [done|]. by rewrite lookup_insert_ne.
Qed.

(** Nobody is shut down whose stream is well framed. *)
Lemma server_run_no_shutdown evs s :
  empty_until_joined evs (inputs s) →
  (∀ w, ∃ msgs rest, feed (received_from w evs) (default [] (inputs s !! w)) = (msgs, rest, false)) →
  ∀ c, Shutdown c ∉ (server_run evs s).2.
Proof.
  revert s. induction evs as [|ev evs IH]; intros s He Hf c'; [by apply not_elem_of_nil|].
  apply empty_next in He. cbn [server_run]. destruct ev as [c|c|c data]; cbn [server_step].
  - destruct He as [Hc He]. specialize (IH (onConnection c true s) He).
    destruct (server_run evs _). apply IH. intros w. cbn [onConnection inputs]. rewrite joined_input by done. apply Hf.
  - specialize (IH (onConnection c false s) He Hf c'). by destruct (server_run evs _).
  - unfold server_onMessage. destruct (decode _) as [[ms buf'] shut] eqn:Ed.
    assert (shut = false ∧ ∀ w, ∃ msgs rest, feed (received_from w evs)
      (default [] (<[c := buf']> (inputs s) !! w)) = (msgs, rest, false)) as [-> Hf'].
    { split.
      - destruct (Hf c) as (msgs & rest & E). rewrite received_same in E. simpl in E. rewrite Ed in E.
        by destruct shut.
      - intros w. destruct (Hf w) as (msgs & rest & E). destruct (decide (c = w)) as [->|Hne].
        + rewrite lookup_insert_eq. rewrite received_same in E. simpl in E. rewrite Ed in E.
          destruct shut; [done|]. simpl. destruct (feed _ buf') as [[ms' rest'] shut']. simplify_eq. by eexists _, _.
        + rewrite lookup_insert_ne by done. rewrite received_other in E by done. by eexists _, _. }
    specialize (IH (mkServer (connections_ s) (<[c := buf']> (inputs s))) (He buf') Hf' c').
    destruct (server_run evs _) as [s2 acts2]. rewrite app_nil_r. apply not_elem_of_app. split; [|done].
    rewrite list_elem_of_bind. intros (msg & Hmsg & _). by apply list_elem_of_fmap in Hmsg as (? & ? & _).
Qed.

(** ** Properties *)

(** C22: the chat from end to end: a server, and a client program at every connection,
    whatever the interleaving of their events and however the streams are cut on
    the way.  The client of a connection that stays hands to its logger the lines typed
    at all the clients while they were connected, each client's lines in their order,
    and nothing else, the lines typed before a connection is up or after it is down
    being lost; and nobody is shut down, if no such line has more than 65536 bytes. *)
Theorem chat_end_to_end (clients : conn → list client_event) evs s reader :
  (∀ w, session w Before (clients w) ∧ Forall short (spoken false (clients w))) →
  orderly evs → (∀ w, default [] (inputs s !! w) = []) → reader ∈ connections_ s → (Left reader ∉ evs) →
  (∀ w, concat (received_from w evs) = sent_to w (acted (client_run (clients w) (mkClient None [])).2)) →
  concat (arrived (clients reader)) = sent_to reader (server_run evs s).2 →
  ∃ tagged, logged (client_run (clients reader) (mkClient None [])).2 = tagged.*2
    ∧ (∀ w, of_sender w tagged = spoken false (clients w))
    ∧ ∀ c, Shutdown c ∉ (server_run evs s).2.
Proof.
  intros Hcl Hord Hin Hr Hl Hw Hreader.
  assert (empty_until_joined evs (inputs s)) as He by (split; [done|by intros]).
  assert (∀ w, feed (received_from w evs) (default [] (inputs s !! w)) = (spoken false (clients w), [], false)) as Hfeed.
  { intros w. rewrite Hin. destruct (Hcl w) as [Hs Hsh]. apply feed_frames; [done|].
    rewrite Hw. by apply (client_sends _ w Before). }
  exists (taken evs (inputs s)). split_and!.
  - eapply (client_logs _ reader Before); [apply Hcl|done|]. apply feed_frames.
    + apply Forall_forall. intros m Hm. apply list_elem_of_fmap in Hm as ([w m'] & -> & Hm).
      destruct (Hcl w) as [_ Hsh]. rewrite Forall_forall in Hsh. apply Hsh.
      rewrite <- (taken_of w evs (inputs s) _ _ He (Hfeed w)). unfold of_sender.
      apply list_elem_of_fmap. exists (w, m'). split; [done|]. by apply list_elem_of_filter.
    + rewrite Hreader. by apply server_run_sent.
  - intros w. by eapply taken_of.
  - apply server_run_no_shutdown; [done|]. intros w. by eexists _, _.
Qed.

(** Neither program looks for all the arguments that it reads: the client asks for
    one and uses two. *)
Theorem client_wants_a_port prog host evs cl :
  client_main [prog; host] evs cl = Fault NullDeref
  ∧ client_main [prog] evs cl = Ok (-1, []) cl.
Proof. done. Qed.

(** ** Instances *)

Definition first_line : list byte := [Byte.x68; Byte.x69].
Definition second_line : list byte := [Byte.x6f; Byte.x6b].

(** Two clients; the second reads what both have typed, in two pieces.  What the first
    types too early is lost. *)
Definition two_clients (w : conn) : list client_event :=
  match w with
  | 1%nat => [Typed second_line; Up 1%nat; Typed first_line; Down 1%nat; Typed second_line]
  | 2%nat =>
      [Up 2%nat; Typed second_line; Arrived 2%nat [Byte.x00; Byte.x00; Byte.x00];
       Arrived 2%nat ([Byte.x02] ++ second_line ++ encode first_line)]
  | _ => []
  end.

(** The message of the first is cut, and the second's comes in between. *)
Definition two_senders : list server_event :=
  [Received 1%nat [Byte.x00; Byte.x00; Byte.x00; Byte.x02]; Received 2%nat (encode second_line);
   Received 1%nat first_line].

Definition two_joined : server :=
  (server_run [Joined 1%nat; Joined 2%nat] server_new).1.

Lemma chat_end_to_end_witness :
  ∃ tagged, logged (client_run (two_clients 2%nat) (mkClient None [])).2 = tagged.*2
    ∧ (∀ w, of_sender w tagged = spoken false (two_clients w))
    ∧ ∀ c, Shutdown c ∉ (server_run two_senders two_joined).2.
Proof.
  apply (chat_end_to_end two_clients two_senders two_joined 2%nat).
  - intros [|[|[|w]]]; (split; [by simpl|repeat constructor; unfold short; simpl; lia]).
  - simpl. rewrite !not_elem_of_cons. split_and!; try done; apply not_elem_of_nil.
  - intros w. simpl. rewrite joined_input; [|done].
    by destruct (decide (w = 1%nat)) as [->|Hne]; [|rewrite lookup_insert_ne by done].
  - simpl. set_solver.
  - unfold two_senders. rewrite !not_elem_of_cons. split_and!; try done. apply not_elem_of_nil.
  - intros [|[|[|w]]]; reflexivity.
  - vm_compute. reflexivity.
Defined.
