(* ===== verification/SmartPtr.v ===== *)
(** * The reference-counted pointer (catfly/SmartPointer)

    [SmartPtr<T>] shares a [U_Ptr<T>], a counter with the pointer it owns.  The
    heap has the counters and the objects; the variables of type [SmartPtr] hold
    the address of their counter, an [int], which can overflow.  The messages printed
    are left out. *)

From S2P Require Import Prelude.

Definition addr : Type := nat.   (* of a U_Ptr *)
Definition obj : Type := nat.    (* a T* *)
Definition var : Type := nat.    (* a SmartPtr variable *)

Record U_Ptr : Type := mkU { count_ : Z; p : obj }.

Record heap : Type := mkHeap {
  counters : gmap addr U_Ptr;
  next_addr : addr;
  objects : gset obj;
  vars : gmap var addr;
}.

Definition get_var (v : var) : M heap addr := λ h,
  match vars h !! v with Some a => Ok a h | None => Fault UninitRead end.

Definition get_counter (a : addr) : M heap U_Ptr := λ h,
  match counters h !! a with Some u => Ok u h | None => Fault UseAfterFree end.

Definition put_counter (a : addr) (u : U_Ptr) : M heap unit :=
  modify (λ h, mkHeap (<[a := u]> (counters h)) (next_addr h) (objects h) (vars h)).

Definition set_var (v : var) (a : addr) : M heap unit :=
  modify (λ h, mkHeap (counters h) (next_addr h) (objects h) (<[v := a]> (vars h))).

(** The largest [int]. *)
Definition INT_MAX : Z := 2 ^ 31 - 1.

(** [++rp->count_] and [--rp->count_], on an [int]. *)
Definition add_count (a : addr) (n : Z) : M heap Z :=
  u ← get_counter a;
  if bool_decide (- INT_MAX - 1 <= count_ u + n <= INT_MAX) then
    put_counter a (mkU (count_ u + n) (p u)) ;;
    mret (count_ u + n)
  else throw IntOverflow.

(** [delete rp], with the destructor of [U_Ptr], which deletes the object. *)
Definition delete_counter (a : addr) : M heap unit :=
  u ← get_counter a;
  h ← get;
  if decide (p u ∈ objects h) then
    modify (λ h, mkHeap (delete a (counters h)) (next_addr h) (objects h ∖ {[p u]}) (vars h))
  else throw BadFree.

(** SmartPtr(T *ptr) *)
Definition construct (v : var) (ptr : obj) : M heap unit :=
  h ← get;
  modify (λ h, mkHeap (<[next_addr h := mkU 1 ptr]> (counters h)) (S (next_addr h)) (objects h) (vars h)) ;;
  set_var v (next_addr h).

(** SmartPtr(const SmartPtr<T> &sp) *)
Definition copy (v sp : var) : M heap unit :=
  a ← get_var sp;
  add_count a 1 ;;
  set_var v a.

(** operator=: the counter that is incremented is the one of the left side. *)
Definition assign (v rhs : var) : M heap unit :=
  a ← get_var v;
  add_count a 1 ;;
  n ← add_count a (-1);
  when (n =? 0) (delete_counter a) ;;
  a' ← get_var rhs;
  set_var v a'.

(** ~SmartPtr, at the end of the scope of [v]. *)
Definition destroy (v : var) : M heap unit :=
  a ← get_var v;
  n ← add_count a (-1);
  when (n =? 0) (delete_counter a) ;;
  modify (λ h, mkHeap (counters h) (next_addr h) (objects h) (delete v (vars h))).

(** operator* *)
Definition dereference (v : var) : M heap obj :=
  a ← get_var v;
  u ← get_counter a;
  mret (p u).

(** The block of main: [sptr1], [sptr2], [sptr3] are 1, 2 and 3.  The line
    [SmartPtr<int> sptr3=sptr1;] is a copy construction. *)
Definition smart_main (i : obj) : M heap (list obj) :=
  construct 1%nat i ;;
  copy 2%nat 1%nat ;;
  copy 3%nat 1%nat ;;
  x ← dereference 1%nat;
  y ← dereference 2%nat;
  destroy 3%nat ;;
  destroy 2%nat ;;
  destroy 1%nat ;;
  mret [x; y].

(** ** Programs without assignment *)

Inductive op : Type :=
| Construct (v : var) (ptr : obj)
| Copy (v sp : var)
| Destroy (v : var).

Definition run_op (o : op) : M heap unit :=
  match o with
  | Construct v ptr => construct v ptr
  | Copy v sp => copy v sp
  | Destroy v => destroy v
  end.

(** The objects that some counter owns. *)
Definition owned (h : heap) (x : obj) : Prop := ∃ a u, counters h !! a = Some u ∧ p u = x.

(** What a well-typed program does: variables are used in their scope, and an
    object is given to one [SmartPtr] only. *)
Definition op_ok (o : op) (h : heap) : Prop :=
  match o with
  | Construct v ptr => vars h !! v = None ∧ ptr ∈ objects h ∧ ¬ owned h ptr
  | Copy v sp => vars h !! v = None ∧ is_Some (vars h !! sp)
  | Destroy v => is_Some (vars h !! v)
  end.

Inductive step : heap → heap → Prop :=
| step_op o h h' : op_ok o h → run_op o h = Ok tt h' → step h h'
| step_new h x : x ∉ objects h → ¬ owned h x →
    step h (mkHeap (counters h) (next_addr h) ({[x]} ∪ objects h) (vars h)).

Definition empty_heap : heap := mkHeap ∅ O ∅ ∅.

(** ** Invariant *)

(** The variables that share the counter [a]. *)
Definition sharers (a : addr) (h : heap) : gmap var addr := filter (λ va, va.2 = a) (vars h).

Record Inv (h : heap) : Prop := {
  s_count a u : counters h !! a = Some u →
    count_ u = Z.of_nat (size (sharers a h)) ∧ 0 < count_ u <= INT_MAX;
  s_vars v a : vars h !! v = Some a → is_Some (counters h !! a);
  s_alive a u : counters h !! a = Some u → p u ∈ objects h;
  s_inj a1 a2 u1 u2 : counters h !! a1 = Some u1 → counters h !! a2 = Some u2 → p u1 = p u2 → a1 = a2;
  s_fresh a : is_Some (counters h !! a) → (a < next_addr h)%nat;
}.

(** Changing a counter within the range of an [int]. *)
Lemma add_count_run a n h u :
  counters h !! a = Some u → - INT_MAX - 1 <= count_ u + n <= INT_MAX →
  add_count a n h = Ok (count_ u + n)
    (mkHeap (<[a := mkU (count_ u + n) (p u)]> (counters h)) (next_addr h) (objects h) (vars h)).
Proof.
  intros Hu Hn. unfold add_count, get_counter, mbind, M_bind. rewrite Hu.
  by rewrite bool_decide_true.
Qed.

Lemma add_count_overflows a n h u :
  counters h !! a = Some u → INT_MAX < count_ u + n → add_count a n h = Fault IntOverflow.
Proof.
  intros Hu Hn. unfold add_count, get_counter, mbind, M_bind. rewrite Hu.
  by rewrite bool_decide_false by lia.
Qed.

(** A copy of a pointer that as many variables share as its counter can count. *)
Definition saturated (o : op) (h : heap) : Prop :=
  match o with
  | Copy _ sp => ∃ a, vars h !! sp = Some a ∧ Z.of_nat (size (sharers a h)) = INT_MAX
  | _ => False
  end.

Lemma sharers_insert_eq v a cs n os (vs : gmap var addr) :
  vs !! v = None →
  size (sharers a (mkHeap cs n os (<[v := a]> vs))) = S (size (filter (λ va, va.2 = a) vs)).
Proof.
  intros Hv. unfold sharers; simpl. rewrite map_filter_insert_True by done.
  rewrite map_size_insert_None; [done|]. apply map_lookup_filter_None. by left.
Qed.

Lemma sharers_insert_ne v a b cs n os (vs : gmap var addr) :
  vs !! v = None → b ≠ a →
  sharers a (mkHeap cs n os (<[v := b]> vs)) = filter (λ va, va.2 = a) vs.
Proof.
  intros Hv Hb. unfold sharers; simpl. rewrite map_filter_insert_False by done.
  by rewrite delete_id.
Qed.

Lemma sharers_delete_eq v a (vs : gmap var addr) :
  vs !! v = Some a →
  size (filter (λ va : var * addr, va.2 = a) vs)
  = S (size (filter (λ va : var * addr, va.2 = a) (delete v vs))).
Proof.
  intros Hv. rewrite map_filter_delete, map_size_delete_Some.
  - assert (size (filter (λ va : var * addr, va.2 = a) vs) ≠ 0)%nat; [|lia].
    intros E%map_size_empty_inv. assert (filter (λ va : var * addr, va.2 = a) vs !! v = Some a) as Hf.
    { by apply map_lookup_filter_Some. }
    by rewrite E in Hf.
  - exists a. by apply map_lookup_filter_Some.
Qed.

Lemma sharers_delete_ne v a b (vs : gmap var addr) :
  vs !! v = Some b → b ≠ a →
  filter (λ va : var * addr, va.2 = a) (delete v vs) = filter (λ va, va.2 = a) vs.
Proof.
  intros Hv Hb. rewrite map_filter_delete. apply delete_id.
  apply map_lookup_filter_None. right. intros x Hx. simpl. congruence.
Qed.

(** A fresh counter has no sharers. *)
Lemma sharers_fresh h a : Inv h → counters h !! a = None → sharers a h = ∅.
Proof.
  intros HI Ha. apply map_empty. intros v. apply map_lookup_filter_None. right. intros b Hv. simpl. intros ->.
  destruct (s_vars h HI v a Hv) as [u Hu]. congruence.
Qed.

Lemma Inv_construct v ptr h :
  Inv h → op_ok (Construct v ptr) h →
  ∃ h', construct v ptr h = Ok tt h' ∧ Inv h'.
Proof.
  intros HI (Hv & Hx & Hown). eexists. split; [reflexivity|]. simpl.
  assert (counters h !! next_addr h = None) as Hn.
  { destruct (counters h !! next_addr h) eqn:E; [|done].
    pose proof (s_fresh h HI (next_addr h) ltac:(eauto)). lia. }
  constructor; simpl.
  - intros a u. rewrite lookup_insert_Some. intros [[<- <-]|[Hne Hu]].
    + rewrite sharers_insert_eq by done. simpl.
      pose proof (sharers_fresh h _ HI Hn) as Hs. unfold sharers in Hs. rewrite Hs, map_size_empty. unfold INT_MAX. lia.
    + rewrite sharers_insert_ne by done. apply (s_count h HI a u Hu).
  - intros v' a. rewrite lookup_insert_Some. intros [[_ <-]|[_ Hv']].
    + rewrite lookup_insert_eq. eauto.
    + apply lookup_insert_is_Some'. right. by eapply s_vars.
  - intros a u. rewrite lookup_insert_Some. intros [[_ <-]|[_ Hu]]; [done|by eapply s_alive].
  - intros a1 a2 u1 u2. rewrite !lookup_insert_Some.
    intros [[<- <-]|[_ H1]] [[<- <-]|[_ H2]] Hp; simpl in *; [done| | |by eapply s_inj].
    + destruct Hown. exists a2, u2. done.
    + destruct Hown. exists a1, u1. done.
  - intros a. rewrite lookup_insert_is_Some'. intros [<-|Ha]; [lia|]. pose proof (s_fresh h HI a Ha). lia.
Qed.

Lemma copy_run v sp a h : vars h !! sp = Some a → copy v sp h = (add_count a 1 ;; set_var v a) h.
Proof. intros Ha. unfold copy at 1, get_var, mbind at 1, M_bind at 1. by rewrite Ha. Qed.

Lemma copy_overflows v sp h : Inv h → saturated (Copy v sp) h → copy v sp h = Fault IntOverflow.
Proof.
  intros HI (a & Ha & Hs). destruct (s_vars h HI sp a Ha) as [u Hu].
  destruct (s_count h HI a u Hu) as [Hc _]. rewrite (copy_run v sp a) by done.
  unfold mbind, M_bind. by rewrite (add_count_overflows a 1 h u) by (done || lia).
Qed.

Lemma Inv_copy v sp h :
  Inv h → op_ok (Copy v sp) h → ¬ saturated (Copy v sp) h → ∃ h', copy v sp h = Ok tt h' ∧ Inv h'.
Proof.
  intros HI (Hv & [a Ha]) Hsat. destruct (s_vars h HI sp a Ha) as [u Hu].
  destruct (s_count h HI a u Hu) as [Hcu Hru].
  assert (count_ u < INT_MAX) as Hlt.
  { apply Z.le_neq. split; [apply Hru|]. intros E. apply Hsat. exists a. split; [done|]. by rewrite <- Hcu. }
  eexists. split.
  { rewrite (copy_run v sp a) by done. erewrite bind_run by (apply add_count_run; [exact Hu|unfold INT_MAX in *; lia]).
    reflexivity. }
  constructor; simpl.
  - intros b w. rewrite lookup_insert_Some. intros [[<- <-]|[Hne Hw]]; simpl.
    + rewrite sharers_insert_eq by done. destruct (s_count h HI a u Hu) as [Hc ?].
      unfold sharers in Hc. simpl. unfold INT_MAX in *. lia.
    + rewrite sharers_insert_ne by done. apply (s_count h HI b w Hw).
  - intros v' b. rewrite lookup_insert_is_Some', lookup_insert_Some.
    intros [[_ <-]|[_ Hv']]; [by left|right]. by eapply s_vars.
  - intros b w. rewrite lookup_insert_Some. intros [[<- <-]|[_ Hw]]; simpl; by eapply s_alive.
  - intros a1 a2 u1 u2. rewrite !lookup_insert_Some.
    intros [[<- <-]|[? H1]] [[<- <-]|[? H2]] Hp; simpl in *; by eauto using s_inj.
  - intros b. rewrite lookup_insert_is_Some'. intros [<-|Hb]; apply (s_fresh h HI); eauto.
Qed.

(** A destructor decrements the counter first. *)
Lemma destroys_run v h a u :
  vars h !! v = Some a → counters h !! a = Some u → 0 < count_ u <= INT_MAX →
  destroy v h
  = (when (count_ u + -1 =? 0) (delete_counter a) ;;
     modify (λ h, mkHeap (counters h) (next_addr h) (objects h) (delete v (vars h))))
    (mkHeap (<[a := mkU (count_ u + -1) (p u)]> (counters h)) (next_addr h) (objects h) (vars h)).
Proof.
  intros Hv Hu Hc. unfold destroy. unfold get_var at 1, mbind at 1, M_bind at 1. rewrite Hv.
  unfold mbind at 1, M_bind at 1. by rewrite (add_count_run a (-1) h u) by (done || (unfold INT_MAX in *; lia)).
Qed.

(** Destroying a pointer: the object goes with the last one. *)
Lemma Inv_destroy v h a u :
  Inv h → vars h !! v = Some a → counters h !! a = Some u →
  ∃ h', destroy v h = Ok tt h' ∧ Inv h' ∧ vars h' = delete v (vars h)
    ∧ (size (sharers a h) = 1%nat → objects h' = objects h ∖ {[p u]})
    ∧ (size (sharers a h) ≠ 1%nat → objects h' = objects h).
Proof.
  intros HI Hv Hu. destruct (s_count h HI a u Hu) as [Hc Hpos].
  pose proof (sharers_delete_eq v a (vars h) Hv) as Hd. unfold sharers in *.
  rewrite (destroys_run v h a u) by (done || lia). unfold mbind at 1, M_bind at 1.
  destruct (Z.eqb_spec (count_ u + -1) 0) as [Hz|Hz]; simpl when.
  - unfold delete_counter, get_counter, mbind, M_bind. simpl. rewrite lookup_insert_eq. simpl.
    rewrite decide_True by by eapply s_alive. eexists. split; [reflexivity|]. simpl.
    rewrite delete_insert_eq. split_and!; [|done|done|lia].
    constructor; simpl.
    + intros b w [Hne Hw]%lookup_delete_Some. unfold sharers; simpl.
      rewrite (sharers_delete_ne v b a) by (done || congruence). apply (s_count h HI b w Hw).
    + intros v' b [Hne Hv']%lookup_delete_Some. rewrite lookup_delete_is_Some.
      split; [|by eapply s_vars]. intros <-.
      assert (filter (λ va : var * addr, va.2 = a) (delete v (vars h)) !! v' = Some a) as Hf.
      { apply map_lookup_filter_Some. split; [by apply lookup_delete_Some|done]. }
      assert (size (filter (λ va : var * addr, va.2 = a) (delete v (vars h))) = 0%nat) as Hs by lia.
      apply map_size_empty_inv in Hs. by rewrite Hs in Hf.
    + intros b w [Hne Hw]%lookup_delete_Some. apply elem_of_difference. split; [by eapply s_alive|].
      intros Hp%elem_of_singleton. apply Hne. by eapply s_inj.
    + intros a1 a2 u1 u2 [_ H1]%lookup_delete_Some [_ H2]%lookup_delete_Some. by eapply s_inj.
    + intros b [w [_ Hw]%lookup_delete_Some]. apply (s_fresh h HI). eauto.
  - eexists. split; [reflexivity|]. simpl. split_and!; [|done|lia|done].
    constructor; simpl.
    + intros b w. rewrite lookup_insert_Some. unfold sharers; simpl. intros [[<- <-]|[Hne Hw]]; simpl.
      * split; lia.
      * rewrite (sharers_delete_ne v b a) by (done || congruence). apply (s_count h HI b w Hw).
    + intros v' b [Hne Hv']%lookup_delete_Some. apply lookup_insert_is_Some'. right. by eapply s_vars.
    + intros b w. rewrite lookup_insert_Some. intros [[<- <-]|[_ Hw]]; simpl; by eapply s_alive.
    + intros a1 a2 u1 u2. rewrite !lookup_insert_Some.
      intros [[<- <-]|[? H1]] [[<- <-]|[? H2]] Hp; simpl in *; by eauto using s_inj.
    + intros b. rewrite lookup_insert_is_Some'. intros [<-|Hb]; apply (s_fresh h HI); eauto.
Qed.

(** Destroying a pointer whose counter is 1 deletes counter and object. *)
Lemma destroy_sole v h a u :
  vars h !! v = Some a → counters h !! a = Some u → count_ u = 1 → p u ∈ objects h →
  destroy v h = Ok tt (mkHeap (delete a (counters h)) (next_addr h) (objects h ∖ {[p u]}) (delete v (vars h))).
Proof.
  intros Hv Hu Hc Hx. rewrite (destroys_run v h a u) by (done || (unfold INT_MAX; lia)).
  unfold mbind, M_bind. rewrite Hc. simpl. unfold delete_counter, get_counter, mbind, M_bind. simpl. rewrite lookup_insert_eq. simpl.
  rewrite decide_True by done. simpl. by rewrite delete_insert_eq.
Qed.

(** Destroying a pointer whose counter is gone. *)
Lemma destroy_dangling v h a :
  vars h !! v = Some a → counters h !! a = None → destroy v h = Fault UseAfterFree.
Proof.
  intros Hv Ha. unfold destroy, get_var, add_count, get_counter, mbind, M_bind. rewrite Hv.
  by rewrite Ha.
Qed.

Lemma Inv_op o h : Inv h → op_ok o h → ¬ saturated o h → ∃ h', run_op o h = Ok tt h' ∧ Inv h'.
Proof.
  intros HI. destruct o as [v ptr|v sp|v]; intros Ho Hsat.
  - by apply Inv_construct.
  - by apply Inv_copy.
  - destruct Ho as [a Ha]. destruct (s_vars h HI v a Ha) as [u Hu].
    destruct (Inv_destroy v h a u HI Ha Hu) as (h' & Hd & HI' & _). eauto.
Qed.

Lemma Inv_empty : Inv empty_heap.
Proof.
  constructor; simpl.
  - intros a u. by rewrite lookup_empty.
  - intros v a. by rewrite lookup_empty.
  - intros a u. by rewrite lookup_empty.
  - intros a1 a2 u1 u2. by rewrite lookup_empty.
  - intros a [u Hu]. by rewrite lookup_empty in Hu.
Qed.

Lemma smart_Inv_step h h' : Inv h → step h h' → Inv h'.
Proof.
  intros HI Hs. destruct Hs as [o h1 h2 Ho E|h1 x Hx Hown].
  - destruct (Inv_op o h1 HI Ho) as (h3 & E' & HI'); [|rewrite E in E'; by injection E' as <-].
    intros Hsat. destruct o as [| v sp|]; [done| |done]. simpl in E. by rewrite copy_overflows in E.
  - destruct HI as [Hc Hv Ha Hi Hf]. constructor; simpl; try done.
    intros a u Hu. apply elem_of_union. right. by eapply Ha.
Qed.

Lemma smart_Inv_reachable h : star step empty_heap h → Inv h.
Proof. intros Hs. eapply (star_invariant step Inv); [apply smart_Inv_step|exact Hs|apply Inv_empty]. Qed.

(** ** Properties *)

(** C29: in every program that copies and destroys [SmartPtr]s in their scopes, and
    does not assign them: a copy of a pointer that 2147483647 variables share overflows
    its counter, an [int]; nothing else goes wrong, and then the counter of every
    pointer is the number of variables that share it, and its object is alive. *)
Theorem counted_exactly h o :
  star step empty_heap h → op_ok o h →
  (saturated o h → run_op o h = Fault IntOverflow)
  ∧ (¬ saturated o h → ∃ h', run_op o h = Ok tt h'
      ∧ ∀ v a, vars h' !! v = Some a →
          ∃ u, counters h' !! a = Some u ∧ count_ u = Z.of_nat (size (sharers a h')) ∧ p u ∈ objects h').
Proof.
  intros Hs Ho. apply smart_Inv_reachable in Hs as HI. split; intros Hsat.
  { destruct o as [|v sp|]; [done| |done]. by apply copy_overflows. }
  destruct (Inv_op o h HI Ho Hsat) as (h' & E & HI').
  exists h'. split; [exact E|]. intros v a Hv. destruct (s_vars h' HI' v a Hv) as [u Hu].
  exists u. destruct (s_count h' HI' a u Hu). split_and!; [done|done|by eapply s_alive].
Qed.

(** The object of a pointer is deleted when the last of the variables that
    share it is destroyed, and not before. *)
Theorem deleted_with_the_last h v a u :
  star step empty_heap h → vars h !! v = Some a → counters h !! a = Some u →
  ∃ h', destroy v h = Ok tt h'
    ∧ objects h' = if decide (size (sharers a h) = 1%nat) then objects h ∖ {[p u]} else objects h.
Proof.
  intros Hs Hv Hu. apply smart_Inv_reachable in Hs as HI.
  destruct (Inv_destroy v h a u HI Hv Hu) as (h' & E & _ & _ & H1 & H2).
  exists h'. split; [exact E|]. case_decide; auto.
Qed.

(** Assignment changes no counter: it increments and decrements the one of its
    left side.  After [v = rhs] between the only pointers to two objects, the
    destruction of both uses a counter that has been deleted. *)
Theorem assignment_breaks_counting h v rhs a b u w :
  star step empty_heap h → v ≠ rhs → a ≠ b →
  vars h !! v = Some a → vars h !! rhs = Some b →
  counters h !! a = Some u → counters h !! b = Some w → count_ u < INT_MAX → count_ w = 1 →
  (∃ h', assign v rhs h = Ok tt h' ∧ counters h' = counters h ∧ vars h' = <[v := b]> (vars h))
  ∧ (assign v rhs ;; destroy v ;; destroy rhs) h = Fault UseAfterFree.
Proof.
  intros Hs Hne Hab Hv Hr Hu Hw Hmax Hw1. apply smart_Inv_reachable in Hs as HI.
  destruct (s_count h HI a u Hu) as [_ Hpos]. pose proof (s_alive h HI b w Hw) as Hb.
  set (h1 := mkHeap (counters h) (next_addr h) (objects h) (<[v := b]> (vars h))).
  assert (assign v rhs h = Ok tt h1) as Ha.
  { unfold assign. erewrite bind_run by (unfold get_var; by rewrite Hv).
    erewrite bind_run by (apply add_count_run; [exact Hu|unfold INT_MAX in *; lia]).
    erewrite bind_run by (apply add_count_run; [apply lookup_insert_eq|simpl; unfold INT_MAX in *; lia]).
    simpl. rewrite insert_insert_eq. rewrite (proj2 (Z.eqb_neq _ 0)) by lia.
    unfold get_var, mbind, M_bind. simpl. rewrite Hr. simpl.
    replace (mkU (count_ u + 1 + -1) (p u)) with u by (destruct u; simpl; f_equal; lia).
    by rewrite insert_id. }
  split; [by exists h1|]. erewrite bind_run by exact Ha.
  assert (vars h1 !! v = Some b) as Hv1 by apply lookup_insert_eq.
  erewrite bind_run by exact (destroy_sole v h1 b w Hv1 Hw Hw1 Hb).
  apply (destroy_dangling rhs _ b); simpl.
  - by rewrite lookup_delete_ne, lookup_insert_ne.
  - apply lookup_delete_eq.
Qed.

(** ** Instances *)

(** [main]: the object, once set to 20, is seen through both pointers, and it is
    deleted at the end. *)
Example main_runs :
  match smart_main 5%nat (mkHeap ∅ O {[5%nat]} ∅) with
  | Ok xs h => bool_decide (xs = [5%nat; 5%nat]) && bool_decide (objects h = ∅)
               && bool_decide (counters h = ∅)
  | Fault _ => false
  end = true.
Proof. vm_compute. reflexivity. Qed.

(** Two objects, each with a pointer. *)
Lemma two_reachable : ∃ h, star step empty_heap h ∧ vars h !! 0%nat = Some 0%nat
  ∧ vars h !! 1%nat = Some 1%nat ∧ counters h !! 0%nat = Some (mkU 1 10%nat)
  ∧ counters h !! 1%nat = Some (mkU 1 11%nat) ∧ vars h !! 2%nat = None.
Proof.
  assert (∀ cs n os vs x, counters (mkHeap cs n os vs) = ∅ → ¬ owned (mkHeap cs n os vs) x) as Hno.
  { intros cs n os vs x E (a & u & Hu & _). by rewrite E in Hu. }
  eexists. split.
  - eapply star_step; [apply (step_new _ 10%nat); [by vm_compute|by apply Hno]|].
    eapply star_step; [apply (step_new _ 11%nat); [by vm_compute|by apply Hno]|].
    eapply star_step; [eapply (step_op (Construct 0%nat 10%nat)); [|reflexivity]|].
    { split; [done|]. split; [by vm_compute|]. by apply Hno. }
    eapply star_step; [eapply (step_op (Construct 1%nat 11%nat)); [|reflexivity]|apply star_refl].
    split; [done|]. split; [by vm_compute|]. intros (a & u & Hu & Hp). simpl in Hu.
    apply lookup_singleton_Some in Hu as [<- <-]. discriminate Hp.
  - split_and!; reflexivity.
Defined.

Lemma counted_exactly_witness :
  ∃ h h', star step empty_heap h ∧ run_op (Copy 2%nat 1%nat) h = Ok tt h'.
Proof.
  destruct two_reachable as (h & Hs & Hv0 & Hv1 & _ & Hc1 & Hv2). exists h.
  destruct (counted_exactly h (Copy 2%nat 1%nat) Hs (conj Hv2 (mk_is_Some _ _ Hv1))) as [_ H].
  destruct H as (h' & E & _).
  - intros (a & Ha & Hz). pose proof (eq_trans (eq_sym Hv1) Ha) as Ea. injection Ea as <-.
    destruct (s_count h (smart_Inv_reachable h Hs) _ _ Hc1) as [Hc _]. simpl in Hc.
    rewrite <- Hc in Hz. discriminate Hz.
  - exists h'. split; [exact Hs|exact E].
Defined.

Lemma deleted_with_the_last_witness :
  ∃ h h', star step empty_heap h ∧ destroy 0%nat h = Ok tt h'.
Proof.
  destruct two_reachable as (h & Hs & Hv0 & Hv1 & Hc0 & _). exists h.
  destruct (deleted_with_the_last h 0%nat 0%nat (mkU 1 10%nat) Hs Hv0 Hc0) as (h' & E & _).
  exists h'. split; [exact Hs|exact E].
Defined.

Lemma assignment_breaks_counting_witness :
  ∃ h, star step empty_heap h ∧ (assign 0%nat 1%nat ;; destroy 0%nat ;; destroy 1%nat) h = Fault UseAfterFree.
Proof.
  destruct two_reachable as (h & Hs & Hv0 & Hv1 & Hc0 & Hc1 & _). exists h. split; [exact Hs|].
  apply (assignment_breaks_counting h 0%nat 1%nat 0%nat 1%nat (mkU 1 10%nat) (mkU 1 11%nat));
    [exact Hs|done|done|exact Hv0|exact Hv1|exact Hc0|exact Hc1|reflexivity|reflexivity].
Defined.
