(* ===== verification/Sockets.v ===== *)
(** * Small programs over sockets: what they share

    The programs of linux_tcp and unix_tcp use the socket calls of [Kernel] and
    some more of the C library and the system, the operations of the class [Libc];
    [LibcLaws] is the documented behaviour that they rely on.  A program's state
    is the kernel with the variables of the program; a routine that may call
    [exit] returns [Some] exit code when it did.  Messages that are printed are
    left out, but not what [printf] reads to print them. *)

From S2P Require Import Prelude Kernel.

(** [epoll_event] data is used as a descriptor here. *)
Class Libc (K : Type) : Type := {
  sys_connect : K → Z → list byte → Z * K;
  sys_select : K → Z → gset Z → (Z * gset Z) * K;
  sys_fcntl_getfd : K → Z → Z * K;
  sys_fcntl_setfl : K → Z → Z → Z * K;
  sys_fgets : K → Z → option (list byte) * K;  (* from standard input; [None] at its end *)
  sys_remove : K → (Z * Z) * K;                (* the result and errno *)
  sys_sigint : K → bool * K;                   (* whether SIGINT came since the last call *)
}.

Definition view_close {P} (fd : Z) (v : kview P) : kview P :=
  KView (v_open v ∖ {[fd]}) (delete fd (v_interest v)) (v_recvd v) (v_sent v) (v_lost v) (v_stale v).

Class LibcLaws (K : Type) `{KernelLaws Z K} `{Libc K} : Type := {
  (** close(2): the descriptor also leaves the interest list. *)
  close_law k fd : k_view (sys_close k fd) = view_close fd (k_view k);

  (** send(2): EBADF. *)
  send_closed_law k fd data n k' :
    sys_send k fd data = (n, k') → (fd ∉ v_open (k_view k)) → n = -1;

  connect_law k fd addr r k' : sys_connect k fd addr = (r, k') → k_view k' = k_view k;

  (** select(2): the descriptors that are ready are some of those asked for. *)
  select_law k nfds fds n ready k' :
    sys_select k nfds fds = (n, ready, k') → k_view k' = k_view k ∧ (0 < n → ready ⊆ fds);

  getfd_law k fd r k' : sys_fcntl_getfd k fd = (r, k') → k_view k' = k_view k;

  setfl_law k fd fl r k' : sys_fcntl_setfl k fd fl = (r, k') → k_view k' = k_view k;

  (** fgets(3): at most [size - 1] characters. *)
  fgets_law k size line k' :
    sys_fgets k size = (line, k') → 0 < size →
    k_view k' = k_view k ∧ ∀ l, line = Some l → Z.of_nat (length l) < size;

  remove_law k r k' : sys_remove k = (r, k') → k_view k' = k_view k;

  sigint_law k b k' : sys_sigint k = (b, k') → k_view k' = k_view k;
}.

(** ** Programs *)

Record prog (K D : Type) : Type := mkProg { kern : K; own : D }.
Arguments mkProg {K D} kern own.
Arguments kern {K D} p.
Arguments own {K D} p.

Section Prog.
Context {K D : Type}.

Definition kcall {A} (f : K → A * K) : M (prog K D) A := λ w,
  let '(a, k) := f (kern w) in Ok a (mkProg k (own w)).

Definition kcall_ (f : K → K) : M (prog K D) unit := modify (λ w, mkProg (f (kern w)) (own w)).

(** [send] and [write] on a socket, where the signal is not ignored. *)
Definition ksend `{Kernel Z K} (fd : Z) (data : list byte) : M (prog K D) Z := λ w,
  if sys_sigpipe (kern w) fd then Fault Killed else kcall (λ k, sys_send k fd data) w.

Definition with_own (f : D → D) : M (prog K D) unit := modify (λ w, mkProg (kern w) (f (own w))).

Definition get_own : M (prog K D) D := λ w, Ok (own w) w.

Lemma ends_kcall {A} (f : K → A * K) w (Q : A → prog K D → Prop) :
  (∀ a k, f (kern w) = (a, k) → Q a (mkProg k (own w))) → ends (kcall f) w Q.
Proof. unfold ends, kcall. intros HQ. destruct (f (kern w)) as [a k]. eauto. Qed.

Lemma ends_ksend `{Kernel Z K} fd data w (Q : Z → prog K D → Prop) :
  (∀ a k, sys_sigpipe (kern w) fd = false → sys_send (kern w) fd data = (a, k) → Q a (mkProg k (own w))) →
  ends (ksend fd data) w Q.
Proof.
  unfold ksend, ends. intros HQ. destruct (sys_sigpipe (kern w) fd); [done|]. unfold kcall.
  destruct (sys_send (kern w) fd data) as [a k] eqn:E. auto.
Qed.

Lemma ends_get_own w (Q : D → prog K D → Prop) : Q (own w) w → ends get_own w Q.
Proof. done. Qed.

(** Running a call whose result is known. *)
Lemma kcall_run {A B} (f : K → A * K) (g : A → M (prog K D) B) w a k :
  f (kern w) = (a, k) → (kcall f ≫= g) w = g a (mkProg k (own w)).
Proof. intros E. unfold mbind, M_bind, kcall. by rewrite E. Qed.

Lemma ksend_run {B} `{Kernel Z K} fd data (g : Z → M (prog K D) B) w a k :
  sys_sigpipe (kern w) fd = false → sys_send (kern w) fd data = (a, k) →
  (ksend fd data ≫= g) w = g a (mkProg k (own w)).
Proof. intros Hp E. unfold mbind, M_bind, ksend. rewrite Hp. unfold kcall. by rewrite E. Qed.
End Prog.

(** ** Text *)

Definition bytes_of (s : string) : list byte := String.list_byte_of_string s.

(** The characters before the first zero: what [strlen] and [%s] see of [mem]. *)
Fixpoint cbytes (mem : list byte) : list byte :=
  match mem with
  | [] => []
  | b :: mem' => if bool_decide (b = Byte.x00) then [] else b :: cbytes mem'
  end.

(** Whether an array holds a terminated string. *)
Definition terminated (mem : list byte) : bool := bool_decide (Byte.x00 ∈ mem).

(** [bzero(buf, size)] and then [data] stored at its start. *)
Definition zeroed (size : nat) (data : list byte) : list byte :=
  data ++ replicate (size - length data) Byte.x00.

Lemma length_cbytes mem : (length (cbytes mem) ≤ length mem)%nat.
Proof. induction mem as [|b mem IH]; simpl; [done|]. case_bool_decide; simpl; lia. Qed.

Lemma cbytes_app_zero l1 l2 :
  (Byte.x00 ∉ l1) → cbytes (l1 ++ Byte.x00 :: l2) = l1.
Proof.
  induction l1 as [|b l1 IH]; intros Hn; simpl; [done|].
  rewrite not_elem_of_cons in Hn. destruct Hn as [Hb Hn].
  rewrite bool_decide_false by congruence. by rewrite IH.
Qed.

Lemma terminated_zeroed size data : (length data < size)%nat → terminated (zeroed size data) = true.
Proof.
  intros Hl. apply bool_decide_eq_true, elem_of_app. right.
  destruct (size - length data)%nat eqn:E; [lia|]. by left.
Qed.

Lemma terminated_full data :
  (Byte.x00 ∉ data) → terminated (zeroed (length data) data) = false.
Proof. intros Hn. unfold zeroed. rewrite Nat.sub_diag, app_nil_r. by apply bool_decide_eq_false. Qed.

(** ** Numbers as text *)

Lemma bytes_of_String c s : bytes_of (String c s) = Ascii.byte_of_ascii c :: bytes_of s.
Proof. reflexivity. Qed.

Lemma digit_not_zero x : Ascii.byte_of_ascii (pretty_N_char x) ≠ Byte.x00.
Proof. unfold pretty_N_char. by repeat case_match. Qed.

Lemma pretty_N_go_text n x s :
  (x < 10 ^ N.of_nat n)%N → (Byte.x00 ∉ bytes_of s) →
  (length (bytes_of (pretty_N_go x s)) ≤ n + length (bytes_of s))%nat ∧ (Byte.x00 ∉ bytes_of (pretty_N_go x s)).
Proof.
  revert x s. induction n as [|n IH]; intros x s Hx Hs.
  - assert (x = 0)%N as -> by (change (10 ^ N.of_nat 0)%N with 1%N in Hx; lia). by rewrite pretty_N_go_0.
  - assert (x = 0 ∨ 0 < x)%N as [->|Hpos] by lia; [rewrite pretty_N_go_0; split; [lia|done]|].
    rewrite pretty_N_go_step by done.
    destruct (IH (x `div` 10)%N (String (pretty_N_char (x `mod` 10)) s)) as [Hl Hz].
    + apply N.Div0.div_lt_upper_bound. rewrite Nat2N.inj_succ, N.pow_succ_r' in Hx. lia.
    + rewrite bytes_of_String, not_elem_of_cons. split; [|done]. intros E. by eapply digit_not_zero.
    + split; [|done]. rewrite bytes_of_String in Hl. simpl in Hl. lia.
Qed.

(** A positive [int] has at most 10 digits. *)
Lemma pretty_int_text z :
  0 < z < 2 ^ 31 → (length (bytes_of (pretty z)) ≤ 10)%nat ∧ (Byte.x00 ∉ bytes_of (pretty z)).
Proof.
  intros [Hpos Hlt]. destruct z as [|q|q]; [lia| |lia].
  change (pretty (Z.pos q)) with (pretty (N.pos q)). unfold pretty, pretty_N. rewrite decide_False by done.
  destruct (pretty_N_go_text 10 (N.pos q) "") as [Hl Hz].
  - change (10 ^ N.of_nat 10)%N with 10000000000%N. lia.
  - apply not_elem_of_nil.
  - split; [|done]. simpl in Hl. lia.
Qed.

Lemma bytes_of_app s t : bytes_of (s +:+ t) = bytes_of s ++ bytes_of t.
Proof.
  induction s as [|c s IH]; [done|]. change (bytes_of (String c (s +:+ t)) = bytes_of (String c s) ++ bytes_of t).
  rewrite !bytes_of_String, IH. done.
Qed.
