(* ===== verification/SocketsSim.v ===== *)
(** * A simulated system for the small socket programs

    The peers' connections and data, the console and what [select] and
    [epoll_wait] report are a script.  It satisfies [KernelLaws] and [LibcLaws].
    [chunk] is the most that one [recv] returns. *)

From S2P Require Import Prelude Kernel Sockets.

Record sys (chunk : nat) : Type := mkSys {
  s_view : kview Z;
  s_next : Z;                              (* the next descriptor *)
  s_pending : nat;                         (* connections waiting for accept *)
  s_incoming : gmap Z (list (list byte));  (* what each recv returns; then the end *)
  s_lines : list (list byte);              (* what is typed *)
  s_ready : list (gset Z);                 (* what select and epoll_wait report *)
  s_sigint : list bool;
}.
Arguments mkSys {chunk} _ _ _ _ _ _ _.
Arguments s_view {chunk} s.
Arguments s_next {chunk} s.
Arguments s_pending {chunk} s.
Arguments s_incoming {chunk} s.
Arguments s_lines {chunk} s.
Arguments s_ready {chunk} s.
Arguments s_sigint {chunk} s.

Section Sim.
Context {chunk : nat}.
Implicit Types (s : sys chunk).

Definition s_with (v : kview Z) s : sys chunk :=
  mkSys v (s_next s) (s_pending s) (s_incoming s) (s_lines s) (s_ready s) (s_sigint s).

(** A new descriptor below 1024, or -1. *)
Definition s_open (f : kview Z → kview Z) s : Z * sys chunk :=
  let fd := s_next s in
  let v := s_view s in
  if decide (0 <= fd < 1024 ∧ (fd ∉ v_open v) ∧ v_interest v !! fd = None)
  then (fd, mkSys (view_accept fd (f v)) (fd + 1) (s_pending s) (s_incoming s) (s_lines s) (s_ready s) (s_sigint s))
  else (-1, s).

Definition s_recv s (fd len : Z) : (Z * list byte * Z) * sys chunk :=
  match s_incoming s !! fd with
  | None => ((-1, [], 11), s_with (view_recv fd [] (s_view s)) s)
  | Some [] => ((0, [], 0), s_with (view_recv fd [] (s_view s)) s)
  | Some (c :: cs) =>
      let data := take (Nat.min chunk (Z.to_nat len)) c in
      ((Z.of_nat (length data), data, 0),
       mkSys (view_recv fd data (s_view s)) (s_next s) (s_pending s) (<[fd := cs]> (s_incoming s))
         (s_lines s) (s_ready s) (s_sigint s))
  end.

Definition s_send s (fd : Z) (data : list byte) : Z * sys chunk :=
  if decide (fd ∈ v_open (s_view s))
  then (Z.of_nat (length data), s_with (view_send fd data (s_view s)) s)
  else (-1, s_with (view_send fd [] (s_view s)) s).

Definition s_accept s (fd len : Z) : (Z * list byte) * sys chunk :=
  match s_pending s with
  | O => ((-1, []), s)
  | S n =>
      let '(fd, s') := s_open id s in
      ((fd, []), mkSys (s_view s') (s_next s') n (s_incoming s') (s_lines s') (s_ready s') (s_sigint s'))
  end.

(** The descriptors of the next report. *)
Definition s_report s : gset Z * sys chunk :=
  match s_ready s with
  | [] => (∅, s)
  | r :: rs => (r, mkSys (s_view s) (s_next s) (s_pending s) (s_incoming s) (s_lines s) rs (s_sigint s))
  end.

Definition s_select s (nfds : Z) (fds : gset Z) : (Z * gset Z) * sys chunk :=
  let '(r, s') := s_report s in
  ((Z.of_nat (size (r ∩ fds)), r ∩ fds), s').

(** A plain EPOLLIN for those of them that are registered. *)
Definition s_event s (fd : Z) : option (Z * epoll_event Z) :=
  match v_interest (s_view s) !! fd with
  | None => None
  | Some ie => Some (fd, EpollEvent (Z.land EPOLLIN (ev_events ie)) (ev_ptr ie))
  end.

Definition s_wait s (epfd maxevents : Z) : (Z * list (epoll_event Z)) * sys chunk :=
  let '(r, s') := s_report s in
  let evs := omap (s_event s) (elements r) in
  if decide (NoDup evs.*1 ∧ Z.of_nat (length evs) <= maxevents)
  then ((Z.of_nat (length evs), evs.*2), s') else ((0, []), s').

#[export] Instance s_Kernel : Kernel Z (sys chunk) := {|
  sys_recv := s_recv;
  sys_send := s_send;
  sys_sigpipe s fd := false;
  sys_accept := s_accept;
  sys_getsockname s fd len := ((0, []), s);
  sys_socket s domain := s_open id s;
  sys_bind s fd addr := (0, s);
  sys_listen s fd backlog := (0, s);
  sys_shutdown_wr s fd := s;
  sys_close s fd := s_with (view_close fd (s_view s)) s;
  sys_epoll_create s := s_open (view_interest ∅) s;
  sys_epoll_ctl s epfd op fd ev := (0, s_with (view_ctl op fd ev (s_view s)) s);
  sys_epoll_wait := s_wait;
|}.

#[export] Instance s_Libc : Libc (sys chunk) := {|
  sys_connect s fd addr := (0, s);
  sys_select := s_select;
  sys_fcntl_getfd s fd := (0, s);
  sys_fcntl_setfl s fd fl := (0, s);
  sys_fgets s size :=
    match s_lines s with
    | [] => (None, s)
    | l :: ls => (Some (take (Z.to_nat (size - 1)) l),
        mkSys (s_view s) (s_next s) (s_pending s) (s_incoming s) ls (s_ready s) (s_sigint s))
    end;
  sys_remove s := ((0, 0), s);
  sys_sigint s :=
    match s_sigint s with
    | [] => (false, s)
    | b :: bs => (b, mkSys (s_view s) (s_next s) (s_pending s) (s_incoming s) (s_lines s) (s_ready s) bs)
    end;
|}.

(** ** The laws *)

Lemma s_open_spec f s fd s' :
  s_open f s = (fd, s') →
  (fd < 0 → s' = s)
  ∧ (0 <= fd → fd < 1024 ∧ (fd ∉ v_open (s_view s)) ∧ v_interest (s_view s) !! fd = None
      ∧ s_view s' = view_accept fd (f (s_view s))).
Proof.
  unfold s_open. case_decide as Hd; intros [= <- <-].
  - destruct Hd as (? & ? & ?). split; [lia|]. intros _. split_and!; try done. lia.
  - split; [done|lia].
Qed.

Lemma s_report_view s r s' : s_report s = (r, s') → s_view s' = s_view s.
Proof. unfold s_report. destruct (s_ready s); by intros [= _ <-]. Qed.

Lemma s_event_ok s fds :
  Forall2 (λ fd e, ∃ ie, (v_interest (s_view s) !! fd = Some ie) ∧ event_ok ie e)
    (omap (s_event s) fds).*1 (omap (s_event s) fds).*2.
Proof.
  induction fds as [|fd fds IH]; simpl; [constructor|].
  destruct (s_event s fd) as [[fd' e]|] eqn:E; simpl; [|exact IH]. constructor; [|exact IH].
  unfold s_event in E. destruct (v_interest (s_view s) !! fd) as [ie|] eqn:Ei; [|done].
  injection E as <- <-. exists ie. split; [done|].
  set (m := Z.land EPOLLIN (ev_events ie)). assert (m = 0 ∨ m = 1) as Hm.
  { subst m. unfold EPOLLIN. rewrite Z.land_comm.
    assert (Z.land (ev_events ie) 1 = ev_events ie mod 2) as -> by (apply (Z.land_ones _ 1); lia).
    pose proof (Z.mod_pos_bound (ev_events ie) 2). lia. }
  unfold event_ok; simpl. split_and!; [done|lia|lia|].
  intros i Hi. subst m. rewrite Z.land_spec. intros [_ Ht]%andb_true_iff.
  by rewrite Z.lor_spec, Ht.
Qed.

#[export] Instance s_KernelLaws : KernelLaws Z (sys chunk).
Proof.
  refine {| k_view := s_view |}; simpl.
  - unfold s_recv. intros s fd len n data err s' E Hlen.
    destruct (s_incoming s !! fd) as [[|c cs]|]; injection E as <- <- <- <-;
      rewrite ?length_take; split_and!; try done; lia.
  - unfold s_send. intros s fd data n s' E. case_decide; injection E as <- <-.
    + rewrite Nat2Z.id, firstn_all. split_and!; try done; lia.
    + split_and!; try done; lia.
  - intros s domain fd s' E. apply s_open_spec in E as [Hn Hp].
    split; [by intros ->%Hn|]. intros Hfd. destruct (Hp Hfd) as (? & ? & _ & ?). split_and!; [lia|done|done].
  - by intros s fd addr r s' [= _ <-].
  - by intros s fd backlog r s' [= _ <-].
  - intros s fd s' E Hfd. apply s_open_spec in E as [_ Hp].
    destruct (Hp Hfd) as (? & ? & _ & ?). split_and!; [lia|done|done].
  - unfold s_accept. intros s fd len connfd addr s' E. destruct (s_pending s).
    + injection E as <- <- <-. split; [done|lia].
    + destruct (s_open id s) as [fd1 s1] eqn:Eo. injection E as <- <- <-.
      apply s_open_spec in Eo as [Hn Hp]. simpl.
      split; [by intros ->%Hn|]. intros Hfd. destruct (Hp Hfd) as (? & ? & ? & ?).
      split_and!; try done; simpl; lia.
  - intros s fd len r addr s' [= <- <- <-]. simpl. split; [done|lia].
  - intros s epfd op fd ev r s' [= _ <-] _. simpl. split; [by left|done].
  - unfold s_wait. intros s epfd maxevents n evs s' E _.
    destruct (s_report s) as [r s1] eqn:Er. apply s_report_view in Er.
    destruct (decide _) as [[Hnd Hle]|]; injection E as <- <- <-.
    + rewrite length_fmap. split_and!; try done; try lia.
      exists ((omap (s_event s) (elements r)).*1). split; [done|]. apply s_event_ok.
    + split_and!; try done; try lia. exists []. by split; constructor.
Defined.

#[export] Instance s_LibcLaws : LibcLaws (sys chunk).
Proof.
  constructor; simpl.
  - done.
  - unfold s_send. intros s fd data n s' E Hfd. rewrite decide_False in E by done. by injection E as <- _.
  - by intros s fd addr r s' [= _ <-].
  - unfold s_select. intros s nfds fds n ready s' E. destruct (s_report s) as [r s1] eqn:Er.
    apply s_report_view in Er. injection E as _ <- <-. split; [done|]. intros _. apply intersection_subseteq_r.
  - by intros s fd r s' [= _ <-].
  - by intros s fd fl r s' [= _ <-].
  - intros s size line s' E Hsize. destruct (s_lines s) as [|l ls]; injection E as <- <-; (split; [done|]).
    + done.
    + intros l' [= <-]. rewrite length_take. lia.
  - by intros s r s' [= _ <-].
  - intros s b s' E. destruct (s_sigint s); by injection E as _ <-.
Defined.
End Sim.

(** Sizes of chunks: less than, and more than, the buffers of the programs. *)
Definition small : nat := Z.to_nat 1023.
Definition large : nat := Z.to_nat 4096.

(** A system before the program starts. *)
Definition s_boot {chunk : nat} (pending : nat) (incoming : gmap Z (list (list byte)))
    (lines : list (list byte)) (ready : list (gset Z)) : sys chunk :=
  mkSys (KView (list_to_set [0; 1; 2]) ∅ ∅ ∅ false false) 3 pending incoming lines ready [].
