(* ===== verification/Select.v ===== *)
(** * The select server (linux_tcp/select.cc)

    An echo server over [select] with an array of client descriptors, which also
    sends the lines typed at its console to every client.  [select_turn] is one
    turn of the loop of main; the loop is run for a number of turns, since only a
    signal ends it. *)

From S2P Require Import Prelude Kernel Sockets.

Definition BUFFER_SIZE : nat := Z.to_nat 1024.
Definition CONCURRENT_MAX : nat := Z.to_nat 10000.
Definition QUIT_CMD : list byte := bytes_of ".quit".
Definition STDIN_FILENO : Z := 0.

(** The size of [fd_set], from <sys/select.h>. *)
Definition FD_SETSIZE : Z := 1024.

Record select_vars : Type := mkVars {
  keep_running : bool;
  client_fds : list Z;       (* 0: a free place *)
  server_fd_set : gset Z;
  max_fd : Z;
}.

Definition set_keep_running (b : bool) (v : select_vars) : select_vars :=
  mkVars b (client_fds v) (server_fd_set v) (max_fd v).
Definition set_client_fds (l : list Z) (v : select_vars) : select_vars :=
  mkVars (keep_running v) l (server_fd_set v) (max_fd v).
Definition set_fd_set (s : gset Z) (v : select_vars) : select_vars :=
  mkVars (keep_running v) (client_fds v) s (max_fd v).
Definition set_max_fd (n : Z) (v : select_vars) : select_vars :=
  mkVars (keep_running v) (client_fds v) (server_fd_set v) n.

(** The static array and the locals of main; [max_fd] is -1. *)
Definition vars_init (n : nat) : select_vars := mkVars true (replicate n 0) ∅ (-1).

Section Select.
Context {K : Type} `{Kernel Z K} `{Libc K}.

#[local] Abbreviation prg := (M (prog K select_vars)).

(** The macros of <sys/select.h>, which index an array of [FD_SETSIZE] bits. *)
Definition FD_SET (fd : Z) : prg unit :=
  if (0 <=? fd) && (fd <? FD_SETSIZE)
  then with_own (λ v, set_fd_set ({[fd]} ∪ server_fd_set v) v) else throw OutOfBounds.

Definition FD_CLR (fd : Z) : prg unit :=
  if (0 <=? fd) && (fd <? FD_SETSIZE)
  then with_own (λ v, set_fd_set (server_fd_set v ∖ {[fd]}) v) else throw OutOfBounds.

Definition FD_ISSET (fd : Z) : prg bool :=
  if (0 <=? fd) && (fd <? FD_SETSIZE)
  then v ← get_own; mret (bool_decide (fd ∈ server_fd_set v)) else throw OutOfBounds.

Definition client_fd (i : nat) : prg Z :=
  v ← get_own;
  match client_fds v !! i with Some fd => mret fd | None => throw OutOfBounds end.

Definition set_client_fd (i : nat) (fd : Z) : prg unit :=
  v ← get_own;
  if decide (i < length (client_fds v))%nat
  then with_own (set_client_fds (<[i := fd]> (client_fds v))) else throw OutOfBounds.

(** [for (int i = 0; i < CONCURRENT_MAX; i++)]: over the array, whatever its size. *)
Definition for_clients (body : nat → prg unit) : prg unit :=
  v ← get_own; iterM body (seq 0 (length (client_fds v))).

Definition raise_max (fd : Z) : prg unit :=
  v ← get_own; when (max_fd v <? fd) (with_own (set_max_fd fd)).

(** The descriptors to wait for. *)
Definition build_set (server_sock_fd : Z) : prg unit :=
  with_own (set_fd_set ∅) ;;
  FD_SET STDIN_FILENO ;; raise_max STDIN_FILENO ;;
  FD_SET server_sock_fd ;; raise_max server_sock_fd ;;
  for_clients (λ i,
    fd ← client_fd i;
    when (negb (fd =? 0)) (FD_SET fd ;; raise_max fd)).

(** A line from the console goes to every client, as a whole buffer. *)
Definition send_input (input_msg : list byte) : prg unit :=
  for_clients (λ i,
    fd ← client_fd i;
    when (negb (fd =? 0)) (_ ← ksend fd input_msg; mret tt)).

Definition handle_stdin : prg (option Z) :=
  line ← kcall (λ k, sys_fgets k (Z.of_nat BUFFER_SIZE));
  let input_msg := zeroed BUFFER_SIZE (default [] line) in
  if bool_decide (cbytes input_msg = QUIT_CMD) then mret (Some 0)
  else send_input input_msg ;; mret None.

(** The first free place. *)
Definition free_place (fds : list Z) : option nat := fst <$> list_find (λ fd, fd = 0) fds.

Definition full_message : list byte :=
  zeroed BUFFER_SIZE (bytes_of "服务器加入的客户端数达到最大值,无法加入!
").

(** [address_len] is passed to accept without a value: [garbage]. *)
Definition handle_accept (garbage server_sock_fd : Z) : prg unit :=
  r ← kcall (λ k, sys_accept k server_sock_fd garbage);
  let client_sock_fd := fst r in
  when (0 <? client_sock_fd) (
    v ← get_own;
    match free_place (client_fds v) with
    | Some i => set_client_fd i client_sock_fd
    | None => _ ← ksend client_sock_fd full_message; mret tt
    end).

(** A message of a client is sent back to it. *)
Definition handle_client (i : nat) : prg unit :=
  fd ← client_fd i;
  when (negb (fd =? 0)) (
    ready ← FD_ISSET fd;
    when ready (
      r ← kcall (λ k, sys_recv k fd (Z.of_nat BUFFER_SIZE));
      let '(byte_num, data, _) := r in
      if 0 <? byte_num then
        let byte_num := if Z.of_nat BUFFER_SIZE <? byte_num then Z.of_nat BUFFER_SIZE else byte_num in
        if byte_num <? Z.of_nat BUFFER_SIZE then
          (* recv_msg[byte_num] = 0 *)
          _ ← ksend fd (take (Z.to_nat byte_num) data); mret tt
        else throw OutOfBounds
      else if byte_num <? 0 then mret tt
      else FD_CLR fd ;; set_client_fd i 0)).

(** One turn of the loop of main: an exit code, if it exits. *)
Definition select_turn (garbage server_sock_fd : Z) : prg (option Z) :=
  build_set server_sock_fd ;;
  v ← get_own;
  r ← kcall (λ k, sys_select k (max_fd v + 1) (server_fd_set v));
  if fst r <=? 0 then mret None
  else
    with_own (set_fd_set (snd r)) ;;
    typed ← FD_ISSET STDIN_FILENO;
    quit ← (if (typed : bool) then handle_stdin else mret None);
    match quit with
    | Some code => mret (Some code)
    | None =>
        new ← FD_ISSET server_sock_fd;
        when new (handle_accept garbage server_sock_fd) ;;
        for_clients handle_client ;;
        mret None
    end.

(** The end of main, after SIGINT. *)
Definition close_clients (server_sock_fd : Z) : prg unit :=
  for_clients (λ i,
    fd ← client_fd i;
    when (negb (fd =? 0)) (kcall_ (λ k, sys_close k fd))) ;;
  kcall_ (λ k, sys_close k server_sock_fd).

(** [keep_running] is cleared by the signal handler; the loop sees it at its head. *)
Definition read_keep_running : prg bool :=
  sigint ← kcall sys_sigint;
  when sigint (with_own (set_keep_running false)) ;;
  v ← get_own; mret (keep_running v).

Fixpoint select_loop (turns : nat) (garbage server_sock_fd : Z) : prg (option Z) :=
  match turns with
  | O => mret None
  | S turns' =>
      running ← read_keep_running;
      if (running : bool) then
        r ← select_turn garbage server_sock_fd;
        match r with
        | Some code => mret (Some code)
        | None => select_loop turns' garbage server_sock_fd
        end
      else close_clients server_sock_fd ;; mret (Some 0)
  end.

Definition server_addr : list byte :=
  [Byte.x02; Byte.x00; Byte.x22; Byte.xb3] ++ replicate 12 Byte.x00.

Definition select_main (turns : nat) (garbage : Z) : prg (option Z) :=
  server_sock_fd ← kcall (λ k, sys_socket k 2);
  if server_sock_fd =? -1 then mret (Some 1)
  else
    b ← kcall (λ k, sys_bind k server_sock_fd server_addr);
    if b =? -1 then mret (Some 1)
    else
      l ← kcall (λ k, sys_listen k server_sock_fd 5);
      if l =? -1 then mret (Some 1)
      else select_loop turns garbage server_sock_fd.
End Select.
