(* ===== verification/SelectProps.v ===== *)
(** * Properties of the select server

    Within the limits of its buffers (descriptors below [FD_SETSIZE], less than
    [BUFFER_SIZE] bytes at a time) the server goes on without an error until it is told
    to end or SIGPIPE kills it, and sends to every client what it has received from it;
    beyond them it writes out of bounds. *)

From S2P Require Import Prelude Kernel Sockets Select SocketsSim.

(** ** What is sent

    To a client goes what it has sent, with lines of the console between, each as a
    whole buffer.  A call of [send] may take a part of its argument only: [cut] is
    which parts it takes, [prefix] in general and [eq] if it takes everything. *)

Section Talk.
Context (cut : list byte → list byte → Prop).

Inductive echoes : list byte → list byte → Prop :=
| echoes_nil : echoes [] []
| echoes_message r s m m' : echoes r s → cut m m' → echoes (r ++ m) (s ++ m')
| echoes_line r s line m' :
    echoes r s → (length line < BUFFER_SIZE)%nat → cut (zeroed BUFFER_SIZE line) m' → echoes r (s ++ m').

Definition talks {P} (v : kview P) (fd : Z) : Prop :=
  echoes (trace_of (v_recvd v) fd) (trace_of (v_sent v) fd).
End Talk.

Definition sends_cut (K : Type) `{KernelLaws Z K} (cut : list byte → list byte → Prop) : Prop :=
  ∀ (k : K) fd data r k', sys_send k fd data = (r, k') → fd ∈ v_open (k_view k) →
    (length data ≤ BUFFER_SIZE)%nat → cut data (take (Z.to_nat r) data).

(** Without lines of the console, and when all is sent, it is an echo. *)
Lemma echoes_lengths r s : echoes eq r s →
  (length r ≤ length s)%nat ∧ (length s < length r + BUFFER_SIZE → s = r)%nat.
Proof.
  assert (∀ line, (BUFFER_SIZE ≤ length (zeroed BUFFER_SIZE line))%nat) as Hl.
  { intros line. unfold zeroed. rewrite length_app, length_replicate. lia. }
  induction 1 as [|r s m m' _ [IHl IH] <-|r s line m' _ [IHl IH] _ <-]; rewrite ?length_app.
  - done.
  - split; [lia|]. intros Hlt. by rewrite IH by lia.
  - specialize (Hl line). split; lia.
Qed.

Lemma trace_recv {P} (v : kview P) fd fd' data :
  trace_of (v_recvd (view_recv fd data v)) fd' = trace_of (v_recvd v) fd' ++ (if decide (fd = fd') then data else []).
Proof.
  simpl. case_decide as E; [subst; apply trace_of_insert_eq|]. by rewrite trace_of_insert_ne, app_nil_r.
Qed.

Lemma trace_send {P} (v : kview P) fd fd' data :
  trace_of (v_sent (view_send fd data v)) fd' = trace_of (v_sent v) fd' ++ (if decide (fd = fd') then data else []).
Proof.
  simpl. case_decide as E; [subst; apply trace_of_insert_eq|]. by rewrite trace_of_insert_ne, app_nil_r.
Qed.

(** The kernel gives descriptors that fit an [fd_set], and fewer bytes at a time
    than the buffer holds. *)
Record within_limits {K} `{Kernel Z K} : Prop := {
  lim_recv k fd n data err k' :
    sys_recv k fd (Z.of_nat BUFFER_SIZE) = (n, data, err, k') → n < Z.of_nat BUFFER_SIZE;
  lim_accept k fd len connfd addr k' : sys_accept k fd len = (connfd, addr, k') → connfd < FD_SETSIZE;
  lim_socket k domain fd k' : sys_socket k domain = (fd, k') → -1 <= fd < FD_SETSIZE;
}.
Arguments within_limits K {_}.

Section Proofs.
Context {K : Type} `{LibcLaws K}.
Context (cut : list byte → list byte → Prop) (Hcut : sends_cut K cut).
Implicit Types (w : prog K select_vars) (k : K).

Abbreviation open_fds w := (v_open (k_view (kern w))).
#[local] Abbreviation talking k fd := (talks cut (k_view k) fd).

(** ** Invariant *)

(** [n] is the size of the array, [srv] the listening descriptor. *)
Record Inv (n : nat) (srv : Z) w : Prop := {
  i_len : length (client_fds (own w)) = n;
  i_srv : 0 <= srv < FD_SETSIZE;
  i_slot i fd : client_fds (own w) !! i = Some fd → fd ≠ 0 → 0 < fd < FD_SETSIZE ∧ (fd ∈ open_fds w);
  i_inj i j fd : client_fds (own w) !! i = Some fd → client_fds (own w) !! j = Some fd → fd ≠ 0 → i = j;
  i_talk i fd : client_fds (own w) !! i = Some fd → fd ≠ 0 → talking (kern w) fd;
}.

(** The calls between [k] and [k'] close nothing, and what the clients are sent is
    still theirs. *)
Definition goes_on k k' : Prop :=
  v_open (k_view k) ⊆ v_open (k_view k')
  ∧ ∀ fd, fd ∈ v_open (k_view k) → talking k fd → talking k' fd.

Lemma goes_on_same k k' : k_view k' = k_view k → goes_on k k'.
Proof. unfold goes_on, talks. by intros ->. Qed.

Lemma goes_on_trans k1 k2 k3 : goes_on k1 k2 → goes_on k2 k3 → goes_on k1 k3.
Proof. intros [Ho1 Ht1] [Ho2 Ht2]. split; [set_solver|]. intros fd Hfd Ht. auto. Qed.

(** A line of the console is sent. *)
Lemma goes_on_line k fd line r k' :
  sys_send k fd (zeroed BUFFER_SIZE line) = (r, k') → fd ∈ v_open (k_view k) →
  (length line < BUFFER_SIZE)%nat → goes_on k k'.
Proof.
  intros E Hfd Hl. assert (length (zeroed BUFFER_SIZE line) ≤ BUFFER_SIZE)%nat as Hz.
  { unfold zeroed. rewrite length_app, length_replicate. lia. }
  pose proof (Hcut _ _ _ _ _ E Hfd Hz) as Hm. apply send_law in E as [_ Hv]. unfold goes_on, talks. rewrite Hv.
  split; [done|]. intros fd' _ Ht. rewrite trace_send. simpl. case_decide; [|by rewrite app_nil_r].
  by eapply echoes_line.
Qed.

(** A message is sent back. *)
Lemma goes_on_message k fd len n data err k1 r k2 :
  sys_recv k fd len = (n, data, err, k1) → 0 <= len <= Z.of_nat BUFFER_SIZE →
  sys_send k1 fd data = (r, k2) → fd ∈ v_open (k_view k) → goes_on k k2.
Proof.
  intros Er Hlen Es Hfd. apply recv_law in Er as (Hn & Hl & Hv1); [|lia].
  assert (fd ∈ v_open (k_view k1)) as Hfd1 by by rewrite Hv1.
  pose proof (Hcut _ _ _ _ _ Es Hfd1 ltac:(lia)) as Hm.
  apply send_law in Es as [_ Hv2]. unfold goes_on, talks. rewrite Hv2, Hv1. split; [done|].
  intros fd' _ Ht. rewrite trace_send. simpl v_recvd.
  change (<[fd := _]> (v_recvd (k_view k))) with (v_recvd (view_recv fd data (k_view k))).
  rewrite trace_recv. simpl. case_decide; [|by rewrite !app_nil_r]. by eapply echoes_message.
Qed.

(** Nothing is received. *)
Lemma goes_on_nothing k fd len n data err k' :
  sys_recv k fd len = (n, data, err, k') → 0 <= len → n <= 0 → goes_on k k'.
Proof.
  intros E Hlen Hn. apply recv_law in E as (_ & Hl & Hv); [|done]. unfold goes_on, talks. rewrite Hv.
  split; [done|]. intros fd' _ Ht. rewrite trace_recv. destruct data; [|simpl in Hl; lia].
  case_decide; by rewrite app_nil_r.
Qed.

(** A connection is accepted, and perhaps told that there is no place. *)
Lemma goes_on_new k fd k' :
  k_view k' = view_accept fd (k_view k) → fd ∉ v_open (k_view k) → goes_on k k' ∧ talking k' fd.
Proof.
  intros Hv Hnew. unfold goes_on, talks. rewrite Hv. simpl. split_and!; [set_solver|..].
  - intros fd' Hfd. rewrite !trace_of_insert_ne by (intros ->; done). done.
  - rewrite !trace_of_insert_eq. constructor.
Qed.

Lemma goes_on_other k fd data r k' : sys_send k fd data = (r, k') →
  v_open (k_view k') = v_open (k_view k) ∧ ∀ fd', fd' ≠ fd → talking k fd' → talking k' fd'.
Proof.
  intros [_ Hv]%send_law. unfold talks. rewrite Hv. split; [done|]. intros fd' Hne. rewrite trace_send.
  rewrite decide_False by done. by rewrite app_nil_r.
Qed.

Lemma Inv_change n srv w w' :
  Inv n srv w → client_fds (own w') = client_fds (own w) → goes_on (kern w) (kern w') → Inv n srv w'.
Proof.
  intros [Hl Hs Hf Hi Ht] Hc [Ho Hg]. constructor; [by rewrite Hc|done|..].
  - intros i fd. rewrite Hc. intros Hx Hne. destruct (Hf i fd Hx Hne). auto.
  - intros i j fd. rewrite Hc. apply Hi.
  - intros i fd. rewrite Hc. intros Hx Hne. apply Hg; [by apply (Hf i)|by eapply Ht].
Qed.

Lemma Inv_same n srv w w' :
  Inv n srv w → client_fds (own w') = client_fds (own w) → kern w' = kern w → Inv n srv w'.
Proof. intros HI Hc Hk. apply (Inv_change n srv w); [done|done|]. rewrite Hk. by apply goes_on_same. Qed.

(** A place can be given a new descriptor, or freed. *)
Lemma Inv_set_place n srv w i fd :
  Inv n srv w → fd = 0 ∨ 0 < fd < FD_SETSIZE ∧ (fd ∈ open_fds w) ∧ (fd ∉ client_fds (own w)) ∧ talking (kern w) fd →
  Inv n srv (mkProg (kern w) (set_client_fds (<[i := fd]> (client_fds (own w))) (own w))).
Proof.
  intros [Hl Hs Hf Hi Ht] Hfd. constructor; simpl; [by rewrite length_insert|done|..].
  - intros j x Hx Hne. apply list_lookup_insert_Some in Hx as [(-> & <- & _)|[_ Hx]].
    + destruct Hfd as [->|(? & ? & _)]; done.
    + by eapply Hf.
  - intros j1 j2 x Hp Hq Hne.
    apply list_lookup_insert_Some in Hp as [(<- & <- & _)|[Hn1 Hp]];
    apply list_lookup_insert_Some in Hq as [(<- & Hx & _)|[Hn2 Hq]]; [done| | |by eapply Hi].
    + destruct Hfd as [->|(_ & _ & Hnot & _)]; [done|]. by apply list_elem_of_lookup_2 in Hq.
    + subst x. destruct Hfd as [->|(_ & _ & Hnot & _)]; [done|]. by apply list_elem_of_lookup_2 in Hp.
  - intros j x Hx Hne. apply list_lookup_insert_Some in Hx as [(-> & <- & _)|[_ Hx]].
    + destruct Hfd as [->|(_ & _ & _ & ?)]; done.
    + by eapply Ht.
Qed.

(** ** The set macros and the loops *)

Lemma ends_FD_SET n srv fd w :
  Inv n srv w → 0 <= fd < FD_SETSIZE → ends (FD_SET fd) w (λ _, Inv n srv).
Proof.
  intros HI Hfd. unfold FD_SET. rewrite (proj2 (Z.leb_le _ _)), (proj2 (Z.ltb_lt _ _)) by lia.
  apply ends_modify. by apply (Inv_same n srv w).
Qed.

Lemma ends_FD_CLR n srv fd w :
  Inv n srv w → 0 <= fd < FD_SETSIZE → ends (FD_CLR fd) w (λ _, Inv n srv).
Proof.
  intros HI Hfd. unfold FD_CLR. rewrite (proj2 (Z.leb_le _ _)), (proj2 (Z.ltb_lt _ _)) by lia.
  apply ends_modify. by apply (Inv_same n srv w).
Qed.

Lemma ends_FD_ISSET fd w : 0 <= fd < FD_SETSIZE → ends (FD_ISSET fd) w (λ _ w', w' = w).
Proof.
  intros Hfd. unfold FD_ISSET. rewrite (proj2 (Z.leb_le _ _)), (proj2 (Z.ltb_lt _ _)) by lia.
  by eapply ends_Ok.
Qed.

Lemma ends_raise_max n srv fd w : Inv n srv w → ends (raise_max fd) w (λ _, Inv n srv).
Proof.
  intros HI. unfold raise_max. apply ends_bind, ends_get_own, ends_when; [|done].
  intros _. apply ends_modify. by apply (Inv_same n srv w).
Qed.

Lemma ends_client_fd n srv i w :
  Inv n srv w → (i < n)%nat →
  ends (client_fd i) w (λ fd w', w' = w ∧ (fd ≠ 0 → 0 < fd < FD_SETSIZE ∧ (fd ∈ open_fds w))).
Proof.
  intros HI Hi. destruct (lookup_lt_is_Some_2 (client_fds (own w)) i) as [fd Hfd].
  { by rewrite (i_len _ _ _ HI). }
  eapply ends_Ok.
  - unfold client_fd, mbind, M_bind, get_own. rewrite Hfd. reflexivity.
  - split; [done|]. intros Hne. by destruct (i_slot _ _ _ HI i fd Hfd Hne).
Qed.

(** A loop over the clients with a body that works on the used places. *)
Lemma ends_for_clients n srv (body : nat → M (prog K select_vars) unit) w :
  (∀ i w, (i < n)%nat → Inv n srv w → ends (body i) w (λ _, Inv n srv)) →
  Inv n srv w → ends (for_clients body) w (λ _, Inv n srv).
Proof.
  intros Hb HI. unfold for_clients. apply ends_bind, ends_get_own. rewrite (i_len _ _ _ HI).
  apply ends_iterM; [|done]. intros i w' Hi. apply elem_of_seq in Hi. apply Hb. lia.
Qed.

Lemma ends_used_place n srv i (body : Z → M (prog K select_vars) unit) w :
  (i < n)%nat → Inv n srv w →
  (∀ fd, 0 < fd < FD_SETSIZE → fd ∈ open_fds w → ends (body fd) w (λ _, Inv n srv)) →
  ends (fd ← client_fd i; when (negb (fd =? 0)) (body fd)) w (λ _, Inv n srv).
Proof.
  intros Hi HI Hb. apply ends_bind. eapply ends_conseq; [by eapply ends_client_fd|].
  intros fd w' [-> Hfd]. apply ends_when; [|done]. intros Hne%negb_true_iff%Z.eqb_neq. by apply Hb; apply Hfd.
Qed.

(** ** The parts of a turn *)

Lemma ends_build_set n srv w : Inv n srv w → ends (build_set srv) w (λ _, Inv n srv).
Proof.
  intros HI. pose proof (i_srv _ _ _ HI). unfold build_set.
  apply ends_bind, ends_modify. apply ends_bind.
  eapply ends_conseq; [apply (ends_FD_SET n srv); [by apply (Inv_same n srv w)|done]|]. intros [] w1 HI1.
  apply ends_bind. eapply ends_conseq; [by apply ends_raise_max|]. intros [] w2 HI2.
  apply ends_bind. eapply ends_conseq; [by apply ends_FD_SET|]. intros [] w3 HI3.
  apply ends_bind. eapply ends_conseq; [by apply ends_raise_max|]. intros [] w4 HI4.
  apply ends_for_clients; [|done]. intros i w' Hi HI'. apply ends_used_place; [done|done|].
  intros fd Hfd _. apply ends_bind. eapply ends_conseq; [apply ends_FD_SET; [done|lia]|].
  intros [] w'' HI''. by apply ends_raise_max.
Qed.

(** A new client that is not taken is told so. *)
Lemma Inv_told n srv w k k' fd :
  Inv n srv (mkProg k (own w)) → fd ∉ client_fds (own w) → v_open (k_view k') = v_open (k_view k) →
  (∀ fd', fd' ≠ fd → talking k fd' → talking k' fd') → Inv n srv (mkProg k' (own w)).
Proof.
  intros [Hl Hs Hf Hi Ht] Hnot Ho Hother. simpl in *. constructor; simpl; [done|done|..].
  - intros i x Hx Hne. rewrite Ho. by eapply Hf.
  - done.
  - intros i x Hx Hne. apply Hother; [|by eapply Ht]. intros ->. by apply list_elem_of_lookup_2 in Hx.
Qed.

(** A call after which the server goes on. *)
Lemma ends_call n srv {A B} (f : K → A * K) (g : A → M (prog K select_vars) B) w (Q : B → prog K select_vars → Prop) :
  Inv n srv w → (∀ a k, f (kern w) = (a, k) → goes_on (kern w) k) →
  (∀ a w', Inv n srv w' → own w' = own w → f (kern w) = (a, kern w') → ends (g a) w' Q) →
  ends (a ← kcall f; g a) w Q.
Proof.
  intros HI Hf Hg. apply ends_bind, ends_kcall. intros a k E.
  apply Hg; [|done|done]. apply (Inv_change n srv w); [done|done|]. by apply (Hf a k E).
Qed.

Lemma ends_send n srv {B} fd data (g : Z → M (prog K select_vars) B) w (Q : B → prog K select_vars → Prop) :
  Inv n srv w → (∀ a k, sys_send (kern w) fd data = (a, k) → goes_on (kern w) k) →
  (∀ a w', Inv n srv w' → own w' = own w → ends (g a) w' Q) →
  ends (a ← ksend fd data; g a) w Q.
Proof.
  intros HI Hf Hg. apply ends_bind, ends_ksend. intros a k _ E.
  apply Hg; [|done]. apply (Inv_change n srv w); [done|done|]. by apply (Hf a k E).
Qed.

(** The line [".quit"] has just been read. *)
Definition quit_typed w : Prop :=
  ∃ k line, sys_fgets k (Z.of_nat BUFFER_SIZE) = (line, kern w)
    ∧ cbytes (zeroed BUFFER_SIZE (default [] line)) = QUIT_CMD.

Lemma ends_handle_stdin n srv w :
  Inv n srv w → ends handle_stdin w (λ r w', match r with None => Inv n srv w' | Some code => code = 0 ∧ quit_typed w' end).
Proof.
  intros HI. unfold handle_stdin. eapply ends_call; [exact HI|..].
  { intros line k [? _]%fgets_law; [by apply goes_on_same|done]. }
  intros line w1 HI1 _ E. pose proof E as [_ Hline]%fgets_law; [|done].
  assert (length (default [] line) < BUFFER_SIZE)%nat as Hl.
  { destruct line as [l|]; [specialize (Hline l eq_refl); simpl; lia|by apply Nat.ltb_lt; vm_compute]. }
  rename E into Hq. case_match eqn:Ecmp.
  { apply ends_ret. split; [done|]. exists (kern w), line. split; [done|]. by apply bool_decide_eq_true in Ecmp. }
  apply ends_bind. eapply ends_conseq.
  - apply ends_for_clients; [|exact HI1]. intros i w' Hi HI'. apply ends_used_place; [done|done|].
    intros fd Hfd Hop. eapply ends_send; [exact HI'|intros r k Es; by eapply goes_on_line|].
    intros r w2 HI2 _. by apply ends_ret.
  - intros [] w2 HI2. by apply ends_ret.
Qed.
(** ** Within the limits *)

Context (Hlim : within_limits K).

Lemma ends_handle_accept n srv garbage w :
  Inv n srv w → ends (handle_accept garbage srv) w (λ _, Inv n srv).
Proof.
  intros HI. unfold handle_accept. apply ends_bind, ends_kcall. intros [fd addr] k E. simpl.
  pose proof (lim_accept Hlim _ _ _ _ _ _ E) as Hfd. apply accept_law in E as [Hneg Hpos].
  apply ends_when; simpl.
  - intros Hlt%Z.ltb_lt. destruct (Hpos ltac:(lia)) as (_ & Hnew & _ & Hk & _).
    destruct (goes_on_new _ _ _ Hk Hnew) as [Hg Ht].
    assert (Inv n srv (mkProg k (own w))) as HI1 by by apply (Inv_change n srv w).
    assert (fd ∉ client_fds (own w)) as Hnot.
    { intros [j Hj]%list_elem_of_lookup_1. destruct (i_slot _ _ _ HI j fd Hj ltac:(lia)). done. }
    apply ends_bind, ends_get_own. simpl.
    destruct (free_place (client_fds (own w))) as [i|] eqn:Efree.
    + assert (i < length (client_fds (own w)))%nat as Hi.
      { unfold free_place in Efree. destruct (list_find _ _) as [[j y]|] eqn:El; simplify_eq/=.
        apply list_find_Some in El as (El & _). by apply lookup_lt_Some in El. }
      unfold set_client_fd. apply ends_bind, ends_get_own. simpl. rewrite decide_True by done.
      apply ends_modify. apply (Inv_set_place n srv (mkProg k (own w))); [done|]. right. simpl.
      split_and!; [lia|lia|rewrite Hk; simpl; apply elem_of_union; left; by apply elem_of_singleton|done|done].
    + apply ends_bind, ends_ksend. intros r k' _ Es. apply ends_ret. simpl in Es.
      apply goes_on_other in Es as [Ho Hother]. by apply (Inv_told n srv w k k' fd).
  - intros Hge%Z.ltb_ge. apply (Inv_change n srv w); [done|done|]. simpl.
    destruct (decide (fd < 0)) as [Hl|Hl]; [by apply goes_on_same, Hneg|].
    destruct (Hpos ltac:(lia)) as (_ & Hnew & _ & Hk & _). by eapply goes_on_new.
Qed.

Lemma ends_handle_client n srv i w :
  (i < n)%nat → Inv n srv w → ends (handle_client i) w (λ _, Inv n srv).
Proof.
  intros Hi HI. unfold handle_client. apply ends_used_place; [done|done|]. intros fd Hfd Hop.
  apply ends_bind. eapply ends_conseq; [apply ends_FD_ISSET; lia|]. intros ready w0 ->.
  apply ends_when; [intros _|done]. apply ends_bind, ends_kcall. intros [[m data] err] k E.
  apply (lim_recv Hlim) in E as Hm. destruct (Z.ltb_spec 0 m) as [Hpos|Hnon].
  - rewrite (proj2 (Z.ltb_ge _ m)) by lia. rewrite (proj2 (Z.ltb_lt m _)) by lia.
    apply recv_law in E as Hr; [|lia]. destruct Hr as (_ & Hl & _). rewrite take_ge by lia.
    apply ends_bind, ends_ksend. intros r k2 _ Es. apply ends_ret.
    apply (Inv_change n srv w); [done|done|]. by eapply goes_on_message; [exact E|lia|exact Es|].
  - assert (Inv n srv (mkProg k (own w))) as HI1.
    { apply (Inv_change n srv w); [done|done|]. by eapply goes_on_nothing; [exact E|lia|]. }
    destruct (m <? 0); [by apply ends_ret|]. apply ends_bind.
    eapply ends_conseq; [apply (ends_FD_CLR n srv); [done|lia]|]. intros [] w2 HI2.
    unfold set_client_fd. apply ends_bind, ends_get_own. rewrite decide_True by by rewrite (i_len _ _ _ HI2).
    apply ends_modify. apply (Inv_set_place n srv w2); [done|]. by left.
Qed.

Lemma ends_select_turn n srv garbage w :
  Inv n srv w → ends (select_turn garbage srv) w
    (λ r w', match r with None => Inv n srv w' | Some code => code = 0 ∧ quit_typed w' end).
Proof.
  intros HI. unfold select_turn. apply ends_bind.
  eapply ends_conseq; [by apply ends_build_set|]. intros [] w1 HI1.
  apply ends_bind, ends_get_own. eapply ends_call; [exact HI1|..].
  { intros [r ready] k [? _]%select_law. by apply goes_on_same. }
  intros [r ready] w2 HI2 _ _. simpl. destruct (r <=? 0); [by apply ends_ret|].
  apply ends_bind, ends_modify. set (w3 := mkProg _ _).
  assert (Inv n srv w3) as HI3 by by apply (Inv_same n srv w2).
  apply ends_bind. eapply ends_conseq; [by apply ends_FD_ISSET|]. intros typed w4 ->.
  apply ends_bind. eapply ends_conseq.
  { apply (λ H, H : ends (if typed then handle_stdin else mret None) w3
      (λ r w', match r with None => Inv n srv w' | Some code => code = 0 ∧ quit_typed w' end)).
    destruct typed; [by apply ends_handle_stdin|by apply ends_ret]. }
  intros quit w5 HI5. destruct quit; [by apply ends_ret|].
  apply ends_bind. eapply ends_conseq; [apply ends_FD_ISSET, (i_srv _ _ _ HI5)|]. intros new w6 ->.
  apply ends_bind. apply (ends_conseq _ _ _ (λ _, Inv n srv)).
  { apply ends_when; [intros _; by apply ends_handle_accept|done]. }
  intros [] w7 HI7. apply ends_bind. eapply ends_conseq.
  - apply ends_for_clients; [|exact HI7]. intros i w' Hi HI'. by apply ends_handle_client.
  - intros [] w8 HI8. by apply ends_ret.
Qed.

Lemma ends_read_keep_running n srv w :
  Inv n srv w → ends read_keep_running w (λ b w', Inv n srv w' ∧ b = keep_running (own w')).
Proof.
  intros HI. unfold read_keep_running. eapply ends_call; [exact HI|by intros b k ?%sigint_law; apply goes_on_same|].
  intros sigint w1 HI1 _ _. apply ends_bind. apply (ends_conseq _ _ _ (λ _, Inv n srv)).
  - apply ends_when; [|done]. intros _. apply ends_modify. by apply (Inv_same n srv w1).
  - intros [] w2 HI2. apply ends_bind, ends_get_own. by apply ends_ret.
Qed.

(** The invariant is for a server that goes on: at the end, main closes all. *)
Lemma ends_close_clients n srv w :
  Inv n srv w → ends (close_clients srv) w (λ _ w', keep_running (own w') = keep_running (own w)).
Proof.
  intros HI. unfold close_clients. apply ends_bind.
  apply (ends_conseq _ _ _ (λ _ w', own w' = own w)); [|by intros [] w' <-].
  unfold for_clients. apply ends_bind, ends_get_own. rewrite (i_len _ _ _ HI).
  apply ends_iterM; [|done]. intros i w' Hi Hl. apply elem_of_seq in Hi.
  destruct (lookup_lt_is_Some_2 (client_fds (own w')) i) as [fd Hfd]; [rewrite Hl, (i_len _ _ _ HI); lia|].
  apply ends_bind. apply ends_Ok with fd w'; [unfold client_fd, mbind, M_bind, get_own; by rewrite Hfd|].
  apply ends_when; [|done]. intros _. by apply ends_modify.
Qed.

(** How main ends once its loop has begun: on SIGINT, or on [".quit"]. *)
Definition stopped (code : Z) w : Prop :=
  code = 0 ∧ (keep_running (own w) = false ∨ quit_typed w).

Lemma ends_select_loop n srv garbage turns w :
  Inv n srv w → ends (select_loop turns garbage srv) w
    (λ r w', match r with None => Inv n srv w' | Some code => stopped code w' end).
Proof.
  revert w. induction turns as [|turns IH]; intros w HI; simpl; [by apply ends_ret|].
  apply ends_bind. eapply ends_conseq; [by apply ends_read_keep_running|].
  intros [] w1 [HI1 Hrun].
  - apply ends_bind. eapply ends_conseq; [by apply ends_select_turn|].
    intros [code|] w2 HI2; [|by apply IH]. apply ends_ret. destruct HI2. split; [done|by right].
  - apply ends_bind. eapply ends_conseq; [by eapply ends_close_clients|].
    intros [] w2 Hk. apply ends_ret. split; [done|]. left. by rewrite Hk.
Qed.

Lemma Inv_init n srv k : 0 <= srv < FD_SETSIZE → Inv n srv (mkProg k (vars_init n)).
Proof.
  intros Hs. constructor; simpl; [apply length_replicate|done|..].
  - by intros i fd [-> _]%lookup_replicate.
  - by intros i j fd [-> _]%lookup_replicate.
  - by intros i fd [-> _]%lookup_replicate.
Qed.

(** The socket of the server could not be opened, bound or made to listen. *)
Definition setup_fails k : bool :=
  let '(srv, k1) := sys_socket k 2 in
  let '(b, k2) := sys_bind k1 srv server_addr in
  let '(l, _) := sys_listen k2 srv 5 in
  (srv =? -1) || (b =? -1) || (l =? -1).

Lemma ends_select_main n garbage turns k :
  ends (select_main turns garbage) (mkProg k (vars_init n))
    (λ r w', if setup_fails k then r = Some 1
             else match r with None => ∃ srv, Inv n srv w' | Some code => stopped code w' end).
Proof.
  unfold select_main, setup_fails. apply ends_bind, ends_kcall. intros srv k1 E1. simpl in E1. rewrite E1.
  apply (lim_socket Hlim) in E1.
  destruct (sys_bind k1 srv server_addr) as [b k2] eqn:E2.
  destruct (sys_listen k2 srv 5) as [l k3] eqn:E3.
  destruct (Z.eqb_spec srv (-1)) as [|Es]; [by apply ends_ret|].
  apply ends_bind, ends_kcall. intros b' k2' E2'. simpl in E2'. rewrite E2 in E2'. injection E2' as <- <-.
  destruct (b =? -1); [by apply ends_ret|].
  apply ends_bind, ends_kcall. intros l' k3' E3'. simpl in E3'. rewrite E3 in E3'. injection E3' as <- <-.
  destruct (l =? -1); [by apply ends_ret|]. simpl.
  eapply ends_conseq; [apply (ends_select_loop n srv)|].
  - apply Inv_init. lia.
  - intros [code|] w' HI; [done|by exists srv].
Qed.
End Proofs.

(** ** Beyond the limits *)

Section Beyond.
Context {K : Type} `{LibcLaws K}.
Implicit Types (w : prog K select_vars) (k : K).

(** A routine that keeps the places, and whose only error is [OutOfBounds]. *)
Definition overflows_or_keeps {A} (m : M (prog K select_vars) A) : Prop :=
  ∀ w, m w = Fault OutOfBounds ∨ ∃ a w', m w = Ok a w' ∧ client_fds (own w') = client_fds (own w).

Lemma ook_bind {A B} (m : M (prog K select_vars) A) (f : A → M (prog K select_vars) B) :
  overflows_or_keeps m → (∀ a, overflows_or_keeps (f a)) → overflows_or_keeps (m ≫= f).
Proof.
  intros Hm Hf w. unfold mbind, M_bind. destruct (Hm w) as [E|(a & w1 & E & Hc)]; rewrite E; [by left|].
  destruct (Hf a w1) as [E'|(b & w2 & E' & Hc')]; rewrite E'; [by left|]. right. exists b, w2.
  split; [done|congruence].
Qed.

Lemma ook_ret {A} (a : A) : overflows_or_keeps (mret a).
Proof. intros w. right. by eexists _, _. Qed.

Lemma ook_FD_SET fd : overflows_or_keeps (FD_SET fd).
Proof. intros w. unfold FD_SET. case_match; [right; by eexists _, _|by left]. Qed.

Lemma ook_raise_max fd : overflows_or_keeps (raise_max fd).
Proof.
  apply ook_bind; [intros w; right; by eexists _, _|]. intros v. destruct (max_fd v <? fd); [|apply ook_ret].
  intros w. right. by eexists _, _.
Qed.

Lemma ook_client_fd i : overflows_or_keeps (client_fd i).
Proof.
  apply ook_bind; [intros w; right; by eexists _, _|]. intros v.
  destruct (client_fds v !! i); [apply ook_ret|intros w; by left].
Qed.

Lemma ook_add_client i :
  overflows_or_keeps (fd ← client_fd i; when (negb (fd =? 0)) (FD_SET fd ;; raise_max fd)).
Proof.
  apply ook_bind; [apply ook_client_fd|]. intros fd. destruct (fd =? 0); [apply ook_ret|].
  apply ook_bind; [apply ook_FD_SET|]. intros _. apply ook_raise_max.
Qed.

(** The loop that builds the set does not get past a descriptor that is too large. *)
Lemma add_clients_overflow places w i fd :
  client_fds (own w) !! i = Some fd → FD_SETSIZE <= fd → i ∈ places →
  iterM (λ i, fd ← client_fd i; when (negb (fd =? 0)) (FD_SET fd ;; raise_max fd)) places w = Fault OutOfBounds.
Proof.
  revert w. induction places as [|j places IH]; intros w Hi Hfd Hin; [by apply not_elem_of_nil in Hin|].
  simpl. unfold mbind at 1, M_bind at 1. destruct (decide (j = i)) as [->|Hne].
  - erewrite bind_run by (unfold client_fd, mbind, M_bind, get_own; by rewrite Hi).
    unfold FD_SETSIZE in Hfd. rewrite (proj2 (Z.eqb_neq fd 0)) by lia. simpl. unfold FD_SET, FD_SETSIZE.
    rewrite (proj2 (Z.ltb_ge fd _)), andb_false_r by lia. done.
  - apply elem_of_cons in Hin as [->|Hin]; [done|].
    destruct (ook_add_client j w) as [E|(a & w1 & E & Hc)]; rewrite E; [done|].
    apply IH; [by rewrite Hc|done|done].
Qed.

(** ** Properties *)

(** Whatever the kernel, it takes a head of what it is given. *)
Lemma sends_prefix : sends_cut K (λ m m', m' `prefix_of` m).
Proof. intros k fd data r k' _ _ _. exists (drop (Z.to_nat r) data). by rewrite take_drop. Qed.


(** C32: what a client sends, less than [BUFFER_SIZE] bytes at a time, is offered
    back to it as it is, if no SIGPIPE comes; when it leaves, its place is freed but its descriptor
    stays open; [BUFFER_SIZE] bytes at once make [recv_msg[byte_num]] a write
    out of bounds. *)
Theorem handle_client_echoes i fd w n data err k1 :
  client_fds (own w) !! i = Some fd → 0 < fd < FD_SETSIZE → fd ∈ server_fd_set (own w) →
  sys_recv (kern w) fd (Z.of_nat BUFFER_SIZE) = (n, data, err, k1) →
  handle_client i w =
    (if n =? Z.of_nat BUFFER_SIZE then Fault OutOfBounds
    else if 0 <? n then
      if sys_sigpipe k1 fd then Fault Killed else Ok tt (mkProg (sys_send k1 fd data).2 (own w))
    else if n <? 0 then Ok tt (mkProg k1 (own w))
    else Ok tt (mkProg k1 (mkVars (keep_running (own w)) (<[i := 0]> (client_fds (own w)))
                             (server_fd_set (own w) ∖ {[fd]}) (max_fd (own w)))))
  ∧ v_open (k_view k1) = v_open (k_view (kern w)).
Proof.
  intros Hi Hfd Hin Er. apply recv_law in Er as Hlaw; [|lia]. destruct Hlaw as (Hn & Hlen & Hview).
  split; [|by rewrite Hview].
  assert ((0 <=? fd) = true ∧ (fd <? FD_SETSIZE) = true) as [Hb1 Hb2] by (split; [apply Z.leb_le|apply Z.ltb_lt]; lia).
  assert (client_fd i w = Ok fd w) as Hc by (unfold client_fd, mbind, M_bind, get_own; by rewrite Hi).
  assert (FD_ISSET fd w = Ok true w) as Hs.
  { unfold FD_ISSET. rewrite Hb1, Hb2. unfold mbind, M_bind, get_own; simpl. by rewrite bool_decide_true. }
  unfold handle_client. erewrite bind_run by exact Hc. rewrite (proj2 (Z.eqb_neq fd 0)) by lia. simpl.
  erewrite bind_run by exact Hs. simpl. erewrite kcall_run by exact Er. cbv beta iota zeta.
  destruct (Z.ltb_spec 0 n).
  - rewrite (proj2 (Z.ltb_ge (Z.of_nat BUFFER_SIZE) n)) by lia. destruct (Z.eqb_spec n (Z.of_nat BUFFER_SIZE)) as [->|].
    + by rewrite Z.ltb_irrefl.
    + rewrite (proj2 (Z.ltb_lt n _)) by lia. rewrite take_ge by lia.
      unfold mbind, M_bind, ksend. simpl. destruct (sys_sigpipe k1 fd); [done|].
      unfold kcall. simpl. by destruct (sys_send k1 fd data).
  - rewrite (proj2 (Z.eqb_neq n _)) by (unfold BUFFER_SIZE; lia).
    destruct (n <? 0); [done|]. unfold FD_CLR. rewrite Hb1, Hb2. simpl.
    unfold set_client_fd, mbind, M_bind, get_own, with_own. simpl.
    by rewrite decide_True by by apply lookup_lt_Some in Hi.
Qed.

(** A client whose descriptor is not below [FD_SETSIZE] makes the next turn write
    beyond the [fd_set], although the array of clients has room for 10000 of them. *)
Theorem select_overflows_fd_set garbage srv w i fd :
  client_fds (own w) !! i = Some fd → FD_SETSIZE <= fd →
  select_turn garbage srv w = Fault OutOfBounds.
Proof.
  intros Hi Hfd. unfold select_turn. unfold mbind at 1, M_bind at 1.
  assert (build_set srv w = Fault OutOfBounds) as ->; [|done]. unfold build_set.
  erewrite bind_run by reflexivity. set (w1 := mkProg _ _).
  assert (client_fds (own w1) !! i = Some fd) as Hi1 by exact Hi. clearbody w1. clear Hi.
  do 2 match goal with
  | |- context [ FD_SET ?x ] =>
      unfold mbind at 1, M_bind at 1;
      let E := fresh in let Hc := fresh "Hc" in let wn := fresh "wn" in
      destruct (ook_FD_SET x w1) as [E|(? & wn & E & Hc)]; rewrite E; [done|];
      unfold mbind at 1, M_bind at 1;
      let E' := fresh in let Hc' := fresh "Hc'" in let wm := fresh "wm" in
      destruct (ook_raise_max x wn) as [E'|(? & wm & E' & Hc')]; rewrite E'; [done|];
      rewrite <- Hc, <- Hc' in Hi1; clear dependent w1; rename wm into w1
  end.
  unfold for_clients, mbind at 1, M_bind at 1, get_own.
  eapply add_clients_overflow; [exact Hi1|done|]. apply elem_of_seq. split; [lia|].
  by apply lookup_lt_Some in Hi1.
Qed.

(** A line that ends with a newline, as [fgets] returns it, never quits the
    server, and neither does the end of the input: the line is compared with
    [".quit"], newline included. *)
Theorem console_cannot_quit w w' line k1 code :
  sys_fgets (kern w) (Z.of_nat BUFFER_SIZE) = (line, k1) →
  (line = None ∨ ∃ l, (line = Some (l ++ [Byte.x0a])) ∧ (Byte.x00 ∉ l)) →
  handle_stdin w ≠ Ok (Some code) w'.
Proof.
  intros E Hline. unfold handle_stdin. erewrite kcall_run by exact E.
  assert (cbytes (zeroed BUFFER_SIZE (default [] line)) ≠ QUIT_CMD) as Hne.
  { destruct Hline as [->|(l & -> & Hl)]; simpl; [by vm_compute|].
    apply fgets_law in E as [_ Hlen]; [|by vm_compute]. specialize (Hlen _ eq_refl).
    unfold zeroed. destruct (BUFFER_SIZE - length (l ++ [Byte.x0a]))%nat eqn:Ed; [lia|]. simpl.
    rewrite cbytes_app_zero; [|rewrite not_elem_of_app, list_elem_of_singleton; by split].
    intros Hq. apply (f_equal last) in Hq. rewrite last_snoc in Hq. vm_compute in Hq. discriminate Hq. }
  rewrite bool_decide_false by done. unfold mbind, M_bind.
  destruct (send_input _ _) as [[] w1|e]; [|done]. intros Hr. discriminate Hr.
Qed.
End Beyond.

(** ** Instances *)

(** The simulated system with at most 1023 bytes at a time is within the limits. *)
Lemma sim_within_limits : within_limits (sys small).
Proof.
  constructor; simpl.
  - unfold s_recv, BUFFER_SIZE, small. intros k fd n data err k' E.
    destruct (s_incoming k !! fd) as [[|c cs]|]; injection E as <- _ _ _; rewrite ?length_take; lia.
  - unfold s_accept, FD_SETSIZE. intros k fd len connfd addr k' E.
    destruct (s_pending k); [injection E as <- _ _; lia|].
    destruct (s_open id k) as [fd1 s1] eqn:Eo. injection E as <- _ _.
    apply s_open_spec in Eo as [_ Hp]. destruct (decide (0 <= fd1)); [|lia]. by destruct (Hp ltac:(lia)).
  - unfold FD_SETSIZE. intros k domain fd k' Eo.
    unfold s_open in Eo. case_decide; injection Eo as <- _; lia.
Defined.

(** A client connects on descriptor 4 and sends two messages; a line is typed; the
    client leaves. *)
Definition select_script : sys small :=
  s_boot 1%nat {[4 := [bytes_of "hello"; bytes_of "you"]]} [bytes_of ".quit" ++ [Byte.x0a]]
    [{[3]}; {[4]}; {[4]}; {[0]}; {[4]}].

(** The client gets its messages back, and the line as 1024 bytes; its place is
    free at the end and its descriptor open. *)
Example select_runs :
  match select_main 5 16 (mkProg select_script (vars_init 3)) with
  | Ok r w => bool_decide (r = None)
      && bool_decide (trace_of (v_sent (s_view (kern w))) 4
           = bytes_of "helloyou" ++ zeroed BUFFER_SIZE (bytes_of ".quit" ++ [Byte.x0a]))
      && bool_decide (client_fds (own w) = [0; 0; 0])
      && bool_decide (4 ∈ v_open (s_view (kern w)))
  | Fault _ => false
  end = true.
Proof. vm_compute. reflexivity. Qed.

Lemma sim_sends_all : sends_cut (sys small) eq.
Proof.
  intros k fd data r k' E Hfd _. simpl in E, Hfd. unfold s_send in E. rewrite decide_True in E by done.
  injection E as <- _. by rewrite Nat2Z.id, firstn_all.
Qed.


(** A client on descriptor 4 that has [data] to be received. *)
Definition one_client (data : list byte) : prog (sys large) select_vars :=
  mkProg (s_boot 0%nat {[4 := [data]]} [] []) (mkVars true [4; 0] {[4]} 4).

Lemma handle_client_echoes_witness :
  handle_client 0%nat (one_client (replicate BUFFER_SIZE Byte.x61)) = Fault OutOfBounds.
Proof.
  assert (∃ k1, sys_recv (kern (one_client (replicate BUFFER_SIZE Byte.x61))) 4 (Z.of_nat BUFFER_SIZE)
    = (1024, replicate BUFFER_SIZE Byte.x61, 0, k1)) as [k1 E] by (eexists; vm_compute; reflexivity).
  destruct (handle_client_echoes 0%nat 4 (one_client (replicate BUFFER_SIZE Byte.x61)) 1024
    (replicate BUFFER_SIZE Byte.x61) 0 k1) as [H _]; [reflexivity|by split|reflexivity|exact E|].
  exact H.
Defined.

Lemma select_overflows_fd_set_witness :
  select_turn 16 3 (mkProg (s_boot 0%nat ∅ [] [] : sys small) (mkVars true [1024; 0] ∅ 4))
  = Fault OutOfBounds.
Proof. apply (select_overflows_fd_set _ _ _ 0%nat 1024); [reflexivity|by unfold FD_SETSIZE]. Defined.

Lemma console_cannot_quit_witness :
  ∀ w', handle_stdin (mkProg (s_boot 0%nat ∅ [bytes_of ".quit" ++ [Byte.x0a]] [] : sys small) (vars_init 1))
        ≠ Ok (Some 0) w'.
Proof.
  intros w'. eapply console_cannot_quit; [reflexivity|]. right. exists QUIT_CMD. split; [reflexivity|].
  apply (bool_decide_unpack _). vm_compute. exact I.
Defined.
