(* ===== verification/EpollChat.v ===== *)
(** * The epoll chat room (linux_tcp/epoll.cc)

    A server over an edge-triggered epoll instance that answers each message of a
    client with a line to every client.  [chat_setup] is main up to its loop,
    [chat_loop] a number of turns of the loop.  Two functions end without their return
    statement, which C++ leaves undefined; they are taken to return, with a value that
    is a parameter, [undef]. *)

From S2P Require Import Prelude Kernel Sockets SocketsSim.

Definition EPOLL_SIZE : Z := 5000.
Definition BUF_SIZE : nat := 208.
Definition O_NONBLOCK : Z := 0x800.

(** sprintf(response, "send frome (clientfd %d), helololo\n", fd) *)
Definition response (fd : Z) : list byte :=
  bytes_of ("send frome (clientfd " +:+ pretty fd +:+ "), helololo
").

(** sprintf(buf, "welcome message: %d", clientfd) *)
Definition welcome (clientfd : Z) : list byte := bytes_of ("welcome message: " +:+ pretty clientfd).

Section Chat.
Context {K : Type} `{Kernel Z K} `{Libc K}.
Context (undef : K → Z).

(** The program's variable is the list [clients]. *)
#[local] Abbreviation prg := (M (prog K (list Z))).

(** It ends without a return statement. *)
Definition addfd (epollfd fd : Z) (enable_et : bool) : prg Z :=
  let events := if enable_et then Z.lor EPOLLIN EPOLLET else EPOLLIN in
  _ ← kcall (λ k, sys_epoll_ctl k epollfd EPOLL_CTL_ADD fd (EpollEvent events fd));
  flags ← kcall (λ k, sys_fcntl_getfd k fd);
  _ ← kcall (λ k, sys_fcntl_setfl k fd (Z.lor flags O_NONBLOCK));
  kcall (λ k, (undef k, k)).

(** The loop over [clients]: a failed send prints errno as a string. *)
Fixpoint send_all (msg : list byte) (clients : list Z) : prg unit :=
  match clients with
  | [] => mret tt
  | it :: clients' =>
      len ← ksend it msg;
      if len <=? 0 then throw BadFormat else send_all msg clients'
  end.

(** printf("%s") of the array [buf]. *)
Definition print_buf (buf : list byte) : prg unit :=
  if terminated buf then mret tt else throw StringOverread.

Definition sendBroadcastmessage (epollfd fd : Z) : prg unit :=
  r ← kcall (λ k, sys_recv k fd (Z.of_nat BUF_SIZE));
  let '(len, data, _) := r in
  if len <=? 0 then
    _ ← kcall (λ k, sys_epoll_ctl k epollfd EPOLL_CTL_DEL fd (EpollEvent EPOLLIN fd));
    kcall_ (λ k, sys_close k fd) ;;
    with_own (filter (λ c, c ≠ fd))
  else
    print_buf (zeroed BUF_SIZE data) ;;
    clients ← get_own;
    send_all (response fd) clients.

Definition exit_if_negative (ret : Z) : prg (option Z) :=
  mret (if ret <? 0 then Some (-1) else None).

Definition handle_event (epfd listener sockfd : Z) : prg (option Z) :=
  if sockfd =? listener then
    r ← kcall (λ k, sys_accept k listener 16);
    let clientfd := fst r in
    _ ← addfd epfd clientfd true;
    with_own (λ clients, clients ++ [clientfd]) ;;
    ret ← ksend clientfd (welcome clientfd);
    exit_if_negative ret
  else
    sendBroadcastmessage epfd sockfd ;;
    ret ← kcall (λ k, (undef k, k));
    exit_if_negative ret.

Fixpoint handle_events (epfd listener : Z) (events : list (epoll_event Z)) : prg (option Z) :=
  match events with
  | [] => mret None
  | ev :: events' =>
      r ← handle_event epfd listener (ev_ptr ev);
      match r with
      | Some code => mret (Some code)
      | None => handle_events epfd listener events'
      end
  end.

Fixpoint chat_loop (turns : nat) (epfd listener : Z) : prg (option Z) :=
  match turns with
  | O => mret None
  | S turns' =>
      r ← kcall (λ k, sys_epoll_wait k epfd EPOLL_SIZE);
      let epoll_events_count := fst r in
      if epoll_events_count <? 0 then
        kcall_ (λ k, sys_close k listener) ;;
        kcall_ (λ k, sys_close k epfd) ;;
        mret (Some 1)
      else
        e ← handle_events epfd listener (take (Z.to_nat epoll_events_count) (snd r));
        match e with
        | Some code => mret (Some code)
        | None => chat_loop turns' epfd listener
        end
  end.

(** The results of bind and listen are not looked at. *)
Definition chat_setup : prg (Z * Z) :=
  listener ← kcall (λ k, sys_socket k 2);
  _ ← kcall (λ k, sys_bind k listener ([Byte.x02; Byte.x00; Byte.x22; Byte.xb3] ++ replicate 12 Byte.x00));
  _ ← kcall (λ k, sys_listen k listener 5);
  epfd ← kcall sys_epoll_create;
  _ ← addfd epfd listener true;
  mret (epfd, listener).

Definition chat_main (turns : nat) : prg (option Z) :=
  x ← chat_setup; chat_loop turns (fst x) (snd x).

(** ** Invariant *)
Section Proofs.
Context `{!KernelLaws Z K} `{!LibcLaws K}.
Implicit Types (w : prog K (list Z)) (k : K).

Abbreviation view w := (k_view (kern w)).

Record Inv (listener : Z) w : Prop := {
  c_distinct : NoDup (own w);
  c_listener : (listener ∉ own w) ∧ (listener ∈ v_open (view w));
  c_open fd : fd ∈ own w → fd ∈ v_open (view w);
  c_watched fd : is_Some (v_interest (view w) !! fd) → fd = listener ∨ fd ∈ own w;
  c_interest fd : v_lost (view w) = false → fd = listener ∨ fd ∈ own w → is_Some (v_interest (view w) !! fd);
  c_valid fd : fd ∈ v_open (view w) → 0 <= fd;
}.

Lemma Inv_view listener w k :
  Inv listener w → v_open (k_view k) = v_open (view w) → v_interest (k_view k) = v_interest (view w) →
  (v_lost (k_view k) = false → v_lost (view w) = false) →
  Inv listener (mkProg k (own w)).
Proof. intros [Hd Hl Ho Hw Hi Hv] Eo Ei El. constructor; simpl; rewrite ?Eo, ?Ei; auto. Qed.

(** The steps of addfd, as a change of the view. *)
Lemma addfd_run epfd fd et w :
  0 <= epfd → ∃ r k ie, addfd epfd fd et w = Ok r (mkProg k (own w))
    ∧ ctl_result EPOLL_CTL_ADD fd ie (view w) (k_view k).
Proof.
  intros He. unfold addfd, kcall, mbind, M_bind. simpl.
  set (ie := EpollEvent _ fd).
  destruct (sys_epoll_ctl (kern w) epfd EPOLL_CTL_ADD fd ie) as [r1 k1] eqn:E1. simpl.
  destruct (sys_fcntl_getfd k1 fd) as [fl k2] eqn:E2. simpl.
  destruct (sys_fcntl_setfl k2 fd (Z.lor fl O_NONBLOCK)) as [r3 k3] eqn:E3. simpl.
  exists (undef k3), k3, ie. split; [done|].
  rewrite (setfl_law _ _ _ _ _ E3), (getfd_law _ _ _ _ E2). by apply (ctl_law _ _ _ _ _ _ _ E1 He).
Qed.

Lemma send_all_view msg cs w w' :
  send_all msg cs w = Ok tt w' →
  own w' = own w ∧ v_open (view w') = v_open (view w) ∧ v_interest (view w') = v_interest (view w)
  ∧ v_lost (view w') = v_lost (view w).
Proof.
  revert w. induction cs as [|c cs IH]; intros w; simpl; [by intros [= <-]|].
  intros ([n w1] & E)%bind_Ok || intros (n & w1 & E & E')%bind_Ok.
  unfold ksend in E. destruct (sys_sigpipe _ _); [discriminate E|].
  unfold kcall in E. destruct (sys_send (kern w) c msg) as [r k] eqn:Es. injection E as <- <-.
  destruct (r <=? 0); [discriminate E'|]. apply send_law in Es as [_ Hv].
  destruct (IH _ E') as (-> & -> & -> & ->). simpl. by rewrite Hv.
Qed.

(** A new client. *)
Lemma Inv_accept listener w fd ie k :
  Inv listener w → 0 <= fd → (fd ∉ v_open (view w)) → v_interest (view w) !! fd = None →
  ctl_result EPOLL_CTL_ADD fd ie (view_accept fd (view w)) (k_view k) →
  Inv listener (mkProg k (own w ++ [fd])).
Proof.
  intros [Hd [Hl Hlo] Ho Hw Hi Hv] Hfd Hnew Hnone Hk.
  assert (v_open (k_view k) = {[fd]} ∪ v_open (view w)) as Eo by by destruct Hk as [->| ->].
  assert (v_interest (k_view k) = <[fd := ie]> (v_interest (view w)) ∧ v_lost (k_view k) = v_lost (view w)
    ∨ v_interest (k_view k) = v_interest (view w) ∧ v_lost (k_view k) = true) as Ei.
  { destruct Hk as [->| ->]; simpl; [left|right; by rewrite orb_true_r].
    rewrite Hnone, decide_True; [done|]. apply elem_of_union_l, elem_of_singleton. done. }
  constructor; simpl; rewrite ?Eo.
  - apply NoDup_app. split; [done|]. split; [|apply NoDup_singleton].
    intros x Hx ->%list_elem_of_singleton. auto.
  - rewrite not_elem_of_app, list_elem_of_singleton. split; [|by apply elem_of_union_r].
    split; [done|]. by intros ->.
  - intros x. rewrite elem_of_app, list_elem_of_singleton, elem_of_union, elem_of_singleton.
    intros [Hx| ->]; auto.
  - intros x. rewrite elem_of_app, list_elem_of_singleton.
    destruct Ei as [[-> _]|[-> _]]; [rewrite lookup_insert_is_Some'; intros [<-|Hx]|intros Hx]; auto;
      destruct (Hw x Hx); auto.
  - intros x El. destruct Ei as [[-> El']|[_ El']]; [|congruence]. rewrite El' in El.
    rewrite lookup_insert_is_Some', elem_of_app, list_elem_of_singleton. intros [?|[?| ->]]; auto.
  - intros x. rewrite elem_of_union, elem_of_singleton. intros [->|?]; auto.
Qed.

(** A client that leaves. *)
Lemma Inv_leave listener w fd k :
  Inv listener w → fd ≠ listener →
  v_open (k_view k) = v_open (view w) ∖ {[fd]} → v_interest (k_view k) = delete fd (v_interest (view w)) →
  (v_lost (k_view k) = false → v_lost (view w) = false) →
  Inv listener (mkProg k (filter (λ c, c ≠ fd) (own w))).
Proof.
  intros [Hd [Hl Hlo] Ho Hw Hi Hv] Hne Eo Ei El. constructor; simpl; rewrite ?Eo, ?Ei.
  - by apply NoDup_filter.
  - rewrite list_elem_of_filter, elem_of_difference, elem_of_singleton. split; [by intros [_ ?]|by split].
  - intros x. rewrite list_elem_of_filter, elem_of_difference, elem_of_singleton. intros [? ?]. auto.
  - intros x. rewrite lookup_delete_is_Some, list_elem_of_filter. intros [? Hx]. destruct (Hw x Hx); auto.
  - intros x Hlost. rewrite lookup_delete_is_Some, list_elem_of_filter. specialize (Hi x (El Hlost)).
    intros [->|[? ?]]; auto.
  - intros x [Hx _]%elem_of_difference. auto.
Qed.

Lemma Inv_event epfd listener sockfd w w' :
  Inv listener w → 0 <= epfd → handle_event epfd listener sockfd w = Ok None w' → Inv listener w'.
Proof.
  intros HI He. unfold handle_event. destruct (Z.eqb_spec sockfd listener) as [->|Hne].
  - intros ([fd addr] & w1 & Ea & E)%bind_Ok. simpl in E.
    unfold kcall in Ea. destruct (sys_accept (kern w) listener 16) as [[fd' addr'] k1] eqn:Eacc.
    injection Ea as -> -> <-. apply accept_law in Eacc as [Hneg Hpos].
    destruct (addfd_run epfd fd true (mkProg k1 (own w)) He) as (r2 & k2 & ie & Eadd & Hk2).
    erewrite bind_run in E by exact Eadd. unfold with_own in E. rewrite modify_bind in E. simpl in E.
    apply bind_Ok in E as (ret & w3 & Es & [= Hret <-]). unfold ksend in Es. destruct (sys_sigpipe _ _); [discriminate Es|].
    unfold kcall in Es. simpl in Es.
    destruct (sys_send k2 fd (welcome fd)) as [r k3] eqn:Esend. injection Es as <- <-.
    apply send_law in Esend as Hs. destruct Hs as [_ Hk3]. simpl in Hk2.
    destruct (Z.ltb_spec r 0); [discriminate Hret|].
    destruct (decide (fd < 0)) as [Hl|Hl].
    + rewrite (Hneg Hl) in Hk2. apply send_closed_law in Esend; [lia|].
      rewrite (Kernel.c_open _ _ _ (ctl_result_frame _ _ _ _ _ Hk2)). intros Hin%(c_valid _ _ HI). lia.
    + destruct (Hpos ltac:(lia)) as (_ & Hnew & Hnone & Hk1 & _).
      apply (Inv_view listener (mkProg k2 (own w ++ [fd]))); simpl; [|by rewrite Hk3..].
      apply (Inv_accept listener w fd ie k2 HI ltac:(lia) Hnew Hnone). by rewrite <- Hk1.
  - intros ([] & w1 & Eb & E)%bind_Ok. apply bind_Ok in E as (ret & w2 & Eu & [= _ <-]).
    unfold kcall in Eu. injection Eu as <- <-. simpl.
    apply bind_Ok in Eb as ([[len data] err] & w3 & Er & Eb). unfold kcall in Er.
    destruct (sys_recv (kern w) sockfd (Z.of_nat BUF_SIZE)) as [[[n d] e] k] eqn:Erecv.
    injection Er as -> -> -> <-. apply recv_law in Erecv as (_ & _ & Hk); [|lia].
    assert (Inv listener (mkProg k (own w))) as HI1 by by (apply Inv_view; rewrite ?Hk).
    destruct (len <=? 0).
    + apply bind_Ok in Eb as (r & w4 & Ec & Eb). unfold kcall in Ec. simpl in Ec.
      destruct (sys_epoll_ctl k epfd EPOLL_CTL_DEL sockfd (EpollEvent EPOLLIN sockfd)) as [r' k'] eqn:Ectl.
      injection Ec as <- <-. apply ctl_law in Ectl as [Ectl _]; [|done].
      apply ctl_result_frame in Ectl as [Co _ _ Cother Cl _]. unfold kcall_, with_own in Eb.
      rewrite modify_bind in Eb. injection Eb as <-. simpl.
      apply (Inv_leave listener (mkProg k (own w))); [done|done|..]; simpl;
        rewrite close_law; simpl; [by rewrite Co| |done].
      apply map_eq. intros x. destruct (decide (x = sockfd)) as [->|Hx].
      * by rewrite !lookup_delete_eq.
      * by rewrite !lookup_delete_ne, Cother by done.
    + apply bind_Ok in Eb as ([] & w4 & Ep & Eb).
      assert (w4 = mkProg k (own w)) as ->.
      { unfold print_buf in Ep. destruct (terminated _); [by injection Ep|discriminate Ep]. }
      unfold get_own in Eb. erewrite bind_run in Eb by reflexivity.
      apply send_all_view in Eb as (Eo & Eopen & Eint & Elost). destruct w1 as [k1 cs]. simpl in *. rewrite Eo.
      apply (Inv_view listener (mkProg k (own w))); simpl; congruence.
Qed.

Lemma Inv_events epfd listener evs w w' :
  Inv listener w → 0 <= epfd → handle_events epfd listener evs w = Ok None w' → Inv listener w'.
Proof.
  intros HI He. revert w HI. induction evs as [|ev evs IH]; intros w HI; simpl; [by intros [= <-]|].
  intros ([code|] & w1 & E & E')%bind_Ok; [discriminate E'|].
  eapply IH; [|exact E']. by eapply Inv_event.
Qed.

Lemma Inv_loop turns epfd listener w w' :
  Inv listener w → 0 <= epfd → chat_loop turns epfd listener w = Ok None w' → Inv listener w'.
Proof.
  intros HI He. revert w HI. induction turns as [|turns IH]; intros w HI; simpl; [by intros [= <-]|].
  intros ([n evs] & w1 & E & E')%bind_Ok. unfold kcall in E.
  destruct (sys_epoll_wait (kern w) epfd EPOLL_SIZE) as [r k] eqn:Ew. injection E as -> <-.
  apply wait_law in Ew as (_ & _ & Hk & _); [|done]. simpl in E'.
  destruct (n <? 0); [discriminate E'|].
  apply bind_Ok in E' as ([code|] & w2 & E1 & E2); [discriminate E2|].
  eapply IH; [|exact E2]. eapply Inv_events; [|done|exact E1]. by apply Inv_view; rewrite ?Hk.
Qed.

Lemma Inv_setup k epfd listener w :
  (∀ fd, fd ∈ v_open (k_view k) → 0 <= fd) →
  chat_setup (mkProg k []) = Ok (epfd, listener) w → 0 <= listener → 0 <= epfd → Inv listener w.
Proof.
  intros Hval. unfold chat_setup.
  intros (l & w1 & E1 & E)%bind_Ok. unfold kcall in E1.
  destruct (sys_socket (kern (mkProg k [])) 2) as [l' k1] eqn:Es. injection E1 as -> <-. simpl in Es.
  apply bind_Ok in E as (b & w2 & E2 & E). unfold kcall in E2.
  destruct (sys_bind _ _ _) as [b' k2] eqn:Eb. injection E2 as -> <-. apply bind_law in Eb.
  apply bind_Ok in E as (n & w3 & E3 & E). unfold kcall in E3.
  destruct (sys_listen _ _ _) as [n' k3] eqn:El. injection E3 as -> <-. apply listen_law in El.
  apply bind_Ok in E as (e & w4 & E4 & E). unfold kcall in E4.
  destruct (sys_epoll_create _) as [e' k4] eqn:Ee. injection E4 as -> <-.
  apply bind_Ok in E as (r5 & w5 & E5 & [= <- <- <-]). simpl in *. intros Hl He.
  apply socket_law in Es as [_ Hs]. destruct (Hs Hl) as (_ & Hln & Hk1).
  apply epoll_create_law in Ee as (_ & Hen & Hk4); [|done].
  destruct (addfd_run e l true (mkProg k4 (@nil Z)) He) as (r5' & k5 & ie & E5' & Hk5).
  rewrite E5 in E5'. injection E5' as _ ->. simpl in Hk5. rewrite El, Eb, Hk1 in Hk4, Hen. simpl in Hk4, Hen.
  assert (l ∈ v_open (k_view k4)) as Hlo.
  { rewrite Hk4. simpl. apply elem_of_union_r, elem_of_union_l. by apply elem_of_singleton. }
  assert (v_open (k_view k5) = v_open (k_view k4)) as Eo by by destruct Hk5 as [->| ->].
  assert (v_interest (k_view k5) = <[l := ie]> ∅ ∨ v_interest (k_view k5) = ∅ ∧ v_lost (k_view k5) = true) as Ei.
  { destruct Hk5 as [->| ->]; simpl; [left|right; split; [by rewrite Hk4|apply orb_true_r]].
    assert (v_interest (k_view k4) = ∅) as E4 by by rewrite Hk4.
    rewrite E4, lookup_empty, decide_True by done. done. }
  constructor; simpl; rewrite ?Eo.
  - constructor.
  - split; [apply not_elem_of_nil|done].
  - intros fd Hin. by apply not_elem_of_nil in Hin.
  - intros fd. destruct Ei as [->|[-> _]].
    + rewrite lookup_insert_is_Some', lookup_empty. intros [->|[]%is_Some_None]. by left.
    + by intros []%lookup_empty_is_Some.
  - intros fd Hlost. destruct Ei as [->|[_ ?]]; [|congruence].
    rewrite lookup_insert_is_Some', elem_of_nil. intros [->|[]]. by left.
  - intros fd. rewrite Hk4. simpl. rewrite !elem_of_union, !elem_of_singleton.
    intros [->|[->|?]]; [done|done|by apply Hval].
Qed.
End Proofs.
End Chat.

(** ** Properties *)

Section Properties.
Context {K : Type} `{LibcLaws K} (undef : K → Z).
Implicit Types (w : prog K (list Z)) (k : K).

Lemma response_not_empty fd : (0 < length (response fd))%nat.
Proof. unfold response, bytes_of. simpl. lia. Qed.

(** What the clients get when no send fails: each a part of the message that is not
    empty, and nobody else anything. *)
Lemma send_all_heads msg cs w w' :
  NoDup cs → send_all msg cs w = Ok tt w' →
  own w' = own w
  ∧ ∀ c, ∃ head, trace_of (v_sent (k_view (kern w'))) c = trace_of (v_sent (k_view (kern w))) c ++ head
      ∧ if decide (c ∈ cs) then head ≠ [] ∧ head `prefix_of` msg else head = [].
Proof.
  revert w. induction cs as [|c cs IH]; intros w Hnd; simpl.
  { intros [= ->]. split; [done|]. intros c. exists []. by rewrite app_nil_r. }
  intros (r & w1 & E1 & E)%bind_Ok. apply NoDup_cons in Hnd as [Hc Hnd].
  unfold ksend in E1. destruct (sys_sigpipe _ _); [discriminate E1|]. unfold kcall in E1.
  destruct (sys_send (kern w) c msg) as [r' k] eqn:Es. injection E1 as -> <-.
  destruct (Z.leb_spec r 0); [discriminate E|]. apply send_law in Es as [Hr Hk].
  destruct (IH _ Hnd E) as [Ho Ht]. split; [exact Ho|]. intros c'. destruct (Ht c') as (head & Eh & Hh).
  simpl in Eh. rewrite Hk in Eh. simpl in Eh. destruct (decide (c' = c)) as [->|Hne].
  - rewrite decide_False in Hh by done. subst head. rewrite trace_of_insert_eq, app_nil_r in Eh.
    exists (take (Z.to_nat r) msg). split; [done|]. rewrite decide_True by by left.
    split; [|apply prefix_take]. intros Hnil. apply (f_equal length) in Hnil. rewrite length_take in Hnil. simpl in Hnil. lia.
  - rewrite trace_of_insert_ne in Eh by done. exists head. split; [done|].
    destruct (decide (c' ∈ cs)); [by rewrite decide_True by by right|].
    rewrite decide_False; [done|]. by intros [?|?]%elem_of_cons.
Qed.

(** The loop stops with an error at the first send that fails, after those before. *)
Lemma send_all_fault msg cs w e :
  send_all msg cs w = Fault e →
  e = Killed ∨ e = BadFormat ∧ ∃ pre c post wc r k, cs = pre ++ c :: post
    ∧ send_all msg pre w = Ok tt wc ∧ sys_send (kern wc) c msg = (r, k) ∧ r <= 0.
Proof.
  revert w. induction cs as [|c cs IH]; intros w; simpl; [done|].
  unfold mbind, M_bind. unfold ksend at 1. destruct (sys_sigpipe (kern w) c) eqn:Hp; [intros [= <-]; by left|].
  unfold kcall. destruct (sys_send (kern w) c msg) as [r k] eqn:Es. destruct (Z.leb_spec r 0).
  - intros [= <-]. right. split; [done|]. exists [], c, cs, w, r, k. by split_and!.
  - intros [He|(-> & pre & c' & post & wc & r' & k' & -> & Ep & Es' & Hr)]%IH; [by left|].
    right. split; [done|]. exists (c :: pre), c', post, wc, r', k'. split_and!; try done.
    simpl. erewrite ksend_run by done. by rewrite (proj2 (Z.leb_gt r 0)) by lia.
Qed.

(** C34: as long as the chat goes on, after any number of turns, its clients are
    distinct and open; nothing but them and the listening socket is registered with
    epoll; and they all are, if no [epoll_ctl] has failed to add one: the result of
    that call is not looked at, and such a client is never heard. *)
Theorem chat_clients_registered turns k epfd listener w0 w :
  (∀ fd, fd ∈ v_open (k_view k) → 0 <= fd) →
  chat_setup undef (mkProg k []) = Ok (epfd, listener) w0 → 0 <= listener → 0 <= epfd →
  chat_loop undef turns epfd listener w0 = Ok None w →
  NoDup (own w)
  ∧ (∀ fd, fd ∈ own w → fd ∈ v_open (k_view (kern w)))
  ∧ (∀ fd, is_Some (v_interest (k_view (kern w)) !! fd) → fd = listener ∨ fd ∈ own w)
  ∧ (v_lost (k_view (kern w)) = false →
     ∀ fd, is_Some (v_interest (k_view (kern w)) !! fd) ↔ fd = listener ∨ fd ∈ own w).
Proof.
  intros Hval Es Hl He E. pose proof (Inv_setup undef _ _ _ _ Hval Es Hl He) as HI.
  eapply Inv_loop in E as [Hd _ Ho Hw Hi _]; [|done..]. split_and!; try done.
  intros Hlost fd. split; [apply Hw|by apply Hi].
Qed.


(** One client can end the chat for all: with a message that fills the buffer
    with no zero byte, which [printf] reads past its end, or by being the first
    client whose send fails, when errno is printed as a string. *)
Theorem one_client_ends_the_chat epfd fd w n data err k1 :
  sys_recv (kern w) fd (Z.of_nat BUF_SIZE) = (n, data, err, k1) → 0 < n →
  (n = Z.of_nat BUF_SIZE → (Byte.x00 ∉ data) → sendBroadcastmessage epfd fd w = Fault StringOverread)
  ∧ (∀ c cs r k2, terminated (zeroed BUF_SIZE data) = true → own w = c :: cs →
       sys_sigpipe k1 c = false → sys_send k1 c (response fd) = (r, k2) → r <= 0 →
       sendBroadcastmessage epfd fd w = Fault BadFormat).
Proof.
  intros Er Hn. apply recv_law in Er as Hk; [|lia]. destruct Hk as (_ & Hlen & _).
  unfold sendBroadcastmessage. erewrite kcall_run by exact Er. cbv beta iota.
  rewrite (proj2 (Z.leb_gt n 0)) by lia. split.
  - intros Hfull Hz. unfold print_buf. rewrite Hfull, Nat2Z.id in Hlen. rewrite <- Hlen.
    by rewrite terminated_full.
  - intros c cs r k2 Ht Hc Hp Es Hr. unfold print_buf. rewrite Ht.
    erewrite bind_run by reflexivity. erewrite bind_run by reflexivity. simpl. rewrite Hc. simpl.
    erewrite ksend_run by done. by rewrite (proj2 (Z.leb_le r 0)).
Qed.
End Properties.

(** ** Instances *)

(** Two clients connect (descriptors 5 and 6; 3 listens and 4 is the epoll
    instance), the first sends a message and leaves. *)
Definition chat_script : sys large :=
  s_boot 2%nat {[5 := [bytes_of "hello"]]} [] [{[3]}; {[3]}; {[5]}; {[5]}].

(** The clients and what each has been sent after [turns] turns. *)
Definition chat_run (turns : nat) : option (list Z * list byte * list byte) :=
  match chat_main (λ _, 0) turns (mkProg chat_script []) with
  | Ok None w => Some (own w, trace_of (v_sent (s_view (kern w))) 5, trace_of (v_sent (s_view (kern w))) 6)
  | _ => None
  end.

Example chat_runs :
  chat_run 3 = Some ([5; 6], welcome 5 ++ response 5, welcome 6 ++ response 5)
  ∧ chat_run 4 = Some ([6], welcome 5 ++ response 5, welcome 6 ++ response 5).
Proof. split; vm_compute; reflexivity. Qed.

Lemma chat_clients_registered_witness :
  ∃ w, chat_main (λ _, 0) 3 (mkProg chat_script []) = Ok None w ∧ NoDup (own w).
Proof.
  destruct (chat_setup (λ _, 0) (mkProg chat_script [])) as [[epfd listener] w0|e] eqn:Es;
    [|vm_compute in Es; discriminate Es].
  assert (epfd = 4 ∧ listener = 3) as [-> ->] by (vm_compute in Es; injection Es as <- <- _; done).
  destruct (chat_loop (λ _, 0) 3 4 3 w0) as [[c|] w|e] eqn:E;
    [vm_compute in Es; injection Es as <-; vm_compute in E; discriminate E| |
     vm_compute in Es; injection Es as <-; vm_compute in E; discriminate E].
  exists w. split.
  - unfold chat_main. erewrite bind_run by exact Es. exact E.
  - eapply (chat_clients_registered (λ _, 0) 3 chat_script 4 3 w0 w); [|exact Es|lia|lia|exact E].
    intros fd Hfd. apply elem_of_list_to_set in Hfd. simpl in Hfd.
    repeat (apply elem_of_cons in Hfd as [->|Hfd]; [lia|]). by apply not_elem_of_nil in Hfd.
Defined.

(** Clients 5 and 6, and a message of client 5. *)
Definition chat_with (msg : list byte) : prog (sys large) (list Z) :=
  mkProg (mkSys (KView (list_to_set [3; 4; 5; 6]) ∅ ∅ ∅ false false) 7 0 {[5 := [msg]]} [] [] []) [5; 6].


Lemma one_client_ends_the_chat_witness :
  sendBroadcastmessage 4 5 (chat_with (replicate 208 Byte.x61)) = Fault StringOverread.
Proof.
  destruct (one_client_ends_the_chat 4 5 (chat_with (replicate 208 Byte.x61)) 208 (replicate 208 Byte.x61) 0
    (sys_recv (kern (chat_with (replicate 208 Byte.x61))) 5 208).2) as [Hfull _].
  - vm_compute. reflexivity.
  - lia.
  - apply Hfull; [reflexivity|]. apply (bool_decide_unpack _). vm_compute. exact I.
Defined.
