(* ===== verification/UnixEcho.v ===== *)
(** * Echo over a local socket and a test client (unix_tcp, linux_tcp/client.cc)

    [Server] is unix_tcp/server, [Client] is unix_tcp/client, [TcpClient] is
    linux_tcp/client.cc.  Each has a buffer of 1024 characters, kept in the
    program's state.  write(2) on a socket is the [sys_send] of the kernel, and raises
    SIGPIPE as [send] does. *)

From S2P Require Import Prelude Kernel Sockets SocketsSim.

Definition BUFFER_SIZE : nat := Z.to_nat 1024.
Definition BACK_LOG : Z := 1000.
Definition AF_UNIX : Z := 1.
Definition ENOENT : Z := 2.

(** How a function ends: it calls exit, or it returns. *)
Inductive flow : Type := Exited (code : Z) | Returned (v : Z).

(** The address of "../namo_am": a family and a path. *)
Definition unix_address : list byte := [Byte.x01; Byte.x00] ++ zeroed 108 (bytes_of "../namo_am").

Section Common.
Context {K : Type} `{Kernel Z K}.
#[local] Abbreviation prg := (M (prog K (list byte))).

Definition handleError : prg flow := mret (Exited (-1)).

(** recv(socket, buffer, BUFFER_SIZE, 0) *)
Definition recv_buffer (socket : Z) : prg Z :=
  r ← kcall (λ k, sys_recv k socket (Z.of_nat BUFFER_SIZE));
  let '(num_read, data, _) := r in
  with_own (blit 0 data) ;; mret num_read.

(** Reading [buffer] as a string. *)
Definition buffer_string : prg (list byte) :=
  buffer ← get_own;
  if terminated buffer then mret (cbytes buffer) else throw StringOverread.
End Common.

(** ** unix_tcp/server/main.cpp *)

Module Server.
Section Code.
Context {K : Type} `{Kernel Z K} `{Libc K}.
#[local] Abbreviation prg := (M (prog K (list byte))).

Fixpoint echo (fuel : nat) (socket : Z) : prg flow :=
  match fuel with
  | O => throw OutOfFuel
  | S fuel' =>
      num_read ← recv_buffer socket;
      if num_read =? -1 then handleError
      else if num_read =? 0 then
        kcall_ (λ k, sys_close k socket) ;; mret (Returned (-1))
      else
        when (0 <? num_read) (
          buffer ← get_own;
          _ ← ksend socket (take (Z.to_nat num_read) buffer); mret tt) ;;
        echo fuel' socket
  end.

Definition handleRequest (fuel : nat) (server_socket : Z) : prg flow :=
  r ← kcall (λ k, sys_accept k server_socket 0);
  let socket := fst r in
  if socket =? -1 then handleError else echo fuel socket.

(** [None] when it returns. *)
Definition bindToAddress (server_socket : Z) : prg (option flow) :=
  r ← kcall sys_remove;
  let '(failed, errno) := r in
  if negb (failed =? 0) && negb (errno =? ENOENT) then f ← handleError; mret (Some f)
  else
    b ← kcall (λ k, sys_bind k server_socket unix_address);
    if b =? -1 then f ← handleError; mret (Some f) else mret None.

(** The loop of main, with fuel of its own. *)
Fixpoint serve (turns fuel : nat) (server_socket : Z) : prg flow :=
  match turns with
  | O => throw OutOfFuel
  | S turns' =>
      r ← handleRequest fuel server_socket;
      match r with
      | Exited code => mret (Exited code)
      | Returned v => if v =? -1 then mret (Returned 1) else serve turns' fuel server_socket
      end
  end.

Definition server_main (turns fuel : nat) : prg flow :=
  server_socket ← kcall (λ k, sys_socket k AF_UNIX);
  if server_socket =? -1 then handleError
  else
    b ← bindToAddress server_socket;
    match b with
    | Some f => mret f
    | None =>
        l ← kcall (λ k, sys_listen k server_socket BACK_LOG);
        if l =? -1 then handleError else serve turns fuel server_socket
    end.
End Code.
End Server.

(** ** unix_tcp/client/main.cpp *)

Module Client.
Section Code.
Context {K : Type} `{Kernel Z K} `{Libc K}.
#[local] Abbreviation prg := (M (prog K (list byte))).

(** At the end of the input [fgets] leaves the buffer as it is. *)
Definition read_line : prg unit :=
  line ← kcall (λ k, sys_fgets k (Z.of_nat BUFFER_SIZE));
  match line with
  | Some l => with_own (blit 0 (l ++ [Byte.x00]))
  | None => mret tt
  end.

(** One turn of the loop: an exit code, if it exits. *)
Definition client_turn (client_socket : Z) : prg (option Z) :=
  read_line ;;
  text ← buffer_string;
  r ← ksend client_socket text;
  if r =? -1 then mret (Some (-1))
  else
    num_read ← recv_buffer client_socket;
    if num_read =? -1 then mret (Some (-1))
    else if num_read <? Z.of_nat BUFFER_SIZE then
      with_own (<[Z.to_nat num_read := Byte.x00]>) ;;
      _ ← buffer_string; mret None
    else throw OutOfBounds.

Fixpoint client_loop (turns : nat) (client_socket : Z) : prg (option Z) :=
  match turns with
  | O => mret None
  | S turns' =>
      r ← client_turn client_socket;
      match r with
      | Some code => mret (Some code)
      | None => client_loop turns' client_socket
      end
  end.

Definition client_main (turns : nat) : prg (option Z) :=
  client_socket ← kcall (λ k, sys_socket k AF_UNIX);
  if client_socket =? -1 then mret (Some (-1))
  else
    r ← kcall (λ k, sys_connect k client_socket unix_address);
    if r =? -1 then mret (Some (-1)) else client_loop turns client_socket.
End Code.
End Client.

(** ** linux_tcp/client.cc *)

Module TcpClient.
Section Code.
Context {K : Type} `{Kernel Z K} `{Libc K}.
#[local] Abbreviation prg := (M (prog K (list byte))).

Definition addr : list byte :=
  [Byte.x02; Byte.x00; Byte.x22; Byte.xb3; Byte.x7f; Byte.x00; Byte.x00; Byte.x01] ++ replicate 8 Byte.x00.

Definition hello_line : list byte := bytes_of "helloworld
".

(** What is received is sent again, as a string. *)
Definition tcp_send (sock_fd : Z) : prg unit :=
  text ← buffer_string;
  _ ← ksend sock_fd text;
  with_own (λ _, replicate BUFFER_SIZE Byte.x00).

Definition tcp_receive (sock_fd : Z) : prg unit :=
  _ ← recv_buffer sock_fd;
  _ ← buffer_string;
  mret tt.

Definition tcp_turn (sock_fd : Z) : prg unit := tcp_send sock_fd ;; tcp_receive sock_fd.

(** The function never returns: [None] is a client that is still running. *)
Definition tcp_client (turns : nat) : prg (option Z) :=
  sock_fd ← kcall (λ k, sys_socket k 2);
  if sock_fd =? -1 then mret (Some 1)
  else
    ret ← kcall (λ k, sys_connect k sock_fd addr);
    if ret =? -1 then mret (Some 1)
    else
      with_own (λ _, zeroed BUFFER_SIZE hello_line) ;;
      repeatM turns (tcp_turn sock_fd) ;;
      mret None.

(** main with its [argv]: a loop of [atoi(argv[1])] turns around a function that does
    not return, so that only its first turn is run. *)
Definition tcp_main (turns : nat) (argv : list string) : prg (option Z) :=
  if (length argv <? 2)%nat then mret (Some (-1))
  else
    n ← atoi (argv !! 1%nat);
    if 0 <? n then tcp_client turns else mret (Some 0).
End Code.
End TcpClient.

(** ** The server and its client *)

(** What one client says to the server on [sock] until it closes, each piece with the
    result of the [write] that answers it; none of them raises SIGPIPE. *)
Inductive talks {K} `{Kernel Z K} (sock : Z) : K → list (list byte * Z) → K → Prop :=
| talks_end k err k1 :
    sys_recv k sock (Z.of_nat BUFFER_SIZE) = (0, [], err, k1) → talks sock k [] k1
| talks_more k n data err k1 r k2 ds k3 :
    sys_recv k sock (Z.of_nat BUFFER_SIZE) = (n, data, err, k1) → 0 < n →
    sys_sigpipe k1 sock = false →
    sys_send k1 sock data = (r, k2) → talks sock k2 ds k3 → talks sock k ((data, r) :: ds) k3.

(** The bytes of a piece that its [write] has taken. *)
Definition taken (x : list byte * Z) : list byte := take (Z.to_nat x.2) x.1.

Section Proofs.
Context {K : Type} `{LibcLaws K}.
Implicit Types (w : prog K (list byte)) (k : K).

Lemma recv_buffer_run {B} sock w n data err k (g : Z → M (prog K (list byte)) B) :
  sys_recv (kern w) sock (Z.of_nat BUFFER_SIZE) = (n, data, err, k) →
  (recv_buffer sock ≫= g) w = g n (mkProg k (blit 0 data (own w))).
Proof.
  intros E. unfold recv_buffer, mbind at 1, M_bind at 1. erewrite kcall_run by exact E. done.
Qed.

Lemma take_blit_0 (data mem : list byte) n : n = length data → take n (blit 0 data mem) = data.
Proof. intros ->. unfold blit. simpl. by rewrite take_app_length. Qed.

(** With enough fuel, [echo] talks to the client until it closes. *)
Lemma echo_talks sock k ds k' :
  talks sock k ds k' → ∀ buffer fuel, (length ds < fuel)%nat →
  ∃ buffer', Server.echo fuel sock (mkProg k buffer)
             = Ok (Returned (-1)) (mkProg (sys_close k' sock) buffer').
Proof.
  induction 1 as [k err k1 E|k n data err k1 r k2 ds k3 E Hn Hp Es Ht IH]; intros buffer fuel Hf;
    (destruct fuel as [|fuel]; [simpl in Hf; lia|]); simpl.
  - erewrite recv_buffer_run by exact E. simpl. by eexists.
  - erewrite recv_buffer_run by exact E. rewrite (proj2 (Z.eqb_neq n (-1))), (proj2 (Z.eqb_neq n 0)) by lia.
    rewrite (proj2 (Z.ltb_lt 0 n)) by lia. simpl.
    apply recv_law in E as (_ & Hl & _); [|lia].
    unfold mbind at 1, M_bind at 1. unfold mbind at 1, M_bind at 1. unfold get_own at 1. simpl.
    rewrite take_blit_0 by done. erewrite ksend_run by (exact Hp || exact Es). apply IH. simpl in Hf. lia.
Qed.

(** What the descriptor has received and sent at the end. *)
Lemma talks_trace sock k ds k' :
  talks sock k ds k' →
  trace_of (v_recvd (k_view k')) sock = trace_of (v_recvd (k_view k)) sock ++ concat ds.*1
  ∧ trace_of (v_sent (k_view k')) sock = trace_of (v_sent (k_view k)) sock ++ concat (taken <$> ds).
Proof.
  intros Ht. induction Ht as [k err k1 E|k n data err k1 r k2 ds k3 E Hn Hp Es Ht IH].
  - apply recv_law in E as (_ & _ & ->); [|lia]. simpl. rewrite trace_of_insert_eq. by rewrite !app_nil_r.
  - apply recv_law in E as (_ & _ & Hk1); [|lia]. apply send_law in Es as [_ Hk2].
    destruct IH as [-> ->]. rewrite Hk2, Hk1. simpl. rewrite !trace_of_insert_eq.
    by rewrite <- !app_assoc.
Qed.

Lemma concat_taken_whole ds :
  Forall (λ x, x.2 = Z.of_nat (length x.1)) ds → concat (taken <$> ds) = concat ds.*1.
Proof.
  induction 1 as [|[data r] ds Hx _ IH]; [done|]. cbn. rewrite IH. unfold taken. simpl in *. subst r.
  by rewrite Nat2Z.id, firstn_all.
Qed.

(** The buffer of the client: a terminated string of its size. *)
Definition good_buffer (w : prog K (list byte)) : Prop :=
  length (own w) = BUFFER_SIZE ∧ terminated (own w) = true.

(** The kernel gave [socket] a reply that fills the buffer. *)
Definition full_reply (socket : Z) : Prop :=
  ∃ k data err k', sys_recv k socket (Z.of_nat BUFFER_SIZE) = (Z.of_nat BUFFER_SIZE, data, err, k').

(** A routine whose only error is a reply that fills the buffer; SIGPIPE may end it. *)
Definition overflows_on_full {A} (socket : Z) (m : M (prog K (list byte)) A) (w : prog K (list byte))
    (Q : A → prog K (list byte) → Prop) : Prop :=
  match m w with
  | Ok a w' => Q a w'
  | Fault e => e = Killed ∨ e = OutOfBounds ∧ full_reply socket
  end.

Lemma oof_bind {A B} socket (m : M (prog K (list byte)) A) (f : A → M (prog K (list byte)) B) w Q :
  overflows_on_full socket m w (λ a w', overflows_on_full socket (f a) w' Q) →
  overflows_on_full socket (m ≫= f) w Q.
Proof. unfold overflows_on_full, mbind, M_bind. by destruct (m w). Qed.

Lemma length_blit_0 (data mem : list byte) :
  (length data ≤ length mem)%nat → length (blit 0 data mem) = length mem.
Proof. intros. by rewrite length_blit. Qed.

Lemma read_line_good socket w :
  good_buffer w → overflows_on_full socket Client.read_line w (λ _, good_buffer).
Proof.
  intros [Hl Ht]. unfold Client.read_line. apply oof_bind. unfold overflows_on_full at 1, kcall.
  destruct (sys_fgets (kern w) (Z.of_nat BUFFER_SIZE)) as [[l|] k] eqn:E; [|by split].
  apply fgets_law in E as [_ Hlen]; [|by vm_compute]. specialize (Hlen l eq_refl).
  unfold overflows_on_full. simpl. split; simpl.
  - rewrite length_blit_0; [done|]. rewrite length_app. simpl. lia.
  - apply bool_decide_eq_true. unfold blit. simpl. rewrite !elem_of_app. left. right. by left.
Qed.

Lemma buffer_string_good socket w :
  good_buffer w → overflows_on_full socket buffer_string w (λ _ w', w' = w).
Proof.
  intros [_ Ht]. unfold overflows_on_full, buffer_string, mbind, M_bind, get_own. by rewrite Ht.
Qed.

Lemma oof_conseq {A} socket (m : M (prog K (list byte)) A) w (Q Q' : A → prog K (list byte) → Prop) :
  overflows_on_full socket m w Q' → (∀ a w', Q' a w' → Q a w') → overflows_on_full socket m w Q.
Proof. unfold overflows_on_full. destruct (m w); eauto. Qed.

Lemma client_turn_good socket w :
  good_buffer w → overflows_on_full socket (Client.client_turn socket) w (λ r w', r = None → good_buffer w').
Proof.
  intros Hw. unfold Client.client_turn. apply oof_bind.
  eapply oof_conseq; [by apply read_line_good|]. intros [] w1 Hw1. apply oof_bind.
  eapply oof_conseq; [by apply buffer_string_good|]. intros text w2 ->. destruct Hw1 as [Hl _].
  apply oof_bind. unfold overflows_on_full at 1, ksend.
  destruct (sys_sigpipe (kern w1) socket); [by left|]. unfold kcall.
  destruct (sys_send (kern w1) socket text) as [r k].
  destruct (r =? -1); [done|].
  apply oof_bind. unfold recv_buffer, overflows_on_full at 1, mbind, M_bind, kcall. simpl.
  destruct (sys_recv k socket (Z.of_nat BUFFER_SIZE)) as [[[n data] err] k1] eqn:Er. simpl.
  apply recv_law in Er as Hlaw; [|lia]. destruct Hlaw as (Hn & Hdata & _).
  destruct (Z.eqb_spec n (-1)) as [|Hne]; [done|]. unfold overflows_on_full.
  destruct (Z.ltb_spec n (Z.of_nat BUFFER_SIZE)).
  - unfold mbind, M_bind, with_own. simpl. unfold buffer_string, mbind, M_bind, get_own. simpl.
    set (buffer := <[_ := _]> _). assert (length buffer = BUFFER_SIZE) as Hlb.
    { subst buffer. rewrite length_insert, length_blit_0; lia. }
    assert (terminated buffer = true) as Htb.
    { apply bool_decide_eq_true. subst buffer. apply list_elem_of_lookup. exists (Z.to_nat n).
      apply list_lookup_insert_eq. rewrite length_blit_0; lia. }
    rewrite Htb. intros _. by split.
  - right. split; [done|]. assert (n = Z.of_nat BUFFER_SIZE) as -> by lia. by exists k, data, err, k1.
Qed.

Lemma client_loop_good turns socket w :
  good_buffer w → overflows_on_full socket (Client.client_loop turns socket) w (λ r w', r = None → good_buffer w').
Proof.
  revert w. induction turns as [|turns IH]; intros w Hw; simpl; [by intros _|].
  apply oof_bind. eapply oof_conseq; [by apply client_turn_good|].
  intros [code|] w1 Hw1; [by intros|]. apply IH. auto.
Qed.

(** One turn of the other client. *)
Lemma tcp_send_run sock w r k :
  terminated (own w) = true → sys_sigpipe (kern w) sock = false →
  sys_send (kern w) sock (cbytes (own w)) = (r, k) →
  TcpClient.tcp_send sock w = Ok tt (mkProg k (zeroed BUFFER_SIZE [])).
Proof.
  intros Ht Hp Es. unfold TcpClient.tcp_send.
  erewrite bind_run by (unfold buffer_string, mbind, M_bind, get_own; by rewrite Ht).
  by erewrite ksend_run by (exact Hp || exact Es).
Qed.

Lemma tcp_send_killed sock w :
  terminated (own w) = true → sys_sigpipe (kern w) sock = true → TcpClient.tcp_send sock w = Fault Killed.
Proof.
  intros Ht Hp. unfold TcpClient.tcp_send.
  erewrite bind_run by (unfold buffer_string, mbind, M_bind, get_own; by rewrite Ht).
  unfold mbind, M_bind, ksend. by rewrite Hp.
Qed.

Lemma tcp_receive_run sock w n data err k :
  own w = zeroed BUFFER_SIZE [] → sys_recv (kern w) sock (Z.of_nat BUFFER_SIZE) = (n, data, err, k) →
  TcpClient.tcp_receive sock w =
    if terminated (zeroed BUFFER_SIZE data) then Ok tt (mkProg k (zeroed BUFFER_SIZE data))
    else Fault StringOverread.
Proof.
  intros Ho Er. unfold TcpClient.tcp_receive.
  erewrite recv_buffer_run by exact Er. rewrite Ho. cbn [kern own].
  assert (blit 0 data (zeroed BUFFER_SIZE []) = zeroed BUFFER_SIZE data) as ->.
  { assert (zeroed BUFFER_SIZE [] = replicate BUFFER_SIZE Byte.x00) as -> by reflexivity.
    unfold blit, zeroed. simpl take. by rewrite drop_replicate. }
  unfold buffer_string, mbind, M_bind, get_own. cbn [kern own].
  unfold mbind, M_bind. cbn [kern own].
  by destruct (terminated (zeroed BUFFER_SIZE data)).
Qed.

Lemma tcp_turn_run sock w r k1 n data err k2 :
  terminated (own w) = true → sys_sigpipe (kern w) sock = false →
  sys_send (kern w) sock (cbytes (own w)) = (r, k1) →
  sys_recv k1 sock (Z.of_nat BUFFER_SIZE) = (n, data, err, k2) →
  TcpClient.tcp_turn sock w =
    if terminated (zeroed BUFFER_SIZE data) then Ok tt (mkProg k2 (zeroed BUFFER_SIZE data))
    else Fault StringOverread.
Proof.
  intros Ht Hp Es Er. unfold TcpClient.tcp_turn. erewrite bind_run by (by eapply tcp_send_run).
  by eapply tcp_receive_run.
Qed.

(** ** Properties *)

(** C36: the local server serves one client, however many connect: to each piece that
    the client sends until it closes it answers with what the [write] of that piece
    takes, in order, so with all that was sent when every [write] took its whole piece;
    then it closes the connection, and main ends, because [echo] returns -1 for a client
    that closed. *)
Theorem server_serves_one_client turns fuel buffer k srv k1 rm errno k2 b k3 l k4 sock a k5 ds k6 :
  sys_socket k AF_UNIX = (srv, k1) → srv ≠ -1 →
  sys_remove k1 = (rm, errno, k2) → rm = 0 ∨ errno = ENOENT →
  sys_bind k2 srv unix_address = (b, k3) → b ≠ -1 →
  sys_listen k3 srv BACK_LOG = (l, k4) → l ≠ -1 →
  sys_accept k4 srv 0 = (sock, a, k5) → 0 <= sock →
  talks sock k5 ds k6 → (length ds < fuel)%nat →
  ∃ buffer', Server.server_main (S turns) fuel (mkProg k buffer)
             = Ok (Returned 1) (mkProg (sys_close k6 sock) buffer')
    ∧ trace_of (v_recvd (k_view (sys_close k6 sock))) sock = concat ds.*1
    ∧ trace_of (v_sent (k_view (sys_close k6 sock))) sock = concat (taken <$> ds)
    ∧ (Forall (λ x, x.2 = Z.of_nat (length x.1)) ds →
       trace_of (v_sent (k_view (sys_close k6 sock))) sock = concat ds.*1).
Proof.
  intros Es Hs Erm Hrm Eb Hb El Hl Ea Hsock Ht Hf.
  destruct (echo_talks sock k5 ds k6 Ht buffer fuel Hf) as [buffer' E].
  apply accept_law in Ea as Hacc. destruct Hacc as [_ Hacc]. destruct (Hacc Hsock) as (_ & _ & _ & Hk5 & _).
  destruct (talks_trace sock k5 ds k6 Ht) as [Hrecv Hsent].
  rewrite Hk5 in Hrecv, Hsent. simpl in Hrecv, Hsent. rewrite trace_of_insert_eq in Hrecv, Hsent.
  exists buffer'. rewrite close_law.
  split; [|split_and!; [done|done|intros Hw; simpl; rewrite Hsent; by apply concat_taken_whole]].
  unfold Server.server_main. erewrite kcall_run by exact Es. rewrite (proj2 (Z.eqb_neq srv _)) by done.
  erewrite bind_run; [|unfold Server.bindToAddress; erewrite kcall_run by exact Erm; cbv beta iota].
  2: { replace (negb (rm =? 0) && negb (errno =? ENOENT)) with false
         by (destruct Hrm as [->| ->]; [done|by rewrite Z.eqb_refl, andb_false_r]).
       erewrite kcall_run by exact Eb. rewrite (proj2 (Z.eqb_neq b _)) by done. reflexivity. }
  cbv beta iota. erewrite kcall_run by exact El. rewrite (proj2 (Z.eqb_neq l _)) by done.
  simpl. unfold Server.handleRequest. unfold mbind at 1, M_bind at 1.
  erewrite kcall_run by exact Ea. simpl. rewrite (proj2 (Z.eqb_neq sock _)) by lia. by rewrite E.
Qed.

(** The only error of the local client, in any number of turns, is to write the
    terminating zero past its buffer, when a reply fills it; SIGPIPE may end it. *)
Theorem client_overflows_on_full_reply turns k :
  match Client.client_main turns (mkProg k (replicate BUFFER_SIZE Byte.x00)) with
  | Ok r w => r = None → length (own w) = BUFFER_SIZE ∧ terminated (own w) = true
  | Fault e => e = Killed ∨ e = OutOfBounds ∧ ∃ socket, full_reply socket
  end.
Proof.
  unfold Client.client_main, mbind, M_bind, kcall. simpl.
  destruct (sys_socket k AF_UNIX) as [socket k1]. destruct (socket =? -1); [done|].
  simpl. destruct (sys_connect k1 socket unix_address) as [r k2]. destruct (r =? -1); [done|].
  pose proof (client_loop_good turns socket (mkProg k2 (replicate BUFFER_SIZE Byte.x00))) as Hloop.
  unfold overflows_on_full in Hloop. destruct (Client.client_loop turns socket _) as [x w|e].
  - apply Hloop. split; [apply length_replicate|by vm_compute].
  - destruct Hloop as [->|[-> Hf]]; [|by auto|by eauto]. split; [apply length_replicate|by vm_compute].
Qed.

(** The client of linux_tcp/client.cc does not notice that its server is gone:
    when nothing is received any more and no signal comes, it goes on for ever, sending
    nothing. *)
Theorem tcp_client_spins turns sock w :
  (∀ k n data err k', sys_recv k sock (Z.of_nat BUFFER_SIZE) = (n, data, err, k') → n <= 0) →
  (∀ k, sys_sigpipe k sock = false) →
  terminated (own w) = true →
  ∃ w', repeatM (S turns) (TcpClient.tcp_turn sock) w = Ok tt w' ∧ cbytes (own w') = [].
Proof.
  intros Hrecv Hpipe. revert w. induction turns as [|turns IH]; intros w Ht.
  all: destruct (sys_send (kern w) sock (cbytes (own w))) as [r k1] eqn:Es.
  all: destruct (sys_recv k1 sock (Z.of_nat BUFFER_SIZE)) as [[[n data] err] k2] eqn:Er.
  all: pose proof (Hrecv _ _ _ _ _ Er) as Hn; apply recv_law in Er as Hlaw; [|lia].
  all: assert (data = []) as -> by (apply nil_length_inv; lia).
  all: pose proof (tcp_turn_run sock w r k1 n [] err k2 Ht (Hpipe _) Es Er) as Hrun.
  all: rewrite terminated_zeroed in Hrun by (simpl; unfold BUFFER_SIZE; lia).
  - simpl. erewrite bind_run by exact Hrun. by eexists.
  - destruct (IH (mkProg k2 (zeroed BUFFER_SIZE []))) as (w' & E & Hc); [by vm_compute|].
    exists w'. split; [|exact Hc]. rewrite <- E. simpl. by erewrite bind_run by exact Hrun.
Qed.
End Proofs.

(** ** Instances *)

(** Two clients are waiting; the first says two words. *)
Definition unix_script : sys large :=
  s_boot 2%nat {[4 := [bytes_of "hello"; bytes_of "you"]]} [] [].

Lemma server_serves_one_client_witness :
  ∃ buffer' k', Server.server_main 9 3 (mkProg unix_script (replicate BUFFER_SIZE Byte.x00))
                = Ok (Returned 1) (mkProg k' buffer')
    ∧ trace_of (v_sent (k_view k')) 4 = bytes_of "helloyou".
Proof.
  assert (∃ k1 k5 k6, sys_socket unix_script AF_UNIX = (3, k1) ∧ sys_accept k1 3 0 = (4, [], k5)
    ∧ talks 4 k5 [(bytes_of "hello", 5); (bytes_of "you", 3)] k6) as (k1 & k5 & k6 & Es & Ea & Ht).
  { set (k1 := (sys_socket unix_script AF_UNIX).2). set (k5 := (sys_accept k1 3 0).2).
    set (k6 := (sys_recv k5 4 (Z.of_nat BUFFER_SIZE)).2). set (k7 := (sys_send k6 4 (bytes_of "hello")).2).
    set (k8 := (sys_recv k7 4 (Z.of_nat BUFFER_SIZE)).2). set (k9 := (sys_send k8 4 (bytes_of "you")).2).
    exists k1, k5, (sys_recv k9 4 (Z.of_nat BUFFER_SIZE)).2.
    split; [vm_compute; reflexivity|]. split; [vm_compute; reflexivity|].
    eapply (talks_more 4 k5 5 _ 0 k6 5 k7); [vm_compute; reflexivity|done|reflexivity|vm_compute; reflexivity|].
    eapply (talks_more 4 k7 3 _ 0 k8 3 k9); [vm_compute; reflexivity|done|reflexivity|vm_compute; reflexivity|].
    apply (talks_end 4 k9 0). vm_compute. reflexivity. }
  destruct (server_serves_one_client 8 3 (replicate BUFFER_SIZE Byte.x00) unix_script 3 k1 0 0 k1 0 k1 0 k1
    4 [] k5 [(bytes_of "hello", 5); (bytes_of "you", 3)] k6) as (buffer' & E & _ & _ & Hsent);
    [exact Es|done|reflexivity|by left|reflexivity|done|reflexivity|done|exact Ea|lia|exact Ht|simpl; lia|].
  exists buffer', (sys_close k6 4). split; [exact E|]. rewrite Hsent; [reflexivity|].
  repeat constructor.
Defined.

Lemma tcp_client_spins_witness :
  ∃ w', repeatM 100 (TcpClient.tcp_turn 3)
          (mkProg (s_boot 0%nat ∅ [] [] : sys 0%nat) (zeroed BUFFER_SIZE (bytes_of "helloworld"))) = Ok tt w'
    ∧ cbytes (own w') = [].
Proof.
  apply (tcp_client_spins 99); [|done|vm_compute; reflexivity].
  simpl. unfold s_recv. intros k n data err k' E.
  destruct (s_incoming k !! 3) as [[|c cs]|]; injection E as <- _ _ _; rewrite ?length_take; lia.
Defined.
