(* ===== verification/Winsock.v ===== *)
(** * The Windows echo server and client (catfly/server, catfly/client)

    One buffer of [MAXBYTE] characters each, which is never cleared.  The results
    of the calls are not looked at.  The calls of Winsock are those of [Kernel];
    [client_turn] returns the text that it prints as the server's. *)

From S2P Require Import Prelude Kernel Sockets SocketsSim.

Definition MAXBYTE : nat := Z.to_nat 0xff.

(** AF_INET, htons(1234) and the IP address. *)
Definition address (ip : list byte) : list byte :=
  [Byte.x02; Byte.x00; Byte.x04; Byte.xd2] ++ ip ++ replicate 8 Byte.x00.

Section Winsock.
Context {K : Type} `{Kernel Z K} `{Libc K}.
#[local] Abbreviation prg := (M (prog K (list byte))).

(** recv(sock, szBuffer, MAXBYTE, NULL) *)
Definition recv_into (sock : Z) : prg unit :=
  r ← kcall (λ k, sys_recv k sock (Z.of_nat MAXBYTE));
  let '(_, data, _) := r in
  with_own (blit 0 data).

(** strlen(szBuffer) characters of szBuffer *)
Definition buffer_text : prg (list byte) :=
  szBuffer ← get_own;
  if terminated szBuffer then mret (cbytes szBuffer) else throw StringOverread.

Definition server_turn (servSock : Z) : prg unit :=
  r ← kcall (λ k, sys_accept k servSock 16);
  let clntSock := fst r in
  recv_into clntSock ;;
  text ← buffer_text;
  _ ← kcall (λ k, sys_send k clntSock text);
  kcall_ (λ k, sys_close k clntSock).

(** main of the server, for a number of turns of its loop, which has no end. *)
Definition server_main (turns : nat) : prg unit :=
  servSock ← kcall (λ k, sys_socket k 2);
  _ ← kcall (λ k, sys_bind k servSock (address (replicate 4 Byte.x00)));
  _ ← kcall (λ k, sys_listen k servSock 20);
  with_own (λ _, replicate MAXBYTE Byte.x00) ;;
  repeatM turns (server_turn servSock).

(** sprintf(szBuffer, "Hello World: %d", i) *)
Definition hello (i : Z) : list byte := bytes_of ("Hello World: " +:+ pretty i).

(** One turn of the client, with its counter after [i++]. *)
Definition client_turn (sock i : Z) : prg (list byte) :=
  with_own (blit 0 (hello i ++ [Byte.x00])) ;;
  text ← buffer_text;
  _ ← kcall (λ k, sys_send k sock (text ++ [Byte.x00]));
  recv_into sock ;;
  buffer_text.

(** The texts printed in [turns] turns; the counter is an [int]. *)
Fixpoint client_loop (turns : nat) (sock i : Z) : prg (list (list byte)) :=
  match turns with
  | O => mret []
  | S turns' =>
      if i =? 2 ^ 31 - 1 then throw IntOverflow
      else
        t ← client_turn sock (i + 1);
        ts ← client_loop turns' sock (i + 1);
        mret (t :: ts)
  end.

Definition client_main (turns : nat) : prg (list (list byte)) :=
  sock ← kcall (λ k, sys_socket k 2);
  _ ← kcall (λ k, sys_connect k sock (address [Byte.xc0; Byte.xa8; Byte.x00; Byte.x6a]));
  with_own (λ _, replicate MAXBYTE Byte.x00) ;;
  client_loop turns sock 0.
End Winsock.

Section Proofs.
Context {K : Type} `{LibcLaws K}.
Implicit Types (w : prog K (list byte)) (k : K).

(** One turn of the server whose buffer holds the terminated string [old] at its
    start and zeroes after it. *)
Lemma server_turn_run srv k old sock a k1 n data err k2 :
  sys_accept k srv 16 = (sock, a, k1) →
  sys_recv k1 sock (Z.of_nat MAXBYTE) = (n, data, err, k2) →
  (length old < MAXBYTE)%nat → (length data < MAXBYTE)%nat → (Byte.x00 ∉ old) → (Byte.x00 ∉ data) →
  server_turn srv (mkProg k (zeroed MAXBYTE old))
  = Ok tt (mkProg (sys_close (sys_send k2 sock (data ++ drop (length data) old)).2 sock)
             (zeroed MAXBYTE (data ++ drop (length data) old))).
Proof.
  intros Ea Er Hold Hdata Hzo Hzd.
  set (new := data ++ drop (length data) old).
  assert (length new < MAXBYTE)%nat as Hnew by (subst new; rewrite length_app, length_drop; lia).
  assert (Byte.x00 ∉ new) as Hzn.
  { subst new. rewrite not_elem_of_app. split; [done|]. intros Hin. apply Hzo.
    rewrite <- (take_drop (length data) old). apply elem_of_app. by right. }
  assert (blit 0 data (zeroed MAXBYTE old) = zeroed MAXBYTE new) as Hb.
  { subst new. unfold blit, zeroed. simpl. rewrite drop_app, drop_replicate, <- app_assoc. do 3 f_equal.
    rewrite length_app, length_drop. lia. }
  unfold server_turn. erewrite kcall_run by exact Ea. cbv beta zeta. simpl fst.
  unfold recv_into. unfold mbind at 1, M_bind at 1. erewrite kcall_run by exact Er.
  unfold with_own, modify. cbn [kern own]. rewrite Hb.
  assert (buffer_text (mkProg k2 (zeroed MAXBYTE new)) = Ok new (mkProg k2 (zeroed MAXBYTE new))) as Ht.
  { unfold buffer_text, mbind, M_bind, get_own. cbn [own]. rewrite terminated_zeroed by done.
    unfold zeroed. destruct (MAXBYTE - length new)%nat eqn:Ed; [lia|]. simpl. by rewrite cbytes_app_zero. }
  erewrite bind_run by exact Ht. unfold mbind, M_bind, kcall, kcall_, modify. cbn [kern own].
  by destruct (sys_send k2 sock new).
Qed.

(** The message fits the buffer. *)
Lemma hello_text i : 0 < i < 2 ^ 31 → (length (hello i) < MAXBYTE)%nat ∧ (Byte.x00 ∉ hello i).
Proof.
  intros Hi. destruct (pretty_int_text i Hi) as [Hl Hz]. unfold hello. rewrite bytes_of_app. split.
  - rewrite length_app. change (length (bytes_of "Hello World: ")) with 13%nat. unfold MAXBYTE. lia.
  - rewrite not_elem_of_app. split; [|done]. apply (bool_decide_unpack _). vm_compute. exact I.
Qed.

(** The buffer of the catfly server keeps what one client sent: the reply to the
    next client, when it sends less, ends with the rest of it. *)
Theorem reply_leaks_the_previous_client srv k sock1 a1 k1 n1 data1 err1 k2 sock2 a2 k4 n2 data2 err2 k5 :
  sys_accept k srv 16 = (sock1, a1, k1) →
  sys_recv k1 sock1 (Z.of_nat MAXBYTE) = (n1, data1, err1, k2) →
  let k3 := sys_close (sys_send k2 sock1 data1).2 sock1 in
  sys_accept k3 srv 16 = (sock2, a2, k4) →
  sys_recv k4 sock2 (Z.of_nat MAXBYTE) = (n2, data2, err2, k5) →
  (length data1 < MAXBYTE)%nat → (length data2 < MAXBYTE)%nat → (Byte.x00 ∉ data1) → (Byte.x00 ∉ data2) →
  let reply := data2 ++ drop (length data2) data1 in
  repeatM 2 (server_turn srv) (mkProg k (replicate MAXBYTE Byte.x00))
  = Ok tt (mkProg (sys_close (sys_send k5 sock2 reply).2 sock2) (zeroed MAXBYTE reply)).
Proof.
  intros Ea1 Er1 k3 Ea2 Er2 Hl1 Hl2 Hz1 Hz2 reply.
  assert (replicate MAXBYTE Byte.x00 = zeroed MAXBYTE []) as ->.
  { vm_compute. reflexivity. }
  pose proof (server_turn_run srv k [] sock1 a1 k1 n1 data1 err1 k2 Ea1 Er1) as Hrun1.
  rewrite drop_nil, app_nil_r in Hrun1. simpl repeatM.
  erewrite bind_run; [|apply Hrun1; [simpl; unfold MAXBYTE; lia|done|apply not_elem_of_nil|done]].
  erewrite bind_run; [|eapply server_turn_run; [exact Ea2|exact Er2|done..]]. done.
Qed.

(** When nothing can be received any more, the client prints its own message as
    the message from the server, in every turn. *)
Theorem client_reports_itself turns sock i w :
  (∀ k n data err k', sys_recv k sock (Z.of_nat MAXBYTE) = (n, data, err, k') → n <= 0) →
  length (own w) = MAXBYTE → 0 <= i → i + Z.of_nat turns < 2 ^ 31 →
  ∃ w', client_loop turns sock i w = Ok ((λ j, hello (i + 1 + Z.of_nat j)) <$> seq 0 turns) w'.
Proof.
  intros Hrecv. revert i w. induction turns as [|turns IH]; intros i w Hl Hi Hlt; [by exists w|].
  destruct (hello_text (i + 1)) as [Hlen Hz]; [lia|].
  set (buffer := blit 0 (hello (i + 1) ++ [Byte.x00]) (own w)).
  assert (length buffer = MAXBYTE) as Hb.
  { subst buffer. rewrite length_blit; [done|]. rewrite length_app. change (length [Byte.x00]) with 1%nat. lia. }
  assert (∀ k, buffer_text (mkProg k buffer) = Ok (hello (i + 1)) (mkProg k buffer)) as Ht.
  { intros k. unfold buffer_text, mbind, M_bind, get_own. cbn [own].
    assert (buffer = hello (i + 1) ++ Byte.x00 :: drop (0 + length (hello (i + 1) ++ [Byte.x00])) (own w)) as Eb.
    { subst buffer. unfold blit. simpl. by rewrite <- app_assoc. }
    replace (terminated buffer) with true; [by rewrite Eb, cbytes_app_zero|].
    symmetry. apply bool_decide_eq_true. rewrite Eb. apply elem_of_app. right. by left. }
  simpl client_loop. rewrite (proj2 (Z.eqb_neq i _)) by lia.
  destruct (sys_send (kern w) sock (hello (i + 1) ++ [Byte.x00])) as [r k1] eqn:Es.
  destruct (sys_recv k1 sock (Z.of_nat MAXBYTE)) as [[[n data] err] k2] eqn:Er.
  apply Hrecv in Er as Hn. apply recv_law in Er as Hr; [|lia].
  assert (data = []) as -> by (apply nil_length_inv; lia).
  assert (client_turn sock (i + 1) w = Ok (hello (i + 1)) (mkProg k2 buffer)) as Hturn.
  { unfold client_turn, with_own. rewrite modify_bind. erewrite bind_run by apply Ht.
    erewrite kcall_run by exact Es. unfold recv_into. unfold mbind at 1, M_bind at 1.
    erewrite kcall_run by exact Er. unfold with_own, modify. cbn [kern own]. apply Ht. }
  erewrite bind_run by exact Hturn.
  destruct (IH (i + 1) (mkProg k2 buffer) Hb) as [w' E]; [lia|lia|].
  exists w'. erewrite bind_run by exact E. simpl seq. rewrite <- fmap_S_seq. simpl.
  unfold mret, M_ret. do 2 f_equal; [f_equal; lia|].
  rewrite <- list_fmap_compose. apply list_fmap_ext. intros _ j _. simpl. f_equal. lia.
Qed.
End Proofs.

(** ** Instances *)

(** Two clients, on descriptors 3 and 4. *)
Definition two_clients : sys large :=
  s_boot 2%nat {[3 := [bytes_of "password"]; 4 := [bytes_of "hi"]]} [] [].

Lemma reply_leaks_the_previous_client_witness :
  ∃ k, repeatM 2 (server_turn 0) (mkProg two_clients (replicate MAXBYTE Byte.x00))
       = Ok tt (mkProg k (zeroed MAXBYTE (bytes_of "hissword")))
    ∧ trace_of (v_sent (s_view k)) 4 = bytes_of "hissword".
Proof.
  pose (k1 := (sys_accept two_clients 0 16).2). pose (k2 := (sys_recv k1 3 (Z.of_nat MAXBYTE)).2).
  pose (k3 := sys_close (sys_send k2 3 (bytes_of "password")).2 3).
  pose (k4 := (sys_accept k3 0 16).2). pose (k5 := (sys_recv k4 4 (Z.of_nat MAXBYTE)).2).
  exists (sys_close (sys_send k5 4 (bytes_of "hissword")).2 4). split; [|vm_compute; reflexivity].
  apply (reply_leaks_the_previous_client 0 two_clients 3 [] k1 8 (bytes_of "password") 0 k2
    4 [] k4 2 (bytes_of "hi") 0 k5); [vm_compute; reflexivity..| | | |];
    apply (bool_decide_unpack _); vm_compute; exact I.
Defined.

Lemma client_reports_itself_witness :
  ∃ w', client_loop 3 3 0 (mkProg (s_boot 0%nat ∅ [] [] : sys 0%nat) (replicate MAXBYTE Byte.x00))
  = Ok [bytes_of "Hello World: 1"; bytes_of "Hello World: 2"; bytes_of "Hello World: 3"] w'.
Proof.
  apply (client_reports_itself 3 3 0); [|apply length_replicate|lia|done].
  simpl. unfold s_recv. intros k n data err k' E.
  destruct (s_incoming k !! 3) as [[|c cs]|]; injection E as <- _ _ _; rewrite ?length_take; lia.
Defined.
