(* ===== verification/Libevent.v ===== *)
(** * The libevent server and clients (libevent_test)

    libevent is code outside this repository, the class [Libevent]; [LibeventLaws]
    is what its manual says of [bufferevent_read].  It calls the program back, on a
    [bufferevent] that is not freed, with the callbacks that were set: the state
    keeps which are, [registered].  The server and the clients are in the next two
    files; here is what they share, with a library to run them on.  The event bases
    are left out. *)

From S2P Require Import Prelude Kernel Sockets.

Definition bev : Type := nat.      (* a bufferevent* *)

(** The arguments of [bufferevent_setcb] that are not null. *)
Record callbacks : Type := mkCallbacks { readcb : bool; writecb : bool; eventcb : bool }.

Class Libevent (E : Type) : Type := {
  bufferevent_socket_new : E → option bev * E;
  bufferevent_socket_connect : E → bev → list byte → Z * E;
  evbuffer_get_length_input : E → bev → Z;
  evbuffer_get_length_output : E → bev → Z;
  bufferevent_read : E → bev → Z → list byte * E;
  bufferevent_write : E → bev → list byte → Z * E;
  bufferevent_free : E → bev → E;
  evconnlistener_new_bind : E → list byte → option nat * E;
  evconnlistener_free : E → nat → E;
  evsignal_new : E → option nat * E;
  event_add : E → nat → Z * E;
  event_free : E → nat → E;
  event_base_loopexit : E → Z → E;
}.

Class LibeventLaws (E : Type) `{Libevent E} : Type := {
  (** At most [size] bytes, of those that there are. *)
  read_law e b size data e' :
    bufferevent_read e b size = (data, e') → 0 <= size →
    Z.of_nat (length data) = Z.min size (evbuffer_get_length_input e b);
  input_length_law e b : 0 <= evbuffer_get_length_input e b;
}.

(** Event flags of <event2/bufferevent.h>. *)
Definition BEV_EVENT_EOF : Z := 0x10.
Definition BEV_EVENT_ERROR : Z := 0x20.

Definition PORT : Z := 8881.
Definition MESSAGE : list byte := bytes_of "Hello world!".

(** htons(8881) is 0x22b1. *)
Definition any_address : list byte := [Byte.x02; Byte.x00; Byte.x22; Byte.xb1] ++ replicate 12 Byte.x00.
Definition local_address : list byte :=
  [Byte.x02; Byte.x00; Byte.x22; Byte.xb1; Byte.x7f; Byte.x00; Byte.x00; Byte.x01] ++ replicate 8 Byte.x00.

Record world (E : Type) : Type := mkWorld {
  lib : E;
  registered : gmap bev callbacks;   (* the bufferevents that are not freed *)
}.
Arguments mkWorld {E} lib registered.
Arguments lib {E} w.
Arguments registered {E} w.

Section Common.
Context {E : Type} `{Libevent E}.
#[local] Abbreviation prg := (M (world E)).

Definition ecall {A} (f : E → A * E) : prg A := λ w,
  let '(a, e) := f (lib w) in Ok a (mkWorld e (registered w)).

(** Any use of a bufferevent. *)
Definition use (b : bev) : prg unit := λ w,
  match registered w !! b with Some _ => Ok tt w | None => Fault UseAfterFree end.

Definition setcb (b : bev) (c : callbacks) : prg unit :=
  use b ;; modify (λ w, mkWorld (lib w) (<[b := c]> (registered w))).

Definition free (b : bev) : prg unit :=
  use b ;; modify (λ w, mkWorld (bufferevent_free (lib w) b) (delete b (registered w))).

Definition write (b : bev) (data : list byte) : prg Z := use b ;; ecall (λ e, bufferevent_write e b data).

Definition input_length (b : bev) : prg Z :=
  use b ;; w ← get; mret (evbuffer_get_length_input (lib w) b).

Definition output_length (b : bev) : prg Z :=
  use b ;; w ← get; mret (evbuffer_get_length_output (lib w) b).

Definition socket_new : prg (option bev) :=
  o ← ecall bufferevent_socket_new;
  match o with
  | Some b => modify (λ w, mkWorld (lib w) (<[b := mkCallbacks false false false]> (registered w))) ;; mret (Some b)
  | None => mret None
  end.

(** bufferevent_read(bev, buffer, sz) into a zeroed buffer of [size] characters. *)
Definition read_into (size : nat) (b : bev) (sz : Z) : prg (list byte) :=
  use b ;;
  data ← ecall (λ e, bufferevent_read e b sz);
  if decide (length data ≤ size)%nat then mret (zeroed size data) else throw OutOfBounds.

(** [printf("%s", buffer)] and [strlen(buffer)]. *)
Definition string_of (buffer : list byte) : prg (list byte) :=
  if terminated buffer then mret (cbytes buffer) else throw StringOverread.
End Common.

(** ** Proofs *)

Section Proofs.
Context {E : Type} `{LibeventLaws E}.
Implicit Types (w : world E) (b : bev).

(** What goes wrong in a callback that reads all the input of [b] into a zeroed array of
    [limit] characters, and then its string. *)
Definition too_long (limit : nat) (b : bev) w (e : fault) : Prop :=
  let len := evbuffer_get_length_input (lib w) b in
  (e = OutOfBounds ∧ Z.of_nat limit < len) ∨ (e = StringOverread ∧ len = Z.of_nat limit).

Lemma use_registered {A} b w (g : unit → M (world E) A) :
  is_Some (registered w !! b) → (use b ≫= g) w = g tt w.
Proof. intros [c Hc]. unfold mbind, M_bind, use. by rewrite Hc. Qed.

Lemma free_run b w :
  is_Some (registered w !! b) →
  free b w = Ok tt (mkWorld (bufferevent_free (lib w) b) (delete b (registered w))).
Proof. intros Hb. unfold free. by rewrite use_registered. Qed.

Lemma write_run b data w r e :
  is_Some (registered w !! b) → bufferevent_write (lib w) b data = (r, e) →
  write b data w = Ok r (mkWorld e (registered w)).
Proof. intros Hb Ew. unfold write. rewrite use_registered by done. unfold ecall. by rewrite Ew. Qed.

(** The reading of a message, on every branch. *)
Lemma read_string_run size b w data e :
  is_Some (registered w !! b) → 0 < evbuffer_get_length_input (lib w) b →
  bufferevent_read (lib w) b (evbuffer_get_length_input (lib w) b) = (data, e) →
  (buffer ← read_into size b (evbuffer_get_length_input (lib w) b); string_of buffer) w =
    if Z.of_nat size <? evbuffer_get_length_input (lib w) b then Fault OutOfBounds
    else if terminated (zeroed size data) then Ok (cbytes (zeroed size data)) (mkWorld e (registered w))
    else Fault StringOverread.
Proof.
  intros Hb Hsz Er. apply read_law in Er as Hl; [|lia]. rewrite Z.min_id in Hl.
  unfold read_into. unfold mbind at 1, M_bind at 1. rewrite use_registered by done.
  unfold ecall, mbind, M_bind. rewrite Er.
  destruct (Z.ltb_spec (Z.of_nat size) (evbuffer_get_length_input (lib w) b)).
  - by rewrite decide_False by lia.
  - rewrite decide_True by lia. simpl. unfold string_of. by destruct (terminated _).
Qed.

(** The message does not fit when the string read is not terminated. *)
Lemma unterminated_fills size data : terminated (zeroed size data) = false → (size ≤ length data)%nat.
Proof.
  intros Ht. destruct (decide (length data < size)%nat) as [Hlt|]; [|lia].
  by rewrite terminated_zeroed in Ht.
Qed.

(** So it goes wrong only when there is too much to read. *)
Lemma read_string_fault size b w err :
  is_Some (registered w !! b) → 0 < evbuffer_get_length_input (lib w) b →
  (buffer ← read_into size b (evbuffer_get_length_input (lib w) b); string_of buffer) w = Fault err →
  too_long size b w err.
Proof.
  intros Hb Hsz. destruct (bufferevent_read (lib w) b (evbuffer_get_length_input (lib w) b)) as [data e] eqn:Er.
  rewrite (read_string_run size b w data e Hb Hsz Er).
  apply read_law in Er as Hl; [|lia]. rewrite Z.min_id in Hl. unfold too_long.
  destruct (Z.ltb_spec (Z.of_nat size) (evbuffer_get_length_input (lib w) b)); [intros [= <-]; by left|].
  destruct (terminated _) eqn:Ht; [done|]. intros [= <-]. right. split; [done|].
  apply unterminated_fills in Ht. lia.
Qed.

(** And always when there is more than the array holds. *)
Lemma read_string_overruns size b w :
  is_Some (registered w !! b) → Z.of_nat size < evbuffer_get_length_input (lib w) b →
  (buffer ← read_into size b (evbuffer_get_length_input (lib w) b); string_of buffer) w = Fault OutOfBounds.
Proof.
  intros Hb Hsz. destruct (bufferevent_read (lib w) b (evbuffer_get_length_input (lib w) b)) as [data e] eqn:Er.
  rewrite (read_string_run size b w data e Hb ltac:(lia) Er). by rewrite (proj2 (Z.ltb_lt _ _)).
Qed.


Lemma terminated_zeros n : (0 < n)%nat → terminated (replicate n Byte.x00) = true.
Proof. intros Hn. apply bool_decide_eq_true, elem_of_replicate. split; [done|lia]. Qed.

Lemma socket_new_run w :
  (∃ e, socket_new w = Ok None (mkWorld e (registered w)))
  ∨ ∃ b e, socket_new w = Ok (Some b) (mkWorld e (<[b := mkCallbacks false false false]> (registered w))).
Proof.
  unfold socket_new, mbind, M_bind, ecall. destruct (bufferevent_socket_new (lib w)) as [[b|] e].
  - right. by exists b, e.
  - left. by exists e.
Qed.

(** A list of callbacks goes wrong in one of them, after the others before it. *)
Lemma iterM_fault {A} (f : A → M (world E) unit) xs w e :
  iterM f xs w = Fault e →
  ∃ pre x post w1, xs = pre ++ x :: post ∧ iterM f pre w = Ok tt w1 ∧ f x w1 = Fault e.
Proof.
  revert w. induction xs as [|x xs IH]; intros w; simpl; [done|].
  unfold mbind, M_bind. destruct (f x w) as [[] w1|e'] eqn:Ex.
  - intros Hf. destruct (IH w1 Hf) as (pre & y & post & w2 & -> & Ei & Ey).
    exists (x :: pre), y, post, w2. split_and!; [done| |done]. simpl. unfold mbind, M_bind. by rewrite Ex.
  - intros [= ->]. by exists [], x, xs, w.
Qed.

End Proofs.

(** ** Instances *)

(** A library with one bufferevent, on which [waiting] is to be read; [written] is
    what was written to it. *)
Record one_bev : Type := mkOne { waiting : list byte; written : list byte }.

#[export] Instance one_Libevent : Libevent one_bev := {|
  bufferevent_socket_new e := (Some 0%nat, e);
  bufferevent_socket_connect e b a := (0, e);
  evbuffer_get_length_input e b := Z.of_nat (length (waiting e));
  evbuffer_get_length_output e b := Z.of_nat (length (written e));
  bufferevent_read e b n := (take (Z.to_nat n) (waiting e), mkOne (drop (Z.to_nat n) (waiting e)) (written e));
  bufferevent_write e b data := (0, mkOne (waiting e) (written e ++ data));
  bufferevent_free e b := e;
  evconnlistener_new_bind e a := (None, e);
  evconnlistener_free e l := e;
  evsignal_new e := (Some 0%nat, e);
  event_add e ev := (0, e);
  event_free e ev := e;
  event_base_loopexit e n := e;
|}.

#[export] Instance one_LibeventLaws : LibeventLaws one_bev.
Proof.
  constructor; simpl.
  - intros e b size data e' [= <- _] Hs. rewrite length_take. lia.
  - intros e b. lia.
Defined.

Definition connected (data : list byte) : world one_bev :=
  mkWorld (mkOne data []) {[0%nat := mkCallbacks true true true]}.
