(* ===== verification/LibeventServer.v ===== *)
(** * The libevent server (libevent_test/server)

    The callbacks and the class of src/TcpServer.cpp; main.cpp beside it repeats the
    callbacks, and has a main of its own, [old_main].  [on_event] is one call of a
    callback by the loop.  The read callback prints a [size_t] with %d, which is an
    error where the two have not the same width: that width is a parameter. *)

From S2P Require Import Prelude Kernel Sockets Libevent.

(** ** server/src/TcpServer.cpp *)

Module Server.
Section Code.
Context {E : Type} `{Libevent E}.
(** The width of a [size_t]. *)
Context (size_t_bits : Z).
#[local] Abbreviation prg := (M (world E)).

(** [printf("sz = %d\n", sz)]: a [size_t] for [%d] is an [int] only if it is as wide as
    one, and its value is that of an [int]. *)
Definition print_size (sz : Z) : prg unit :=
  if (size_t_bits =? 32) && (sz <? 2 ^ 31) then mret tt else throw BadFormat.

Definition MAX_BUFFER : nat := Z.to_nat 48000.

(** The text printed depends on the events; the connection goes in every case. *)
Definition conn_cb (b : bev) (events : Z) : prg unit := free b.

Definition conn_readcb (b : bev) : prg unit :=
  sz ← input_length b;
  print_size sz ;;
  buffer ← (if 0 <? sz then read_into MAX_BUFFER b sz else mret (replicate MAX_BUFFER Byte.x00));
  _ ← string_of buffer;
  mret tt.

(** Not registered anywhere. *)
Definition conn_writecb (b : bev) : prg unit :=
  n ← output_length b;
  when (n =? 0) (free b).

Definition listen_cb : prg unit :=
  o ← socket_new;
  match o with
  | None => mret tt
  | Some b => setcb b (mkCallbacks true false true)
  end.

Definition signal_cb : prg unit := ecall (λ e, (tt, event_base_loopexit e 2)).

(** The members [listen_] and [signal_event_]. *)
Record server : Type := mkServer { listen_ : option nat; signal_event_ : option nat }.

(** [init]: the test is of the function [listen], which is not null.  It has no
    return statement at its end: [None] is what it returns then. *)
Definition init : prg (option Z * server) :=
  l ← ecall (λ e, evconnlistener_new_bind e any_address);
  s ← ecall evsignal_new;
  match s with
  | None => mret (Some (-1), mkServer l None)
  | Some ev =>
      r ← ecall (λ e, event_add e ev);
      mret (if r <? 0 then Some (-1) else None, mkServer l (Some ev))
  end.

(** ~TcpConnection: the pointers are not tested. *)
Definition destroy (s : server) : prg unit :=
  match listen_ s with
  | None => throw NullDeref
  | Some l =>
      ecall (λ e, (tt, evconnlistener_free e l)) ;;
      match signal_event_ s with
      | None => throw NullDeref
      | Some ev => ecall (λ e, (tt, event_free e ev))
      end
  end.

(** What the loop calls back. *)
Inductive event : Type :=
| Readable (b : bev)
| Happened (b : bev) (events : Z)
| Accepted
| Interrupted.

Definition on_event (ev : event) : prg unit :=
  w ← get;
  match ev with
  | Readable b =>
      match registered w !! b with
      | Some c => when (readcb c) (conn_readcb b)
      | None => mret tt
      end
  | Happened b events =>
      match registered w !! b with
      | Some c => when (eventcb c) (conn_cb b events)
      | None => mret tt
      end
  | Accepted => listen_cb
  | Interrupted => signal_cb
  end.

(** main of server/src/main.cpp: the result of init is not looked at. *)
Definition server_main (evs : list event) : prg unit :=
  r ← init;
  iterM on_event evs ;;
  destroy (snd r).

(** server/main.cpp: the same callbacks, and a test of the listener. *)
Definition main_writecb := conn_writecb.
Definition main_readcb := conn_readcb.
Definition main_eventcb := conn_cb.
Definition main_listen_cb := listen_cb.
Definition main_signal_cb := signal_cb.

Definition old_main (evs : list event) : prg Z :=
  l ← ecall (λ e, evconnlistener_new_bind e any_address);
  match l with
  | None => mret (-1)
  | Some l =>
      s ← ecall evsignal_new;
      match s with
      | None => mret (-1)
      | Some ev =>
          r ← ecall (λ e, event_add e ev);
          if r <? 0 then mret (-1)
          else
            iterM on_event evs ;;
            destroy (mkServer (Some l) (Some ev)) ;; mret 1
      end
  end.
End Code.
End Server.

(** ** Proofs *)

Section Proofs.
Context {E : Type} `{LibeventLaws E}.
Implicit Types (w : world E) (b : bev).

Lemma MAX_BUFFER_positive : (0 < Server.MAX_BUFFER)%nat.
Proof. unfold Server.MAX_BUFFER. lia. Qed.

Lemma MAX_BUFFER_value : Z.of_nat Server.MAX_BUFFER = 48000.
Proof. unfold Server.MAX_BUFFER. lia. Qed.

#[local] Opaque Server.MAX_BUFFER.

(** What goes wrong when [b] has something to be read. *)
Definition bad_read (size_t_bits : Z) b w (e : fault) : Prop :=
  if (size_t_bits =? 32) && (evbuffer_get_length_input (lib w) b <? 2 ^ 31)
  then too_long Server.MAX_BUFFER b w e else e = BadFormat.

Lemma Server_readcb_run bits b w :
  is_Some (registered w !! b) →
  Server.conn_readcb bits b w =
    if (bits =? 32) && (evbuffer_get_length_input (lib w) b <? 2 ^ 31) then
      if 0 <? evbuffer_get_length_input (lib w) b then
        match (buffer ← read_into Server.MAX_BUFFER b (evbuffer_get_length_input (lib w) b); string_of buffer) w with
        | Ok _ w' => Ok tt w'
        | Fault e => Fault e
        end
      else Ok tt w
    else Fault BadFormat.
Proof.
  intros Hb. unfold Server.conn_readcb, input_length. unfold mbind at 1, M_bind at 1.
  rewrite use_registered by done. rewrite get_bind. simpl. unfold Server.print_size.
  destruct (_ && _); [|done]. rewrite ret_bind. destruct (Z.ltb_spec 0 (evbuffer_get_length_input (lib w) b)).
  - unfold mbind, M_bind. destruct (read_into _ _ _ w) as [buffer w1|]; [|done]. by destruct (string_of buffer w1).
  - rewrite ret_bind. erewrite bind_run; [done|].
    unfold string_of. by rewrite (terminated_zeros _ MAX_BUFFER_positive).
Qed.

Lemma Server_readcb_fault bits b w e :
  is_Some (registered w !! b) → Server.conn_readcb bits b w = Fault e → bad_read bits b w e.
Proof.
  intros Hb. rewrite Server_readcb_run by done. unfold bad_read. destruct (_ && _); [|by intros [= ->]].
  destruct (Z.ltb_spec 0 (evbuffer_get_length_input (lib w) b)) as [Hsz|]; [|done].
  case_match; [done|]. intros [= <-]. by apply read_string_fault.
Qed.

(** No other callback goes wrong. *)
Lemma Server_event_fault bits ev w e :
  Server.on_event bits ev w = Fault e →
  ∃ b c, ev = Server.Readable b ∧ registered w !! b = Some c ∧ readcb c = true ∧ bad_read bits b w e.
Proof.
  unfold Server.on_event. rewrite get_bind. destruct ev as [b|b events| |]; [..|done].
  - destruct (registered w !! b) as [c|] eqn:Eb; [|done]. destruct (readcb c) eqn:Ec; [|done].
    intros Hf. exists b, c. split_and!; try done. eapply Server_readcb_fault; [by eauto|exact Hf].
  - destruct (registered w !! b) as [c|] eqn:Eb; [|done]. destruct (eventcb c); [|done]. simpl.
    unfold Server.conn_cb. by rewrite free_run by eauto.
  - unfold Server.listen_cb. destruct (socket_new_run w) as [[e' Es]|(b & e' & Es)].
    + by erewrite bind_run by exact Es.
    + erewrite bind_run by exact Es. unfold setcb. rewrite use_registered; [done|]. simpl.
      rewrite lookup_insert_eq. eauto.
Qed.

(** ** Properties *)

(** C37: whatever connects, sends and disconnects, in any order, the callbacks of the
    server use no freed bufferevent and free none twice.  If a run of them goes wrong,
    it is in a read callback, and then, where a [size_t] is as wide as an [int], the
    bufferevent read had at that moment as many bytes to read as the buffer of the
    callback holds (the string is read past its end), or more (they are written past
    it), as every read callback with more of them does; where a [size_t] is wider, every
    read callback goes wrong, since it prints one with %d. *)
Theorem server_fails_only_on_long_input bits w evs :
  match iterM (Server.on_event bits) evs w with
  | Ok _ _ => True
  | Fault e => ∃ pre b post w1 c, evs = pre ++ Server.Readable b :: post
      ∧ iterM (Server.on_event bits) pre w = Ok tt w1 ∧ registered w1 !! b = Some c ∧ readcb c = true
      ∧ let len := evbuffer_get_length_input (lib w1) b in
        if (bits =? 32) && (len <? 2 ^ 31)
        then (e = OutOfBounds ∧ 48000 < len) ∨ (e = StringOverread ∧ len = 48000)
        else e = BadFormat
  end
  ∧ ∀ b c, registered w !! b = Some c → readcb c = true →
      bits ≠ 32 ∨ 48000 < evbuffer_get_length_input (lib w) b →
      ∃ e, Server.on_event bits (Server.Readable b) w = Fault e.
Proof.
  split.
  - destruct (iterM _ evs w) as [|e] eqn:Ei; [done|].
    apply iterM_fault in Ei as (pre & ev & post & w1 & -> & Epre & Eev).
    apply Server_event_fault in Eev as (b & c & -> & Hb & Hc & Hbad).
    exists pre, b, post, w1, c. split_and!; [done..|]. unfold bad_read, too_long in Hbad.
    by rewrite MAX_BUFFER_value in Hbad.
  - intros b c Hb Hc Hlong. unfold Server.on_event. rewrite get_bind, Hb, Hc. simpl.
    rewrite Server_readcb_run by eauto. destruct (Z.eqb_spec bits 32) as [->|]; [|by eexists].
    destruct Hlong as [|Hlong]; [done|]. destruct (_ <? 2 ^ 31); [|by eexists]. simpl.
    rewrite (proj2 (Z.ltb_lt 0 _)) by lia. eexists.
    rewrite read_string_overruns; [done|eauto|by rewrite MAX_BUFFER_value].
Qed.

(** When the address cannot be bound, [init] goes on and returns as if it could:
    it tests the function [listen] instead of the member [listen_]; the server
    runs without a listener, and its destructor passes the null pointer on. *)
Theorem failed_bind_goes_unnoticed bits w e1 ev e2 r e3 :
  evconnlistener_new_bind (lib w) any_address = (None, e1) →
  evsignal_new e1 = (Some ev, e2) → event_add e2 ev = (r, e3) → 0 <= r →
  Server.init w = Ok (None, Server.mkServer None (Some ev)) (mkWorld e3 (registered w))
  ∧ Server.server_main bits [] w = Fault NullDeref.
Proof.
  intros E1 E2 E3 Hr.
  assert (Server.init w = Ok (None, Server.mkServer None (Some ev)) (mkWorld e3 (registered w))) as Hi.
  { unfold Server.init, mbind, M_bind, ecall. rewrite E1. simpl. rewrite E2. simpl. rewrite E3. simpl.
    by rewrite (proj2 (Z.ltb_ge r 0)). }
  split; [exact Hi|]. unfold Server.server_main. by erewrite bind_run by exact Hi.
Qed.
End Proofs.

(** ** Instances *)

Lemma failed_bind_goes_unnoticed_witness :
  Server.server_main 64 [] (connected []) = Fault NullDeref.
Proof. eapply (failed_bind_goes_unnoticed 64 (connected [])); [reflexivity..|done]. Defined.

Lemma overread_length len :
  (if (32 =? 32) && (len <? 2 ^ 31)
   then (StringOverread = OutOfBounds ∧ 48000 < len) ∨ (StringOverread = StringOverread ∧ len = 48000)
   else StringOverread = BadFormat) → len = 48000.
Proof. cbn [Z.eqb Pos.eqb andb]. destruct (len <? 2 ^ 31); [|discriminate]. intros [[H _]|[_ H]]; [discriminate H|exact H]. Qed.

(** Where a [size_t] is an [int], a read callback with 48000 bytes goes wrong; where it
    is wider, every one. *)
Lemma server_fails_only_on_long_input_witness :
  let w := connected (replicate (Z.to_nat 48000) Byte.x61) in
  let evs := [Server.Accepted; Server.Readable 0%nat; Server.Happened 0%nat 16] in
  (∃ pre b post w1 c, evs = pre ++ Server.Readable b :: post
      ∧ iterM (Server.on_event 32) pre w = Ok tt w1 ∧ registered w1 !! b = Some c ∧ readcb c = true
      ∧ evbuffer_get_length_input (lib w1) b = 48000)
  ∧ ∃ e, Server.on_event 64 (Server.Readable 0%nat) (connected []) = Fault e.
Proof.
  intros w evs. split.
  - destruct (server_fails_only_on_long_input 32 w evs) as [H _].
    assert (iterM (Server.on_event 32) evs w = Fault StringOverread) as E by (vm_compute; reflexivity).
    rewrite E in H. destruct H as (pre & b & post & w1 & c & Hevs & Hpre & Hb & Hc & Hlen).
    exists pre, b, post, w1, c. split; [exact Hevs|]. split; [exact Hpre|]. split; [exact Hb|]. split; [exact Hc|].
    exact (overread_length _ Hlen).
  - destruct (server_fails_only_on_long_input 64 (connected []) []) as [_ H].
    apply (H 0%nat (mkCallbacks true true true)); [reflexivity|reflexivity|]. left. discriminate.
Defined.
