(* ===== verification/LibeventClient.v ===== *)
(** * The libevent clients (libevent_test/client)

    src/TcpConnection.cpp and the client of main.cpp beside it, whose routines have
    names with [old_].  [on_event] is one call of a callback by the loop. *)

From S2P Require Import Prelude Kernel Sockets Libevent.

(** ** client/src/TcpConnection.cpp and client/main.cpp *)

Module Client.
Section Code.
Context {E : Type} `{Libevent E}.
#[local] Abbreviation prg := (M (world E)).

Definition READ_SIZE : nat := 256.

Definition conn_cb (b : bev) (events : Z) : prg unit := _ ← write b MESSAGE; mret tt.

(** What has been read is printed and written back, as a string. *)
Definition conn_readcb (b : bev) : prg unit :=
  sz ← input_length b;
  when (0 <? sz) (
    read_msg ← read_into READ_SIZE b sz;
    text ← string_of read_msg;
    _ ← write b text;
    mret tt).

Definition conn_writecb (b : bev) : prg unit := _ ← output_length b; mret tt.

(** No return statement at the end: [None]. *)
Definition init : prg (option Z * option bev) :=
  o ← socket_new;
  match o with
  | None => mret (Some (-1), None)
  | Some b =>
      setcb b (mkCallbacks true true true) ;;
      flags ← ecall (λ e, bufferevent_socket_connect e b local_address);
      mret (if flags =? -1 then Some (-1) else None, Some b)
  end.

Definition sendMsg (b : bev) (msg : list byte) : prg unit := _ ← write b msg; mret tt.

(** client/main.cpp: the write callback and the event callback free. *)
Definition old_readcb := conn_readcb.

Definition old_writecb (b : bev) : prg unit :=
  n ← output_length b;
  when (n =? 0) (free b).

Definition old_eventcb (b : bev) (events : Z) : prg unit :=
  _ ← write b MESSAGE;
  free b.

Definition old_init : prg (Z * option bev) :=
  o ← socket_new;
  match o with
  | None => mret (-1, None)
  | Some b =>
      setcb b (mkCallbacks true true true) ;;
      flag ← ecall (λ e, bufferevent_socket_connect e b local_address);
      mret (if flag =? -1 then (1, None) else (0, Some b))
  end.

Inductive event : Type :=
| Readable (b : bev)
| Written (b : bev)
| Happened (b : bev) (events : Z).

Definition bev_of (ev : event) : bev :=
  match ev with Readable b => b | Written b => b | Happened b _ => b end.

(** One call of a callback, of the client with [old = true] or the other. *)
Definition on_event (old : bool) (ev : event) : prg unit :=
  w ← get;
  match registered w !! bev_of ev with
  | None => mret tt
  | Some c =>
      match ev with
      | Readable b => when (readcb c) (if old then old_readcb b else conn_readcb b)
      | Written b => when (writecb c) (if old then old_writecb b else conn_writecb b)
      | Happened b events => when (eventcb c) (if old then old_eventcb b events else conn_cb b events)
      end
  end.

(** main of client/main.cpp. *)
Definition old_main (evs : list event) : prg Z :=
  r ← old_init;
  match r with
  | (code, None) => mret code
  | (_, Some _) => iterM (on_event true) evs ;; mret 1
  end.
End Code.
End Client.

(** ** client/src/main.cpp *)

Module ClientMain.
Section Code.
Context {E : Type} `{Libevent E}.

(** The main thread, at the head of its loop, in the loop over the map, or asleep. *)
Inductive main_pc : Type := Head | Iterating | Sleeping.

(** [thread1]: before [n++], after the construction, with the connection [init] has
    made, in the insertion into the map, and in the event loop. *)
Inductive thread_pc : Type :=
| Starting
| Constructed
| Connected (c : option bev)
| Inserting (c : option bev)
| Dispatching.

(** What the two threads share; a TcpConnPtr is the bev_ of its object. *)
Record shared : Type := mkShared {
  client_world : world E;
  n : Z;
  conn_map : gmap Z (option bev);
  main_at : main_pc;
  thread_at : thread_pc;
}.

Definition text : list byte := bytes_of ("22222222222222222222222" +:+ String "010"%char EmptyString).

(** [itr.second->sendMsg(...)] on an object whose bev_ may be null. *)
Definition send_to (c : option bev) : M (world E) unit :=
  match c with
  | Some b => Client.sendMsg b text
  | None => throw NullDeref
  end.

Definition send_all (m : gmap Z (option bev)) : M (world E) unit := iterM send_to (map_to_list m).*2.

Inductive step : shared → shared → Prop :=
| main_begin w n m t : step (mkShared w n m Head t) (mkShared w n m Iterating t)
| main_sends w w' n m t :
    send_all m w = Ok tt w' → step (mkShared w n m Iterating t) (mkShared w' n m Sleeping t)
| main_wakes w n m t : step (mkShared w n m Sleeping t) (mkShared w n m Head t)
| thread_counts w n m pc :
    step (mkShared w n m pc Starting) (mkShared w (n + 1) m pc Constructed)
| thread_inits w w' r c n m pc :
    Client.init w = Ok (r, c) w' →
    step (mkShared w n m pc Constructed) (mkShared w' n m pc (Connected c))
| thread_inserts w n m pc c :
    step (mkShared w n m pc (Connected c)) (mkShared w n m pc (Inserting c))
| thread_inserted w n m pc c :
    step (mkShared w n m pc (Inserting c)) (mkShared w n (<[n := c]> m) pc Dispatching).

Definition main_start (w : world E) : shared := mkShared w 0 ∅ Head Starting.

(** Both threads are in the map, and one of them writes it. *)
Definition race (s : shared) : Prop := main_at s = Iterating ∧ ∃ c, thread_at s = Inserting c.

(** What the program keeps to: the map has what the thread has put there. *)
Definition map_inv (s : shared) : Prop :=
  match thread_at s with
  | Starting => n s = 0 ∧ conn_map s = ∅
  | Dispatching => n s = 1 ∧ ∃ c, conn_map s = {[1 := c]}
  | _ => n s = 1 ∧ conn_map s = ∅
  end.
End Code.
Arguments shared E : clear implicits.
End ClientMain.

(** ** Proofs *)

Section Proofs.
Context {E : Type} `{LibeventLaws E}.
Implicit Types (w : world E) (b : bev).

Lemma Client_readcb_run b w :
  is_Some (registered w !! b) →
  ∀ data e, bufferevent_read (lib w) b (evbuffer_get_length_input (lib w) b) = (data, e) →
  Client.conn_readcb b w =
    if evbuffer_get_length_input (lib w) b =? 0 then Ok tt w
    else if Z.of_nat Client.READ_SIZE <? evbuffer_get_length_input (lib w) b then Fault OutOfBounds
    else if terminated (zeroed Client.READ_SIZE data)
    then Ok tt (mkWorld (bufferevent_write e b (cbytes (zeroed Client.READ_SIZE data))).2 (registered w))
    else Fault StringOverread.
Proof.
  intros Hb data e Er. unfold Client.conn_readcb, input_length. unfold mbind at 1, M_bind at 1.
  rewrite use_registered by done. rewrite get_bind. simpl.
  pose proof (input_length_law (lib w) b) as Hpos.
  destruct (Z.eqb_spec (evbuffer_get_length_input (lib w) b) 0) as [E0|E0]; [by rewrite E0|].
  rewrite (proj2 (Z.ltb_lt 0 _)) by lia. simpl.
  assert (0 < evbuffer_get_length_input (lib w) b) as Hsz by lia.
  pose proof (read_string_run Client.READ_SIZE b w data e Hb Hsz Er) as Hrun.
  unfold mbind, M_bind in Hrun |- *. destruct (read_into _ _ _ w) as [buffer w1|e1].
  - rewrite Hrun. destruct (_ <? _); [done|]. destruct (terminated _); [|done].
    destruct (bufferevent_write e b (cbytes (zeroed Client.READ_SIZE data))) as [r e2] eqn:Ew.
    by erewrite write_run by (exact Hb || exact Ew).
  - revert Hrun. destruct (_ <? _); [by intros [= ->]|]. destruct (terminated _); [done|by intros [= ->]].
Qed.

Lemma Client_readcb_fault b w e :
  is_Some (registered w !! b) → Client.conn_readcb b w = Fault e → too_long Client.READ_SIZE b w e.
Proof.
  intros Hb. destruct (bufferevent_read (lib w) b (evbuffer_get_length_input (lib w) b)) as [data e'] eqn:Er.
  rewrite (Client_readcb_run b w Hb data e' Er). apply read_law in Er as Hl; [|apply input_length_law].
  rewrite Z.min_id in Hl. unfold too_long. destruct (_ =? 0); [done|].
  destruct (Z.ltb_spec (Z.of_nat Client.READ_SIZE) (evbuffer_get_length_input (lib w) b));
    [intros [= <-]; by left|].
  destruct (terminated _) eqn:Ht; [done|]. intros [= <-]. right. split; [done|].
  apply unterminated_fills in Ht. lia.
Qed.

Lemma Client_old_init_run w b e flag e2 :
  bufferevent_socket_new (lib w) = (Some b, e) → bufferevent_socket_connect e b local_address = (flag, e2) →
  ∃ regs, Client.old_init w = Ok (if flag =? -1 then (1, None) else (0, Some b)) (mkWorld e2 regs).
Proof.
  intros En Ec. eexists. unfold Client.old_init, socket_new, setcb, ecall, use, mbind, M_bind. rewrite En.
  cbn [modify mret M_ret registered lib]. rewrite lookup_insert_eq. cbn [modify lib]. by rewrite Ec.
Qed.

(** Only a read callback goes wrong. *)
Lemma Client_event_fault old ev w e :
  Client.on_event old ev w = Fault e →
  ∃ b, ev = Client.Readable b ∧ is_Some (registered w !! b) ∧ too_long Client.READ_SIZE b w e.
Proof.
  unfold Client.on_event. rewrite get_bind.
  destruct (registered w !! Client.bev_of ev) as [c|] eqn:Eb; [|done].
  assert (is_Some (registered w !! Client.bev_of ev)) as Hb by eauto.
  destruct ev as [b|b|b events]; simpl in *.
  - destruct (readcb c); [|done]. simpl. intros Hf. exists b. split_and!; [done|done|].
    destruct old; by eapply Client_readcb_fault.
  - destruct (writecb c); [|done]. simpl. unfold Client.old_writecb, Client.conn_writecb, output_length.
    destruct old; unfold mbind at 1, M_bind at 1; rewrite use_registered by done; rewrite get_bind; simpl; [|done].
    destruct (_ =? 0); simpl; [by rewrite free_run|done].
  - destruct (eventcb c); [|done]. simpl. unfold Client.old_eventcb, Client.conn_cb.
    destruct (bufferevent_write (lib w) b MESSAGE) as [r e'] eqn:Ew.
    destruct old; (erewrite bind_run by (by eapply write_run)); [|done].
    by rewrite free_run.
Qed.

(** What a run that goes wrong looks like. *)
Definition fails_on_long_input (old : bool) evs w (e : fault) : Prop :=
  ∃ pre b post w1, evs = pre ++ Client.Readable b :: post
    ∧ iterM (Client.on_event old) pre w = Ok tt w1 ∧ is_Some (registered w1 !! b)
    ∧ too_long Client.READ_SIZE b w1 e.

Lemma Client_run_fault old evs w e :
  iterM (Client.on_event old) evs w = Fault e → fails_on_long_input old evs w e.
Proof.
  intros (pre & ev & post & w1 & -> & Epre & Eev)%iterM_fault.
  apply Client_event_fault in Eev as (b & -> & Hb & Hl). by exists pre, b, post, w1.
Qed.

(** ** Properties *)

(** Whatever is received, written and reported, in any order, the callbacks of
    both clients use no freed bufferevent and free none twice: a run goes wrong only
    in a read callback, when there are as many bytes to read as its array holds, or
    more. *)
Theorem clients_fail_only_on_long_input w old evs :
  match iterM (Client.on_event old) evs w with
  | Ok _ _ => True
  | Fault e => fails_on_long_input old evs w e
  end.
Proof. destruct (iterM _ _ _) as [|e] eqn:Ei; [done|]. by apply Client_run_fault. Qed.

(** So does the whole of client/main.cpp, which ends with 1 when it runs, when the
    connection fails and when it is over; -1 is for a bufferevent that could not be
    made. *)
Theorem old_main_fails_only_on_long_input w evs :
  match Client.old_main evs w with
  | Ok r _ => r = match (bufferevent_socket_new (lib w)).1 with Some _ => 1 | None => -1 end
  | Fault e => ∃ r w1, Client.old_init w = Ok r w1 ∧ fails_on_long_input true evs w1 e
  end.
Proof.
  destruct (bufferevent_socket_new (lib w)) as [[b|] e] eqn:En.
  2: { assert (Client.old_main evs w = Ok (-1) (mkWorld e (registered w))) as Hrun
         by (unfold Client.old_main, Client.old_init, socket_new, ecall, mbind, M_bind; by rewrite En).
       by rewrite Hrun. }
  destruct (bufferevent_socket_connect e b local_address) as [flag e2] eqn:Ec.
  destruct (Client_old_init_run w b e flag e2 En Ec) as [regs Hinit].
  unfold Client.old_main. erewrite bind_run by exact Hinit.
  destruct (flag =? -1); [done|].
  unfold mbind, M_bind. destruct (iterM _ _ _) as [[] w2|err] eqn:Ei; [done|].
  eexists _, _. split; [exact Hinit|]. by apply Client_run_fault.
Qed.

(** The read callback of the clients writes back what it read, up to the first
    zero byte; more bytes than its array holds are written past it, and the array
    filled with no zero byte is read past its end. *)
Theorem client_writes_back b w data e :
  is_Some (registered w !! b) →
  bufferevent_read (lib w) b (evbuffer_get_length_input (lib w) b) = (data, e) →
  (Z.of_nat (length data) < Z.of_nat Client.READ_SIZE → 0 < Z.of_nat (length data) → (Byte.x00 ∉ data) →
   Client.conn_readcb b w = Ok tt (mkWorld (bufferevent_write e b data).2 (registered w)))
  ∧ (Z.of_nat (length data) = Z.of_nat Client.READ_SIZE → (Byte.x00 ∉ data) →
     Client.conn_readcb b w = Fault StringOverread)
  ∧ (Z.of_nat Client.READ_SIZE < Z.of_nat (length data) → Client.conn_readcb b w = Fault OutOfBounds).
Proof.
  intros Hb Er. rewrite (Client_readcb_run b w Hb data e Er).
  apply read_law in Er as Hl; [|apply input_length_law]. rewrite Z.min_id in Hl. rewrite <- Hl.
  split_and!.
  - intros Hlt Hpos Hz. rewrite (proj2 (Z.eqb_neq _ 0)), (proj2 (Z.ltb_ge _ _)) by lia.
    rewrite terminated_zeroed by lia. unfold zeroed.
    destruct (Client.READ_SIZE - length data)%nat eqn:Ed; [lia|]. simpl. by rewrite cbytes_app_zero.
  - intros Hfull Hz. rewrite (proj2 (Z.eqb_neq _ 0)), (proj2 (Z.ltb_ge _ _)) by (unfold Client.READ_SIZE in *; lia).
    assert (Client.READ_SIZE = length data) as -> by lia. by rewrite terminated_full.
  - intros Hlt. rewrite (proj2 (Z.eqb_neq _ 0)), (proj2 (Z.ltb_lt _ _)) by lia. done.
Qed.

Lemma map_inv_star (s s' : ClientMain.shared E) :
  star ClientMain.step s s' → ClientMain.map_inv s → ClientMain.map_inv s'.
Proof.
  induction 1 as [|s1 s2 s3 Hst _ IH]; [done|]. intros Hm. apply IH. clear IH.
  destruct Hst; unfold ClientMain.map_inv in *; simpl in *; try done.
  - by destruct Hm as [-> ->].
  - destruct Hm as [-> ->]. split; [done|]. eexists. by rewrite insert_empty.
Qed.

(** The two threads of client/src/main.cpp do not exclude each other: whatever the
    connection comes to, both can be in the map at the same time, and after a failed
    [init], whose result is not looked at, the main thread writes to a null
    bufferevent.  The map has one entry at most. *)
Theorem client_main_races w r c w' :
  Client.init w = Ok (r, c) w' →
  (∃ s, star ClientMain.step (ClientMain.main_start w) s ∧ ClientMain.race s)
  ∧ (c = None → ∃ s, star ClientMain.step (ClientMain.main_start w) s
       ∧ ClientMain.main_at s = ClientMain.Iterating
       ∧ ClientMain.send_all (ClientMain.conn_map s) (ClientMain.client_world s) = Fault NullDeref)
  ∧ ∀ s, star ClientMain.step (ClientMain.main_start w) s → (size (ClientMain.conn_map s) ≤ 1)%nat.
Proof.
  intros Hinit.
  assert (star ClientMain.step (ClientMain.main_start w)
    (ClientMain.mkShared w' 1 ∅ ClientMain.Iterating (ClientMain.Inserting c))) as Hrace.
  { eapply star_step; [apply ClientMain.main_begin|]. eapply star_step; [apply ClientMain.thread_counts|].
    eapply star_step; [by eapply ClientMain.thread_inits|].
    eapply star_step; [apply ClientMain.thread_inserts|]. apply star_refl. }
  split_and!.
  - eexists. split; [exact Hrace|]. split; [done|by exists c].
  - intros ->. eexists. split.
    + eapply star_trans; [exact Hrace|]. eapply star_step; [apply ClientMain.thread_inserted|apply star_refl].
    + split; [done|]. simpl. unfold ClientMain.send_all. by rewrite insert_empty, map_to_list_singleton.
  - intros s Hs. assert (ClientMain.map_inv s) as Hm by (eapply map_inv_star; [exact Hs|done]).
    unfold ClientMain.map_inv in Hm. destruct (ClientMain.thread_at s); destruct Hm as [_ Hm].
    1-4: rewrite Hm, map_size_empty; lia.
    destruct Hm as [c' ->]. by rewrite map_size_singleton.
Qed.

End Proofs.

(** ** Instances *)

Lemma client_main_races_witness :
  ∃ s, star ClientMain.step (ClientMain.main_start (mkWorld (mkOne [] []) ∅)) s ∧ ClientMain.race s.
Proof. eapply client_main_races. reflexivity. Defined.

Lemma client_writes_back_witness :
  Client.conn_readcb 0%nat (connected (bytes_of "hello"))
  = Ok tt (mkWorld (mkOne [] (bytes_of "hello")) (registered (connected (bytes_of "hello")))).
Proof.
  destruct (client_writes_back 0%nat (connected (bytes_of "hello")) (bytes_of "hello") (mkOne [] [])) as [Hecho _].
  - by eexists.
  - reflexivity.
  - apply Hecho; [done|done|]. apply (bool_decide_unpack _). vm_compute. exact I.
Defined.
