(* ===== verification/Timer.v ===== *)
(** * The timer that rearms itself (libevent_test/timer/main.cpp)

    libevent is the class [Timers]: the time of the base, in microseconds, by which it
    measures timeouts, and the time at which the one event of the program is due.
    While callbacks are run that time is the one cached when the loop woke
    (src/inc/libevent/event2/event.h, at event_base_gettimeofday_cached): a timeout
    added by a callback counts from there, and what is known of a wakeup is the time
    at which the loop woke, not that of the [printf].  [event_base_dispatch] runs
    until no event is pending, or it fails; what it does between two calls of the
    program is [expire].  The macro [evtimer_set] is that of
    src/inc/libevent/event2/event_compat.h. *)

From S2P Require Import Prelude.

Record timeval : Type := mkTimeval { tv_sec : Z; tv_usec : Z }.

Definition microseconds (t : timeval) : Z := tv_sec t * 1000000 + tv_usec t.

(** What [event_set] is given. *)
Inductive callback : Type := time_cb_ptr.
Record event : Type := mkEvent { ev_fd : Z; ev_events : Z; ev_callback : callback }.

Class Timers (E : Type) : Type := {
  base_time : E → Z;
  due : E → option Z;              (* the pending event *)
  loop_fails : E → bool;           (* the loop ends with -1 instead of waiting *)
  event_base_new : E → bool * E;   (* [false]: NULL *)
  event_base_set : E → Z * E;
  event_add : E → event → timeval → Z * E;
  expire : E → E;                  (* wait for the pending event and take it *)
}.

Class TimersLaws (E : Type) `{Timers E} : Type := {
  (** An event without EV_PERSIST on no descriptor, whether it is added at first or again. *)
  add_law e ev t r e' :
    event_add e ev t = (r, e') → base_time e <= base_time e'
    ∧ (r = 0 → ∃ d, due e' = Some d ∧ base_time e + microseconds t <= d)
    ∧ (r ≠ 0 → due e' = due e);
  base_new_law e b e' : event_base_new e = (b, e') → base_time e <= base_time e' ∧ due e' = due e;
  base_set_law e r e' : event_base_set e = (r, e') → base_time e <= base_time e' ∧ due e' = due e;
  (** The loop wakes, and caches the time, when the event is due; the event is not
      pending any more when its callback is called. *)
  expire_law e d : due e = Some d →
    d <= base_time (expire e) ∧ base_time e <= base_time (expire e) ∧ due (expire e) = None;
}.

(** The globals; and, for the statements only, for each ["timer wakeup\n"] the time at
    which the loop had woken, and what each [event_add] has returned. *)
Record timer (E : Type) : Type := mkTimer {
  tlib : E;
  ev : option event;       (* None: not set *)
  tv : timeval;
  wakeups : list Z;
  adds : list Z;
}.
Arguments mkTimer {E} tlib ev tv wakeups adds.
Arguments tlib {E} t.
Arguments ev {E} t.
Arguments tv {E} t.
Arguments wakeups {E} t.
Arguments adds {E} t.

Section Timer.
Context {E : Type} `{Timers E}.
#[local] Abbreviation prg := (M (timer E)).

Definition tcall {A} (f : E → A * E) : prg A := λ w,
  let '(a, e) := f (tlib w) in Ok a (mkTimer e (ev w) (tv w) (wakeups w) (adds w)).

(** event_set(ev, -1, 0, cb, arg) *)
Definition evtimer_set (cb : callback) : prg unit :=
  modify (λ w, mkTimer (tlib w) (Some (mkEvent (-1) 0 cb)) (tv w) (wakeups w) (adds w)).

(** [event_add(&ev, &tv)] *)
Definition add_timer : prg Z :=
  w ← get;
  match ev w with
  | Some x =>
      r ← tcall (λ e, event_add e x (tv w));
      modify (λ w, mkTimer (tlib w) (ev w) (tv w) (wakeups w) (adds w ++ [r])) ;;
      mret r
  | None => throw UninitRead
  end.

Definition time_cb : prg unit :=
  modify (λ w, mkTimer (tlib w) (ev w) (tv w) (wakeups w ++ [base_time (tlib w)]) (adds w)) ;;
  add_timer ;;
  mret tt.

(** A callback of the event: the only one is [time_cb]. *)
Definition call_back (cb : callback) : prg unit := match cb with time_cb_ptr => time_cb end.

(** [turns] callbacks at most; the result says whether the loop has ended. *)
Fixpoint event_base_dispatch (turns : nat) : prg bool :=
  match turns with
  | O => mret false
  | S turns' =>
      w ← get;
      match due (tlib w), ev w with
      | None, _ => mret true
      | Some _, Some x =>
          if loop_fails (tlib w) then mret true
          else
            modify (λ w, mkTimer (expire (tlib w)) (ev w) (tv w) (wakeups w) (adds w)) ;;
            call_back (ev_callback x) ;;
            event_base_dispatch turns'
      | Some _, None => throw UninitRead
      end
  end.

(** main: [Some] of what it returns, [None] when it is still in the loop. *)
Definition timer_main (turns : nat) : prg (option Z) :=
  base ← tcall event_base_new;
  modify (λ w, mkTimer (tlib w) (ev w) (mkTimeval 2 0) (wakeups w) (adds w)) ;;
  evtimer_set time_cb_ptr ;;
  if (base : bool) then
    tcall event_base_set ;;
    add_timer ;;
    ended ← event_base_dispatch turns;
    mret (if (ended : bool) then Some 1 else None)
  else throw NullDeref.
End Timer.

(** ** Proofs *)

(** Each time is at least [period] after the one before, the first after [from]. *)
Fixpoint spaced (period from : Z) (times : list Z) : Prop :=
  match times with
  | [] => True
  | t :: times' => from + period <= t ∧ spaced period t times'
  end.

Lemma last_default {A} (y : A) l d1 d2 : List.last (y :: l) d1 = List.last (y :: l) d2.
Proof. revert y. induction l as [|z l IH]; intros y; [done|]. apply (IH z). Qed.

Lemma spaced_snoc period from times t :
  spaced period from (times ++ [t]) ↔ spaced period from times ∧ List.last times from + period <= t.
Proof.
  revert from. induction times as [|x times IH]; intros from; simpl; [tauto|].
  rewrite IH. destruct times as [|y times]; [simpl; tauto|].
  rewrite (last_default y times x from). tauto.
Qed.

Section Proofs.
Context {E : Type} `{TimersLaws E}.
Implicit Types (w : timer E).

Definition start_of (t0 : Z) w : Z := List.last (wakeups w) t0.

(** Between two calls of the program: [again] is whether the event was added. *)
Definition ticking (t0 : Z) (again : bool) w : Prop :=
  ev w = Some (mkEvent (-1) 0 time_cb_ptr) ∧ tv w = mkTimeval 2 0
  ∧ spaced 2000000 t0 (wakeups w) ∧ start_of t0 w <= base_time (tlib w)
  ∧ if again then ∃ d, due (tlib w) = Some d ∧ start_of t0 w + 2000000 <= d
    else due (tlib w) = None.

Lemma add_timer_ticks t0 w :
  ticking t0 false w →
  ∃ r w', add_timer w = Ok r w' ∧ ticking t0 (bool_decide (r = 0)) w' ∧ wakeups w' = wakeups w
    ∧ adds w' = adds w ++ [r].
Proof.
  intros (Hev & Htv & Hsp & Hnow & Hdue). unfold add_timer. rewrite get_bind, Hev.
  unfold tcall, mbind, M_bind, modify.
  destruct (event_add _ _ _) as [r e] eqn:Ea. apply add_law in Ea as HL.
  destruct HL as (Hle & Ha0 & Ha1). rewrite Htv in Ha0. eexists r, _. split; [done|].
  split; [|done]. unfold ticking, start_of in *. simpl. split_and!; [done|done|done|lia|].
  case_bool_decide as Hr.
  - destruct (Ha0 Hr) as (d & Hd & Hd'). exists d. split; [done|].
    unfold microseconds in Hd'. simpl in Hd'. lia.
  - by rewrite Ha1.
Qed.

Lemma wakeup_ticks t0 w d :
  ticking t0 true w → due (tlib w) = Some d →
  ticking t0 false (mkTimer (expire (tlib w)) (ev w) (tv w) (wakeups w ++ [base_time (expire (tlib w))]) (adds w)).
Proof.
  intros (Hev & Htv & Hsp & Hnow & d' & Hd' & Hs) Hd. assert (d' = d) as -> by congruence.
  destruct (expire_law _ _ Hd) as (Ht1 & Ht2 & Ht3). unfold ticking, start_of in *. simpl.
  split_and!; [done|done| |rewrite last_last; lia|done].
  apply spaced_snoc. split; [done|]. lia.
Qed.

(** A turn of the loop is a wakeup, after which the event is added again. *)
Lemma dispatch_ticks t0 turns b w :
  ticking t0 b w →
  ∃ ended w' more, event_base_dispatch turns w = Ok ended w'
    ∧ spaced 2000000 t0 (wakeups w') ∧ adds w' = adds w ++ more
    ∧ if ended then List.last more (if b then 0 else 1) ≠ 0 ∨ loop_fails (tlib w') = true
      else length (wakeups w') = (length (wakeups w) + turns)%nat ∧ length more = turns.
Proof.
  revert b w. induction turns as [|turns IH]; intros b w Hw.
  { exists false, w, []. rewrite app_nil_r. destruct Hw as (_ & _ & Hsp & _). split_and!; done || (simpl; lia). }
  cbn [event_base_dispatch]. rewrite get_bind. destruct b.
  - pose proof Hw as (Hev & _ & Hsp0 & _ & d & Hd & _). rewrite Hd, Hev.
    destruct (loop_fails (tlib w)) eqn:Ef.
    { exists true, w, []. rewrite app_nil_r. split_and!; [done|done|done|by right]. }
    rewrite modify_bind. simpl.
    unfold time_cb. pose proof (wakeup_ticks t0 w d Hw Hd) as Hk. rewrite Hev in Hk.
    destruct (add_timer_ticks t0 _ Hk) as (r & w1 & E1 & Hw1 & Ek & Ea).
    destruct (IH _ _ Hw1) as (ended & w2 & more & E2 & Hsp & Em & He).
    exists ended, w2, (r :: more). split_and!; [|done|by rewrite Em, Ea, <- app_assoc|].
    { unfold mbind, M_bind, modify in *. simpl. rewrite Hev. rewrite E1. exact E2. }
    destruct ended.
    + destruct He as [He|He]; [left|by right]. destruct more as [|x more]; [|by rewrite (last_default _ _ _ 0) in He].
      simpl. intros ->. by apply He.
    + destruct He as [He Hl]. rewrite He, Ek. simpl. rewrite length_app. simpl. lia.
  - pose proof Hw as (_ & _ & Hsp & _ & Hd). rewrite Hd. exists true, w, []. rewrite app_nil_r.
    split_and!; [done|done|done|by left].
Qed.

(** ** Properties *)

(** C38: The timer goes on for ever: in any number of turns main commits no error, and it
    has not returned, unless the last [event_add] of this run was refused or the loop
    failed; every turn is a wakeup, and the loop wakes for it at least two seconds, by
    the time of the base, after it woke for the one before. *)
Theorem timer_keeps_waking turns (e : E) e0 x tv0 :
  event_base_new e = (true, e0) → due e = None →
  ∃ r w, timer_main turns (mkTimer e x tv0 [] []) = Ok r w
    ∧ spaced 2000000 (base_time e) (wakeups w)
    ∧ (r = None → length (wakeups w) = turns ∧ length (adds w) = S turns)
    ∧ (r ≠ None → r = Some 1 ∧ (List.last (adds w) 0 ≠ 0 ∨ loop_fails (tlib w) = true)).
Proof.
  intros Eb Hd. destruct (base_new_law _ _ _ Eb) as [Hn0 Hd0]. unfold timer_main, tcall.
  unfold mbind, M_bind, modify, evtimer_set. simpl. rewrite Eb. simpl.
  destruct (event_base_set e0) as [n1 e1] eqn:Es. destruct (base_set_law _ _ _ Es) as [Hn1 Hd1].
  assert (ticking (base_time e) false (mkTimer e1 (Some (mkEvent (-1) 0 time_cb_ptr)) (mkTimeval 2 0) [] [])) as Hw.
  { unfold ticking, start_of. simpl. split_and!; try done; [lia|]. by rewrite Hd1, Hd0. }
  destruct (add_timer_ticks _ _ Hw) as (r & w1 & E1 & Hw1 & Ek & Ea). rewrite E1.
  destruct (dispatch_ticks _ turns _ _ Hw1) as (ended & w2 & more & E2 & Hsp & Em & He). rewrite E2.
  simpl in Ek, Ea. rewrite Ea in Em. simpl in Em.
  eexists _, w2. split; [done|]. split; [done|]. destruct ended; (split; [|intros HN; try done]); [done|..].
  - split; [done|]. destruct He as [He|He]; [left|by right]. rewrite Em.
    destruct more as [|y more]; [|by rewrite (last_default _ _ _ 0) in He]. simpl. intros ->. by apply He.
  - intros _. destruct He as [He Hl]. rewrite He, Ek, Em. simpl. by rewrite Hl.
Qed.
End Proofs.

(** ** A library to run on *)

(** A loop that wakes one microsecond later each time; [s_adds] calls of event_add are
    still accepted, and the event is added that many times at most. *)
Record sim : Type := mkSim { s_now : Z; s_due : option Z; s_late : Z; s_adds : nat }.

#[local] Instance sim_timers : Timers sim := {
  base_time := s_now;
  due := s_due;
  loop_fails s := false;
  event_base_new s := (true, s);
  event_base_set s := (0, s);
  event_add s ev t :=
    match s_adds s with
    | O => (-1, s)
    | S n => (0, mkSim (s_now s) (Some (s_now s + microseconds t)) (s_late s) n)
    end;
  expire s :=
    match s_due s with
    | Some d => mkSim (Z.max d (s_now s) + Z.abs (s_late s)) None (s_late s + 1) (s_adds s)
    | None => s
    end;
}.

#[local] Instance sim_timers_laws : TimersLaws sim.
Proof.
  split; simpl.
  - intros e x t r e'. destruct (s_adds e); intros [= <- <-]; simpl; split_and!; try done; try lia.
    intros _. eexists. split; [done|lia].
  - by intros e b e' [= <- <-].
  - by intros e r e' [= <- <-].
  - intros e d Hd. rewrite Hd. simpl. split_and!; [lia|lia|done].
Qed.

(** Three wakeups, with the times at which they are; and two, after which the event is
    refused and main returns. *)
Example timer_keeps_waking_witness :
  (timer_main 3 (mkTimer (mkSim 0 None 0 9) None (mkTimeval 0 0) [] [])
   = Ok None (mkTimer (mkSim 6000003 (Some 8000003) 3 5) (Some (mkEvent (-1) 0 time_cb_ptr)) (mkTimeval 2 0)
       [2000000; 4000001; 6000003] [0; 0; 0; 0]))
  ∧ (timer_main 9 (mkTimer (mkSim 0 None 0 2) None (mkTimeval 0 0) [] [])
   = Ok (Some 1) (mkTimer (mkSim 4000001 None 2 0) (Some (mkEvent (-1) 0 time_cb_ptr)) (mkTimeval 2 0)
       [2000000; 4000001] [0; 0; -1]))
  ∧ ∃ r w, timer_main 3 (mkTimer (mkSim 0 None 0 9) None (mkTimeval 0 0) [] []) = Ok r w
    ∧ spaced 2000000 0 (wakeups w) ∧ (r = None → length (wakeups w) = 3%nat ∧ length (adds w) = 4%nat)
    ∧ (r ≠ None → r = Some 1 ∧ (List.last (adds w) 0 ≠ 0 ∨ loop_fails (tlib w) = true)).
Proof.
  split; [reflexivity|]. split; [reflexivity|].
  exact (timer_keeps_waking 3 (mkSim 0 None 0 9) (mkSim 0 None 0 9) None (mkTimeval 0 0) eq_refl eq_refl).
Defined.
