(* ===== verification/CxxClients.v ===== *)
(** * The C++ clients of MongoDB and redis (mongo-cxx-test, acl-redis-test)

    [MongoCxx] is DBIOMongoDB of mongo-cxx-test over mongocxx, [AclRedis] is the
    RedisConn of acl-redis-test over acl.  Both libraries are outside the
    repository: the classes [Mongocxx] and [Acl].  A call of mongocxx that throws
    ends the program, since nothing catches; the client taken from the pool goes
    back when its entry is destroyed. *)

From S2P Require Import Prelude Mongo.

Module MongoCxx.

Definition client : Type := nat.
Definition handle : Type := nat.

Class Mongocxx (D : Type) : Type := {
  pool_new : D → string → handle * D;
  pool_acquire : D → handle → client * D;
  pool_release : D → handle → client → D;
  (* false: thrown *)
  insert_one : D → client → string → string → bson → bool * D;
  delete_one : D → client → string → string → bson → bool * D;
  update_one : D → client → string → string → bson → bson → bool * D;
  (* the documents that the cursor visits *)
  find : D → client → string → string → bson → option (list bson) * D;
  (* [builder << close_document] and [builder << finalize] on a document: what the
     builder holds afterwards, or an exception *)
  close_document : bson → option bson;
  finalize : bson → option bson;
}.

Record dbio (D : Type) : Type := mkDbio { lib : D; pool_ : option handle }.
Arguments mkDbio {D} lib pool_.
Arguments lib {D} d.
Arguments pool_ {D} d.

Section Code.
Context {D : Type} `{Mongocxx D}.
#[local] Abbreviation prg := (M (dbio D)).

Definition DBIOMongoDB_new (d : D) : dbio D := mkDbio d None.

Definition mongodb_init (url : string) : prg bool := λ w,
  let '(p, d) := pool_new (lib w) url in Ok true (mkDbio d (Some p)).

Definition mongodb_cleanup : prg bool := mret true.

(** [builder << iter.first << iter.second] for the entries of a map: strings with
    their length. *)
Definition append_entries (builder : bson) (m : record) : bson :=
  foldl (λ b kv, b ++ [(kv.1, BSON_TYPE_UTF8 kv.2)]) builder (entries m).

Definition or_throw {A} (o : option A) : prg A :=
  match o with Some a => mret a | None => throw UncaughtException end.

(** [auto client = pool_->acquire();], one call, and the end of its scope. *)
Definition with_client {A} (f : D → client → A * D) : prg A := λ w,
  match pool_ w with
  | None => Fault NullDeref
  | Some p =>
      let '(c, d1) := pool_acquire (lib w) p in
      let '(a, d2) := f d1 c in
      Ok a (mkDbio (pool_release d2 p c) (Some p))
  end.

Definition with_client_or_throw (f : D → client → bool * D) : prg bool :=
  ok ← with_client f;
  if (ok : bool) then mret true else throw UncaughtException.

Definition insert_coll (dbname collname : string) (map_data : record) : prg bool :=
  b ← or_throw (close_document (append_entries [] map_data));
  b ← or_throw (finalize b);
  with_client_or_throw (λ d c, insert_one d c dbname collname b).

Definition delete_coll (dbname collname : string) (map_data : record) : prg bool :=
  b ← or_throw (finalize (append_entries [] map_data));
  with_client_or_throw (λ d c, delete_one d c dbname collname b).

Definition update_coll (dbname collname : string) (map_query map_data : record) : prg bool :=
  q ← or_throw (finalize (append_entries [] map_query));
  b ← or_throw (finalize (append_entries [] map_data));
  with_client_or_throw (λ d c, update_one d c dbname collname q b).

(** A field of a document that was found. *)
Definition select_field (msg : record) (f : string * bson_value) : record :=
  if String.eqb f.1 "" then msg
  else if String.eqb f.1 "_id" then msg
  else match f.2 with BSON_TYPE_UTF8 s => <[f.1 := s]> msg | _ => msg end.

(** The loop over the cursor: [msg] is declared before it. *)
Fixpoint select_rows (docs : list bson) (msg : record) (msg_data : list record) : list record :=
  match docs with
  | [] => msg_data
  | docView :: docs' =>
      let msg' := foldl select_field msg docView in
      select_rows docs' msg' (msg_data ++ [msg'])
  end.

Definition select_coll (dbname collname : string) (map_data : record) (msg_data : list record)
    : prg (bool * list record) :=
  o ← with_client (λ d c, find d c dbname collname (append_entries [] map_data));
  docs ← or_throw o;
  mret (true, select_rows docs ∅ msg_data).

Definition InsertBatchColl (dbname collname : string) (map_data : list record) : prg bool := mret true.
End Code.

(** The fields that a select looks at. *)
Definition row_fields (doc : bson) : list (string * string) :=
  omap (λ f, match f.2 with
             | BSON_TYPE_UTF8 s => if String.eqb f.1 "" || String.eqb f.1 "_id" then None else Some (f.1, s)
             | _ => None
             end) doc.

Lemma select_fields msg doc :
  foldl select_field msg doc = foldl (λ m kv, <[kv.1 := kv.2]> m) msg (row_fields doc).
Proof.
  revert msg. induction doc as [|[k v] doc IH]; intros msg; simpl; [done|]. rewrite IH. clear IH.
  unfold select_field; simpl.
  destruct (String.eqb k ""), (String.eqb k "_id"), v; done.
Qed.

Lemma select_rows_merged docs msg msg_data :
  select_rows docs msg msg_data = msg_data ++ merged msg (row_fields <$> docs).
Proof.
  revert msg msg_data. induction docs as [|doc docs IH]; intros msg msg_data; simpl; [by rewrite app_nil_r|].
  rewrite IH, select_fields, <- app_assoc. done.
Qed.

(** [select_coll] of mongo-cxx-test returns a record for each document found, in
    order, and gives the client back; the record is not started afresh, so it also
    has the fields of the documents before it. *)
Theorem select_coll_accumulates {D : Type} `{Mongocxx D} (w : dbio D) db coll query msg p c d1 docs d2 :
  pool_ w = Some p → pool_acquire (lib w) p = (c, d1) →
  find d1 c db coll (append_entries [] query) = (Some docs, d2) →
  select_coll db coll query msg w
  = Ok (true, msg ++ merged ∅ (row_fields <$> docs)) (mkDbio (pool_release d2 p c) (Some p)).
Proof.
  intros Hp Ha Hf. unfold select_coll, with_client, mbind, M_bind. rewrite Hp, Ha, Hf. simpl.
  by rewrite select_rows_merged.
Qed.

(** A library whose collection has these documents. *)
#[export] Instance docs_Mongocxx : Mongocxx (list bson) := {|
  pool_new d url := (0%nat, d);
  pool_acquire d p := (1%nat, d);
  pool_release d p c := d;
  insert_one d c db coll doc := (true, d ++ [doc]);
  delete_one d c db coll doc := (true, d);
  update_one d c db coll q doc := (true, d);
  find d c db coll q := (Some d, d);
  close_document b := Some b;
  finalize b := Some b;
|}.

Lemma select_coll_accumulates_witness :
  select_coll "db" "c" ∅ [] (mkDbio [[("_id", BSON_TYPE_OTHER 7); ("a", BSON_TYPE_UTF8 "1")];
    [("b", BSON_TYPE_UTF8 "2")]] (Some 0%nat))
  = Ok (true, [{["a" := "1"]}; {["b" := "2"; "a" := "1"]}])
      (mkDbio [[("_id", BSON_TYPE_OTHER 7); ("a", BSON_TYPE_UTF8 "1")]; [("b", BSON_TYPE_UTF8 "2")]] (Some 0%nat)).
Proof.
  set (docs := [[("_id", BSON_TYPE_OTHER 7); ("a", BSON_TYPE_UTF8 "1")]; [("b", BSON_TYPE_UTF8 "2")]]).
  exact (select_coll_accumulates (mkDbio docs (Some 0%nat)) "db" "c" ∅ [] 0%nat 1%nat docs docs docs
    eq_refl eq_refl eq_refl).
Defined.
End MongoCxx.

Module AclRedis.

Definition client : Type := nat.
Definition handle : Type := nat.

Class Acl (D : Type) : Type := {
  redis_client_pool : D → string → Z → handle * D;
  set_timeout : D → handle → Z → Z → D;
  peek : D → handle → option client * D;
  put : D → handle → option client → bool → D;
  redis_set : D → option client → string → string → bool * D;
  redis_get : D → option client → string → option string * D;
  redis_hset : D → option client → string → string → string → bool * D;
  redis_hget : D → option client → string → string → option string * D;
}.

Record RedisConn (D : Type) : Type := mkConn { lib : D; pool_ : option handle }.
Arguments mkConn {D} lib pool_.
Arguments lib {D} r.
Arguments pool_ {D} r.

(** The result of a function that returns a pointer: null, or the text of a string
    that is destroyed by the return. *)
Inductive pointer : Type := Null | Dangling (freed : string).

Section Code.
Context {D : Type} `{Acl D}.
#[local] Abbreviation prg := (M (RedisConn D)).

Definition RedisConn_new (d : D) : RedisConn D := mkConn d None.

Definition InitPool (redis_addr : string) (count conn_timeout rw_timeout : Z) : prg bool := λ w,
  let '(p, d) := redis_client_pool (lib w) redis_addr count in
  Ok true (mkConn (set_timeout d p conn_timeout rw_timeout) (Some p)).

Definition the_pool : prg handle := λ w,
  match pool_ w with Some p => Ok p w | None => Fault NullDeref end.

Definition acall {A} (f : D → A * D) : prg A := λ w,
  let '(a, d) := f (lib w) in Ok a (mkConn d (pool_ w)).

(** Set(key, field, value): [field] is not used. *)
Definition Set_ (key field value : string) : prg bool :=
  p ← the_pool;
  conn ← acall (λ d, peek d p);
  ok ← acall (λ d, redis_set d conn key value);
  if (ok : bool) then acall (λ d, (tt, put d p conn true)) ;; mret true
  else mret false.

Definition Get (key field : string) : prg pointer :=
  p ← the_pool;
  conn ← acall (λ d, peek d p);
  buf ← acall (λ d, redis_get d conn key);
  match buf with
  | None => mret Null
  | Some s => acall (λ d, (tt, put d p conn true)) ;; mret (Dangling s)
  end.

Definition HSet (key field value : string) : prg bool :=
  p ← the_pool;
  conn ← acall (λ d, peek d p);
  ok ← acall (λ d, redis_hset d conn key field value);
  if (ok : bool) then acall (λ d, (tt, put d p conn true)) ;; mret true
  else mret false.

(** The result and the argument [value]. *)
Definition HGet (key field value : string) : prg (bool * string) :=
  p ← the_pool;
  conn ← acall (λ d, peek d p);
  buf ← acall (λ d, redis_hget d conn key field);
  match buf with
  | None => mret (false, value)
  | Some s => acall (λ d, (tt, put d p conn true)) ;; mret (true, cstr s)
  end.

(** RedisManage passes everything on. *)
Definition Manage_InitPool := InitPool.
Definition Manage_Set := Set_.
Definition Manage_Get := Get.
Definition Manage_HSet := HSet.
Definition Manage_HGet := HGet.
End Code.

(** The connections that are out of the pool: only peek and put change them. *)
Class AclLaws (D : Type) `{Acl D} : Type := {
  taken : D → Z;
  pool_law d addr count : taken (redis_client_pool d addr count).2 = taken d;
  set_timeout_law d p a b : taken (set_timeout d p a b) = taken d;
  peek_law d p c d' : peek d p = (c, d') → taken d' = taken d + match c with Some _ => 1 | None => 0 end;
  put_law d p c b : taken (put d p c b) = taken d - match c with Some _ => 1 | None => 0 end;
  set_law d c k v : taken (redis_set d c k v).2 = taken d;
  get_law d c k : taken (redis_get d c k).2 = taken d;
  hset_law d c k f v : taken (redis_hset d c k f v).2 = taken d;
  hget_law d c k f : taken (redis_hget d c k f).2 = taken d;
}.

Section Proofs.
Context {D : Type} `{AclLaws D}.

(** The common part of the commands: [run] is the redis command, and [next] what is
    done with its result, with the connection given back or not. *)
Lemma command_run {A B} (run : D → option client → A * D) (next : handle → option client → A → M (RedisConn D) B)
    (w w' : RedisConn D) p conn d1 r :
  (p ← the_pool; conn ← acall (λ d, peek d p); x ← acall (λ d, run d conn); next p conn x) w = Ok r w' →
  (∀ d c, taken (run d c).2 = taken d) → pool_ w = Some p → peek (lib w) p = (Some conn, d1) →
  ∃ d2, taken d2 = taken (lib w) + 1
    ∧ next p (Some conn) (run d1 (Some conn)).1 (mkConn d2 (Some p)) = Ok r w'.
Proof.
  intros E Hrun Hp Hpeek. exists (run d1 (Some conn)).2. rewrite Hrun. split; [by apply peek_law in Hpeek|].
  rewrite <- E. unfold the_pool, acall, mbind, M_bind. rewrite Hp. simpl. rewrite Hp, Hpeek. simpl.
  by destruct (run d1 (Some conn)).
Qed.

(** Giving a connection back. *)
Lemma put_run {B} (w w' : RedisConn D) p conn (r r' : B) :
  (acall (λ d, (tt, put d p (Some conn) true)) ;; mret r) w = Ok r' w' →
  r' = r ∧ taken (lib w') = taken (lib w) - 1.
Proof. intros [= <- <-]. simpl. by rewrite put_law. Qed.

(** A command in [E], with its law, on both branches. *)
Ltac command E run law Hp Hpeek :=
  let d2 := fresh "d2" in let Hd2 := fresh "Hd2" in
  eapply (command_run run) in E as (d2 & Hd2 & E); [|intros; apply law|exact Hp|exact Hpeek];
  cbn beta in E;
  match type of E with context [ match ?x with _ => _ end ] => destruct x end;
  [ apply put_run in E as [? ->]; simplify_eq; simpl; lia
  | unfold mret, M_ret in E; simplify_eq; exact Hd2 ].

(** The commands of acl-redis-test give their connection back only when redis
    says yes: each of them that fails keeps one out of the pool for ever. *)
Theorem failed_commands_lose_connections (w : RedisConn D) p conn d1 key field value :
  pool_ w = Some p → peek (lib w) p = (Some conn, d1) →
  (∀ b w', Set_ key field value w = Ok b w' →
     taken (lib w') = taken (lib w) + if b then 0 else 1)
  ∧ (∀ r w', Get key field w = Ok r w' →
     taken (lib w') = taken (lib w) + match r with Null => 1 | Dangling _ => 0 end)
  ∧ (∀ b w', HSet key field value w = Ok b w' →
     taken (lib w') = taken (lib w) + if b then 0 else 1)
  ∧ (∀ b s w', HGet key field value w = Ok (b, s) w' →
     taken (lib w') = taken (lib w) + if b then 0 else 1).
Proof.
  intros Hp Hpeek. split_and!.
  - intros b w' E. unfold Set_ in E. command E (λ d c, redis_set d c key value) set_law Hp Hpeek.
  - intros r w' E. unfold Get in E. command E (λ d c, redis_get d c key) get_law Hp Hpeek.
  - intros b w' E. unfold HSet in E. command E (λ d c, redis_hset d c key field value) hset_law Hp Hpeek.
  - intros b s w' E. unfold HGet in E. command E (λ d c, redis_hget d c key field) hget_law Hp Hpeek.
Qed.
End Proofs.

(** A pool that counts, over a server that always says no. *)
#[export] Instance refusing_Acl : Acl Z := {|
  redis_client_pool d addr count := (0%nat, d);
  set_timeout d p a b := d;
  peek d p := (Some 0%nat, d + 1);
  put d p c b := match c with Some _ => d - 1 | None => d end;
  redis_set d c k v := (false, d);
  redis_get d c k := (None, d);
  redis_hset d c k f v := (false, d);
  redis_hget d c k f := (None, d);
|}.

#[export] Instance refusing_AclLaws : AclLaws Z.
Proof.
  refine {| taken := id |}; simpl; try done.
  - by intros d p c d' [= <- <-].
  - intros d p [c|] b; simpl; lia.
Defined.

Lemma failed_commands_lose_connections_witness :
  ∃ w', HSet "k" "f" "v" (mkConn 3 (Some 0%nat)) = Ok false w' ∧ taken (lib w') = 4.
Proof.
  destruct (failed_commands_lose_connections (mkConn 3 (Some 0%nat)) 0%nat 0%nat 4 "k" "f" "v")
    as (_ & _ & Hhset & _); [reflexivity..|].
  exists (mkConn 4 (Some 0%nat)). split; [reflexivity|]. exact (Hhset false _ eq_refl).
Defined.
End AclRedis.
