(* ===== verification/Loads.v ===== *)
(** * Programs that load the databases (mong-c-test, mongo-cxx-test, acl-redis-test)

    The mains of the three programs: each fills a database, or reads one, from many
    threads.  Here the threads insert: an insertion is one step, since the client it
    uses is the thread's own from the pool's pop to its push, and the threads' steps
    are interleaved in any way.  The pool has a bounded number of clients
    ([bounded_pool]), and a thread whose pop would have to wait makes its step later.  The threads end after their insertions, the mains
    never do.  Messages are left out, but not the string object that one of them
    passes for %s.  mongo_driver.h is in MongoDriver.v. *)

From S2P Require Import Prelude Mongo CxxClients.

(** ** Threads that insert *)

Section Threads.
Context {S : Type} (insert_at : nat → M S unit) (doc_at : nat → bson).
Context (stored : S → list bson) (refused : S → nat).

(** The threads, by the number of insertions that each has done. *)
Inductive step (turns : nat) : S * list nat → S * list nat → Prop :=
| step_insert j i s s' ts :
    ts !! j = Some i → (i < turns)%nat → insert_at i s = Ok tt s' →
    step turns (s, ts) (s', <[j := (i + 1)%nat]> ts).

(** One thread alone: its loop from [i], of [turns] turns. *)
Fixpoint insert_loop (turns : nat) (i : nat) : M S unit :=
  match turns with
  | O => mret tt
  | Datatypes.S turns' => insert_at i ;; insert_loop turns' (i + 1)
  end.

(** The states in which an insertion ends: its document is stored, or it is refused. *)
Context (up : S → Prop).
Context (insert_law : ∀ i s, up s → ∃ s' (b : bool), insert_at i s = Ok tt s' ∧ up s'
  ∧ stored s' = stored s ++ (if b then [doc_at i] else [])
  ∧ refused s' = (refused s + if b then 0 else 1)%nat).

(** The documents of a thread's first [n] turns. *)
Definition inserted (n : nat) : list bson := doc_at <$> seq 0 n.

Lemma inserted_next n : inserted (n + 1) = inserted n ++ [doc_at n].
Proof. unfold inserted. by rewrite seq_app, fmap_app. Qed.

Lemma sum_list_next (ts : list nat) j i :
  ts !! j = Some i → sum_list (<[j := (i + 1)%nat]> ts) = (sum_list ts + 1)%nat.
Proof.
  revert j. induction ts as [|t ts IH]; intros [|j] Hj; simpl in *; simplify_eq; [lia|].
  rewrite (IH j Hj). lia.
Qed.

Lemma threads_stored turns s ts s' ts' :
  star (step turns) (s, ts) (s', ts') → up s → stored s ⊆+ flat_map inserted ts →
  (length (stored s) + refused s = sum_list ts)%nat →
  up s' ∧ stored s' ⊆+ flat_map inserted ts' ∧ (length (stored s') + refused s' = sum_list ts')%nat.
Proof.
  intros Hs. remember (s, ts) as p eqn:Ep. remember (s', ts') as q eqn:Eq. revert s ts Ep.
  induction Hs as [p|p1 p2 p3 Hst _ IH]; intros s ts Ep Hup H0 Hl; [by simplify_eq|]. subst.
  inversion Hst as [j i s1 s2 ts1 Hj Hi E]; subst.
  destruct (insert_law i s Hup) as (s3 & b & E3 & Hup3 & Hst3 & Href). rewrite E in E3. injection E3 as <-.
  destruct (flat_map_at inserted ts j i (i + 1)%nat Hj) as [Hold Hnew].
  apply (IH eq_refl _ _ eq_refl); [done|..].
  - rewrite Hst3, Hnew, inserted_next, <- app_assoc, (Permutation_app_comm [_]), app_assoc, <- Hold.
    apply submseteq_app; [done|]. destruct b; [done|apply submseteq_nil_l].
  - rewrite Hst3, Href, length_app, (sum_list_next ts j i Hj). destruct b; simpl; lia.
Qed.

(** A thread alone stores its documents in order, but for those refused. *)
Lemma loop_stored turns i s :
  up s → ∃ s' docs, insert_loop turns i s = Ok tt s' ∧ stored s' = stored s ++ docs
    ∧ docs `sublist_of` (doc_at <$> seq i turns) ∧ (length docs + refused s' = turns + refused s)%nat.
Proof.
  revert i s. induction turns as [|turns IH]; intros i s Hup.
  - exists s, []. by rewrite app_nil_r.
  - destruct (insert_law i s Hup) as (s1 & b & E1 & Hup1 & Hst1 & Href).
    destruct (IH (i + 1)%nat s1 Hup1) as (s2 & docs & E2 & Hst2 & Hsub & Hlen).
    exists s2, ((if b then [doc_at i] else []) ++ docs).
    cbn [insert_loop]. erewrite bind_run by exact E1. split_and!; [done|..].
    + by rewrite Hst2, Hst1, <- app_assoc.
    + replace (Datatypes.S i) with (i + 1)%nat by lia.
      cbn [seq fmap list_fmap]. replace (Datatypes.S i) with (i + 1)%nat by lia.
      destruct b; simpl; [by apply sublist_skip|by apply sublist_cons].
    + rewrite length_app. destruct b; simpl; lia.
Qed.
End Threads.

(** ** The record that is inserted *)

Definition notice : record :=
  <["runboot" := "content-length: 78 			content - type: Text / Btf			msgflag : 0			msgtype : 0			receive - users : 1105; user90105			senddate : 1578900246501172			senderid : 1104			sendername : user90104			senderssid : 024A5517 - 7AA5 - B123 - 7A15 - 7FEC34CE1D6C			subject : qwe			<BTF><Font name = '����' size = '15' clr = '0' flags = '1' / ><Text>qwe< / Text>< / BTF>"]>
  {["msg_id" := "AE216416-35D5-11EA-AC7C-408D5CC95D15"]}.

Definition notice_at (i : nat) : record := <["id" := pretty (Z.of_nat i)]> notice.

Definition TURNS : nat := Z.to_nat 200000.

(** ** mong-c-test/src/main.cpp *)

Module MongoMain.
Section Code.
Context {D : Type} `{Mongoc D}.

(** A turn of the loop; the result of [insert_coll] is not looked at. *)
Definition insert_at (i : nat) : M (mongo D) unit :=
  _ ← dbio_insert_coll "notice111" "sites_1411" (notice_at i); mret tt.

(** The task that is enqueued, and the function of each thread. *)
Definition threadFun : M (mongo D) unit := insert_loop insert_at TURNS 0.

Definition mongo_setup : M (mongo D) unit :=
  _ ← dbio_mongodb_init "mongodb://192.168.0.224:27017/"; mret tt.

(** The threads and the task of the pool after it. *)
Definition mongo_threads : list nat := replicate (150 + 1) O.

(** A library with a pool of a bounded number of clients, seen through the clients that
    are out, what the server has stored and how many documents it has refused.  Nothing
    is said of a pop when every client is out: that call waits. *)
Record bounded_pool (size : nat) (out : D → nat) (stored : D → list bson) (refused : D → nat) : Prop := {
  pop_bounded d p : (out d < size)%nat → ∃ c d', mongoc_client_pool_pop d p = (Some c, d')
    ∧ out d' = S (out d) ∧ stored d' = stored d ∧ refused d' = refused d;
  push_bounded d p c : let d' := mongoc_client_pool_push d p c in
    out d' = Nat.pred (out d) ∧ stored d' = stored d ∧ refused d' = refused d;
  insert_bounded d c db coll doc b d' : mongoc_collection_insert d c db coll doc = (b, d') →
    out d' = out d ∧ stored d' = stored d ++ (if b then [doc] else [])
    ∧ refused d' = (refused d + if b then 0 else 1)%nat;
}.

Definition doc_at (i : nat) : bson := append_map [] (notice_at i).

(** No client is out between two insertions. *)
Definition at_rest (out : D → nat) (w : mongo D) : Prop := is_Some (m_pool w) ∧ out (lib w) = O.

Lemma insert_at_law size out stored refused i w :
  (0 < size)%nat → bounded_pool size out stored refused → at_rest out w →
  ∃ w' (b : bool), insert_at i w = Ok tt w' ∧ at_rest out w'
    ∧ stored (lib w') = stored (lib w) ++ (if b then [doc_at i] else [])
    ∧ refused (lib w') = (refused (lib w) + if b then 0 else 1)%nat.
Proof.
  intros Hsz Hb [[p Hp] Ho].
  destruct (pop_bounded _ _ _ _ Hb (lib w) p ltac:(lia)) as (c & d1 & E1 & O1 & S1 & R1).
  destruct (mongoc_collection_insert d1 c "notice111" "sites_1411" (doc_at i)) as [b d2] eqn:E2.
  destruct (insert_bounded _ _ _ _ Hb _ _ _ _ _ _ _ E2) as (O2 & S2 & R2).
  destruct (push_bounded _ _ _ _ Hb d2 p c) as (O3 & S3 & R3).
  exists (mkMongo (mongoc_client_pool_push d2 p c) (Some p) (m_url w)), b.
  unfold insert_at, dbio_insert_coll, insert_coll, write_coll, pop, push, the_pool, call_, call, mbind, M_bind.
  fold (doc_at i). rewrite Hp, E1. cbn [lib m_pool m_url]. rewrite E2. cbn [lib m_pool m_url]. rewrite Hp.
  split_and!; [reflexivity|split; cbn [lib m_pool]; [by eexists|lia]|..]; cbn [lib].
  - by rewrite S3, S2, S1.
  - by rewrite R3, R2, R1.
Qed.
End Code.
End MongoMain.

(** ** mongo-cxx-test/src/main.cpp *)

Module MongoCxxMain.
Section Code.
Context {D : Type} `{MongoCxx.Mongocxx D}.

Definition dbio_insert_at (i : nat) : M (MongoCxx.dbio D) unit :=
  _ ← MongoCxx.insert_coll "notice111" "sites_1411" (notice_at i); mret tt.

Definition threadFunc : M (MongoCxx.dbio D) unit := insert_loop dbio_insert_at TURNS 0.

Definition dbio_setup (d : D) : outcome (MongoCxx.dbio D) bool :=
  MongoCxx.mongodb_init "mongodb://192.168.0.224:27017/?minPoolSize=4" (MongoCxx.DBIOMongoDB_new d).

Definition dbio_threads : list nat := replicate 150 O.

(** A library that takes every document. *)
Record dbio_accepting (stored : D → list bson) (closed : nat → bson) : Prop := {
  close_accepts i : MongoCxx.close_document (MongoCxx.append_entries [] (notice_at i)) = Some (closed i);
  finalize_accepts i : MongoCxx.finalize (closed i) = Some (closed i);
  acquire_accepts d p : stored (MongoCxx.pool_acquire d p).2 = stored d;
  release_accepts d p c : stored (MongoCxx.pool_release d p c) = stored d;
  dbio_insert_accepts d c db coll doc :
    ∃ d', MongoCxx.insert_one d c db coll doc = (true, d') ∧ stored d' = stored d ++ [doc];
}.

Lemma dbio_insert_at_law stored closed i w :
  dbio_accepting stored closed → is_Some (MongoCxx.pool_ w) →
  ∃ w' (b : bool), dbio_insert_at i w = Ok tt w' ∧ is_Some (MongoCxx.pool_ w')
    ∧ stored (MongoCxx.lib w') = stored (MongoCxx.lib w) ++ (if b then [closed i] else [])
    ∧ O = (O + if b then 0 else 1)%nat.
Proof.
  intros Ha [p Hp]. destruct (MongoCxx.pool_acquire (MongoCxx.lib w) p) as [c d1] eqn:E1.
  pose proof (acquire_accepts _ _ Ha (MongoCxx.lib w) p) as S1. rewrite E1 in S1.
  destruct (dbio_insert_accepts _ _ Ha d1 c "notice111" "sites_1411" (closed i)) as (d2 & E2 & S2).
  exists (MongoCxx.mkDbio (MongoCxx.pool_release d2 p c) (Some p)), true.
  unfold dbio_insert_at, MongoCxx.insert_coll, MongoCxx.with_client_or_throw, MongoCxx.with_client, mbind, M_bind.
  rewrite (close_accepts _ _ Ha). cbn [MongoCxx.or_throw mret M_ret]. rewrite (finalize_accepts _ _ Ha).
  cbn [MongoCxx.or_throw mret M_ret]. rewrite Hp, E1, E2. cbn [MongoCxx.lib MongoCxx.pool_].
  split_and!; [reflexivity|by eexists| |done]. cbn [MongoCxx.lib].
  cbn [snd] in S1. by rewrite (release_accepts _ _ Ha), S2, S1.
Qed.
End Code.
End MongoCxxMain.

(** ** acl-redis-test/src/mian.cpp *)

Module AclMain.
Section Code.
Context {D : Type} `{AclRedis.Acl D}.

Definition acl_setup : M (AclRedis.RedisConn D) bool :=
  AclRedis.Manage_InitPool "192.168.0.212:6379" 30 20 20.

(** A turn of a thread: [printf("...%s", rets)] is given the string object. *)
Definition acl_turn : M (AclRedis.RedisConn D) unit :=
  _ ← AclRedis.Manage_HGet "user:base" "DE61F1EF-FC53-968F-118A-9378CE037D85@1569505695714" EmptyString;
  throw BadFormat.

(** test(): a pool of its own, and one command; [get_count] is only read.  Messages
    are left out. *)
Definition acl_test (d : D) : D :=
  let '(pool, d) := AclRedis.redis_client_pool d "192.168.0.172:6379" 20 in
  let d := AclRedis.set_timeout d pool 20 20 in
  let '(conn, d) := AclRedis.peek d pool in
  match conn with
  | None => d
  | Some _ => snd (AclRedis.redis_set d conn "user:base" "test_value")
  end.
End Code.
End AclMain.

(** ** Reading back *)

Lemma pretty_N_go_no_nul x s : no_nul s → no_nul (pretty_N_go x s).
Proof.
  unfold no_nul. revert s. induction (N.lt_wf_0 x) as [x _ IH]. intros s Hs.
  destruct (decide (x = 0)%N) as [->|Hx]; [by rewrite pretty_N_go_0|].
  rewrite pretty_N_go_step by lia. apply IH; [apply N.div_lt; lia|].
  unfold pretty_N_char. by repeat case_match; cbn [cstr]; rewrite Hs.
Qed.

Lemma pretty_no_nul i : no_nul (pretty (Z.of_nat i)).
Proof.
  destruct i as [|i]; [done|].
  change (pretty (Z.of_nat (Datatypes.S i))) with (pretty (N.pos (Pos.of_succ_nat i))).
  unfold pretty, pretty_N. rewrite decide_False by done. by apply pretty_N_go_no_nul.
Qed.

Lemma GetRecord_doc_at i : GetRecord (MongoMain.doc_at i) [] = [notice_at i].
Proof.
  assert (∀ k v, notice_at i !! k = Some v → no_nul k ∧ no_nul v) as Hn.
  { intros k v. unfold notice_at, notice. rewrite !lookup_insert_Some, lookup_singleton_Some.
    intros [[<- <-]|[_ [[<- <-]|[_ [<- <-]]]]]; [|by split; vm_compute..].
    split; [done|apply pretty_no_nul]. }
  unfold GetRecord, MongoMain.doc_at. rewrite map_record by exact Hn.
  destruct (Nat.ltb_spec (size (notice_at i)) 1) as [Hlt|]; [|done].
  assert (notice_at i = ∅) as E by (apply map_size_empty_inv; lia).
  pose proof (lookup_insert_eq notice "id" (pretty (Z.of_nat i))) as El. unfold notice_at in E.
  by rewrite E in El.
Qed.

Lemma length_flat_map_inserted {A} (f : nat → A) ts :
  length (flat_map (λ n, f <$> seq 0 n) ts) = sum_list ts.
Proof.
  induction ts as [|t ts IH]; [done|]. cbn [flat_map sum_list]. by rewrite length_app, length_fmap, length_seq, IH.
Qed.

(** Documents of the threads' turns, read back. *)
Lemma submseteq_read docs ts :
  docs ⊆+ flat_map (inserted MongoMain.doc_at) ts →
  (docs ≫= λ doc, GetRecord doc []) ⊆+ flat_map (λ n, notice_at <$> seq 0 n) ts
  ∧ length (docs ≫= λ doc, GetRecord doc []) = length docs.
Proof.
  assert (∀ ixs : list nat, (MongoMain.doc_at <$> ixs) ≫= (λ doc, GetRecord doc []) = notice_at <$> ixs) as Hread.
  { induction ixs as [|i ixs IH]; [done|].
    by rewrite !fmap_cons, bind_cons, IH, GetRecord_doc_at. }
  assert (flat_map (inserted MongoMain.doc_at) ts = MongoMain.doc_at <$> flat_map (seq 0) ts) as ->.
  { induction ts as [|t ts IH]; [done|]. cbn [flat_map]. by rewrite fmap_app, IH. }
  assert (flat_map (λ n, notice_at <$> seq 0 n) ts = notice_at <$> flat_map (seq 0) ts) as ->.
  { induction ts as [|t ts IH]; [done|]. cbn [flat_map]. by rewrite fmap_app, IH. }
  intros Hsub. split.
  - rewrite <- Hread. apply submseteq_Permutation in Hsub as [k Hk].
    rewrite Hk, bind_app. by apply submseteq_inserts_r.
  - assert (∀ doc, doc ∈ docs → ∃ i, doc = MongoMain.doc_at i) as Hin.
    { intros doc Hd. apply (elem_of_submseteq _ _ _ Hd) in Hsub.
      apply list_elem_of_fmap in Hsub as (i & -> & _). by exists i. }
    clear Hsub. induction docs as [|doc docs IH]; [done|]. rewrite bind_cons, length_app.
    destruct (Hin doc) as [i ->]; [by left|]. rewrite GetRecord_doc_at, IH; [done|].
    intros doc' Hd. apply Hin. by right.
Qed.


(** ** Properties *)

(** C33: Whatever the order in which the 150 threads and the task of the pool insert, with
    a pool of at least one client: what the server has stored is, read back with
    GetRecord, records of the turns that the threads have done, one for each turn but
    for those that the server refused; every client is back in the pool, and every
    thread can insert its next record. *)
Theorem mongo_threads_insert_everything {D : Type} `{Mongoc D} size out (stored : D → list bson) refused w w' ts :
  (0 < size)%nat → MongoMain.bounded_pool size out stored refused → MongoMain.at_rest out w →
  stored (lib w) = [] → refused (lib w) = O →
  star (step MongoMain.insert_at TURNS) (w, MongoMain.mongo_threads) (w', ts) →
  let records := stored (lib w') ≫= λ doc, GetRecord doc [] in
  records ⊆+ flat_map (λ n, (λ i : nat, <["id" := pretty (Z.of_nat i)]> notice) <$> seq 0 n) ts
  ∧ (length records + refused (lib w') = sum_list ts)%nat
  ∧ out (lib w') = O
  ∧ ∀ i, ∃ w'', MongoMain.insert_at i w' = Ok tt w''.
Proof.
  intros Hsz Hb Hr H0 Hr0 Hs. pose proof (λ i w, MongoMain.insert_at_law size out stored refused i w Hsz Hb) as Hlaw.
  destruct (threads_stored MongoMain.insert_at MongoMain.doc_at (λ w, stored (lib w)) (λ w, refused (lib w))
    (MongoMain.at_rest out) Hlaw _ _ _ _ _ Hs Hr) as ([Hp' Ho'] & Hst & Hlen).
  - cbn beta. rewrite H0. apply submseteq_nil_l.
  - cbn beta. by rewrite H0, Hr0.
  - pose proof (submseteq_read (stored (lib w')) ts Hst) as (Hsub & Hl).
    split_and!; [exact Hsub|cbn beta in *; lia|done|].
    intros i. destruct (Hlaw i w' (conj Hp' Ho')) as (w'' & b & E & _). by exists w''.
Qed.

(** So it is in the program on mongocxx, where an insertion that fails throws. *)
Theorem dbio_threads_insert_everything {D : Type} `{MongoCxx.Mongocxx D} (stored : D → list bson) closed w w' ts :
  MongoCxxMain.dbio_accepting stored closed → is_Some (MongoCxx.pool_ w) → stored (MongoCxx.lib w) = [] →
  star (step MongoCxxMain.dbio_insert_at TURNS) (w, MongoCxxMain.dbio_threads) (w', ts) →
  stored (MongoCxx.lib w') ≡ₚ flat_map (λ n, closed <$> seq 0 n) ts
  ∧ ∀ i, ∃ w'', MongoCxxMain.dbio_insert_at i w' = Ok tt w''.
Proof.
  intros Ha Hp H0 Hs.
  pose proof (λ i w, MongoCxxMain.dbio_insert_at_law stored closed i w Ha) as Hlaw.
  destruct (threads_stored MongoCxxMain.dbio_insert_at closed (λ w, stored (MongoCxx.lib w)) (λ _, O)
    (λ w, is_Some (MongoCxx.pool_ w)) Hlaw _ _ _ _ _ Hs Hp) as (Hp' & Hst & Hlen).
  - cbn beta. rewrite H0. apply submseteq_nil_l.
  - cbn beta. by rewrite H0.
  - split.
    + apply submseteq_length_Permutation; [exact Hst|].
      rewrite length_flat_map_inserted. cbn beta in *. lia.
    + intros i. destruct (Hlaw i w' Hp') as (w'' & b & E & _). by exists w''.
Qed.

(** A thread that runs alone stores its 200000 records in order, but for those refused. *)
Theorem thread_inserts_in_order {D : Type} `{Mongoc D} size out (stored : D → list bson) refused w :
  (0 < size)%nat → MongoMain.bounded_pool size out stored refused → MongoMain.at_rest out w →
  ∃ w' docs, MongoMain.threadFun w = Ok tt w' ∧ stored (lib w') = stored (lib w) ++ docs
    ∧ docs `sublist_of` (MongoMain.doc_at <$> seq 0 TURNS)
    ∧ (length docs + refused (lib w') = TURNS + refused (lib w))%nat.
Proof.
  intros Hsz Hb Hr.
  exact (loop_stored MongoMain.insert_at MongoMain.doc_at (λ w, stored (lib w)) (λ w, refused (lib w))
    (MongoMain.at_rest out) (λ i w, MongoMain.insert_at_law size out stored refused i w Hsz Hb) TURNS 0%nat w Hr).
Qed.

(** test() of acl-redis-test keeps the connection that it took. *)
Theorem acl_test_keeps_a_connection {D : Type} `{AclRedis.AclLaws D} (d : D) :
  let '(pool, d1) := AclRedis.redis_client_pool d "192.168.0.172:6379" 20 in
  let '(conn, d2) := AclRedis.peek (AclRedis.set_timeout d1 pool 20 20) pool in
  AclRedis.taken (AclMain.acl_test d) = AclRedis.taken d + match conn with Some _ => 1 | None => 0 end.
Proof.
  unfold AclMain.acl_test. pose proof (AclRedis.pool_law d "192.168.0.172:6379" 20) as Hp.
  destruct (AclRedis.redis_client_pool d _ _) as [pool d1]. simpl in Hp.
  pose proof (AclRedis.set_timeout_law d1 pool 20 20) as Ht.
  destruct (AclRedis.peek _ pool) as [conn d2] eqn:E. apply AclRedis.peek_law in E.
  destruct conn; [rewrite AclRedis.set_law|]; lia.
Qed.

(** A thread of the program on acl does not survive its first turn, whatever redis
    answers: it prints a string object with %s. *)
Theorem acl_thread_fails {D : Type} `{AclRedis.Acl D} (w : AclRedis.RedisConn D) p :
  AclRedis.pool_ w = Some p → AclMain.acl_turn w = Fault BadFormat.
Proof.
  intros Hp. unfold AclMain.acl_turn, AclRedis.Manage_HGet, AclRedis.HGet, AclRedis.the_pool, AclRedis.acall,
    mbind, M_bind. rewrite Hp. cbn [AclRedis.lib AclRedis.pool_]. rewrite ?Hp.
  destruct (AclRedis.peek _ _) as [conn d1]. cbn [AclRedis.lib AclRedis.pool_].
  destruct (AclRedis.redis_hget _ _ _ _) as [[s|] d2]; reflexivity.
Qed.

(** ** Instances *)

(** A server that keeps what it is sent, and a pool of one client, with the number of
    those that are out. *)
Abbreviation kept := (list bson).

#[export] Instance kept_Mongoc : Mongoc (nat * kept) := {|
  mongoc_uri_new d url := (Some 1%nat, d);
  mongoc_client_pool_new d uri := (Some 2%nat, d);
  mongoc_client_pool_destroy d p := d;
  mongoc_uri_destroy d u := d;
  mongoc_cleanup d := d;
  mongoc_client_pool_pop d p := if (d.1 <? 1)%nat then (Some 3%nat, (S d.1, d.2)) else (None, d);
  mongoc_client_pool_push d p c := (Nat.pred d.1, d.2);
  mongoc_collection_insert d c db coll doc :=
    (true, (d.1, d.2 ++ [doc]));
  mongoc_collection_remove d c db coll doc := (true, d);
  mongoc_collection_update d c db coll q doc := (true, d);
  mongoc_collection_insert_many d c db coll docs := (true, d);
  mongoc_collection_find d c db coll q f := (4%nat, d);
  mongoc_cursor_error d cur := false;
  mongoc_cursor_more d cur := false;
  mongoc_cursor_next d cur := ((false, None), d);
  mongoc_cursor_destroy d cur := d;
|}.

#[local] Existing Instance MongoCxx.docs_Mongocxx.
#[local] Existing Instance AclRedis.refusing_Acl.

Lemma kept_bounded : MongoMain.bounded_pool (D := nat * kept) 1 fst snd (λ _, O).
Proof.
  constructor; simpl.
  - intros [o d] p Ho. simpl in *. rewrite (proj2 (Nat.ltb_lt _ _)) by done.
    exists 3%nat, (S o, d). done.
  - done.
  - by intros d c db coll doc b d' [= <- <-].
Qed.

Definition kept_start : mongo (nat * kept) := mkMongo (O, []) (Some 2%nat) (Some 1%nat).

Lemma kept_rest : MongoMain.at_rest fst kept_start.
Proof. split; [by eexists|done]. Qed.

Lemma docs_accepting :
  MongoCxxMain.dbio_accepting (D := kept) (λ d, d) (λ i, MongoCxx.append_entries [] (notice_at i)).
Proof. constructor; simpl; eauto. Qed.

Definition docs_start : MongoCxx.dbio kept := MongoCxx.mkDbio [] (Some 0%nat).

(** Thread 3, and then thread 7, has inserted its first record. *)
Lemma mongo_threads_insert_everything_witness :
  ∃ w', star (step MongoMain.insert_at TURNS) (kept_start, MongoMain.mongo_threads)
          (w', <[7%nat := 1%nat]> (<[3%nat := 1%nat]> MongoMain.mongo_threads))
    ∧ length (snd (lib w') ≫= λ doc, GetRecord doc []) = 2%nat ∧ fst (lib w') = O.
Proof.
  pose proof (λ w, MongoMain.insert_at_law 1 fst snd (λ _, O) 0%nat w ltac:(lia) kept_bounded) as Hlaw.
  destruct (Hlaw kept_start kept_rest) as (w1 & b1 & E1 & Hr1 & _).
  destruct (Hlaw w1 Hr1) as (w2 & b2 & E2 & _).
  assert (star (step MongoMain.insert_at TURNS) (kept_start, MongoMain.mongo_threads)
    (w2, <[7%nat := 1%nat]> (<[3%nat := 1%nat]> MongoMain.mongo_threads))) as Hs.
  { eapply star_step; [apply (step_insert _ _ 3%nat 0%nat); [reflexivity|unfold TURNS; lia|exact E1]|].
    eapply star_step; [apply (step_insert _ _ 7%nat 0%nat); [reflexivity|unfold TURNS; lia|exact E2]|].
    apply star_refl. }
  exists w2. split; [exact Hs|].
  destruct (mongo_threads_insert_everything 1 fst snd (λ _, O) kept_start w2 _ ltac:(lia) kept_bounded
    kept_rest eq_refl eq_refl Hs) as (_ & Hl & Ho & _).
  split; [|exact Ho]. rewrite Nat.add_0_r in Hl. rewrite Hl. reflexivity.
Defined.

Lemma dbio_threads_insert_everything_witness :
  docs_start.(MongoCxx.lib) = [] ∧ ∀ i, ∃ w'', MongoCxxMain.dbio_insert_at i docs_start = Ok tt w''.
Proof.
  split; [reflexivity|].
  apply (dbio_threads_insert_everything (λ d, d) (λ i, MongoCxx.append_entries [] (notice_at i))
    docs_start docs_start MongoCxxMain.dbio_threads docs_accepting ltac:(by eexists) eq_refl).
  apply star_refl.
Defined.

Lemma thread_inserts_in_order_witness :
  ∃ w' docs, MongoMain.threadFun kept_start = Ok tt w' ∧ snd (lib w') = docs ∧ length docs = TURNS.
Proof.
  destruct (thread_inserts_in_order 1 fst snd (λ _, O) kept_start ltac:(lia) kept_bounded kept_rest)
    as (w' & docs & E & Hd & _ & Hl).
  exists w', docs. split_and!; [exact E|exact Hd|]. by rewrite !Nat.add_0_r in Hl.
Defined.

Lemma acl_thread_fails_witness : AclMain.acl_turn (AclRedis.mkConn 3 (Some 0%nat)) = Fault BadFormat.
Proof. exact (acl_thread_fails (AclRedis.mkConn 3 (Some 0%nat)) 0%nat eq_refl). Defined.
