(* ===== verification/MongoDriver.v ===== *)
(** * mongo-cxx-test/inc/mongo_driver.h

    [testPool] fills a database from the threads that it starts, which share two
    counters without a lock: a thread alone is a routine, and among the others the
    loads and stores of the counters are the steps of a relation.  [driver_test] is
    test(), which no main calls; [client_new] and [insert] are mongocxx.  Messages
    are left out. *)

From S2P Require Import Prelude Mongo CxxClients.

Definition driver_doc : bson :=
  [("msg_id", BSON_TYPE_UTF8 "AE216416-35D5-11EA-AC7C-408D5CC95D15");
   ("msg_data", BSON_TYPE_UTF8 "content-length: 78                 content - type: Text / Btf                msgflag : 0                msgtype : 0                receive - users : 1105; user90105                senddate : 1578900246501172                senderid : 1104                sendername : user90104                senderssid : 024A5517 - 7AA5 - B123 - 7A15 - 7FEC34CE1D6C                subject : qwe                                <BTF><Font name = '宋体' size = '15' clr = '0' flags = '1' / ><Text>qwe< / Text>< / BTF>")].

Section Code.
Context {D : Type} `{MongoCxx.Mongocxx D}.

(** The counters [num] and [sumnumber]; a thread alone. *)
Record counters : Type := mkCounters { db : D; num : Z; sumnumber : Z }.

Definition insert_one (c : MongoCxx.client) (dbname collname : string) : M counters unit := λ s,
  let '(ok, d) := MongoCxx.insert_one (db s) c dbname collname driver_doc in
  if (ok : bool) then Ok tt (mkCounters d (num s) (sumnumber s)) else Fault UncaughtException.

Lemma insert_one_run c dbname collname s :
  (∀ d c db coll doc, (MongoCxx.insert_one d c db coll doc).1 = true) →
  ∃ d, insert_one c dbname collname s = Ok tt (mkCounters d (num s) (sumnumber s)).
Proof.
  intros Hok. unfold insert_one. specialize (Hok (db s) c dbname collname driver_doc).
  destruct (MongoCxx.insert_one _ _ _ _ _) as [ok d]. simpl in Hok. subst ok. by exists d.
Qed.

(** [num] and [sumnumber] are signed. *)
Definition count3 : M counters unit := λ s,
  if (num s + 3 <? 2 ^ 31) && (sumnumber s + 3 <? 2 ^ 31)
  then Ok tt (mkCounters (db s) (num s + 3) (sumnumber s + 3)) else Fault IntOverflow.

Definition thread_turn (c : MongoCxx.client) (dbname : string) : M counters unit :=
  insert_one c dbname "notice" ;;
  insert_one c dbname "202004" ;;
  insert_one c dbname "notice_mob" ;;
  count3.

Definition driver_threadFunc (c : MongoCxx.client) (dbname : string) : M counters unit :=
  repeatM (Z.to_nat 100000) (thread_turn c dbname).
End Code.

(** ** The counters among the threads

    They share them without a lock: [num += 3] is
    a load and a store.  A thread is inserting, has loaded [num], is between the
    two additions, or has loaded [sumnumber]. *)
Inductive counting : Type := Inserting | NumLoaded (v : Z) | NumStored | SumLoaded (v : Z).

Record shared : Type := mkShared {
  num_ : Z;
  sum_ : Z;
  num_stores : nat;      (* for the statements only, how often each was stored *)
  sum_stores : nat;
  threads : list counting;
}.

(** A sum that is no [int] is undefined. *)
Inductive count_step : shared → shared → Prop :=
| load_num n m a b ts j :
    ts !! j = Some Inserting →
    count_step (mkShared n m a b ts) (mkShared n m a b (<[j := NumLoaded n]> ts))
| store_num n m a b ts j v :
    ts !! j = Some (NumLoaded v) → v + 3 < 2 ^ 31 →
    count_step (mkShared n m a b ts) (mkShared (v + 3) m (a + 1) b (<[j := NumStored]> ts))
| load_sum n m a b ts j :
    ts !! j = Some NumStored →
    count_step (mkShared n m a b ts) (mkShared n m a b (<[j := SumLoaded m]> ts))
| store_sum n m a b ts j v :
    ts !! j = Some (SumLoaded v) → v + 3 < 2 ^ 31 →
    count_step (mkShared n m a b ts) (mkShared n (v + 3) a (b + 1) (<[j := Inserting]> ts)).

Definition count_start (k : nat) : shared := mkShared 0 0 0 0 (replicate k Inserting).

(** A counter that was stored [n] times. *)
Definition counted (n : nat) (x : Z) : Prop := (if decide (n = 0%nat) then 0 else 3) <= x <= 3 * Z.of_nat n.

(** What a thread has loaded was the counter at some time. *)
Definition loaded_ok (s : shared) (t : counting) : Prop :=
  match t with
  | NumLoaded v => 0 <= v <= 3 * Z.of_nat (num_stores s)
  | SumLoaded v => 0 <= v <= 3 * Z.of_nat (sum_stores s)
  | _ => True
  end.

Definition count_inv (s : shared) : Prop :=
  counted (num_stores s) (num_ s) ∧ counted (sum_stores s) (sum_ s) ∧ Forall (loaded_ok s) (threads s).

Lemma counted_bounds n x : counted n x → 0 <= x <= 3 * Z.of_nat n.
Proof. unfold counted. case_decide; lia. Qed.

Lemma counted_store n v : 0 <= v <= 3 * Z.of_nat n → counted (n + 1) (v + 3).
Proof. unfold counted. case_decide; lia. Qed.

Lemma count_inv_step s s' : count_inv s → count_step s s' → count_inv s'.
Proof.
  intros (Hn & Hm & Hl) Hst. pose proof (counted_bounds _ _ Hn). pose proof (counted_bounds _ _ Hm).
  assert (∀ s1 t, (num_stores s ≤ num_stores s1)%nat → (sum_stores s ≤ sum_stores s1)%nat →
    loaded_ok s t → loaded_ok s1 t) as Hmono by (intros s1 []; simpl; lia).
  destruct Hst as [n m a b ts j Hj|n m a b ts j v Hj Hv|n m a b ts j Hj|n m a b ts j v Hj Hv];
    simpl in *; pose proof (Forall_lookup_1 _ _ _ _ Hl Hj) as Hjl; simpl in Hjl; split_and!; simpl; try done;
    try (by apply counted_store);
    (apply Forall_insert; [eapply Forall_impl; [exact Hl|]; intros t; apply Hmono; simpl; lia|simpl; lia]).
Qed.

(** Threads one after the other, behind [pre]: they load [num], ... *)
Lemma load_all pre k n m a b :
  star count_step (mkShared n m a b (pre ++ replicate k Inserting))
    (mkShared n m a b (pre ++ replicate k (NumLoaded n))).
Proof.
  revert pre. induction k as [|k IH]; intros pre; [apply star_refl|]. simpl.
  eapply star_step; [apply (load_num _ _ _ _ _ (length pre)), list_lookup_middle; done|].
  rewrite insert_app_r_alt, Nat.sub_diag by done. simpl. rewrite !cons_middle, !app_assoc. apply IH.
Qed.

(** ... and, having loaded zero, store it. *)
Lemma store_all pre k n m a b :
  star count_step (mkShared n m a b (pre ++ replicate k (NumLoaded 0)))
    (mkShared (match k with O => n | S _ => 3 end) m (a + k) b (pre ++ replicate k NumStored)).
Proof.
  revert pre n a. induction k as [|k IH]; intros pre n a; [rewrite Nat.add_0_r; apply star_refl|].
  eapply star_step; [apply (store_num _ _ _ _ _ (length pre) 0); [by apply list_lookup_middle|lia]|].
  rewrite insert_app_r_alt, Nat.sub_diag by done. simpl.
  pose proof (IH (pre ++ [NumStored]) 3 (a + 1)%nat) as Hs. rewrite <- !app_assoc in Hs. simpl in Hs.
  replace (a + 1 + k)%nat with (a + S k)%nat in Hs by lia. by destruct k.
Qed.

(** ** [test()] *)

Definition test_doc : bson :=
  [("msg_id", BSON_TYPE_UTF8 "AE216416-35D5-11EA-AC7C-408D5CC95D15");
   ("runboot", BSON_TYPE_UTF8 "content-length: 78 			content - type: Text / Btf			msgflag : 0			msgtype : 0			receive - users : 1105; user90105			senddate : 1578900246501172			senderid : 1104			sendername : user90104			senderssid : 024A5517 - 7AA5 - B123 - 7A15 - 7FEC34CE1D6C			subject : qwe			<BTF><Font name = '宋体' size = '15' clr = '0' flags = '1' / ><Text>qwe< / Text>< / BTF>")].

(** What [insert_one] comes back with: an exception, an optional without a value
    (a write that is not acknowledged), or with one. *)
Inductive insert_result : Type := Thrown | Unacknowledged | Inserted.

Section Test.
Context {D : Type} (client_new : D → string → MongoCxx.client * D).
Context (insert : D → MongoCxx.client → string → string → bson → insert_result * D).

Definition test_insert (c : MongoCxx.client) (collname : string) : M D insert_result := λ d,
  let '(r, d') := insert d c "notice_set" collname test_doc in
  match r with Thrown => Fault UncaughtException | _ => Ok r d' end.

(** [result->inserted_id()] of the first insertion, after the three. *)
Definition test_turn (c : MongoCxx.client) : M D unit :=
  result ← test_insert c "test";
  _ ← test_insert c "test1";
  _ ← test_insert c "test2";
  match result with Unacknowledged => throw NullDeref | _ => mret tt end.

Definition driver_test (turns : nat) : M D Z :=
  c ← (λ d, let '(c, d') := client_new d "mongodb://192.168.0.130:30010" in Ok c d');
  repeatM turns (test_turn c) ;;
  mret 1.

(** The number of its turns. *)
Definition TEST_TURNS : Z := 100000000.

(** What is in the collections, by their names, on a server that acknowledges. *)
Context (stored : D → list (string * bson)).
Context (client_law : ∀ d url, stored (client_new d url).2 = stored d).
Context (insert_law : ∀ d c coll doc,
  ∃ d', insert d c "notice_set" coll doc = (Inserted, d') ∧ stored d' = stored d ++ [(coll, doc)]).

Definition one_turn : list (string * bson) := [("test", test_doc); ("test1", test_doc); ("test2", test_doc)].

Lemma test_insert_run c coll d :
  ∃ d', test_insert c coll d = Ok Inserted d' ∧ stored d' = stored d ++ [(coll, test_doc)].
Proof.
  destruct (insert_law d c coll test_doc) as (d' & E & Hs). exists d'. unfold test_insert. by rewrite E.
Qed.

Lemma test_turn_run c d : ∃ d', test_turn c d = Ok tt d' ∧ stored d' = stored d ++ one_turn.
Proof.
  destruct (test_insert_run c "test" d) as (d1 & E1 & S1).
  destruct (test_insert_run c "test1" d1) as (d2 & E2 & S2).
  destruct (test_insert_run c "test2" d2) as (d3 & E3 & S3).
  exists d3. unfold test_turn. erewrite bind_run by exact E1. erewrite bind_run by exact E2.
  erewrite bind_run by exact E3. split; [done|]. by rewrite S3, S2, S1, <- !app_assoc.
Qed.

(** [test()] puts its document in the three collections, turn after turn. *)
Theorem test_fills_three_collections turns d :
  ∃ d', driver_test turns d = Ok 1 d'
    ∧ stored d' = stored d ++ concat (replicate turns one_turn).
Proof.
  unfold driver_test, mbind at 1, M_bind at 1. rewrite <- (client_law d "mongodb://192.168.0.130:30010").
  destruct (client_new d _) as [c d0]. simpl. clear d. revert d0.
  induction turns as [|turns IH]; intros d; simpl.
  - exists d. by rewrite app_nil_r.
  - destruct (test_turn_run c d) as (d1 & E1 & S1). destruct (IH d1) as (d2 & E2 & S2).
    exists d2. split; [|by rewrite S2, S1, <- app_assoc].
    rewrite <- E2. unfold mbind, M_bind. by rewrite E1.
Qed.
End Test.

(** The loop of testPool that starts threads, with [b = 150] for its condition: the
    threads it has started when it ends. *)
Fixpoint spawn_loop (fuel : nat) (b : Z) (started : nat) : option nat :=
  match fuel with
  | O => None
  | S fuel' =>
      let b := 150 in
      if b =? 0 then Some started else spawn_loop fuel' (b + 1) (S started)
  end.

Definition testPool (fuel : nat) : option Z :=
  match spawn_loop fuel 0 0 with
  | None => None
  | Some started => Some 1
  end.

(** ** Properties *)

(** testPool never gets past the loop that starts its threads: the condition of the
    loop assigns 150 to its variable. *)
Theorem testPool_never_ends fuel : testPool fuel = None.
Proof.
  unfold testPool. generalize 0 at 1, O. induction fuel as [|fuel IH]; intros b n; [done|]. apply IH.
Qed.

(** A thread of testPool whose insertions succeed counts three for each turn, as
    long as the sum is an [int]. *)
Theorem thread_turn_counts {D : Type} `{MongoCxx.Mongocxx D} c dbname (s : counters (D := D)) :
  (∀ d c db coll doc, (MongoCxx.insert_one d c db coll doc).1 = true) →
  match thread_turn c dbname s with
  | Ok _ s' => num s' = num s + 3 ∧ sumnumber s' = sumnumber s + 3
  | Fault e => e = IntOverflow ∧ (2 ^ 31 <= num s + 3 ∨ 2 ^ 31 <= sumnumber s + 3)
  end.
Proof.
  intros Hok. unfold thread_turn.
  destruct (insert_one_run c dbname "notice" s Hok) as [d1 E1].
  erewrite bind_run by exact E1.
  destruct (insert_one_run c dbname "202004" (mkCounters d1 (num s) (sumnumber s)) Hok)
    as [d2 E2]. erewrite bind_run by exact E2. cbn [num sumnumber].
  destruct (insert_one_run c dbname "notice_mob" (mkCounters d2 (num s) (sumnumber s)) Hok)
    as [d3 E3]. erewrite bind_run by exact E3. unfold count3. cbn [num sumnumber].
  destruct (Z.ltb_spec (num s + 3) (2 ^ 31)), (Z.ltb_spec (sumnumber s + 3) (2 ^ 31)); simpl; auto.
Qed.

(** The counters of testPool lose additions: whatever the threads do, each counter
    is at most three for every time that it was stored, and at least three. *)
Theorem counters_are_bounds k s :
  star count_step (count_start k) s →
  counted (num_stores s) (num_ s) ∧ counted (sum_stores s) (sum_ s).
Proof.
  intros Hs. assert (count_inv s) as (Hn & Hm & _); [|done].
  eapply (star_invariant count_step count_inv); [apply count_inv_step|exact Hs|].
  split_and!; [done|done|]. by apply Forall_replicate.
Qed.

(** All of them but one can be: [k] threads have stored [num] once each, and it is
    three. *)
Theorem additions_get_lost k :
  ∃ s, star count_step (count_start k) s ∧ num_stores s = k
    ∧ (k ≠ 0%nat → num_ s = 3).
Proof.
  eexists. split; [eapply star_trans; [apply (load_all [] k 0 0 0 0)|apply store_all]|].
  by destruct k.
Qed.

(** ** Instances *)

#[local] Existing Instance MongoCxx.docs_Mongocxx.

Lemma thread_turn_counts_witness :
  match thread_turn (D := list bson) 0%nat "db" (mkCounters [] 3 3) with
  | Ok _ s' => num s' = 6 | Fault _ => False end.
Proof.
  assert (∀ (d : list bson) c db coll doc, (MongoCxx.insert_one d c db coll doc).1 = true) as Hok by reflexivity.
  exact (proj1 (thread_turn_counts 0%nat "db" (mkCounters [] 3 3) Hok)).
Defined.

(** What the insertions of [test()] leave, in a list. *)
Lemma test_fills_three_collections_witness :
  ∃ d', driver_test (λ (d : list (string * bson)) url, (0%nat, d))
          (λ d c db coll doc, (Inserted, d ++ [(coll, doc)])) 2 [] = Ok 1 d'
    ∧ length d' = 6%nat.
Proof.
  destruct (test_fills_three_collections (λ (d : list (string * bson)) url, (0%nat, d))
    (λ d c db coll doc, (Inserted, d ++ [(coll, doc)])) (λ d, d)) with (turns := 2%nat) (d := @nil (string * bson))
    as (d' & E & Hd); [done|by intros; eexists|]. exists d'. split; [exact E|]. by rewrite Hd.
Defined.
