(* ===== verification/PingPong.v ===== *)
(** * The test client against the echo server (linux_tcp/client.cc, ccnet/example)

    Both use port 8883.  The system is the two programs, each on a kernel of its
    own, and a network that delivers on either side a part of what was sent on the
    other.  The client waits in [recv], so that its turn is two steps, with turns of
    the server's loop in between.  The server is one that has got past the start of its
    thread pool ([acceptor_listen] is the rest of [server.start()]). *)

From S2P Require Import Prelude Kernel Buffer LoopPool Net Poller Connection Server KernelSim.
From S2P Require Import Echo EchoSpec EchoSafe Sockets SocketsSim UnixEcho.

Abbreviation hello_line := TcpClient.hello_line.

(** What is sent when [h] goes round. *)
Definition cyclic (h s : list byte) : Prop :=
  ∀ i b, s !! i = Some b → h !! (i mod length h)%nat = Some b.

Lemma cyclic_prefix h s s' : cyclic h s' → s `prefix_of` s' → cyclic h s.
Proof. intros Hc Hp i b Hi. apply Hc. by eapply prefix_lookup_Some. Qed.

(** A stream that is a head and then a part of itself. *)
Lemma cyclic_self h r : h ≠ [] → r `prefix_of` h ++ r → cyclic h (h ++ r).
Proof.
  intros Hh Hr i. assert (0 < length h)%nat as Hpos by (destruct h; [done|simpl; lia]).
  induction i as [i IH] using lt_wf_ind. intros b Hi.
  destruct (decide (i < length h)%nat) as [Hlt|Hge].
  - rewrite Nat.mod_small by done. by rewrite lookup_app_l in Hi.
  - rewrite lookup_app_r in Hi by lia. replace i with ((i - length h) + 1 * length h)%nat by lia.
    rewrite Nat.Div0.mod_add. apply IH; [lia|]. by eapply prefix_lookup_Some.
Qed.

Section PingPong.
Context {C : Type} `{LibcLaws C} {K : Type} `{KernelLaws chan_ptr K}.
Implicit Types (p : prog C (list byte)) (w : World K).

(** The socket of the client, and the server's descriptor for it. *)
Context (sock fd : Z).

Abbreviation c_sent p := (trace_of (v_sent (k_view (kern p))) sock).
Abbreviation c_recvd p := (trace_of (v_recvd (k_view (kern p))) sock).
Abbreviation s_sent w := (trace_of (v_sent (k_view (w_kernel w))) fd).
Abbreviation s_recvd w := (trace_of (v_recvd (k_view (w_kernel w))) fd).

(** The network makes nothing up. *)
Definition linked p w : Prop := c_recvd p `prefix_of` s_sent w ∧ s_recvd w `prefix_of` c_sent p.

Inductive phase : Type := Sending | Receiving.

(** The two programs, and whether each [send] of the client so far has taken the whole
    of its text. *)
Record talk : Type := mkTalk {
  t_phase : phase;
  t_client : prog C (list byte);
  t_server : World K;
  t_whole : bool;
}.

Definition whole_send p p' : bool := bool_decide (c_sent p' = c_sent p ++ cbytes (own p)).

Inductive talk_step : talk → talk → Prop :=
| client_sends p p' w b :
    TcpClient.tcp_send sock p = Ok tt p' →
    talk_step (mkTalk Sending p w b) (mkTalk Receiving p' w (b && whole_send p p'))
| client_receives p p' w b :
    TcpClient.tcp_receive sock p = Ok tt p' → linked p' w →
    talk_step (mkTalk Receiving p w b) (mkTalk Sending p' w b)
| server_turns ph p w w' b :
    calm w = true → loop_turn w = Ok tt w' → linked p w' →
    talk_step (mkTalk ph p w b) (mkTalk ph p w' b).

(** The text that the client is about to send: no more than the line that it is ahead
    of what it receives, and all of that when nothing was left behind. *)
Definition client_ok ph p (whole : bool) (text : list byte) : Prop :=
  own p = zeroed BUFFER_SIZE text
  ∧ (length (c_sent p ++ text) ≤ length (hello_line ++ c_recvd p))%nat
  ∧ (length text ≤ length hello_line)%nat
  ∧ (Byte.x00 ∉ c_sent p ++ text)
  ∧ (whole = true → c_sent p ++ text = hello_line ++ c_recvd p)
  ∧ (ph = Receiving → text = []).

Definition talk_inv (s : talk) : Prop :=
  Good ∅ (t_server s) ∧ linked (t_client s) (t_server s)
  ∧ ∃ text, client_ok (t_phase s) (t_client s) (t_whole s) text.

Lemma echoed p w : Good ∅ w → linked p w → c_recvd p `prefix_of` c_sent p.
Proof. intros [HI _] [Hl1 Hl2]. etrans; [exact Hl1|]. etrans; [apply (i_prefix w HI)|exact Hl2]. Qed.

Lemma line_fits (text : list byte) : (length text ≤ length hello_line)%nat → (length text < BUFFER_SIZE)%nat.
Proof. change (length hello_line) with 11%nat. unfold BUFFER_SIZE. lia. Qed.

Lemma client_text ph p whole text :
  client_ok ph p whole text → terminated (own p) = true ∧ cbytes (own p) = text.
Proof.
  intros (Ho & _ & Hl & Hz & _). pose proof (line_fits _ Hl) as Hlt. rewrite Ho.
  split; [by apply terminated_zeroed|].
  unfold zeroed. destruct (BUFFER_SIZE - length text)%nat eqn:E; [lia|]. simpl.
  apply cbytes_app_zero. intros Hin. apply Hz, elem_of_app. by right.
Qed.

(** The client sends, unless SIGPIPE ends it. *)
Lemma send_ends p whole text :
  client_ok Sending p whole text → ends (TcpClient.tcp_send sock) p (λ _ p',
    client_ok Receiving p' (whole && whole_send p p') [] ∧ c_sent p `prefix_of` c_sent p' ∧ c_recvd p' = c_recvd p).
Proof.
  intros Hok. destruct (client_text _ _ _ _ Hok) as [Ht Hc].
  destruct Hok as (Ho & Hall & Hl & Hz & Hw & _).
  destruct (sys_sigpipe (kern p) sock) eqn:Hpipe; [unfold ends; by rewrite (tcp_send_killed sock p)|].
  destruct (sys_send (kern p) sock text) as [n k] eqn:Es. apply send_law in Es as Hlaw. destruct Hlaw as [Hn Hv].
  assert (trace_of (v_sent (k_view k)) sock = c_sent p ++ take (Z.to_nat n) text
    ∧ trace_of (v_recvd (k_view k)) sock = c_recvd p) as (E1 & E2).
  { rewrite Hv. simpl. by rewrite trace_of_insert_eq. }
  eapply ends_Ok; [eapply tcp_send_run; [done|done|by rewrite Hc]|].
  unfold client_ok, whole_send. cbn [kern own]. rewrite E1, E2, app_nil_r, Hc. split_and!; try done.
  - rewrite !length_app in *. rewrite length_take. lia.
  - simpl. lia.
  - intros Hin. apply Hz. rewrite elem_of_app in Hin |- *. destruct Hin as [?|Hin]; [by left|right].
    by eapply subseteq_take.
  - intros [Hwh Heq%bool_decide_eq_true]%andb_true_iff. rewrite Heq. by apply Hw.
  - by apply prefix_app_r.
Qed.

(** What is received is echoed, so that there is room for it. *)
Lemma receive_ok p whole n data err k :
  client_ok Receiving p whole [] → sys_recv (kern p) sock (Z.of_nat BUFFER_SIZE) = (n, data, err, k) →
  c_recvd p ++ data `prefix_of` c_sent p →
  let p' := mkProg k (zeroed BUFFER_SIZE data) in
  TcpClient.tcp_receive sock p = Ok tt p' ∧ client_ok Sending p' whole data ∧ c_sent p' = c_sent p.
Proof.
  intros (Ho & Hall & _ & Hz & Hs & _) Er Hp. rewrite app_nil_r in Hs, Hz, Hall.
  assert (length data ≤ length hello_line)%nat as Hl.
  { apply prefix_length in Hp. rewrite !length_app in *. lia. }
  apply recv_law in Er as Hlaw; [|lia]. destruct Hlaw as (_ & _ & Hv).
  assert (trace_of (v_sent (k_view k)) sock = c_sent p
    ∧ trace_of (v_recvd (k_view k)) sock = c_recvd p ++ data) as (E1 & E2).
  { rewrite Hv. simpl. by rewrite trace_of_insert_eq. }
  split_and!; [|unfold client_ok; cbn [kern own]; rewrite E1, E2|exact E1].
  - erewrite tcp_receive_run by done. by rewrite terminated_zeroed by by apply line_fits.
  - split_and!; [done| |done| | |done].
    + rewrite !length_app in *. lia.
    + rewrite not_elem_of_app. split; [done|]. intros Hin. apply Hz. destruct Hp as [rest ->].
      rewrite !elem_of_app. auto.
    + intros Hw. by rewrite (Hs Hw), app_assoc.
Qed.

(** A completed receive had some such data. *)
Lemma receive_inv p p' whole :
  client_ok Receiving p whole [] → TcpClient.tcp_receive sock p = Ok tt p' →
  ∃ n data err k, sys_recv (kern p) sock (Z.of_nat BUFFER_SIZE) = (n, data, err, k)
    ∧ c_recvd p' = c_recvd p ++ data.
Proof.
  intros (Ho & _) E. destruct (sys_recv (kern p) sock (Z.of_nat BUFFER_SIZE)) as [[[n data] err] k] eqn:Er.
  erewrite tcp_receive_run in E by done. destruct (terminated _); [|done]. injection E as <-.
  exists n, data, err, k. split; [done|]. cbn [kern].
  apply recv_law in Er as Hlaw; [|lia]. destruct Hlaw as (_ & _ & ->). simpl. by rewrite trace_of_insert_eq.
Qed.

Lemma talk_inv_step s s' : talk_inv s → talk_step s s' → talk_inv s'.
Proof.
  intros Hi Hst. destruct Hst as [p p' w b E|p p' w b E Hlk|ph p w w' b Hcalm E Hlk];
    destruct Hi as (HI & Hl & text & Hc); simpl in *.
  - pose proof (send_ends p b text Hc) as Hs. unfold ends in Hs. rewrite E in Hs.
    destruct Hs as (Hc1 & Hs & Hr). destruct Hl as [Hl1 Hl2].
    split_and!; [done| |by exists []]. split; simpl; [by rewrite Hr|by etrans].
  - assert (text = []) as -> by by apply Hc.
    destruct (receive_inv p p' b Hc E) as (n & data & err & k & Er & Hr).
    assert (c_recvd p ++ data `prefix_of` c_sent p) as Hp.
    { rewrite <- Hr. etrans; [apply Hlk|]. etrans; [apply (i_prefix w (proj1 HI))|apply Hl]. }
    destruct (receive_ok p b n data err k Hc Er Hp) as (E1 & Hc1 & _). rewrite E in E1. injection E1 as ->.
    split_and!; [done|done|by exists data].
  - pose proof (loop_turn_step ∅ w HI Hcalm) as Hturn. unfold runs in Hturn. rewrite E in Hturn.
    split_and!; [done|done|by exists text].
Qed.

(** What the talk is like at any time. *)
Lemma talk_inv_result ph p w b :
  talk_inv (mkTalk ph p w b) →
  c_recvd p `prefix_of` c_sent p
  ∧ (length (c_sent p) ≤ length hello_line + length (c_recvd p))%nat
  ∧ (b = true → cyclic hello_line (c_sent p)).
Proof.
  intros (HI & Hl & text & Hc). cbn [t_phase t_client t_server t_whole] in *. pose proof (echoed p w HI Hl) as He.
  destruct Hc as (_ & Hall & _ & _ & Hs & _). rewrite !length_app in Hall.
  split_and!; [done|lia|]. intros Hb. specialize (Hs Hb).
  apply cyclic_prefix with (hello_line ++ c_recvd p).
  - apply cyclic_self; [done|]. rewrite <- Hs. by apply prefix_app_r.
  - rewrite <- Hs. by apply prefix_app_r.
Qed.

(** The client when its loop begins. *)
Lemma tcp_client_start k buf p0 :
  0 <= sock → (sys_socket k 2).1 = sock → TcpClient.tcp_client 0 (mkProg k buf) = Ok None p0 →
  client_ok Sending p0 true hello_line ∧ c_sent p0 = [].
Proof.
  intros Hs Hsock. unfold TcpClient.tcp_client. destruct (sys_socket k 2) as [fd' k1] eqn:Es.
  simpl in Hsock. subst fd'. erewrite kcall_run by exact Es. cbn [kern own].
  rewrite (proj2 (Z.eqb_neq sock _)) by lia.
  destruct (sys_connect k1 sock TcpClient.addr) as [r k2] eqn:Ec. erewrite kcall_run by exact Ec.
  destruct (r =? -1); [done|]. intros E. injection E as <-.
  apply socket_law in Es as [_ Es]. destruct (Es Hs) as (_ & _ & Hv). apply connect_law in Ec.
  unfold client_ok. cbn [kern own]. rewrite Ec, Hv. simpl. rewrite !trace_of_insert_eq.
  split; [|done]. split_and!; try done. apply (bool_decide_unpack _). vm_compute. exact I.
Qed.
End PingPong.

(** ** Properties *)

(** Both sides can go on: the server in a turn in which its kernel is calm, if memory
    lasts, its clients send nothing that [onMessage] reads past, and no SIGPIPE comes; the
    client, if none comes, with whatever the network delivers. *)
Definition goes_on {C K : Type} `{LibcLaws C} `{KernelLaws chan_ptr K} (sock fd : Z)
    (s : talk (C := C) (K := K)) : Prop :=
  let p := t_client s in
  let w := t_server s in
  (calm w = true →
    match loop_turn w with
    | Ok _ _ => True
    | Fault e => e = OutOfMemory ∨ e = StringOverread ∨ e = Killed
    end)
  ∧ match t_phase s with
    | Sending =>
        match TcpClient.tcp_send sock p with Ok _ _ => True | Fault e => e = Killed end
    | Receiving => ∀ n data err k,
        sys_recv (kern p) sock (Z.of_nat BUFFER_SIZE) = (n, data, err, k) →
        trace_of (v_recvd (k_view (kern p))) sock ++ data `prefix_of` trace_of (v_sent (k_view (w_kernel w))) fd →
        ∃ p', TcpClient.tcp_receive sock p = Ok tt p'
    end.

(** C3: the test client and the echo server together, over a network that cuts and
    delays what it carries in any way: what the client has received is a head of what it
    has sent, which is never more than one line ahead; as long as each of its [send]s
    took the whole text, it sends its line, over and over; and both programs can go on
    at any time ([goes_on] says how each may be stopped). *)
Theorem client_and_server_ping_pong {C K : Type} `{LibcLaws C} `{KernelLaws chan_ptr K}
    sock fd (k1 : C) buf p0 pool port (k2 : K) w0 s :
  0 <= sock → (sys_socket k1 2).1 = sock → TcpClient.tcp_client 0 (mkProg k1 buf) = Ok None p0 →
  fresh_kernel k2 → created (EchoServer_with pool port k2) →
  acceptor_listen (EchoServer_with pool port k2) = Ok tt w0 →
  linked sock fd p0 w0 →
  star (talk_step sock fd) (mkTalk Sending p0 w0 true) s →
  let sent := trace_of (v_sent (k_view (kern (t_client s)))) sock in
  let recvd := trace_of (v_recvd (k_view (kern (t_client s)))) sock in
  recvd `prefix_of` sent
  ∧ (length sent ≤ length hello_line + length recvd)%nat
  ∧ (t_whole s = true → cyclic hello_line sent)
  ∧ goes_on sock fd s.
Proof.
  intros Hs Hsock Hp0 Hf Hc Hw0 Hl Hst. destruct s as [ph p w b]. intros sent recvd.
  destruct (tcp_client_start sock k1 buf p0 Hs Hsock Hp0) as [Hp _].
  pose proof (acceptor_listen_step pool port k2 Hf Hc) as Hw. unfold runs in Hw. rewrite Hw0 in Hw.
  destruct Hw as [HI0 HR0].
  assert (talk_inv sock fd (mkTalk ph p w b)) as Hi.
  { eapply (star_invariant (talk_step sock fd) (talk_inv sock fd)); [by apply talk_inv_step|exact Hst|].
    split_and!; [|done|by eexists]. split; [done|]. exists ∅. split; [constructor|done]. }
  destruct (talk_inv_result sock fd ph p w b Hi) as (H1' & H2' & H3').
  destruct Hi as (HG & Hlk & text & Hok). cbn [t_phase t_client t_server t_whole] in *. split_and!; [done..|].
  split; cbn [t_phase t_client t_server].
  - intros Hcalm. pose proof (loop_turn_step ∅ w HG Hcalm) as Hturn. unfold runs in Hturn.
    by destruct (loop_turn w).
  - destruct ph.
    + pose proof (send_ends sock p b text Hok) as Hsend. unfold ends in Hsend.
      by destruct (TcpClient.tcp_send sock p).
    + intros n data err k Er Hpre. assert (text = []) as -> by by apply Hok.
      destruct (receive_ok sock p b n data err k Hok Er) as (E & _); [|by eexists].
      etrans; [exact Hpre|]. etrans; [apply (i_prefix w (proj1 HG))|apply Hlk].
Qed.

(** ** Instances *)

(** The line comes back in pieces. *)
Definition pieces : sys large :=
  s_boot 0%nat {[3 := [bytes_of "hel"; bytes_of "lowor"]]} [] [].

(** The server gets it at once, and sends three bytes at a time. *)
Definition echoing : sim :=
  sim_boot 1 {[5 := hello_line]} 3 [[(4, EPOLLIN)]; [(5, EPOLLIN)]; [(5, EPOLLOUT)]].

Definition state_of {S A} (d : S) (o : outcome S A) : S := match o with Ok _ s => s | Fault _ => d end.

Definition talker : prog (sys large) (list byte) :=
  state_of (mkProg pieces []) (TcpClient.tcp_client 0 (mkProg pieces [])).
Definition talker_sent := state_of talker (TcpClient.tcp_send 3 talker).
Definition talker_heard := state_of talker (TcpClient.tcp_receive 3 talker_sent).

Definition listening : World sim :=
  state_of (EchoServer_new 8883 echoing) (acceptor_listen (EchoServer_new 8883 echoing)).
Definition server_after (n : nat) : World sim := state_of listening (repeatM n loop_turn listening).

Ltac linked_by_computing := split; apply (bool_decide_unpack _); vm_compute; exact I.

Lemma client_and_server_ping_pong_witness :
  trace_of (v_sent (k_view (kern talker_heard))) 3 = hello_line
  ∧ goes_on 3 5 (mkTalk Sending talker_heard (server_after 3) true).
Proof.
  assert (star (talk_step 3 5) (mkTalk Sending talker listening true)
    (mkTalk Sending talker_heard (server_after 3) true)) as Hs.
  { eapply star_step; [apply (client_sends 3 5 talker talker_sent); vm_compute; reflexivity|].
    replace (true && whole_send 3 talker talker_sent) with true by (vm_compute; reflexivity).
    eapply star_step; [apply (server_turns 3 5 _ _ _ (server_after 1)); [vm_compute; reflexivity|vm_compute; reflexivity|linked_by_computing]|].
    eapply star_step; [apply (server_turns 3 5 _ _ _ (server_after 2)); [vm_compute; reflexivity|vm_compute; reflexivity|linked_by_computing]|].
    eapply star_step; [apply (server_turns 3 5 _ _ _ (server_after 3)); [vm_compute; reflexivity|vm_compute; reflexivity|linked_by_computing]|].
    eapply star_step; [apply (client_receives 3 5 _ talker_heard); [vm_compute; reflexivity|linked_by_computing]|].
    apply star_refl. }
  split; [vm_compute; reflexivity|].
  assert (fresh_kernel echoing) as Hf.
  { split; [|done]. intros fd. simpl. rewrite !elem_of_union, !elem_of_singleton, elem_of_empty. lia. }
  apply (client_and_server_ping_pong 3 5 pieces [] talker
    (Pool.setThreadNum 4 (Pool.EventLoopThreadPool_new MAIN_LOOP)) 8883 echoing listening
    (mkTalk Sending talker_heard (server_after 3) true)).
  - lia.
  - vm_compute. reflexivity.
  - vm_compute. reflexivity.
  - exact Hf.
  - split; by vm_compute.
  - vm_compute. reflexivity.
  - linked_by_computing.
  - exact Hs.
Defined.
