(* ===== verification/Trials.v ===== *)
(** * Small programs (test, listen_test, linux_tcp/fileio.cpp and testasm.cc)

    [Words] is the vector function of test/inc/solution.hpp, [Constants] the mains that
    only return a number, [FileIO] the two
    functions of fileio.cpp over streams as C++11 has them, [Listen] the main of
    listen_test.  What is printed for the user only is left out. *)

From S2P Require Import Prelude Kernel Sockets SocketsSim.

(** ** test/inc/solution.hpp *)

Module Words.

(** The loop at the iterator [i]: [erase] returns the place of the next element,
    which [itor++] then passes over; at the end there is nothing to pass. *)
Fixpoint replace_loop (fuel : nat) (words : list string) (i : nat) : fault + list string :=
  match fuel with
  | O => inl OutOfFuel
  | S fuel' =>
      if (i =? length words)%nat then inr words
      else
        let words := delete i words in
        if (i =? length words)%nat then inl OutOfBounds
        else replace_loop fuel' words (S i)
  end.

Definition findAndReplacePattern (words : list string) (pattern : string) : fault + list string :=
  replace_loop (S (length words)) words 0.

(** Every second element. *)
Fixpoint seconds {A} (l : list A) : list A :=
  match l with
  | _ :: y :: l' => y :: seconds l'
  | _ => []
  end.

Lemma replace_loop_spec fuel kept rest :
  (length rest < fuel)%nat →
  replace_loop fuel (kept ++ rest) (length kept)
  = if Nat.even (length rest) then inr (kept ++ seconds rest) else inl OutOfBounds.
Proof.
  revert kept rest. induction fuel as [|fuel IH]; intros kept rest Hf; [lia|].
  cbn [replace_loop]. rewrite length_app. destruct rest as [|x rest].
  - rewrite Nat.add_0_r, Nat.eqb_refl. done.
  - rewrite (proj2 (Nat.eqb_neq _ _)) by (simpl; lia).
    replace (delete (length kept) (kept ++ x :: rest)) with (kept ++ rest) by (by rewrite delete_middle).
    rewrite length_app. destruct rest as [|y rest].
    + by rewrite Nat.add_0_r, Nat.eqb_refl.
    + rewrite (proj2 (Nat.eqb_neq _ _)) by (simpl; lia).
      replace (kept ++ y :: rest) with ((kept ++ [y]) ++ rest) by (by rewrite <- app_assoc).
      replace (S (length kept)) with (length (kept ++ [y])) by (rewrite length_app; simpl; lia).
      rewrite IH by (simpl in *; lia). simpl. by rewrite <- app_assoc.
Qed.

(** The loop erases the first of each two words, whatever the pattern is, and steps
    past the end of the vector when their number is odd. *)
Theorem findAndReplacePattern_keeps_seconds words pattern :
  findAndReplacePattern words pattern
  = if Nat.even (length words) then inr (seconds words) else inl OutOfBounds.
Proof. apply (replace_loop_spec _ [] words). lia. Qed.
End Words.

(** ** linux_tcp/testasm.cc and test/src/main.cpp *)

Module Constants.

(** A sum that is no [int] is undefined. *)
Definition add_a_and_b (a b : Z) : fault + Z :=
  if bool_decide (- 2 ^ 31 <= a + b < 2 ^ 31) then inr (a + b) else inl IntOverflow.

Definition asm_main : fault + Z := add_a_and_b 2 3.

Definition test_main : Z := -1.

Example asm_main_5 : asm_main = inr 5.
Proof. reflexivity. Qed.
End Constants.

(** ** linux_tcp/fileio.cpp *)

Module FileIO.

(** An input stream: what is still to be read, and [good()]. *)
Record istream : Type := mkStream { rest : list byte; good : bool }.

Definition newline : byte := Byte.x0a.

(** std::isspace *)
Definition space (b : byte) : bool :=
  let n := byte_Z b in (n =? 32) || ((9 <=? n) && (n <=? 13)).

Fixpoint skip_spaces (l : list byte) : list byte :=
  match l with
  | b :: l' => if space b then skip_spaces l' else l
  | [] => []
  end.

Fixpoint word (l : list byte) : list byte * list byte :=
  match l with
  | b :: l' => if space b then ([], l) else let '(w, r) := word l' in (b :: w, r)
  | [] => ([], [])
  end.

(** [in >> data] for a character array: what is extracted, if anything is; a
    stream that is not good, or has only spaces left, stores nothing. *)
Definition extract (s : istream) : option (list byte) * istream :=
  if good s then
    match skip_spaces (rest s) with
    | [] => (None, mkStream [] false)
    | l => let '(w, r) := word l in (Some w, mkStream r (negb (bool_decide (r = []))))
    end
  else (None, s).

(** [in.getline(data, room + 1)]: the characters stored, what is left, and whether
    the stream is still good; the end of the line is taken out of the stream. *)
Fixpoint line (room : nat) (l : list byte) {struct l} : list byte * istream :=
  match l with
  | [] => ([], mkStream [] false)
  | b :: l' =>
      if bool_decide (b = newline) then ([], mkStream l' true)
      else
        match room with
        | O => ([], mkStream l false)
        | S room' => let '(t, s) := line room' l' in (b :: t, s)
        end
  end.

Definition getline (size : nat) (s : istream) : list byte * istream :=
  if good s then line (size - 1) (rest s) else ([], s).

(** [in.ignore()] *)
Definition ignore (s : istream) : istream :=
  if good s then match rest s with [] => mkStream [] false | _ :: l => mkStream l true end else s.

Definition DATA : nat := 100.

(** [in >> data], where [data] has [DATA] characters and holds a string before:
    the extraction does not know the size of the array. *)
Definition extract_into (data : option (list byte)) (s : istream) : fault + option (list byte) * istream :=
  match extract s with
  | (Some w, s') => if (length w <? DATA)%nat then inr (Some w, s') else inl OutOfBounds
  | (None, s') => inr (data, s')
  end.

(** [out << data << std::endl], as what is added to the output. *)
Definition put_line (data : option (list byte)) : fault + list byte :=
  match data with
  | Some t => inr (cbytes t ++ [newline])
  | None => inl UninitRead
  end.

(** writefile() with [file] in text.txt, which is opened to append: the new file. *)
Definition writefile (cin : istream) (file : list byte) : fault + list byte * istream :=
  let '(data, cin) := getline DATA cin in
  match put_line (Some data) with
  | inl e => inl e
  | inr name =>
      match extract_into (Some data) cin with
      | inl e => inl e
      | inr (data, cin) =>
          match put_line data with
          | inl e => inl e
          | inr age => inr (file ++ name ++ age, ignore cin)
          end
      end
  end.

(** readfile(): the two lines that it prints. *)
Definition readfile (file : list byte) : fault + list byte * list byte :=
  match extract_into None (mkStream file true) with
  | inl e => inl e
  | inr (data, infile) =>
      match put_line data with
      | inl e => inl e
      | inr l1 =>
          match extract_into data infile with
          | inl e => inl e
          | inr (data, infile) =>
              match put_line data with
              | inl e => inl e
              | inr l2 => inr (l1, l2)
              end
          end
      end
  end.

(** A word that fits: no spaces, no zero, and not empty. *)
Definition proper (w : list byte) : Prop :=
  Forall (λ b, space b = false ∧ b ≠ Byte.x00) w ∧ (0 < length w < DATA)%nat.

Lemma word_app w b l : Forall (λ b, space b = false ∧ b ≠ Byte.x00) w → space b = true → word (w ++ b :: l) = (w, b :: l).
Proof.
  induction 1 as [|c w [Hc _] _ IH]; intros Hb; simpl; [by rewrite Hb|]. by rewrite Hc, IH.
Qed.

Lemma extract_proper w l :
  proper w → extract (mkStream (w ++ newline :: l) true) = (Some w, mkStream (newline :: l) true).
Proof.
  intros [Hw Hl]. pose proof (word_app w newline l Hw eq_refl) as E. unfold extract. cbn [good rest].
  destruct w as [|c w]; [simpl in *; lia|]. apply Forall_cons in Hw as [[Hc _] _].
  cbn [app skip_spaces] in *. rewrite Hc. by rewrite E.
Qed.

Lemma extract_newline w l :
  proper w → extract (mkStream (newline :: w ++ newline :: l) true) = (Some w, mkStream (newline :: l) true).
Proof. intros Hw. rewrite <- (extract_proper w l Hw). reflexivity. Qed.

Lemma line_proper room w l :
  Forall (λ b, space b = false ∧ b ≠ Byte.x00) w → (length w ≤ room)%nat →
  line room (w ++ newline :: l) = (w, mkStream l true).
Proof.
  intros Hw. revert room. induction Hw as [|c w [Hc _] _ IH]; intros room Hl.
  - by destruct room.
  - simpl. rewrite bool_decide_false by (intros ->; discriminate Hc).
    destruct room as [|room]; simpl in Hl; [lia|]. by rewrite IH by lia.
Qed.

Lemma cbytes_proper w : Forall (λ b, space b = false ∧ b ≠ Byte.x00) w → cbytes w = w.
Proof. induction 1 as [|c w [_ Hc] _ IH]; simpl; [done|]. by rewrite bool_decide_false, IH. Qed.

Lemma extract_into_proper data s w s' :
  extract s = (Some w, s') → proper w → extract_into data s = inr (Some w, s').
Proof. intros E [_ Hl]. unfold extract_into. rewrite E. by rewrite (proj2 (Nat.ltb_lt _ _)) by lia. Qed.

Lemma readfile_proper name age l :
  proper name → proper age →
  readfile (name ++ newline :: age ++ newline :: l) = inr (name ++ [newline], age ++ [newline]).
Proof.
  intros Hn Ha. unfold readfile.
  rewrite (extract_into_proper _ _ name _ (extract_proper _ _ Hn) Hn).
  cbn [put_line]. rewrite (extract_into_proper _ _ age _ (extract_newline _ _ Ha) Ha).
  cbn [put_line]. by rewrite !cbytes_proper by (by apply Hn || by apply Ha).
Qed.

Lemma writefile_proper name age l file :
  proper name → proper age →
  writefile (mkStream (name ++ newline :: age ++ newline :: l) true) file
  = inr (file ++ name ++ newline :: age ++ [newline], mkStream l true).
Proof.
  intros Hn Ha. unfold writefile, getline. cbn [good rest]. rewrite line_proper by first [by apply Hn|destruct Hn; unfold DATA in *; simpl; lia].
  cbn [put_line]. rewrite (extract_into_proper _ _ age _ (extract_proper _ _ Ha) Ha).
  cbn [put_line ignore good rest]. rewrite !cbytes_proper by (by apply Hn || by apply Ha).
  by rewrite <- !app_assoc.
Qed.

(** What [writefile] writes for a name and an age. *)
Definition entry (name age : list byte) : list byte := name ++ newline :: age ++ [newline].

(** C30: A name and an age, each one word of less than 100 characters without spaces:
    [writefile] leaves the file as it was with their two lines behind it.  [readfile]
    prints them when they are all that the file has; when the file begins with an older
    entry, it prints that one. *)
Theorem fileio_round_trip name age file :
  proper name → proper age →
  (∃ cin, writefile (mkStream (entry name age) true) file = inr (file ++ entry name age, cin))
  ∧ readfile (entry name age) = inr (name ++ [newline], age ++ [newline])
  ∧ ∀ name0 age0 more, proper name0 → proper age0 → file = entry name0 age0 ++ more →
      readfile (file ++ entry name age) = inr (name0 ++ [newline], age0 ++ [newline]).
Proof.
  intros Hn Ha. unfold entry. split_and!.
  - eexists. by apply writefile_proper.
  - by apply readfile_proper.
  - intros name0 age0 more Hn0 Ha0 ->. rewrite <- !app_assoc. cbn [app]. rewrite <- !app_assoc.
    by apply readfile_proper.
Qed.

(** A name of two words is written whole, and read back as a name and an age. *)
Example two_words :
  let file := bytes_of "ann lee" ++ newline :: bytes_of "40" ++ [newline] in
  (∃ cin, writefile (mkStream file true) [] = inr (file, cin))
  ∧ readfile file = inr (bytes_of "ann" ++ [newline], bytes_of "lee" ++ [newline]).
Proof. split; [eexists; vm_compute; reflexivity|vm_compute; reflexivity]. Qed.

(** A name of 100 characters or more leaves the stream failed: the part of it that
    was stored is written for the age too. *)
Theorem long_name_is_the_age name age file :
  Forall (λ b, space b = false ∧ b ≠ Byte.x00) name → (DATA ≤ length name)%nat →
  ∃ cin, writefile (mkStream (name ++ newline :: age) true) file
    = inr (file ++ (take 99 name ++ [newline]) ++ (take 99 name ++ [newline]), cin).
Proof.
  intros Hw Hl. unfold writefile, getline. cbn [good rest].
  assert (∀ room w l, Forall (λ b, space b = false ∧ b ≠ Byte.x00) w → (room < length w)%nat →
    ∃ l', line room (w ++ l) = (take room w, mkStream l' false)) as Hfull.
  { clear. intros room. induction room as [|room IH]; intros w l Hw Hl;
      (destruct Hw as [|c w [Hc _] Hw]; [simpl in Hl; lia|]); simpl;
      rewrite bool_decide_false by (intros ->; discriminate Hc); [by eexists|].
    destruct (IH w l Hw) as [l' E]; [simpl in Hl; lia|]. rewrite E. by eexists. }
  destruct (Hfull (DATA - 1)%nat name (newline :: age) Hw) as [l' E]; [unfold DATA in *; lia|].
  rewrite E. change (DATA - 1)%nat with 99%nat. cbn [put_line extract_into extract good].
  rewrite cbytes_proper by (by apply Forall_take). eexists. reflexivity.
Qed.
End FileIO.

(** ** listen_test/main.cpp *)

Module Listen.

Definition AF_INET : Z := 2.

Section Code.
Context {K : Type} `{Kernel Z K}.
(** inet_pton(AF_INET, ...): the four bytes of an address, when there is one. *)
Context (inet_pton : string → option (list byte)).

(** The address, of zeroes up to what is set. *)
Definition listen_address (ip : string) (port : Z) : list byte :=
  [Z_byte AF_INET; Byte.x00; Z_byte (Z.shiftr (wrap_u 16 port) 8); Z_byte port]
  ++ default (replicate 4 Byte.x00) (inet_pton ip) ++ replicate 8 Byte.x00.

Definition syscall {A} (f : K → A * K) : M K A := λ k, let '(a, k') := f k in Ok a k'.

(** [argv] without its null at the end; two arguments are asked for, and three are
    used.  The results of [bind] and [listen] are not looked at. *)
Definition listen_main (argv : list string) : M K Z :=
  if (length argv <? 3)%nat then mret 1
  else
    let ip := default EmptyString (argv !! 1%nat) in
    port ← atoi (argv !! 2%nat);
    backlog ← atoi (argv !! 3%nat);
    let address := listen_address ip port in
    sock ← syscall (λ k, sys_socket k AF_INET);
    _ ← syscall (λ k, sys_bind k sock address);
    _ ← syscall (λ k, sys_listen k sock backlog);
    connfd ← syscall (λ k, sys_accept k sock 16);
    modify (λ k, sys_close k sock) ;;
    mret 0.
End Code.

Section Proofs.
Context {K : Type} `{LibcLaws K}.
Implicit Types (k : K).

Lemma syscall_run {A B} (f : K → A * K) (g : A → M K B) k a k' : f k = (a, k') → (syscall f ≫= g) k = g a k'.
Proof. intros E. unfold syscall, mbind, M_bind. by rewrite E. Qed.

(** With an address and a port, which is all that it checks for, the program reads
    a number from the null pointer behind its arguments; with a backlog too it ends
    well whatever fails, and leaves the connection it accepted open. *)
Theorem listen_wants_a_third_argument inet_pton prog ip port backlog more k :
  - 2 ^ 31 <= atoi_value port < 2 ^ 31 → - 2 ^ 31 <= atoi_value backlog < 2 ^ 31 →
  listen_main inet_pton [prog; ip; port] k = Fault NullDeref
  ∧ ∃ k', listen_main inet_pton ([prog; ip; port; backlog] ++ more) k = Ok 0 k'
    ∧ ∀ sock k1 k2 k3 r2 r3 connfd addr k4,
        sys_socket k AF_INET = (sock, k1) →
        sys_bind k1 sock (listen_address inet_pton ip (atoi_value port)) = (r2, k2) →
        sys_listen k2 sock (atoi_value backlog) = (r3, k3) →
        sys_accept k3 sock 16 = (connfd, addr, k4) → 0 <= sock → 0 <= connfd →
        connfd ∈ v_open (k_view k') ∧ sock ∉ v_open (k_view k').
Proof.
  intros Hp Hb. split.
  - unfold listen_main. cbn [length Nat.ltb Nat.leb lookup list_lookup]. by rewrite atoi_run.
  - unfold listen_main. cbn [length Nat.ltb Nat.leb lookup list_lookup app default].
    rewrite !atoi_run by done. destruct (sys_socket k AF_INET) as [sock k1] eqn:Es.
    erewrite syscall_run by exact Es. destruct (sys_bind k1 sock (listen_address inet_pton ip (atoi_value port))) as [r2 k2] eqn:Eb.
    erewrite syscall_run by exact Eb. destruct (sys_listen k2 sock (atoi_value backlog)) as [r3 k3] eqn:El.
    erewrite syscall_run by exact El. destruct (sys_accept k3 sock 16) as [[connfd addr] k4] eqn:Ea.
    erewrite syscall_run by exact Ea. eexists. split; [done|].
    intros ? ? ? ? ? ? ? ? ? [= <- <-] E2 E3 E4 Hs Hc.
    rewrite Eb in E2. injection E2 as ? ?; subst. rewrite El in E3. injection E3 as ? ?; subst.
    rewrite Ea in E4. injection E4 as ? ? ?; subst. rewrite close_law. simpl.
    apply socket_law in Es as [_ Es]. destruct (Es Hs) as (_ & _ & V1).
    apply bind_law in Eb. apply listen_law in El.
    apply accept_law in Ea as [_ Ea]. destruct (Ea Hc) as (_ & Hfresh & _ & V4).
    rewrite El, Eb, V1 in *. destruct V4 as [V4 _]. rewrite V4. clear - Hfresh. simpl in *. set_solver. 
Qed.
End Proofs.

Lemma listen_wants_a_third_argument_witness :
  listen_main (λ _, None) ["listen_test"; "127.0.0.1"; "80"] (s_boot 1%nat ∅ [] [] : sys 0%nat) = Fault NullDeref.
Proof.
  exact (proj1 (listen_wants_a_third_argument (λ _, None) "listen_test" "127.0.0.1" "80" "5" []
    (s_boot 1%nat ∅ [] [] : sys 0%nat) ltac:(vm_compute; split; [discriminate|reflexivity])
    ltac:(vm_compute; split; [discriminate|reflexivity]))).
Defined.
End Listen.

(** ** Instances *)

Lemma fileio_round_trip_witness :
  let ann := FileIO.entry (bytes_of "ann") (bytes_of "40") in
  let bob := FileIO.entry (bytes_of "bob") (bytes_of "7") in
  (∃ cin, FileIO.writefile (FileIO.mkStream bob true) ann = inr (ann ++ bob, cin))
  ∧ FileIO.readfile (ann ++ bob) = inr (bytes_of "ann" ++ [FileIO.newline], bytes_of "40" ++ [FileIO.newline]).
Proof.
  assert (∀ t, t ∈ ["ann"; "40"; "bob"; "7"]%string → FileIO.proper (bytes_of t)) as Hp.
  { apply Forall_forall. repeat (constructor; [split;
      [repeat constructor; try done; discriminate|unfold FileIO.DATA; simpl; lia]|]). constructor. }
  destruct (FileIO.fileio_round_trip (bytes_of "bob") (bytes_of "7") (FileIO.entry (bytes_of "ann") (bytes_of "40")))
    as (Hw & _ & Hr); [apply Hp; set_solver..|].
  split; [exact Hw|]. apply (Hr _ _ []); [apply Hp; set_solver..|by rewrite app_nil_r].
Defined.

Lemma long_name_is_the_age_witness :
  ∃ cin, FileIO.writefile (FileIO.mkStream (replicate 120 Byte.x61 ++ FileIO.newline :: bytes_of "40") true) []
    = inr ((replicate 99 Byte.x61 ++ [FileIO.newline]) ++ replicate 99 Byte.x61 ++ [FileIO.newline], cin).
Proof.
  apply (FileIO.long_name_is_the_age (replicate 120 Byte.x61) (bytes_of "40") []).
  - apply Forall_replicate. split; [done|discriminate].
  - rewrite length_replicate. unfold FileIO.DATA. lia.
Defined.
